(* ===== verification/_CoqProject ===== *)
-Q . S2P
Prelude.v
Json.v
Rules.v
Topic.v
Newtype.v
Semantic.v
SemanticSpec.v
Engine.v
EngineSpec.v
EngineProps.v
Registry.v
Mutation.v
ClientConfig.v
Lease.v
Registration.v
Channels.v
Config.v
Loop.v
Debounce.v
Node.v
Auth.v
Transport.v
Signaling.v
Mesh.v
Serde.v
Media.v
Video.v
Wire.v
Health.v
Runtime.v
Bootstrap.v
Tasks.v
Robot.v
Demo.v
TestsEngine.v
Calls.v
Connect.v
Outcome.v
Programs.v
Cli.v
RuleFormat.v
Reload.v
Command.v
Server.v
Fleet.v
Swarm.v
TestsData.v
TestsRules.v
TestsProgram.v
