(* ===== verification/Prelude.v ===== *)
(** * flo: a verification library of the robot-fleet rule engine

    flo connects robots over a Zenoh mesh.  Every robot runs a client that
    evaluates a ruleset on the samples it receives and publishes actions (an
    emergency stop, a speed limit); a server keeps the fleet's registrations,
    its rulesets and its alerts.  The sources are the Rust crate under
    [src/src/].  This library translates the crate's own logic into
    executable Rocq definitions, under the source's names, and proves what
    makes each part correct.

    ** The program and the files that model it

    - Prelude.v (this file): the outcome type [res] of fallible code (with
      [Panic] as the third way a call ends), indexed loops, byte strings and
      their splitting, sorting by a key, machine integers ([uint w], with
      [uint_make] that rejects and [uint_wrap] that wraps), the [flo] hint
      databases and tactics.
    - Json.v: binary64 floats (the Standard Library's IEEE specification) and
      JSON values.  [serde_json::Number] is the class [JsonNumber] with its
      laws and one concrete instance.
    - Rules.v ([rules.rs]): the rule data, i.e. predicates, triggers, the
      two-level guard, actions, the ruleset envelope, and [to_toml], which
      panics when the writer refuses a value.
    - Topic.v ([topic.rs]): topic categories, canonicalisation, the validated
      [Topic], [Pattern] and [AclExpr], and every topic builder.  Newtype.v:
      what the three validated types promise, as a class with a law, and
      topics up to the spelling of [robot/] ([Proper] instances).
    - Semantic.v ([semantic.rs]): the manifest an operator writes; [validate];
      [compile], which builds a condition tree ([build_when_expr]), flattens it
      ([lower]) and expands actions; [compile_ruleset].
      SemanticSpec.v: the reference meaning of a manifest, and the refinement.
    - Engine.v ([engine.rs]): [ingest], the zone map, staleness, [eval_tree],
      the edge memory [prev], [tick] and [tick_with_arc].
      EngineSpec.v: the declarative reading of a tick, and that the
      short-circuiting code implements it.  EngineProps.v: behaviour over
      sequences of samples and ticks, and compiler and engine together.
    - Channels.v: tokio's [watch] and [mpsc] channels as classes ([Watch],
      [Mpsc]) with their documented laws and an instance each.  Config.v and
      Loop.v are proved against the classes.
    - ClientConfig.v, Config.v ([config.rs]): configuration loading; the active
      ruleset store and its hot reload, through the registry in fleet mode.
    - Registry.v ([registry.rs]): ownership, versions, digests and the audit
      log.  A failure oracle says which database statements succeed.
      Mutation.v ([mutation.rs]): the fingerprint of a ruleset's text.
    - Lease.v ([registration/lease.rs]): the registration table.
      Registration.v ([registration/transport.rs]): the server's handlers and
      the client's exchanges over a network that may lose either message.
    - Loop.v ([EvalState::run] of [engine.rs]): the event loop as a step
      relation [loop_step]: tick, sample, ruleset change, delivery from a
      subscriber task, swap of the store.  Debounce.v takes the ruleset change
      apart, await by await ([dstep]), while other threads swap and deliver.
      Node.v composes the loop with the reload task of Config.v on one store,
      per robot or through the registry; Swarm.v puts any number of nodes,
      servers and robots, on one network ([swarm_step]).
    - Signaling.v ([signaling.rs]): the WebRTC handshake's messages and their
      routing.  Mesh.v ([mesh.rs]): the answering listener, its peer table and
      its tasks under any schedule.  Video.v ([video.rs]): the two ends of a
      call, their callbacks and tasks, over the class [PeerConn] whose law is
      the offer/answer state machine of WebRTC; capture.
    - Media.v ([codec.rs], [device.rs], [media.rs]): codec, device check,
      encode pipeline and the source a call gets.
    - Calls.v: the listener of Mesh.v with its connections as the peers of
      Video.v; Connect.v: two robots on a call, i.e. a calling peer, two
      listeners, the network, all their tasks and the candidates their
      connections find, as one step function [call_step].  Outcome.v: the
      phases a call goes through, and how it ends.
    - Serde.v, RuleFormat.v, Wire.v: the derived readers and writers of
      [rules.rs], [semantic.rs], [config.rs], [signaling.rs] and
      [registration/transport.rs], between Rust values and JSON values.  The
      class [Serde] with its law [SerdeLaw] is the interface; Serde.v has the
      combinators the derive attributes name (required, default, denied
      unknown members, variants tagged inside or outside), RuleFormat.v and Wire.v
      one instance per type.  Wire.v's [json_registration] and [json_signal]
      discharge the codec classes of Registration.v and Signaling.v.
    - Auth.v ([auth.rs]), Transport.v ([transport.rs]), Health.v ([health.rs]),
      Runtime.v and Bootstrap.v ([runtime.rs]), Cli.v ([cli.rs]): the shell
      around the core, up to [Runtime::bootstrap] as a whole.
    - Server.v ([server.rs], [bin/]): [run_server] and the dispatch of the two
      [main] functions.  Fleet.v: clients that start and end under one server.
      Tasks.v: the tasks [Runtime::run] and [run_server] spawn, from their
      set-ups to the supervisor that ends the process with the first of them.
      Robot.v: a client from its ruleset file to what its engine publishes,
      i.e. Bootstrap.v, Node.v and the compiler composed.
      Reload.v: from the text of a message on the rules topic, read by the
      derived readers, to what the engine fires.
    - Command.v ([cli.rs]): what [flo rule check] and [flo rule compile] print
      on each stream, and their exit status.  Demo.v ([bootstrap_demo]): the
      built-in rules.  Programs.v ([transport.rs], [examples/]): the transport
      handle, and the example programs over it.
    - TestsEngine.v, TestsData.v, TestsRules.v, TestsProgram.v: the authors'
      own tests, from the modules and from [src/tests/], as booleans evaluated
      on the definitions above ([engine_tests_pass], [compile_tests_pass] and
      the like), the tests over a mesh on the composed model.  They check the
      translation against what the authors expect of the code.

    A sample travels [deliver], [on_sample], [ingest], [tick], [fire_action];
    a ruleset travels from text to [compile] to [store_swap] to
    [on_changed] and the next [tick_with_arc].

    ** What the theorems show

    - From text to action: [compile_refines], [compile_total], [lower_exact],
      [validate_exact], [compiled_topics_valid] (the compiler);
      [tick_actions_exact], [tick_prev_exact], [edge_rule_fires_on_changes],
      [level_tick_boolean] (the engine); [compiled_condition_meaning],
      [compile_then_tick], [compile_then_swap] (both composed, against the
      manifest's own meaning); [manifest_to_actuators] (the whole client, from
      the file it is started with); [demo_rules_exact], [demo_needs_config].
    - Data: [zones_follow_events], [staleness_exact], [absent_data_reads_false],
      [nan_distance_inert], [not_in_zone_fails_open], [zone_event_rules_dead].
    - The loop: [loop_invariant] over all interleavings, [sensor_topics_exact],
      [startup_swap_not_evaluated], [rebuild_leaks_tasks]; step by step,
      [debounce_refines], [subscriptions_follow_ruleset],
      [branch_ends_and_coalesces] and [invalid_topic_starves_rules]; with the
      reload task, [robot_evaluates_last_good], [node_provenance] and
      [unrelated_text_disarms].
    - Many processes: [swarm_projects] (each runs its own node),
      [swarm_chain_of_custody] (where every message and every sample comes
      from), [robots_reload_on_own_key], [deep_zone_events_unheard],
      [hyphen_identity_splits].
    - Rulesets in the fleet: [registry_follows_history],
      [registry_owner_permanent], [republish_idempotent], [publish_not_atomic],
      [registry_reload_guarded], [hot_reload_last_good], [early_swap_is_lost],
      [fingerprints_exact].
    - Registration: [lease_refines_machine], [poison_absorbing],
      [register_handshake], [retry_exact], [late_attempt_registers],
      [lost_ack_is_fatal], [heartbeat_alert_exact], [slash_id_kills_registration],
      [restart_locks_out] (clients and server composed),
      [server_outlives_registration].
    - Signaling and video: [signaling_routes], [envelope_sender_trusted],
      [mesh_sessions], [early_candidate_lost], [listener_sessions_are_peers]
      (the listener refines its table); [call_always_connects] (every schedule
      of a call, candidates included), [answer_can_be_lost],
      [stranger_takes_over_call], [caller_never_answers],
      [answer_sender_ignored], [ssrc_distinct], [video_call_source],
      [device_accepted_exactly], [codec_names].
    - Types and formats: [newtypes_revalidate]; [ruleset_format_roundtrip],
      [manifest_unknown_members], [wire_roundtrip], [mline_index_bounds],
      [unknown_config_member_silent]; [check_reports_verdict],
      [compile_output_reads_back], [compile_output_fails_check].
    - Start-up and security: [bootstrap_fails_closed], [media_client_exits],
      [ruleset_load_fail_safe], [missing_payload_crashes_client] (the one way
      it does not), [client_config_loads], [auth_fails_closed],
      [acl_namespace_matches_nothing],
      [topic_builders_exact], [acl_try_new_exact], [subscription_routing],
      [rule_check_sound], [probe_exact], [supervisor_fatal],
      [server_start_fails_closed], [one_shot_commands_harmless],
      [client_survives], [programs_on_loopback],
      [semantic_rules_runs_compiled], [reload_handle_keeps_tokens].

    Theorems such as [lost_ack_is_fatal] or [rebuild_leaks_tasks] state
    behaviour that the comments or documents of the program do not promise;
    they are stated of the code as it is.

    ** Conventions, bounds and fuel

    Strings are byte strings, as UTF-8 text is in Rust; the operations
    modelled (splitting at a slash, prefixes, comparison, length) act on bytes
    there too.  Panics are values, so that a theorem can exclude or exhibit
    them.  Time is a number of milliseconds; a [HashMap] is a [gmap].
    Machine integers keep their width: [u64] configuration values and JSON
    numbers, [u32] track identifiers and frame sizes and the [u16] line index
    are [uint w]; the registry's [i64] version, the engine's [u64] evaluation
    counter and the probe's 16-bit port wrap or reject where the code does.
    All recursion is structural except [trim_start],
    whose fuel is the length of the string, of which it drops at least one
    byte per step; the retry loop runs on the code's own bound of three
    attempts.  The [changed] branch needs no fuel to be stated: [steps_left]
    counts its steps, and [own_run] with that many ends it.
    A call between two robots takes at most fourteen steps, fifteen with the
    late subscription of the caller, and seven more for every candidate
    published meanwhile: the phases of Outcome.v bound the steps left of the
    exchange in every state they describe, the weight of Connect.v those of
    the candidates.  The sample channel holds 256 entries, as in the code.

    Code outside the repository is a parameter or a class: the TOML and JSON
    text readers and writers, SHA-256, SQLite's statements, files, clocks,
    Zenoh's sessions and key-expression matching, peer connections,
    GStreamer's elements, tokio's channels.  Where a theorem relies on such
    code it names the law, and its witness gives a concrete instance.  The laws of
    [PeerConn] say only what a call that succeeds leaves behind; any call may
    fail, [parse_sdp] included.  [PeerConnNegotiates] of Video.v, which the
    theorems of Outcome.v assume and their doc comments state, says that the
    calls of one offer/answer exchange succeed on the descriptions the two
    connections create.  Floats in JSON text: the text laws cover trees
    without floats, so [compile_output_reads_back] reads the printed text back
    for rulesets that print none.

    ** Not modelled

    The inside of WebRTC connections and GStreamer pipelines, serving HTTP,
    argument parsing (clap), logging ([init_tracing]), the opening of Zenoh
    sessions, waiting for a shutdown signal, and those tests under [src/tests/]
    that run the binaries or read the documentation.  The manifests' TOML form is a parameter: RuleFormat.v
    reads their JSON form.  Real time (how long a sleep or the debounce lasts)
    appears only as the order of steps.  In Swarm.v zone events are heard on
    concrete keys only; a put on a key with wildcards reaches the other
    subscriptions as Zenoh's matching says. *)
From Stdlib Require Export Ascii String ZArith Lia.
From stdpp Require Export base tactics option list strings gmap sets pretty sorting.

#[global] Open Scope string_scope.
#[global] Open Scope nat_scope.
#[global] Open Scope list_scope.

Declare Scope flo_scope.
Delimit Scope flo_scope with flo.
#[global] Open Scope flo_scope.

(** ** Outcomes of fallible code

    [Ok]/[Err] are Rust's [Result]; [Panic] is the third way a Rust call can
    end ([expect] on an [Err], an out-of-range slice, [unreachable!]). *)
Inductive res (E A : Type) : Type :=
  | Ok (a : A)
  | Err (e : E)
  | Panic (why : string).
Arguments Ok {E A} a.
Arguments Err {E A} e.
Arguments Panic {E A} why.

#[export] Instance res_ret E : MRet (res E) := fun A a => Ok a.
#[export] Instance res_bind E : MBind (res E) := fun A B f m =>
  match m with Ok a => f a | Err e => Err e | Panic w => Panic w end.
#[export] Instance res_fmap E : FMap (res E) := fun A B f m =>
  match m with Ok a => Ok (f a) | Err e => Err e | Panic w => Panic w end.

(** [Result::map_err] *)
Definition map_err {E F A} (f : E -> F) (m : res E A) : res F A :=
  match m with Ok a => Ok a | Err e => Err (f e) | Panic w => Panic w end.

(** [Result::expect] (and [unwrap]): an [Err] becomes a panic. *)
Definition expect {E F A} (msg : string) (m : res E A) : res F A :=
  match m with Ok a => Ok a | Err _ => Panic msg | Panic w => Panic w end.

Definition is_ok {E A} (m : res E A) : bool :=
  match m with Ok _ => true | _ => false end.
Definition is_err {E A} (m : res E A) : bool :=
  match m with Err _ => true | _ => false end.
Definition is_panic {E A} (m : res E A) : bool :=
  match m with Panic _ => true | _ => false end.

Definition is_some {A} (o : option A) : bool :=
  match o with Some _ => true | None => false end.

(** [iter().enumerate().map(f).collect::<Result<Vec<_>,_>>()] from index [i]:
    stops at the first error or panic. *)
Definition mapM_i {E A B} (f : nat -> A -> res E B) : nat -> list A -> res E (list B) :=
  fix go i l :=
    match l with
    | [] => Ok []
    | x :: l' =>
        match f i x with
        | Ok y => match go (S i) l' with
                  | Ok ys => Ok (y :: ys)
                  | Err e => Err e
                  | Panic w => Panic w
                  end
        | Err e => Err e
        | Panic w => Panic w
        end
    end.

(** [for x in l { f(x)?; }] *)
Definition iterM_i {E A} (f : nat -> A -> res E unit) : nat -> list A -> res E unit :=
  fix go i l :=
    match l with
    | [] => Ok tt
    | x :: l' => match f i x with
                 | Ok _ => go (S i) l'
                 | Err e => Err e
                 | Panic w => Panic w
                 end
    end.

Lemma res_bind_Ok {E A B} (f : A -> res E B) (m : res E A) (b : B) :
  (m ≫= f) = Ok b <-> exists a, m = Ok a /\ f a = Ok b.
Proof. destruct m; simpl; split; first [by eauto | by intros (?&[=]&?); subst | done]. Qed.

Lemma map_err_Ok {E F A} (f : E -> F) (m : res E A) a :
  map_err f m = Ok a <-> m = Ok a.
Proof. destruct m; simpl; split; congruence. Qed.

Lemma expect_Ok {E F A} msg (m : res E A) a :
  expect (F := F) msg m = Ok a <-> m = Ok a.
Proof. destruct m; simpl; split; congruence. Qed.

Lemma expect_not_Err {E F A} msg (m : res E A) (e : F) : expect msg m <> Err e.
Proof. by destruct m. Qed.

Section indexed_loops.
Context {E A B : Type}.

Lemma mapM_i_cons_Ok (f : nat -> A -> res E B) i x l r :
  mapM_i f i (x :: l) = Ok r <->
  exists y ys, f i x = Ok y /\ mapM_i f (S i) l = Ok ys /\ r = y :: ys.
Proof.
  simpl. destruct (f i x) as [y|e|w]; [|split; [done|by intros (?&?&?&?)]..].
  destruct (mapM_i f (S i) l) as [ys|e|w]; [|split; [done|by intros (?&?&?&?&?)]..].
  split; [intros [= <-]; eauto|by intros (?&?&[= <-]&[= <-]&->)].
Qed.

(** An indexed map that returns normally has mapped every element at its index. *)
Lemma mapM_i_lookup (f : nat -> A -> res E B) i l ys :
  mapM_i f i l = Ok ys ->
  length ys = length l /\
  forall k x y, l !! k = Some x -> ys !! k = Some y -> f (i + k) x = Ok y.
Proof.
  revert i ys. induction l as [|x l IH]; intros i ys; [by intros [= <-]|].
  rewrite mapM_i_cons_Ok. intros (y & ys' & Hf & Hl & ->).
  apply IH in Hl as [Hlen Hk]. split; [simpl; lia|].
  intros [|k] x' y'; simpl.
  - intros [= <-] [= <-]. by rewrite Nat.add_0_r.
  - rewrite <- Nat.add_succ_comm. apply Hk.
Qed.

Lemma mapM_i_Forall2 (f : nat -> A -> res E B) (P : A -> B -> Prop) i l ys :
  (forall k x y, f k x = Ok y -> P x y) ->
  mapM_i f i l = Ok ys -> Forall2 P l ys.
Proof.
  intros HP. revert i ys.
  induction l as [|x l IH]; intros i ys; [intros [= <-]; constructor|].
  rewrite mapM_i_cons_Ok. intros (y & ys' & Hf & Hl & ->). constructor; eauto.
Qed.

(** Panics of an indexed map come from one of its elements. *)
Lemma mapM_i_no_panic (f : nat -> A -> res E B) i l :
  (forall k x, x ∈ l -> is_panic (f k x) = false) -> is_panic (mapM_i f i l) = false.
Proof.
  revert i. induction l as [|x l IH]; intros i Hl; [done|]. simpl.
  assert (is_panic (f i x) = false) as Hx by (apply Hl; left).
  assert (is_panic (mapM_i f (S i) l) = false) as Hr
    by (apply IH; intros; apply Hl; by right).
  destruct (f i x); [|done..]. by destruct (mapM_i f (S i) l).
Qed.

Lemma mapM_i_total (f : nat -> A -> res E B) i l :
  (forall k x, x ∈ l -> is_ok (f k x) = true) -> is_ok (mapM_i f i l) = true.
Proof.
  revert i. induction l as [|x l IH]; intros i Hl; [done|]. simpl.
  assert (is_ok (f i x) = true) as Hx by (apply Hl; left).
  assert (is_ok (mapM_i f (S i) l) = true) as Hr
    by (apply IH; intros; apply Hl; by right).
  destruct (f i x); [|done..]. by destruct (mapM_i f (S i) l).
Qed.
End indexed_loops.

Section indexed_iter.
Context {E A : Type}.

Lemma iterM_i_Ok (f : nat -> A -> res E unit) i l :
  iterM_i f i l = Ok tt <-> forall k x, l !! k = Some x -> f (i + k) x = Ok tt.
Proof.
  revert i. induction l as [|x l IH]; intros i; simpl.
  { split; [intros _ k x; by rewrite lookup_nil|done]. }
  split.
  - destruct (f i x) as [[]|e|w] eqn:Hf; [|done..]. intros Hl [|k] x'; simpl.
    + intros [= <-]. by rewrite Nat.add_0_r.
    + rewrite <- Nat.add_succ_comm. by apply IH.
  - intros Hk. pose proof (Hk 0 x eq_refl) as H0. rewrite Nat.add_0_r in H0.
    rewrite H0. apply IH. intros k x' Hx. rewrite Nat.add_succ_comm. by apply (Hk (S k)).
Qed.

Lemma iterM_i_no_panic (f : nat -> A -> res E unit) i l :
  (forall k x, x ∈ l -> is_panic (f k x) = false) -> is_panic (iterM_i f i l) = false.
Proof.
  revert i. induction l as [|x l IH]; intros i Hl; [done|]. simpl.
  assert (is_panic (f i x) = false) as Hx by (apply Hl; left).
  destruct (f i x); [|done..]. apply IH. intros. apply Hl. by right.
Qed.
End indexed_iter.

#[local] Arguments String.append !_ _ : simpl nomatch.

(** ** Byte strings

    A Rust [&str] is its UTF-8 byte sequence; [string] is a list of bytes. *)
Fixpoint strip_prefix (p s : string) : option string :=
  match p, s with
  | EmptyString, _ => Some s
  | String a p', String b s' => if Ascii.eqb a b then strip_prefix p' s' else None
  | String _ _, EmptyString => None
  end.

Definition starts_with (p s : string) : bool := bool_decide (is_Some (strip_prefix p s)).

Fixpoint str_drop (n : nat) (s : string) : string :=
  match n, s with
  | 0, _ => s
  | S n', String _ s' => str_drop n' s'
  | S _, EmptyString => EmptyString
  end.

Fixpoint str_take (n : nat) (s : string) : string :=
  match n, s with
  | S n', String a s' => String a (str_take n' s')
  | _, _ => EmptyString
  end.

Definition ends_with (suf s : string) : bool :=
  (str_drop (String.length s - String.length suf) s =? suf)%string.

Fixpoint contains_str (sub s : string) : bool :=
  starts_with sub s ||
  match s with EmptyString => false | String _ s' => contains_str sub s' end.

Fixpoint has_char (c : ascii) (s : string) : bool :=
  match s with
  | EmptyString => false
  | String a s' => Ascii.eqb a c || has_char c s'
  end.

(** [str::find(c)] *)
Fixpoint find_char (c : ascii) (s : string) : option nat :=
  match s with
  | EmptyString => None
  | String a s' => if Ascii.eqb a c then Some 0 else S <$> find_char c s'
  end.

Fixpoint str_forallb (p : ascii -> bool) (s : string) : bool :=
  match s with
  | EmptyString => true
  | String a s' => p a && str_forallb p s'
  end.

(** [str::split(c)]: always at least one part. *)
Fixpoint split_on (c : ascii) (s : string) : list string :=
  match s with
  | EmptyString => [""]
  | String a s' =>
      if Ascii.eqb a c then "" :: split_on c s'
      else match split_on c s' with
           | w :: ws => String a w :: ws
           | [] => [String a ""]
           end
  end.

Fixpoint join_with (c : ascii) (l : list string) : string :=
  match l with
  | [] => ""
  | [w] => w
  | w :: l' => w +:+ String c (join_with c l')
  end.

Definition in_range (lo hi : N) (a : ascii) : bool :=
  (lo <=? N_of_ascii a)%N && (N_of_ascii a <=? hi)%N.
Definition is_ascii_lowercase : ascii -> bool := in_range 97 122.
Definition is_ascii_uppercase : ascii -> bool := in_range 65 90.
Definition is_ascii_digit : ascii -> bool := in_range 48 57.
Definition is_ascii : ascii -> bool := in_range 0 127.

Definition lower_char (a : ascii) : ascii :=
  if is_ascii_uppercase a then ascii_of_N (N_of_ascii a + 32) else a.

Fixpoint str_map (f : ascii -> ascii) (s : string) : string :=
  match s with EmptyString => "" | String a s' => String (f a) (str_map f s') end.

(** [str::to_ascii_lowercase] *)
Definition to_ascii_lowercase : string -> string := str_map lower_char.

(** Decimal rendering of a [usize] in [format!]. *)
Definition show_nat (n : nat) : string := pretty n.

(** A literal between double quotes. *)
Definition quote (s : string) : string :=
  String "034"%char (s +:+ String "034"%char "").

Abbreviation slash := "/"%char.

Lemma str_app_assoc (a b c : string) : (a +:+ b) +:+ c = a +:+ (b +:+ c).
Proof. induction a as [|x a IH]; simpl; [done|]. by rewrite IH. Qed.
Lemma str_app_nil_r (a : string) : a +:+ "" = a.
Proof. induction a as [|x a IH]; simpl; [done|]. by rewrite IH. Qed.
Lemma str_length_app (a b : string) :
  String.length (a +:+ b) = String.length a + String.length b.
Proof. induction a as [|x a IH]; simpl; [done|]. by rewrite IH. Qed.

Lemma strip_prefix_Some p s r : strip_prefix p s = Some r <-> s = p +:+ r.
Proof.
  revert s. induction p as [|a p IH]; intros s; simpl.
  { split; congruence. }
  destruct s as [|b s]; [split; [done|discriminate]|].
  destruct (Ascii.eqb_spec a b) as [->|Hne].
  - rewrite IH. split; [by intros ->|by intros [= ->]].
  - split; [done|intros [= -> _]; done].
Qed.

Lemma strip_prefix_app p r : strip_prefix p (p +:+ r) = Some r.
Proof. by apply strip_prefix_Some. Qed.

Lemma starts_with_spec p s : starts_with p s = true <-> exists r, s = p +:+ r.
Proof.
  unfold starts_with. rewrite bool_decide_eq_true. unfold is_Some.
  by setoid_rewrite strip_prefix_Some.
Qed.

Lemma str_drop_app (a b : string) : str_drop (String.length a) (a +:+ b) = b.
Proof. by induction a. Qed.
Lemma str_take_app (a b : string) : str_take (String.length a) (a +:+ b) = a.
Proof. induction a as [|x a IH]; simpl; [by destruct b|]. by rewrite IH. Qed.
Lemma str_app_inj_r (a b c : string) : a +:+ c = b +:+ c -> a = b.
Proof.
  intros H. pose proof (f_equal String.length H) as Hl. rewrite !str_length_app in Hl.
  rewrite <- (str_take_app a c), H. replace (String.length a) with (String.length b) by lia.
  apply str_take_app.
Qed.
Lemma str_app_inj_l (a b c : string) : a +:+ b = a +:+ c -> b = c.
Proof. intros H. rewrite <- (str_drop_app a b), H. apply str_drop_app. Qed.
Lemma str_take_drop n (s : string) : str_take n s +:+ str_drop n s = s.
Proof.
  revert s. induction n as [|n IH]; intros [|a s]; simpl; try done. by rewrite IH.
Qed.
Lemma str_drop_length n (s : string) :
  String.length (str_drop n s) = String.length s - n.
Proof. revert s. induction n as [|n IH]; intros [|a s]; simpl; auto. Qed.

Lemma ends_with_spec suf s : ends_with suf s = true <-> exists p, s = p +:+ suf.
Proof.
  unfold ends_with. rewrite String.eqb_eq. split.
  - intros H. exists (str_take (String.length s - String.length suf) s).
    rewrite <- H at 2. by rewrite str_take_drop.
  - intros [p ->]. rewrite str_length_app, Nat.add_sub. apply str_drop_app.
Qed.

Lemma has_char_app c (a b : string) : has_char c (a +:+ b) = has_char c a || has_char c b.
Proof. induction a as [|x a IH]; simpl; [done|]. by rewrite IH, orb_assoc. Qed.

Lemma find_char_None c s : find_char c s = None <-> has_char c s = false.
Proof.
  induction s as [|a s IH]; simpl; [done|].
  destruct (Ascii.eqb a c); simpl; [done|]. rewrite <- IH.
  by destruct (find_char c s).
Qed.

Lemma find_char_split c s n :
  find_char c s = Some n ->
  s = str_take n s +:+ String c (str_drop (S n) s) /\ has_char c (str_take n s) = false.
Proof.
  revert n. induction s as [|a s IH]; intros n; simpl; [done|].
  destruct (Ascii.eqb a c) eqn:E.
  - intros [= <-]. simpl. apply Ascii.eqb_eq in E as ->. by destruct s.
  - destruct (find_char c s) as [m|] eqn:Hm; simpl; [|done]. intros [= <-].
    destruct (IH m eq_refl) as [H1 H2]. simpl. rewrite E. simpl. split; [|done].
    by rewrite H1 at 1.
Qed.

Lemma split_on_ne c s : split_on c s <> [].
Proof. destruct s as [|a s]; simpl; [done|]. by destruct (Ascii.eqb a c), (split_on c s). Qed.

Lemma split_on_cons c a b :
  has_char c a = false -> split_on c (a +:+ String c b) = a :: split_on c b.
Proof.
  induction a as [|x a IH]; simpl.
  - intros _. by rewrite Ascii.eqb_refl.
  - rewrite orb_false_iff. intros [-> Ha]. by rewrite IH.
Qed.

Lemma split_on_single c a : has_char c a = false -> split_on c a = [a].
Proof.
  induction a as [|x a IH]; simpl; [done|].
  rewrite orb_false_iff. intros [-> Ha]. by rewrite IH.
Qed.

Lemma split_on_app c a b :
  split_on c (a +:+ String c b) = split_on c a ++ split_on c b.
Proof.
  induction a as [|x a IH]; simpl; [by rewrite Ascii.eqb_refl|].
  rewrite IH. destruct (Ascii.eqb x c); [done|].
  pose proof (split_on_ne c a). by destruct (split_on c a).
Qed.

Lemma join_split c s : join_with c (split_on c s) = s.
Proof.
  induction s as [|a s IH]; simpl; [done|].
  pose proof (split_on_ne c s) as Hne.
  destruct (Ascii.eqb a c) eqn:E.
  - apply Ascii.eqb_eq in E as ->. destruct (split_on c s); [done|]. simpl in *. by rewrite IH.
  - destruct (split_on c s) as [|w [|w' ws]]; [done|simpl in *; congruence|].
    simpl in *. by rewrite IH.
Qed.

Lemma split_on_parts c s : Forall (fun w => has_char c w = false) (split_on c s).
Proof.
  induction s as [|a s IH]; simpl; [by repeat constructor|].
  destruct (Ascii.eqb a c) eqn:E; [by constructor|].
  destruct (split_on c s) as [|w ws].
  - constructor; [|constructor]. simpl. by rewrite E.
  - inversion IH; subst. constructor; [|done]. simpl. by rewrite E.
Qed.

Lemma split_on_length_char c s :
  length (split_on c s) = 1 <-> has_char c s = false.
Proof.
  split; [|by intros ->%split_on_single].
  intros Hl. pose proof (join_split c s) as Hj. pose proof (split_on_parts c s) as Hp.
  destruct (split_on c s) as [|w [|??]]; [done| |done].
  simpl in Hj. subst. by inversion Hp.
Qed.

Lemma split_join c l :
  l <> [] -> Forall (fun w => has_char c w = false) l -> split_on c (join_with c l) = l.
Proof.
  intros Hne Hl. induction Hl as [|w l Hw Hl IH]; [done|]. simpl.
  destruct l as [|w' l]; [by apply split_on_single|].
  rewrite split_on_cons by done. by rewrite IH.
Qed.

Lemma str_forallb_spec p s :
  str_forallb p s = true <-> forall a, a ∈ list_ascii_of_string s -> p a = true.
Proof.
  induction s as [|b s IH]; simpl.
  { split; [|done]. intros _ a. by rewrite elem_of_nil. }
  rewrite andb_true_iff, IH. setoid_rewrite elem_of_cons.
  split; [intros [? ?] a [->|?]; auto|].
  intros H. split; [apply H; by left|intros a ?; apply H; by right].
Qed.

(** A path literal with its variable tail: [path ["fleet"; "alerts"] s] is
    [fleet/alerts/] followed by [s]; splitting it peels the segments off. *)
Definition path (ws : list string) (s : string) : string :=
  foldr (fun w acc => w +:+ String slash acc) s ws.

Lemma split_path ws s :
  forallb (fun w => negb (has_char slash w)) ws = true ->
  split_on slash (path ws s) = ws ++ split_on slash s.
Proof.
  induction ws as [|w ws IH]; simpl; [done|].
  rewrite andb_true_iff, negb_true_iff. intros [Hw Hws].
  by rewrite split_on_cons, IH.
Qed.

(** A substring without the character [c] lies on one side of it. *)
Lemma strip_prefix_across c sub (a b : string) :
  has_char c sub = false ->
  is_some (strip_prefix sub (a +:+ String c b)) = is_some (strip_prefix sub a).
Proof.
  revert a. induction sub as [|x sub IH]; intros a; [done|]. cbn [has_char].
  intros [Hx Hs]%orb_false_iff. destruct a as [|y a].
  - cbn [strip_prefix]. change ("" +:+ String c b) with (String c b). cbn [strip_prefix].
    by rewrite Hx.
  - change (String y a +:+ String c b) with (String y (a +:+ String c b)). cbn [strip_prefix].
    destruct (Ascii.eqb x y); [by apply IH|done].
Qed.

Lemma starts_with_is_some p s : starts_with p s = is_some (strip_prefix p s).
Proof.
  unfold starts_with. by destruct (strip_prefix p s).
Qed.

Lemma strip_prefix_long p (a b : string) :
  String.length p <= String.length a -> is_some (strip_prefix p (a +:+ b)) = is_some (strip_prefix p a).
Proof.
  revert a. induction p as [|x p IH]; intros [|y a] Hl; simpl in *; try done; [lia|].
  destruct (Ascii.eqb x y); [apply IH; lia|done].
Qed.

(** ** Sorting by a string key and removing consecutive duplicates

    [slice::sort_by] on a name is a stable sort; insertion sort is one. *)
Section sorting.
Context {A : Type} (key : A -> string).

Fixpoint insert_by (x : A) (l : list A) : list A :=
  match l with
  | [] => [x]
  | y :: l' => if String.leb (key x) (key y) then x :: l else y :: insert_by x l'
  end.
Definition sort_by (l : list A) : list A := foldr insert_by [] l.

Definition key_le (x y : A) : Prop := String.le (key x) (key y).

Lemma insert_by_perm x l : insert_by x l ≡ₚ x :: l.
Proof.
  induction l as [|y l IH]; simpl; [done|].
  destruct (String.leb _ _); [done|]. rewrite IH. apply Permutation_swap.
Qed.

Lemma sort_by_perm l : sort_by l ≡ₚ l.
Proof. induction l as [|x l IH]; simpl; [done|]. by rewrite insert_by_perm, IH. Qed.

Lemma insert_by_sorted x l :
  StronglySorted key_le l -> StronglySorted key_le (insert_by x l).
Proof.
  induction 1 as [|y l Hl IH Hy]; simpl; [by repeat constructor|].
  destruct (String.leb (key x) (key y)) eqn:E.
  - constructor; [by constructor|]. constructor; [by rewrite <- Is_true_true in E|].
    eapply Forall_impl; [exact Hy|]. intros z Hz. unfold key_le in *.
    etrans; [|exact Hz]. unfold String.le. by rewrite E.
  - constructor; [done|]. rewrite insert_by_perm. constructor; [|done].
    unfold key_le, String.le. destruct (String.leb_total (key x) (key y)) as [H|H]; [congruence|].
    by rewrite H.
Qed.

Lemma sort_by_sorted l : StronglySorted key_le (sort_by l).
Proof. induction l as [|x l IH]; simpl; [constructor|]. by apply insert_by_sorted. Qed.

(** With distinct keys the sorted order does not depend on the input order. *)
Lemma sort_by_unique l l' : NoDup (map key l) -> l ≡ₚ l' -> sort_by l = sort_by l'.
Proof.
  intros Hnd Hp. apply (StronglySorted_unique_strong key_le).
  - intros x y Hx Hy Hxy Hyx.
    rewrite sort_by_perm in Hx. rewrite sort_by_perm, <- Hp in Hy.
    assert (key x = key y) as Hk by (by apply (anti_symm String.le)).
    clear -Hnd Hx Hy Hk. induction l as [|z l IH]; [by apply elem_of_nil in Hx|].
    inversion Hnd as [|?? Hz Hl]; subst. apply elem_of_cons in Hx, Hy.
    destruct Hx as [->|Hx], Hy as [->|Hy]; [done|..]; [destruct Hz..|by apply IH].
    + rewrite Hk. by apply list_elem_of_fmap_2.
    + rewrite <- Hk. by apply list_elem_of_fmap_2.
  - apply sort_by_sorted.
  - apply sort_by_sorted.
  - by rewrite !sort_by_perm.
Qed.
End sorting.

(** [Vec::dedup] *)
Fixpoint dedup (l : list string) : list string :=
  match l with
  | x :: (y :: _) as l' => if (x =? y)%string then dedup l' else x :: dedup l'
  | l => l
  end.

Lemma dedup_cons2 y z l :
  dedup (y :: z :: l) = if (y =? z)%string then dedup (z :: l) else y :: dedup (z :: l).
Proof. done. Qed.

Lemma dedup_elem_of x l : x ∈ dedup l <-> x ∈ l.
Proof.
  induction l as [|y [|z l] IH]; [done..|]. rewrite dedup_cons2.
  destruct (String.eqb_spec y z) as [->|Hne].
  - rewrite IH, !elem_of_cons. tauto.
  - rewrite elem_of_cons, IH, !elem_of_cons. tauto.
Qed.

Lemma dedup_sorted l :
  StronglySorted String.le l -> StronglySorted String.le (dedup l) /\ NoDup (dedup l).
Proof.
  induction 1 as [|y l Hl [IH1 IH2] Hy]; [by repeat constructor|].
  destruct l as [|z l]; [split; [by repeat constructor|apply NoDup_singleton]|]. rewrite dedup_cons2.
  destruct (String.eqb_spec y z) as [->|Hne]; [done|].
  split.
  - constructor; [done|]. rewrite Forall_forall in Hy |- *. intros x. rewrite dedup_elem_of. apply Hy.
  - constructor; [|done]. rewrite dedup_elem_of. intros Hin. apply elem_of_cons in Hin as [->|Hin]; [done|].
    apply Hne, (anti_symm String.le).
    + rewrite Forall_forall in Hy. apply Hy. by left.
    + inversion Hl as [|?? _ Hz]; subst. rewrite Forall_forall in Hz. by apply Hz.
Qed.

(** ** Machine integers

    An unsigned integer of [w] bits is a number with the proof that it fits;
    the proof is a boolean's, so two integers of one value are equal. *)
Definition uint (w : N) : Type := dsig (fun n : N => (n < 2 ^ w)%N).
Abbreviation u16 := (uint 16).
Abbreviation u32 := (uint 32).
Abbreviation u64 := (uint 64).
Definition uint_val {w} (u : uint w) : N := proj1_sig u.

(** The checked conversion ([try_from]). *)
Definition uint_make (w n : N) : option (uint w) :=
  match decide (n < 2 ^ w)%N with left H => Some (dexist n H) | right _ => None end.

(** The wrapping conversion ([as]), also for literals. *)
Lemma uint_wrap_bound (w n : N) : (n mod 2 ^ w < 2 ^ w)%N.
Proof. apply N.mod_lt, N.pow_nonzero. done. Qed.
Definition uint_wrap (w n : N) : uint w := dexist (n mod 2 ^ w)%N (uint_wrap_bound w n).

Lemma uint_wrap_mod w n : uint_val (uint_wrap w n) = (n mod 2 ^ w)%N.
Proof. done. Qed.

Lemma uint_bound {w} (u : uint w) : (uint_val u < 2 ^ w)%N.
Proof. exact (proj2_dsig u). Qed.

Lemma uint_eq {w} (u v : uint w) : uint_val u = uint_val v -> u = v.
Proof. intros H. by apply dsig_eq. Qed.

Lemma uint_make_val {w} (u : uint w) : uint_make w (uint_val u) = Some u.
Proof.
  unfold uint_make. pose proof (uint_bound u) as Hb. destruct (decide _) as [H|H]; [|done].
  f_equal. by apply uint_eq.
Qed.

Lemma uint_wrap_val {w} (u : uint w) : uint_wrap w (uint_val u) = u.
Proof. apply uint_eq. simpl. apply N.mod_small, uint_bound. Qed.

Lemma uint_make_Some w n u : uint_make w n = Some u <-> (n < 2 ^ w)%N /\ uint_val u = n.
Proof.
  split.
  - unfold uint_make. destruct (decide _) as [H|H]; [|done]. by intros [= <-].
  - intros [_ <-]. apply uint_make_val.
Qed.

(** ** Bits as text: a byte string for every encodable value

    The concrete codecs of the witnesses write a value as the bits stdpp's
    [encode] gives it. *)
Fixpoint pos_bits (p : positive) : string :=
  match p with
  | xH => ""
  | xO p => String "0" (pos_bits p)
  | xI p => String "1" (pos_bits p)
  end.
Fixpoint bits_pos (s : string) : positive :=
  match s with
  | EmptyString => xH
  | String c s => if Ascii.eqb c "1" then xI (bits_pos s) else xO (bits_pos s)
  end.
Lemma bits_pos_bits p : bits_pos (pos_bits p) = p.
Proof. induction p as [p IH|p IH|]; simpl; by rewrite ?IH. Qed.

(** ** Hints and tactics shared by the components *)
Create HintDb flo discriminated.
Create Rewrite HintDb flo.
#[export] Hint Resolve split_on_ne join_split split_on_parts strip_prefix_app : flo.
#[export] Hint Rewrite str_app_nil_r str_app_assoc @strip_prefix_app
  @res_bind_Ok @map_err_Ok @expect_Ok : flo.

(** Case on every [res]-valued match head of the goal. *)
Ltac res_case :=
  repeat match goal with
  | |- context [match ?m with Ok _ => _ | Err _ => _ | Panic _ => _ end] =>
      let E := fresh "Hres" in destruct m eqn:E; simpl; try discriminate
  end.

(** Split a boolean conjunction/disjunction hypothesis into its parts. *)
Ltac bool_hyps :=
  repeat match goal with
  | H : (_ && _) = true |- _ => apply andb_true_iff in H; destruct H
  | H : (_ || _) = false |- _ => apply orb_false_iff in H; destruct H
  | H : negb _ = true |- _ => apply negb_true_iff in H
  | H : negb _ = false |- _ => apply negb_false_iff in H
  | H : (_ =? _)%string = true |- _ => apply String.eqb_eq in H; subst
  end.
