(* ===== verification/Json.v ===== *)
(** * Json: 64-bit floats and JSON values

    [f64] is the IEEE-754 binary64 specification of the standard library.
    [serde_json::Number] is code outside the repository: it is an abstract
    type behind the class [JsonNumber], with its documented behaviour in
    [JsonNumberLaws]; [Value] is the crate's public enum.  [model_number] is a
    concrete instance, used by the witnesses. *)
From Stdlib Require Import SpecFloat.
From S2P Require Import Prelude.

Abbreviation f64 := spec_float.

(** ** Binary64 *)
Definition f64_zero : f64 := S754_zero false.
Definition f64_sub : f64 -> f64 -> f64 := SFsub 53 1024.
Definition f64_of_Z (z : Z) : f64 := binary_normalize 53 1024 z 0 false.
(** The literal [n / 10^k], correctly rounded. *)
Definition f64_dec (n : Z) (k : nat) : f64 :=
  SFdiv 53 1024 (f64_of_Z n) (f64_of_Z (10 ^ Z.of_nat k)).
Definition f64_nan : f64 := S754_nan.

Definition is_finite (v : f64) : bool :=
  match v with S754_zero _ | S754_finite _ _ _ => true | _ => false end.

#[export] Instance f64_eq_dec : EqDecision f64.
Proof. solve_decision. Defined.

(** A finite value is not NaN, so it compares with itself as equal. *)
Lemma SFcompare_refl (v : f64) : v <> S754_nan -> SFcompare v v = Some Eq.
Proof.
  destruct v as [[]|[]| |[] m e]; try done; intros _; simpl;
    by rewrite Z.compare_refl, Pos.compare_cont_refl.
Qed.

(** Two floats that are not NaN are always ordered. *)
Lemma SFcompare_total (x y : f64) :
  x <> S754_nan -> y <> S754_nan -> exists o, SFcompare x y = Some o.
Proof. destruct x as [[]|[]| |[] m e], y as [[]|[]| |[] m' e']; simpl; eauto; done. Qed.

(** ** [serde_json::Number] *)
Class JsonNumber := {
  number : Type;
  number_eqb : number -> number -> bool;
  as_f64 : number -> option f64;
  from_f64 : f64 -> option number;
  from_i64 : Z -> number;
  as_i64 : number -> option Z;
  as_u64 : number -> option u64;
  from_u64 : u64 -> number
}.

(** Documented: [from_f64] gives [None] on an infinite or NaN argument and a
    number that reads back as the argument otherwise; [as_f64] never yields a
    NaN, since JSON has none; an [i64] and a [u64] read back as themselves. *)
Class JsonNumberLaws (JN : JsonNumber) : Prop := {
  from_f64_nonfinite v : is_finite v = false -> from_f64 v = None;
  from_f64_finite v : is_finite v = true -> exists n, from_f64 v = Some n /\ as_f64 n = Some v;
  as_f64_not_nan n : as_f64 n <> Some S754_nan;
  as_i64_from_i64 z : (- 2 ^ 63 <= z < 2 ^ 63)%Z -> as_i64 (from_i64 z) = Some z;
  as_u64_from_u64 u : as_u64 (from_u64 u) = Some u
}.

(** ** [serde_json::Value] *)
Section value.
Context `{JN : JsonNumber}.

(** Object members are listed in the map's key order. *)
#[warnings="-register-all"]
Inductive Value :=
  | Null
  | Bool (b : bool)
  | Number (n : number)
  | Str (s : string)
  | Array (l : list Value)
  | Object (m : list (string * Value)).

(** [Value::get(&str)]: [None] on anything but an object. *)
Fixpoint assoc_get (k : string) (m : list (string * Value)) : option Value :=
  match m with
  | [] => None
  | (k', v) :: m' => if (k' =? k)%string then Some v else assoc_get k m'
  end.
Definition value_get (v : Value) (k : string) : option Value :=
  match v with Object m => assoc_get k m | _ => None end.

Definition as_str (v : Value) : option string :=
  match v with Str s => Some s | _ => None end.

(** The derived [PartialEq]. *)
Fixpoint value_eqb (a b : Value) : bool :=
  match a, b with
  | Null, Null => true
  | Bool x, Bool y => Bool.eqb x y
  | Number x, Number y => number_eqb x y
  | Str x, Str y => (x =? y)%string
  | Array x, Array y =>
      (fix go x y := match x, y with
                     | [], [] => true
                     | a :: x', b :: y' => value_eqb a b && go x' y'
                     | _, _ => false
                     end) x y
  | Object x, Object y =>
      (fix go x y := match x, y with
                     | [], [] => true
                     | (k, a) :: x', (k', b) :: y' =>
                         (k =? k')%string && value_eqb a b && go x' y'
                     | _, _ => false
                     end) x y
  | _, _ => false
  end.

(** [Value::from(f64)]: a non-finite float becomes [null]. *)
Definition value_of_f64 (v : f64) : Value :=
  match from_f64 v with Some n => Number n | None => Null end.

(** The induction principle with the hypotheses on nested values. *)
Lemma Value_nested_ind (P : Value -> Prop) :
  P Null -> (forall b, P (Bool b)) -> (forall n, P (Number n)) -> (forall s, P (Str s)) ->
  (forall l, Forall P l -> P (Array l)) ->
  (forall m, Forall (fun kv => P kv.2) m -> P (Object m)) ->
  forall v, P v.
Proof.
  intros HN HB Hn Hs HA HO. fix IH 1.
  intros [|b|n|s|l|m]; [exact HN|apply HB|apply Hn|apply Hs|..].
  - apply HA. induction l; constructor; [apply IH|assumption].
  - apply HO. induction m; constructor; [apply IH|assumption].
Qed.
End value.

(** ** A concrete number type, for evaluation *)
Inductive mnum := PosInt (z : Z) | NegInt (z : Z) | FloatNum (f : f64).

Definition mnum_as_f64 (n : mnum) : option f64 :=
  let f := match n with PosInt z | NegInt z => f64_of_Z z | FloatNum f => f end in
  if is_finite f then Some f else None.

#[export] Instance model_number : JsonNumber := {|
  number := mnum;
  number_eqb a b :=
    match a, b with
    | PosInt x, PosInt y | NegInt x, NegInt y => (x =? y)%Z
    | FloatNum x, FloatNum y => SFeqb x y
    | _, _ => false
    end;
  as_f64 := mnum_as_f64;
  from_f64 v := if is_finite v then Some (FloatNum v) else None;
  from_i64 z := if (z <? 0)%Z then NegInt z else PosInt z;
  as_i64 n := match n with PosInt z | NegInt z => if ((- 2 ^ 63 <=? z) && (z <? 2 ^ 63))%Z then Some z else None | _ => None end;
  as_u64 n := match n with PosInt z => uint_make 64 (Z.to_N z) | _ => None end;
  from_u64 u := PosInt (Z.of_N (uint_val u))
|}.

#[export] Instance model_number_laws : JsonNumberLaws model_number.
Proof.
  split; simpl.
  - by intros v ->.
  - intros v Hv. exists (FloatNum v). unfold mnum_as_f64. by rewrite Hv.
  - intros n. unfold mnum_as_f64.
    destruct (match n with PosInt z | NegInt z => f64_of_Z z | FloatNum f => f end); by simpl.
  - intros z Hz. assert (((- 2 ^ 63 <=? z) && (z <? 2 ^ 63))%Z = true) as Hb by lia.
    destruct (z <? 0)%Z; by rewrite Hb.
  - intros u. rewrite N2Z.id. apply uint_make_val.
Qed.
