(* ===== verification/Rules.v ===== *)
(** * Rules: the runtime ruleset ([src/rules.rs])

    The data of the rule engine: quality of service, operands, the typed
    predicate tree, triggers, the two-level [When] guard, actions, rules and
    the [Ruleset] envelope.  The TOML readers and writers are the [toml]
    crate's and are parameters of the components that call them. *)
From S2P Require Import Prelude Json.

Inductive Qos := Reliable | BestEffort.
#[export] Instance Qos_eq_dec : EqDecision Qos.
Proof. solve_decision. Defined.

Inductive Op := OpEq | OpNe | OpLt | OpGt | OpLe | OpGe | SameZoneAs.
#[export] Instance Op_eq_dec : EqDecision Op.
Proof. solve_decision. Defined.

(** One of the five rule primitives. *)
Inductive PrimitiveRef :=
  PSite | PZone | PRobot | Proximity (entity : string) | HumanPresence.
#[export] Instance PrimitiveRef_eq_dec : EqDecision PrimitiveRef.
Proof. solve_decision. Defined.

(** [OInt] carries an [i64]. *)
Inductive Operand :=
  | OBool (b : bool)
  | OInt (z : Z)
  | OFloat (f : f64)
  | OStr (s : string)
  | Field (name : string)
  | Prim (p : PrimitiveRef).
#[export] Instance Operand_eq_dec : EqDecision Operand.
Proof. solve_decision. Defined.

Inductive EvalMode := Edge | Level.
#[export] Instance EvalMode_eq_dec : EqDecision EvalMode.
Proof. solve_decision. Defined.
Definition EvalMode_default : EvalMode := Edge.

#[warnings="-register-all"]
Inductive Predicate :=
  | Comparison (op : Op) (lhs rhs : Operand)
  | And (ps : list Predicate)
  | Or (ps : list Predicate)
  | Not (p : Predicate).

Lemma Predicate_nested_ind (P : Predicate -> Prop) :
  (forall op l r, P (Comparison op l r)) ->
  (forall ps, Forall P ps -> P (And ps)) ->
  (forall ps, Forall P ps -> P (Or ps)) ->
  (forall p, P p -> P (Not p)) ->
  forall p, P p.
Proof.
  intros HC HA HO HN. fix IH 1.
  intros [op l r|ps|ps|p]; [apply HC| | |apply HN, IH].
  - apply HA. induction ps; constructor; [apply IH|assumption].
  - apply HO. induction ps; constructor; [apply IH|assumption].
Qed.

Record Trigger := mkTrigger {
  t_topic : string;
  t_pred : option Predicate;
  t_mode : EvalMode
}.
Definition Trigger_default : Trigger := mkTrigger "" None EvalMode_default.

Record When := mkWhen { w_all : list Trigger; w_any : list Trigger }.
Definition When_default : When := mkWhen [] [].

(** ** The meaning of a guard under a valuation of its triggers

    AND of [all], ANDed with the OR of [any] when there is one; the empty
    guard is false. *)
Definition or_group (rho : Trigger -> bool) (ts : list Trigger) : bool :=
  match ts with [] => true | _ => existsb rho ts end.
Definition guard_empty (w : When) : bool :=
  match w with mkWhen [] [] => true | _ => false end.
Definition guard_holds (rho : Trigger -> bool) (w : When) : bool :=
  negb (guard_empty w) && (forallb rho (w_all w) && or_group rho (w_any w)).

Section rules.
Context `{JN : JsonNumber}.

Record Action := mkAction { a_topic : string; a_qos : Qos; a_payload : Value }.
Record Rule := mkRule { r_name : string; r_when : When; r_actions : list Action }.
Record Rules := mkRules { rules : list Rule }.
Definition Rules_default : Rules := mkRules [].

(** [version] is a [u64]. *)
Record Ruleset := mkRuleset {
  ruleset_name : string;
  version : N;
  robot_owner : string;
  rs_rules : list Rule
}.

(** [to_toml] of both: the writer is the crate's, which refuses some values
    (there is no null in TOML), and [expect] makes that a panic. *)
Section to_toml.
Context (rules_to_toml : Rules -> string + string) (ruleset_to_toml : Ruleset -> string + string).

Definition Rules_to_toml {E} (rs : Rules) : res E string :=
  match rules_to_toml rs with inl _ => Panic "Rules is serializable" | inr t => Ok t end.
Definition Ruleset_to_toml {E} (rs : Ruleset) : res E string :=
  match ruleset_to_toml rs with inl _ => Panic "Ruleset is serializable" | inr t => Ok t end.

Lemma Rules_to_toml_Ok {E} rs t : Rules_to_toml (E := E) rs = Ok t -> rules_to_toml rs = inr t.
Proof. unfold Rules_to_toml. destruct (rules_to_toml rs); [done|congruence]. Qed.
End to_toml.
End rules.
