(* ===== verification/Topic.v ===== *)
(** * Topic: the topic naming contract ([src/topic.rs])

    The validated newtypes [Topic], [AclExpr] and [Pattern], the legacy
    hyphen canonicalisation, the match tables, every builder and every
    constant of the module.  A builder's [expect] is a [Panic]. *)
From S2P Require Import Prelude.

(** ** Errors *)
Inductive TopicErrorKind := Empty | UnknownPattern.

Record TopicError := mkTopicError { te_topic : string; te_kind : TopicErrorKind }.

#[export] Instance TopicErrorKind_eq_dec : EqDecision TopicErrorKind.
Proof. solve_decision. Defined.
#[export] Instance TopicError_eq_dec : EqDecision TopicError.
Proof. solve_decision. Defined.

(** [impl Display for TopicError] *)
Definition fmt_topic_error (e : TopicError) : string :=
  match te_kind e with
  | Empty => "topic is empty"
  | UnknownPattern =>
      "topic '" +:+ te_topic e +:+ "' does not match the flo naming convention "
      +:+ "(expected robot/{id}/local/{resource}, fleet/{action}, "
      +:+ "stop/{scope}/cmd, lidar/{scope}/scan, "
      +:+ "zone/{zone_id}/entered|cleared, or robot/{id}/signal/{peer}/{msgtype})"
  end.

(** ** Validated newtypes *)
Record Topic := mkTopic { topic_str : string }.
Record AclExpr := mkAclExpr { acl_str : string }.
Record Pattern := mkPattern { pattern_str : string }.

#[export] Instance Topic_eq_dec : EqDecision Topic.
Proof. solve_decision. Defined.

(** ** Canonicalisation: [robot-7/...] becomes [robot/7/...] *)
Definition canonicalize (s : string) : string :=
  match strip_prefix "robot-" s with
  | Some rest =>
      match find_char slash rest with
      | Some i => "robot/" +:+ str_take i rest +:+ str_drop i rest
      | None => "robot/" +:+ rest
      end
  | None => s
  end.

(** ** The match tables

    A row of the table is a slice pattern of the source: its length is the
    arity the arm tests, [Lit] a literal segment, [Any] a [_] (or a binding)
    and [OneOf] an or-pattern of literals. *)
Inductive seg_pat := Lit (s : string) | Any | OneOf (s t : string).

Definition seg_match (p : seg_pat) (w : string) : bool :=
  match p with
  | Lit s => (s =? w)%string
  | Any => true
  | OneOf s t => (s =? w)%string || (t =? w)%string
  end.

Fixpoint segs_match (ps : list seg_pat) (ws : list string) : bool :=
  match ps, ws with
  | [], [] => true
  | p :: ps', w :: ws' => seg_match p w && segs_match ps' ws'
  | _, _ => false
  end.

Definition topic_table : list (list seg_pat) :=
  [ [Lit "robot"; Any; Lit "local"; Any];
    [Lit "robot"; Any; Lit "location"; Any];
    [Lit "robot"; Any; Lit "signal"; Lit "presence"];
    [Lit "robot"; Any; Lit "signal"; Any; Any];
    [Lit "robot"; Any; Lit "zone"];
    [Lit "robot"; Any; Lit "site"];
    [Lit "robot"; Any; Lit "client"; Lit "liveliness"];
    [Lit "fleet"; Lit "registration"];
    [Lit "fleet"; Lit "deregistration"];
    [Lit "fleet"; Lit "registration"; Lit "response"; Any];
    [Lit "fleet"; Lit "deregistration"; Lit "response"; Any];
    [Lit "fleet"; Lit "alerts"; Lit "heartbeat"; Any];
    [Lit "fleet"; Any; Lit "ruleset"; Any];
    [Lit "stop"; Any; Lit "cmd"];
    [Lit "lidar"; Any; Lit "scan"];
    [Lit "zone"; Any; Lit "entered"];
    [Lit "zone"; Any; Lit "cleared"];
    [Lit "zone"; Any; Any; Any; OneOf "entered" "cleared"];
    [Lit "sensor"; Any];
    [Lit "actuator"; Any] ].

Definition matches_one_of (parts : list string) : bool :=
  existsb (fun row => segs_match row parts) topic_table.

Definition pattern_table : list (list seg_pat) :=
  [ [Lit "robot"; Lit "*"; Lit "client"; Lit "liveliness"];
    [Lit "robot"; Lit "*"; Lit "signal"; Lit "presence"];
    [Lit "robot"; Lit "*"; Lit "signal"; Any; Lit "offer"];
    [Lit "robot"; Lit "*"; Lit "signal"; Any; Lit "answer"];
    [Lit "robot"; Lit "*"; Lit "signal"; Any; Lit "ice"];
    [Lit "fleet"; Lit "*"; Lit "ruleset"; Lit "**"];
    [Lit "zone"; Lit "*"; Lit "entered"];
    [Lit "zone"; Lit "*"; Lit "cleared"];
    [Lit "zone"; Lit "*"; Lit "*"; Lit "*"; OneOf "entered" "cleared"] ].

Definition is_wildcard (p : string) : bool := (p =? "*")%string || (p =? "**")%string.

Definition is_valid_pattern (parts : list string) : bool :=
  if existsb (fun row => segs_match row parts) pattern_table then true
  else if existsb is_wildcard parts then false
  else matches_one_of parts.

(** ** Constructors of the newtypes *)
Definition topic_try_new (s : string) : res TopicError Topic :=
  if (s =? "")%string then Err (mkTopicError s Empty)
  else
    let canon := canonicalize s in
    let parts := split_on slash canon in
    if matches_one_of parts then Ok (mkTopic canon)
    else Err (mkTopicError s UnknownPattern).

(** [&s[a..b]]: panics when [a > b] or [b] is past the end. *)
Definition str_slice {E} (a b : nat) (s : string) : res E string :=
  if (a <=? b) && (b <=? String.length s)
  then Ok (str_take (b - a) (str_drop a s))
  else Panic "slice index out of range".

Definition acl_try_new (s : string) : res TopicError AclExpr :=
  if (s =? "")%string then Err (mkTopicError s Empty)
  else if starts_with "/robot/" s && ends_with "/**" s then
    inner ← str_slice (String.length "/robot/") (String.length s - String.length "/**") s;
    if negb (inner =? "")%string && negb (has_char slash inner)
       && negb (has_char "*"%char inner)
    then Ok (mkAclExpr s)
    else Err (mkTopicError s UnknownPattern)
  else Err (mkTopicError s UnknownPattern).

Definition pattern_try_new (s : string) : res TopicError Pattern :=
  if (s =? "")%string then Err (mkTopicError s Empty)
  else if (contains_str "//" s || starts_with "/" s || ends_with "/" s)
          && (negb (s =? "fleet/*/ruleset/**")%string && contains_str "//" s)
  then Err (mkTopicError s UnknownPattern)
  else
    let canon := canonicalize s in
    let parts := split_on slash canon in
    if is_valid_pattern parts then Ok (mkPattern canon)
    else Err (mkTopicError s UnknownPattern).

Definition check_topic_pattern (topic : string) : res TopicError unit :=
  (fun _ => tt) <$> topic_try_new topic.

(** ** Constants *)
Definition LIVELINESS_PATTERN : string := "robot/*/client/liveliness".
Definition SIGNAL_PRESENCE_PATTERN : string := "robot/*/signal/presence".
Definition REGISTRATION_KEY : string := "fleet/registration".
Definition DEREGISTRATION_KEY : string := "fleet/deregistration".
Definition HEARTBEAT_ALERTS_KEY : string := "fleet/alerts/heartbeat".
Definition RULESET_PUB_PATTERN : string := "fleet/*/ruleset/**".
Definition ZONE_ENTERED_PATTERN : string := "zone/*/entered".
Definition ZONE_CLEARED_PATTERN : string := "zone/*/cleared".

(** ** Builders *)
Section builders.
Context {E : Type}.

Definition robot_local (robot_id resource : string) : res E Topic :=
  expect "robot_local produced invalid topic"
    (topic_try_new ("robot/" +:+ robot_id +:+ "/local/" +:+ resource)).
Definition rules_key (robot_id : string) : res E Topic :=
  expect "rules_key produced invalid topic"
    (topic_try_new ("robot/" +:+ robot_id +:+ "/local/rules")).
Definition liveliness_key (robot_id : string) : res E Topic :=
  expect "liveliness_key produced invalid topic"
    (topic_try_new ("robot/" +:+ robot_id +:+ "/client/liveliness")).
Definition liveliness_pattern : res E Pattern :=
  expect "const pattern valid" (pattern_try_new LIVELINESS_PATTERN).
Definition signal_presence_key (robot_id : string) : res E Topic :=
  expect "signal_presence_key invalid"
    (topic_try_new ("robot/" +:+ robot_id +:+ "/signal/presence")).
Definition signal_presence_pattern : res E Pattern :=
  expect "const pattern valid" (pattern_try_new SIGNAL_PRESENCE_PATTERN).
Definition signal_offer_key (self_id peer_id : string) : res E Topic :=
  expect "signal_offer_key invalid"
    (topic_try_new ("robot/" +:+ self_id +:+ "/signal/" +:+ peer_id +:+ "/offer")).
Definition signal_answer_key (self_id peer_id : string) : res E Topic :=
  expect "signal_answer_key invalid"
    (topic_try_new ("robot/" +:+ self_id +:+ "/signal/" +:+ peer_id +:+ "/answer")).
Definition signal_ice_key (self_id peer_id : string) : res E Topic :=
  expect "signal_ice_key invalid"
    (topic_try_new ("robot/" +:+ self_id +:+ "/signal/" +:+ peer_id +:+ "/ice")).
Definition signal_offer_pattern (self_id : string) : res E Pattern :=
  expect "signal_offer_pattern invalid"
    (pattern_try_new ("robot/*/signal/" +:+ self_id +:+ "/offer")).
Definition signal_answer_pattern (self_id : string) : res E Pattern :=
  expect "signal_answer_pattern invalid"
    (pattern_try_new ("robot/*/signal/" +:+ self_id +:+ "/answer")).
Definition signal_ice_pattern (self_id : string) : res E Pattern :=
  expect "signal_ice_pattern invalid"
    (pattern_try_new ("robot/*/signal/" +:+ self_id +:+ "/ice")).
Definition registration_response (robot_id : string) : res E Topic :=
  expect "registration_response invalid"
    (topic_try_new ("fleet/registration/response/" +:+ robot_id)).
Definition deregistration_response (robot_id : string) : res E Topic :=
  expect "deregistration_response invalid"
    (topic_try_new ("fleet/deregistration/response/" +:+ robot_id)).
Definition heartbeat_alert (robot_id : string) : res E Topic :=
  expect "heartbeat_alert invalid"
    (topic_try_new ("fleet/alerts/heartbeat/" +:+ robot_id)).
Definition ruleset_pub_key (site name : string) : res E Topic :=
  expect "ruleset_pub_key invalid"
    (topic_try_new ("fleet/" +:+ site +:+ "/ruleset/" +:+ name)).
Definition ruleset_pub_pattern : res E Pattern :=
  expect "const pattern valid" (pattern_try_new RULESET_PUB_PATTERN).
Definition stop_cmd (scope : string) : res E Topic :=
  expect "stop_cmd invalid" (topic_try_new ("stop/" +:+ scope +:+ "/cmd")).
Definition lidar_scan (scope : string) : res E Topic :=
  expect "lidar_scan invalid" (topic_try_new ("lidar/" +:+ scope +:+ "/scan")).
Definition zone_entered (zone_id : string) : res E Topic :=
  expect "zone_entered invalid" (topic_try_new ("zone/" +:+ zone_id +:+ "/entered")).
Definition zone_cleared (zone_id : string) : res E Topic :=
  expect "zone_cleared invalid" (topic_try_new ("zone/" +:+ zone_id +:+ "/cleared")).
Definition zone_entered_pattern : res E Pattern :=
  expect "const pattern valid" (pattern_try_new ZONE_ENTERED_PATTERN).
Definition zone_cleared_pattern : res E Pattern :=
  expect "const pattern valid" (pattern_try_new ZONE_CLEARED_PATTERN).
Definition robot_namespace (robot_id : string) : res E AclExpr :=
  expect "robot_namespace invalid"
    (acl_try_new ("/robot/" +:+ robot_id +:+ "/**")).
End builders.

(** ** Canonical forms *)
Lemma canonicalize_robot_slash s : canonicalize ("robot/" +:+ s) = "robot/" +:+ s.
Proof. reflexivity. Qed.

Lemma canonicalize_shape s :
  canonicalize s = s \/ exists r, canonicalize s = "robot/" +:+ r.
Proof.
  unfold canonicalize. destruct (strip_prefix "robot-" s) as [rest|]; [|by left].
  right. destruct (find_char slash rest); eauto.
Qed.

Lemma canonicalize_hyphen r : canonicalize ("robot-" +:+ r) = "robot/" +:+ r.
Proof.
  unfold canonicalize. rewrite strip_prefix_app.
  destruct (find_char slash r); [|done]. by rewrite str_take_drop.
Qed.

Lemma canonicalize_idem s : canonicalize (canonicalize s) = canonicalize s.
Proof.
  unfold canonicalize at 2 3. destruct (strip_prefix "robot-" s) as [rest|] eqn:E.
  - by destruct (find_char slash rest).
  - unfold canonicalize. by rewrite E.
Qed.

Lemma topic_try_new_Ok s t :
  topic_try_new s = Ok t <->
  s <> "" /\ t = mkTopic (canonicalize s) /\
  matches_one_of (split_on slash (canonicalize s)) = true.
Proof.
  unfold topic_try_new. destruct (String.eqb_spec s "") as [->|Hne].
  { split; [done|]. by intros (?&?&?). }
  destruct (matches_one_of _); split; intros H; simplify_eq/=; auto.
  - destruct H as (_&->&_). done.
  - by destruct H as (_&_&?).
Qed.

Lemma topic_try_new_not_panic s : is_panic (topic_try_new s) = false.
Proof. unfold topic_try_new. destruct (s =? "")%string; [done|]. by destruct (matches_one_of _). Qed.

Lemma pattern_try_new_not_panic s : is_panic (pattern_try_new s) = false.
Proof.
  unfold pattern_try_new. destruct (s =? "")%string; [done|].
  destruct (_ && _); [done|]. by destruct (is_valid_pattern _).
Qed.

Lemma canonicalize_nonempty s : s <> "" -> canonicalize s <> "".
Proof.
  intros Hs. destruct (canonicalize_shape s) as [->|[r ->]]; done.
Qed.

(** A path whose literal head is not [robot-] is its own canonical form. *)
Lemma topic_try_new_path ws s :
  strip_prefix "robot-" (path ws s) = None ->
  path ws s <> "" ->
  forallb (fun w => negb (has_char slash w)) ws = true ->
  topic_try_new (path ws s) =
    if matches_one_of (ws ++ split_on slash s) then Ok (mkTopic (path ws s))
    else Err (mkTopicError (path ws s) UnknownPattern).
Proof.
  intros Hp Hne Hw. unfold topic_try_new.
  destruct (String.eqb_spec (path ws s) ""); [done|].
  unfold canonicalize. rewrite Hp. by rewrite split_path.
Qed.

(** *** The table on the shapes the builders produce *)
Lemma split_on_cases s :
  (has_char slash s = false /\ split_on slash s = [s]) \/
  (has_char slash s = true /\ exists a b l, split_on slash s = a :: b :: l).
Proof.
  destruct (has_char slash s) eqn:E.
  - right. split; [done|]. pose proof (split_on_ne slash s).
    destruct (split_on slash s) as [|a [|b l]] eqn:Hs; [done| |eauto].
    assert (has_char slash s = false); [|congruence].
    apply split_on_length_char. by rewrite Hs.
  - left. split; [done|]. by apply split_on_single.
Qed.

Section response_builders.
Context {E : Type}.

(** The three single-identifier fleet builders: [id] becomes the last segment. *)
Lemma fleet_builder (msg lit1 lit2 : string) id :
  (lit1, lit2) ∈ [("registration", "response"); ("deregistration", "response");
                  ("alerts", "heartbeat")] ->
  expect (F := E) msg (topic_try_new (path ["fleet"; lit1; lit2] id)) =
  if has_char slash id then Panic msg
  else Ok (mkTopic (path ["fleet"; lit1; lit2] id)).
Proof.
  intros Hl. rewrite !elem_of_cons, elem_of_nil in Hl.
  destruct Hl as [[= -> ->]|[[= -> ->]|[[= -> ->]|[]]]];
    (rewrite topic_try_new_path by done);
    destruct (split_on_cases id) as [[-> ->]|[-> (a&b&l&->)]]; done.
Qed.

Lemma registration_response_eq id :
  registration_response (E := E) id =
  if has_char slash id then Panic "registration_response invalid"
  else Ok (mkTopic ("fleet/registration/response/" +:+ id)).
Proof. apply (fleet_builder _ "registration" "response"). repeat constructor. Qed.

Lemma deregistration_response_eq id :
  deregistration_response (E := E) id =
  if has_char slash id then Panic "deregistration_response invalid"
  else Ok (mkTopic ("fleet/deregistration/response/" +:+ id)).
Proof. apply (fleet_builder _ "deregistration" "response"). repeat constructor. Qed.

Lemma heartbeat_alert_eq id :
  heartbeat_alert (E := E) id =
  if has_char slash id then Panic "heartbeat_alert invalid"
  else Ok (mkTopic ("fleet/alerts/heartbeat/" +:+ id)).
Proof. apply (fleet_builder _ "alerts" "heartbeat"). repeat constructor. Qed.

(** Robot-scoped builders succeed on every identifier without a slash. *)
Lemma robot_local_Ok id r :
  has_char slash id = false -> has_char slash r = false ->
  robot_local (E := E) id r = Ok (mkTopic ("robot/" +:+ id +:+ "/local/" +:+ r)).
Proof.
  intros Hi Hr. unfold robot_local.
  change ("robot/" +:+ id +:+ "/local/" +:+ r) with (path ["robot"; id; "local"] r).
  rewrite topic_try_new_path; [|done|done|simpl; by rewrite Hi].
  by rewrite (split_on_single _ r).
Qed.
End response_builders.

Section builder_equations.
Context {E : Type}.

(** Closes a builder equation on slash-free identifiers: expose the path,
    split it and run the table. *)
Ltac builder ws tl :=
  unfold rules_key, liveliness_key, signal_presence_key, signal_offer_key,
    signal_answer_key, signal_ice_key, ruleset_pub_key, stop_cmd, lidar_scan,
    zone_entered, zone_cleared;
  change (topic_try_new _) with (topic_try_new (path ws tl));
  rewrite topic_try_new_path;
  [ rewrite ?split_on_single by done; unfold matches_one_of; simpl;
    rewrite ?andb_false_r; done
  | done | done
  | simpl; repeat match goal with H : has_char _ _ = false |- _ => rewrite H end; done ].

Lemma robot_builders_Ok id :
  has_char slash id = false ->
  rules_key (E := E) id = Ok (mkTopic ("robot/" +:+ id +:+ "/local/rules")) /\
  liveliness_key (E := E) id = Ok (mkTopic ("robot/" +:+ id +:+ "/client/liveliness")) /\
  signal_presence_key (E := E) id = Ok (mkTopic ("robot/" +:+ id +:+ "/signal/presence")).
Proof.
  intros Hi. split; [|split].
  - builder ["robot"; id; "local"] "rules".
  - builder ["robot"; id; "client"] "liveliness".
  - builder ["robot"; id; "signal"] "presence".
Qed.

Lemma signal_builders_Ok a b :
  has_char slash a = false -> has_char slash b = false ->
  signal_offer_key (E := E) a b = Ok (mkTopic ("robot/" +:+ a +:+ "/signal/" +:+ b +:+ "/offer")) /\
  signal_answer_key (E := E) a b = Ok (mkTopic ("robot/" +:+ a +:+ "/signal/" +:+ b +:+ "/answer")) /\
  signal_ice_key (E := E) a b = Ok (mkTopic ("robot/" +:+ a +:+ "/signal/" +:+ b +:+ "/ice")).
Proof.
  intros Ha Hb. split; [|split].
  - builder ["robot"; a; "signal"; b] "offer".
  - builder ["robot"; a; "signal"; b] "answer".
  - builder ["robot"; a; "signal"; b] "ice".
Qed.

Lemma scoped_builders_Ok a b :
  has_char slash a = false -> has_char slash b = false ->
  ruleset_pub_key (E := E) a b = Ok (mkTopic ("fleet/" +:+ a +:+ "/ruleset/" +:+ b)) /\
  stop_cmd (E := E) a = Ok (mkTopic ("stop/" +:+ a +:+ "/cmd")) /\
  lidar_scan (E := E) a = Ok (mkTopic ("lidar/" +:+ a +:+ "/scan")) /\
  zone_entered (E := E) a = Ok (mkTopic ("zone/" +:+ a +:+ "/entered")) /\
  zone_cleared (E := E) a = Ok (mkTopic ("zone/" +:+ a +:+ "/cleared")).
Proof.
  intros Ha Hb. split; [|split; [|split; [|split]]].
  - builder ["fleet"; a; "ruleset"] b.
  - builder ["stop"; a] "cmd".
  - builder ["lidar"; a] "scan".
  - builder ["zone"; a] "entered".
  - builder ["zone"; a] "cleared".
Qed.
End builder_equations.

#[export] Hint Rewrite @registration_response_eq @deregistration_response_eq
  @heartbeat_alert_eq : flo.

(** Two slash-free identifiers under the same literal frame give the same
    path only when they are equal. *)
Lemma path_inj ws x ws' y tl :
  path (ws ++ [x]) tl = path (ws' ++ [y]) tl ->
  length ws = length ws' ->
  forallb (fun w => negb (has_char slash w)) (ws ++ [x]) = true ->
  forallb (fun w => negb (has_char slash w)) (ws' ++ [y]) = true ->
  ws = ws' /\ x = y.
Proof.
  intros Hp Hl H1 H2. apply (f_equal (split_on slash)) in Hp.
  rewrite !split_path in Hp by done. rewrite <- !(assoc_L (++)) in Hp.
  apply app_inj_1 in Hp as [-> Hp]; [|done]. by simplify_eq/=.
Qed.

(** ** Ordinary strings: the access-control expression *)
Lemma acl_prefix_suffix s :
  starts_with "/robot/" s = true -> ends_with "/**" s = true ->
  s = "/robot/**" \/ exists id, s = "/robot/" +:+ id +:+ "/**".
Proof.
  rewrite starts_with_spec, ends_with_spec. intros [r ->] [p Hp].
  destruct (decide (String.length r < 3)) as [Hlt|Hge].
  - left. destruct r as [|a [|b [|c r]]]; simpl in *; [| | |lia].
    all: do 10 (destruct p as [|? p]; [by simplify_eq/=|]); simplify_eq/=.
  - right. exists (str_take (String.length r - 3) r). do 2 f_equal.
    rewrite <- (str_take_drop (String.length r - 3) r) at 1. f_equal.
    apply (f_equal (fun x => str_drop (String.length x - 3) x)) in Hp.
    assert (forall q : string, str_drop (String.length (q +:+ "/**") - 3) (q +:+ "/**") = "/**") as Hq.
    { intros q. rewrite str_length_app. simpl (String.length "/**").
      rewrite Nat.add_sub. apply str_drop_app. }
    rewrite Hq in Hp. rewrite str_length_app in Hp.
    simpl (String.length "/robot/") in Hp.
    replace (7 + String.length r - 3) with (7 + (String.length r - 3)) in Hp by lia.
    done.
Qed.

Lemma acl_try_new_id id :
  acl_try_new ("/robot/" +:+ id +:+ "/**") =
  if negb (id =? "")%string && negb (has_char slash id) && negb (has_char "*"%char id)
  then Ok (mkAclExpr ("/robot/" +:+ id +:+ "/**"))
  else Err (mkTopicError ("/robot/" +:+ id +:+ "/**") UnknownPattern).
Proof.
  unfold acl_try_new.
  assert (starts_with "/robot/" ("/robot/" +:+ id +:+ "/**") = true) as ->
    by (apply starts_with_spec; eauto).
  assert (ends_with "/**" ("/robot/" +:+ id +:+ "/**") = true) as ->.
  { apply ends_with_spec. exists ("/robot/" +:+ id). by rewrite str_app_assoc. }
  change (("/robot/" +:+ id +:+ "/**" =? "")%string) with false. simpl (true && true).
  cbv iota. unfold str_slice.
  rewrite !str_length_app.
  simpl (String.length "/robot/"). simpl (String.length "/**").
  replace (7 + (String.length id + 3) - 3) with (7 + String.length id) by lia.
  rewrite (proj2 (Nat.leb_le 7 _)) by lia.
  rewrite (proj2 (Nat.leb_le (7 + _) _)) by lia.
  replace (7 + String.length id - 7) with (String.length id) by lia.
  change (str_drop 7 ("/robot/" +:+ id +:+ "/**")) with (id +:+ "/**").
  rewrite str_take_app. done.
Qed.

Lemma acl_try_new_cases s :
  (exists id, s = "/robot/" +:+ id +:+ "/**") \/ s = "/robot/**" \/
  exists k, acl_try_new s = Err (mkTopicError s k).
Proof.
  destruct (starts_with "/robot/" s) eqn:H1, (ends_with "/**" s) eqn:H2.
  { destruct (acl_prefix_suffix s H1 H2); auto. }
  all: do 2 right; unfold acl_try_new; rewrite ?H1, ?H2;
    destruct (s =? "")%string; simpl; eauto.
Qed.

Lemma robot_frame_inj (id1 id2 r1 r2 : string) :
  has_char slash id1 = false -> has_char slash id2 = false ->
  "robot/" +:+ id1 +:+ "/local/" +:+ r1 = "robot/" +:+ id2 +:+ "/local/" +:+ r2 ->
  id1 = id2 /\ r1 = r2.
Proof.
  intros H1 H2 Hp.
  assert (split_on slash (path ["robot"; id1; "local"] r1) =
          split_on slash (path ["robot"; id2; "local"] r2)) as Hs by (f_equal; exact Hp).
  rewrite !split_path in Hs by (simpl; rewrite ?H1, ?H2; done).
  simpl in Hs. injection Hs as -> Hr. split; [done|].
  by rewrite <- (join_split slash r1), Hr, join_split.
Qed.

Lemma topic_revalidates s t : topic_try_new s = Ok t -> topic_try_new (topic_str t) = Ok t.
Proof.
  rewrite topic_try_new_Ok. intros (Hs & -> & Hm).
  apply topic_try_new_Ok. simpl. rewrite canonicalize_idem. auto using canonicalize_nonempty.
Qed.

Lemma wildcard_free_pattern parts :
  forallb (fun w => negb (is_wildcard w)) parts = true ->
  matches_one_of parts = true -> is_valid_pattern parts = true.
Proof.
  intros Hw Hm. unfold is_valid_pattern.
  destruct (existsb _ pattern_table); [done|].
  assert (existsb is_wildcard parts = false) as ->; [|done].
  apply not_true_iff_false. rewrite existsb_exists. intros (w & Hin & Hwild).
  rewrite forallb_forall in Hw. specialize (Hw w Hin). by rewrite Hwild in Hw.
Qed.

(** ** Properties *)

(** Validation is canonicalisation: a validated topic is its own canonical
    form and validates to itself again, and the legacy hyphen spelling of a
    robot topic validates exactly as the slash spelling does. *)
Theorem topic_validation_canonical :
  (forall s t, topic_try_new s = Ok t -> topic_try_new (topic_str t) = Ok t) /\
  (forall r t, topic_try_new ("robot-" +:+ r) = Ok t <-> topic_try_new ("robot/" +:+ r) = Ok t).
Proof.
  split.
  - apply topic_revalidates.
  - intros r t. rewrite !topic_try_new_Ok, canonicalize_hyphen, canonicalize_robot_slash.
    split; intros (_ & ? & ?); done.
Qed.

(** Every topic builder, given identifiers without a slash, returns the
    topic of the documented shape and never panics. *)
Theorem topic_builders_exact (E : Type) (a b : string) :
  has_char slash a = false -> has_char slash b = false ->
  robot_local (E := E) a b = Ok (mkTopic ("robot/" +:+ a +:+ "/local/" +:+ b)) /\
  rules_key (E := E) a = Ok (mkTopic ("robot/" +:+ a +:+ "/local/rules")) /\
  liveliness_key (E := E) a = Ok (mkTopic ("robot/" +:+ a +:+ "/client/liveliness")) /\
  signal_presence_key (E := E) a = Ok (mkTopic ("robot/" +:+ a +:+ "/signal/presence")) /\
  signal_offer_key (E := E) a b = Ok (mkTopic ("robot/" +:+ a +:+ "/signal/" +:+ b +:+ "/offer")) /\
  signal_answer_key (E := E) a b = Ok (mkTopic ("robot/" +:+ a +:+ "/signal/" +:+ b +:+ "/answer")) /\
  signal_ice_key (E := E) a b = Ok (mkTopic ("robot/" +:+ a +:+ "/signal/" +:+ b +:+ "/ice")) /\
  ruleset_pub_key (E := E) a b = Ok (mkTopic ("fleet/" +:+ a +:+ "/ruleset/" +:+ b)) /\
  stop_cmd (E := E) a = Ok (mkTopic ("stop/" +:+ a +:+ "/cmd")) /\
  lidar_scan (E := E) a = Ok (mkTopic ("lidar/" +:+ a +:+ "/scan")) /\
  zone_entered (E := E) a = Ok (mkTopic ("zone/" +:+ a +:+ "/entered")) /\
  zone_cleared (E := E) a = Ok (mkTopic ("zone/" +:+ a +:+ "/cleared")) /\
  registration_response (E := E) a = Ok (mkTopic ("fleet/registration/response/" +:+ a)) /\
  deregistration_response (E := E) a = Ok (mkTopic ("fleet/deregistration/response/" +:+ a)) /\
  heartbeat_alert (E := E) a = Ok (mkTopic ("fleet/alerts/heartbeat/" +:+ a)).
Proof.
  intros Ha Hb.
  pose proof (robot_builders_Ok (E := E) a Ha) as (?&?&?).
  pose proof (signal_builders_Ok (E := E) a b Ha Hb) as (?&?&?).
  pose proof (scoped_builders_Ok (E := E) a b Ha Hb) as (?&?&?&?&?).
  rewrite registration_response_eq, deregistration_response_eq, heartbeat_alert_eq, Ha.
  repeat split; auto using robot_local_Ok.
Qed.

Lemma topic_builders_exact_witness :
  has_char slash "7" = false /\ robot_local (E := unit) "7" "bumper" = Ok (mkTopic "robot/7/local/bumper").
Proof.
  split; [reflexivity|].
  exact (proj1 (topic_builders_exact unit "7" "bumper" eq_refl eq_refl)).
Defined.

(** [AclExpr::try_new] accepts exactly the expressions [/robot/{id}/**]
    with a non-empty identifier free of slashes and stars, and it panics on
    exactly one input, the string [/robot/**], whose prefix and suffix
    overlap. *)
Theorem acl_try_new_exact (s : string) :
  (forall a, acl_try_new s = Ok a <->
     a = mkAclExpr s /\ exists id, s = "/robot/" +:+ id +:+ "/**" /\ id <> "" /\
     has_char slash id = false /\ has_char "*"%char id = false) /\
  (is_panic (acl_try_new s) = true <-> s = "/robot/**").
Proof.
  destruct (acl_try_new_cases s) as [[id ->]|[->|[k Hk]]].
  - rewrite acl_try_new_id.
    assert (forall id', "/robot/" +:+ id +:+ "/**" = "/robot/" +:+ id' +:+ "/**" -> id' = id) as Hinj.
    { intros id' H%str_app_inj_l%str_app_inj_r. done. }
    destruct (_ && _) eqn:Hc.
    + split; [|split; [done|]].
      * intros a. split; [intros [= <-]|by intros [-> _]].
        split; [done|]. exists id. bool_hyps. split; [done|].
        split; [by apply String.eqb_neq|done].
      * intros H. apply (f_equal String.length) in H. rewrite !str_length_app in H.
        destruct id; simpl in *; [done|lia].
    + split; [|split; [done|]].
      * intros a. split; [done|]. intros [_ (id' & Hid & Hne & Hs & Hst)].
        apply Hinj in Hid as ->. apply String.eqb_neq in Hne.
        by rewrite Hne, Hs, Hst in Hc.
      * intros H. apply (f_equal String.length) in H. rewrite !str_length_app in H.
        simpl in H. lia.
  - split; [|by split]. intros a. split; [done|].
    intros [_ (id & Hid & Hne & _)]. apply (f_equal String.length) in Hid.
    rewrite !str_length_app in Hid. simpl in Hid. lia.
  - assert (s <> "/robot/**") as Hp by (intros ->; done).
    rewrite Hk. split; [|by split].
    intros a. split; [done|]. intros [_ (id & -> & Hne & Hs & Hst)].
    apply String.eqb_neq in Hne. by rewrite acl_try_new_id, Hne, Hs, Hst in Hk.
Qed.

(** Robots do not share local topics: with slash-free robot ids, two
    [robot_local] topics are equal only for the same robot and resource. *)
Theorem robot_local_isolates (E : Type) (id1 id2 r1 r2 : string) (t : Topic) :
  has_char slash id1 = false -> has_char slash id2 = false ->
  has_char slash r1 = false -> has_char slash r2 = false ->
  robot_local (E := E) id1 r1 = Ok t -> robot_local (E := E) id2 r2 = Ok t ->
  id1 = id2 /\ r1 = r2.
Proof.
  intros H1 H2 H3 H4. rewrite !robot_local_Ok by done. intros [= <-] [= Hp].
  destruct (robot_frame_inj id2 id1 r2 r1) as [-> ->]; auto. by f_equal.
Qed.

Lemma robot_local_isolates_witness :
  "7" = "7" /\ "drive" = "drive".
Proof.
  apply (robot_local_isolates unit "7" "7" "drive" "drive" (mkTopic "robot/7/local/drive"));
    reflexivity.
Defined.

(** Any concrete topic can be subscribed to: a validated topic without
    wildcard or empty segments is accepted as a pattern and keeps its
    canonical string. *)
Theorem topic_is_pattern (s : string) (t : Topic) :
  topic_try_new s = Ok t ->
  contains_str "//" s = false ->
  forallb (fun w => negb (is_wildcard w)) (split_on slash (topic_str t)) = true ->
  pattern_try_new s = Ok (mkPattern (topic_str t)).
Proof.
  rewrite topic_try_new_Ok. intros (Hne & -> & Hm) Hs Hw. simpl in *.
  unfold pattern_try_new. apply String.eqb_neq in Hne. rewrite Hne, Hs.
  rewrite !andb_false_r. by rewrite wildcard_free_pattern.
Qed.

Lemma topic_is_pattern_witness :
  pattern_try_new "robot-7/local/bumper" = Ok (mkPattern "robot/7/local/bumper").
Proof.
  exact (topic_is_pattern "robot-7/local/bumper" (mkTopic "robot/7/local/bumper")
           eq_refl eq_refl eq_refl).
Defined.
