(* ===== verification/Newtype.v ===== *)
(** * Newtype: what the validated string types promise ([src/topic.rs])

    [Topic], [AclExpr] and [Pattern] have one interface: a checked constructor
    and the view as a string.  What a client may rely on is that a value of
    the type is accepted again, as itself, from its own string - the case
    wherever a topic is sent as text and validated by the receiver. *)
From S2P Require Import Prelude Topic.

(** ** The interface *)
Class Newtype (T : Type) := {
  try_new : string -> res TopicError T;
  as_str : T -> string
}.
(** The four other ways to the string: [Deref], [AsRef], [Display], [From]. *)
Definition deref {T} `{Newtype T} (t : T) : string := as_str t.
Definition as_ref {T} `{Newtype T} (t : T) : string := as_str t.
Definition fmt {T} `{Newtype T} (t : T) : string := as_str t.
Definition string_from {T} `{Newtype T} (t : T) : string := as_str t.

(** [closed] are the strings on which the promise is made. *)
Class NewtypeLaw (T : Type) `{Newtype T} (closed : string -> Prop) : Prop :=
  try_new_again s t : try_new s = Ok t -> closed (as_str t) -> try_new (as_str t) = Ok t.

#[export] Instance topic_newtype : Newtype Topic := {| try_new := topic_try_new; as_str := topic_str |}.
#[export] Instance acl_newtype : Newtype AclExpr := {| try_new := acl_try_new; as_str := acl_str |}.
#[export] Instance pattern_newtype : Newtype Pattern :=
  {| try_new := pattern_try_new; as_str := pattern_str |}.

Definition anything (_ : string) : Prop := True.
Definition no_double_slash (s : string) : Prop := contains_str "//" s = false.

Lemma pattern_try_new_Ok s p :
  pattern_try_new s = Ok p <->
  s <> "" /\ contains_str "//" s = false /\ p = mkPattern (canonicalize s) /\
  is_valid_pattern (split_on slash (canonicalize s)) = true.
Proof.
  unfold pattern_try_new. destruct (String.eqb_spec s "") as [->|Hne]; [split; [done|by intros (?&_)]|].
  assert ((contains_str "//" s || starts_with "/" s || ends_with "/" s)
          && (negb (s =? "fleet/*/ruleset/**")%string && contains_str "//" s)
          = contains_str "//" s) as ->.
  { destruct (contains_str "//" s) eqn:Hc; [|by rewrite !andb_false_r].
    destruct (String.eqb_spec s "fleet/*/ruleset/**") as [->|]; [by vm_compute in Hc|done]. }
  destruct (contains_str "//" s); [split; [done|by intros (_&?&_)]|].
  destruct (is_valid_pattern _) eqn:Hv; split; try done.
  - intros [= <-]. done.
  - by intros (_&_&->&_).
  - by intros (_&_&_&?).
Qed.

#[export] Instance topic_law : NewtypeLaw Topic anything.
Proof.
  intros s t (Hne & -> & Hm)%topic_try_new_Ok _. apply topic_try_new_Ok. simpl.
  rewrite canonicalize_idem. split; [by apply canonicalize_nonempty|done].
Qed.
#[export] Instance acl_law : NewtypeLaw AclExpr anything.
Proof.
  intros s t Ht _. assert (as_str t = s) as Has; [|by rewrite Has]. revert Ht. simpl. unfold acl_try_new.
  destruct (s =? "")%string; [done|]. destruct (_ && _); [|done].
  destruct (str_slice _ _ _) as [inner|e|w]; [|done..]. simpl. destruct (_ && _); [|done].
  by intros [= <-].
Qed.
#[export] Instance pattern_law : NewtypeLaw Pattern no_double_slash.
Proof.
  intros s t (Hne & _ & -> & Hv)%pattern_try_new_Ok Hc. apply pattern_try_new_Ok. simpl in *.
  rewrite canonicalize_idem. split; [by apply canonicalize_nonempty|done].
Qed.

(** ** Spellings of one topic

    Two strings are the same topic when they canonicalise alike; validation
    does not tell them apart. *)
Definition same_topic (s s' : string) : Prop := canonicalize s = canonicalize s'.
#[export] Instance same_topic_equiv : Equivalence same_topic.
Proof. split; unfold same_topic; [by intros ?|by intros ??|intros ???; congruence]. Qed.

Lemma canonicalize_empty s : canonicalize s = "" -> s = "".
Proof. destruct (decide (s = "")) as [->|Hs]; [done|]. by intros ?%canonicalize_nonempty. Qed.

#[export] Instance topic_ok_proper : Proper (same_topic ==> eq) (fun s => is_ok (topic_try_new s)).
Proof.
  assert (forall s s' t, same_topic s s' -> topic_try_new s = Ok t -> topic_try_new s' = Ok t) as H.
  { intros s s' t Hs (Hne & -> & Hm)%topic_try_new_Ok. apply topic_try_new_Ok. unfold same_topic in Hs.
    rewrite <- Hs. split; [|done]. intros ->. by apply Hne, canonicalize_empty. }
  intros s s' Hs. destruct (topic_try_new s) as [t|e|w] eqn:E; cbn [is_ok].
  - by rewrite (H s s' t Hs E).
  - destruct (topic_try_new s') as [t|e'|w] eqn:E'; [|done..].
    by rewrite (H s' s t (symmetry Hs) E') in E.
  - by pose proof (topic_try_new_not_panic s) as Hp; rewrite E in Hp.
Qed.

(** ** Properties *)

(** C29. A validated value is valid again: a topic or an access-control
    expression is accepted from its own string as the same value, and so is a
    pattern exactly when its string has no empty segment.  A pattern can have
    one, because the check looks at the string before the legacy [robot-]
    prefix is replaced; and the two spellings of a topic are accepted alike,
    as the same topic. *)
Theorem newtypes_revalidate :
  (forall s (t : Topic), try_new s = Ok t -> try_new (as_str t) = Ok t) /\
  (forall s (t : AclExpr), try_new s = Ok t -> try_new (as_str t) = Ok t) /\
  (forall s (p : Pattern), try_new s = Ok p ->
     (try_new (as_str p) = Ok p <-> contains_str "//" (as_str p) = false)) /\
  (exists s (p : Pattern), try_new s = Ok p /\ is_ok (try_new (T := Pattern) (as_str p)) = false) /\
  (forall r, is_ok (topic_try_new ("robot-" +:+ r)) = is_ok (topic_try_new ("robot/" +:+ r))).
Proof.
  split; [intros s t Ht; by apply (try_new_again (closed := anything) s t Ht)|].
  split; [intros s t Ht; by apply (try_new_again (closed := anything) s t Ht)|].
  split.
  { intros s p Hp. split; [by intros (_ & ? & _)%pattern_try_new_Ok|].
    apply (try_new_again (closed := no_double_slash) s p Hp). }
  split; [exists "robot-/local/x"; eexists; split; reflexivity|].
  intros r. apply topic_ok_proper. unfold same_topic.
  by rewrite canonicalize_hyphen, canonicalize_robot_slash.
Qed.
