(* ===== verification/Semantic.v ===== *)
(** * Semantic: the semantic ruleset compiler ([src/semantic.rs])

    The structured errors, the manifest data, the two intermediate
    representations [WhenExpr] and [ActionSpec], the shared validator, the
    flattening [lower] and the two compilers [compile] and [compile_ruleset].
    The text parsers ([toml], [serde_json]) are parameters. *)
From Stdlib Require Import SpecFloat.
From S2P Require Import Prelude Json Rules Topic.

Definition default_qos : Qos := Reliable.

(** ** Structured errors *)
Inductive ErrorCode :=
  | Parse | NoActionVerb | InvalidDistance | UnknownZone | MissingField
  | NonPrimitivePayload | InvalidRulesetName | InvalidTopic | EmptyWhen
  | UnrepresentableNesting.
#[export] Instance ErrorCode_eq_dec : EqDecision ErrorCode.
Proof. solve_decision. Defined.

Definition code_as_str (c : ErrorCode) : string :=
  match c with
  | Parse => "E001"
  | NoActionVerb => "E002"
  | InvalidDistance => "E003"
  | UnknownZone => "E004"
  | MissingField => "E005"
  | NonPrimitivePayload => "E006"
  | InvalidRulesetName => "E007"
  | InvalidTopic => "E008"
  | EmptyWhen => "E009"
  | UnrepresentableNesting => "E010"
  end.

Record SemanticError := mkSemanticError {
  message : string;
  code : ErrorCode;
  field_path : option string
}.

Definition semantic_error_new (c : ErrorCode) (msg : string) : SemanticError :=
  mkSemanticError msg c None.
Definition with_path (e : SemanticError) (p : string) : SemanticError :=
  mkSemanticError (message e) (code e) (Some p).

Definition newline : string := String "010"%char "".

(** [impl Display for SemanticError] *)
Definition fmt_semantic_error (e : SemanticError) : string :=
  ("error[" +:+ code_as_str (code e) +:+ "]: " +:+ message e)
  +:+ match field_path e with
      | Some p => newline +:+ "  --> " +:+ p
      | None => ""
      end.

(** ** Manifest data *)
Record SiteInfo := mkSite { site_id : string; site_frame : string }.
Definition SiteInfo_default : SiteInfo := mkSite "" "".

Record ZoneShape := mkZone { shape : string; z_x : f64; z_y : f64; z_w : f64; z_h : f64 }.

Record NearSpec := mkNear { entity : string; dist : f64 }.

#[warnings="-register-all"]
Inductive SemanticWhen := mkSemanticWhen {
  in_zone : option string;
  not_in_zone : option string;
  near_human : option f64;
  not_near_human : option f64;
  near : option NearSpec;
  role : option string;
  sw_all : list SemanticWhen;
  sw_any : list SemanticWhen
}.
Definition SemanticWhen_default : SemanticWhen :=
  mkSemanticWhen None None None None None None [] [].

Lemma SemanticWhen_nested_ind (P : SemanticWhen -> Prop) :
  (forall iz niz nh nnh n r al an,
     Forall P al -> Forall P an -> P (mkSemanticWhen iz niz nh nnh n r al an)) ->
  forall w, P w.
Proof.
  intros H. fix IH 1. intros [iz niz nh nnh n r al an]. apply H.
  - induction al; constructor; [apply IH|assumption].
  - induction an; constructor; [apply IH|assumption].
Qed.

(** ** Intermediate representation of guards *)
#[warnings="-register-all"]
Inductive WhenExpr :=
  | All (es : list WhenExpr)
  | Any (es : list WhenExpr)
  | Leaf (t : Trigger).

Lemma WhenExpr_nested_ind (P : WhenExpr -> Prop) :
  (forall es, Forall P es -> P (All es)) ->
  (forall es, Forall P es -> P (Any es)) ->
  (forall t, P (Leaf t)) ->
  forall e, P e.
Proof.
  intros HA HO HL. fix IH 1. intros [es|es|t]; [apply HA|apply HO|apply HL].
  - induction es; constructor; [apply IH|assumption].
  - induction es; constructor; [apply IH|assumption].
Qed.

Section semantic.
Context `{JN : JsonNumber}.
(** [Display] of floats and JSON values, used in message texts only, and
    Unicode [str::to_lowercase]. *)
Context (fmt_f64 : f64 -> string) (fmt_value : Value -> string).

Record SemanticAction := mkSemanticAction {
  estop : bool;
  slow_to : option f64;
  resume : bool;
  sa_topic : option string;
  sa_payload : option Value;
  sa_qos : Qos
}.

Record SemanticRule := mkSemanticRule {
  sr_name : string;
  sr_when : SemanticWhen;
  sr_actions : list SemanticAction
}.

Record RulesManifest := mkManifest {
  site : SiteInfo;
  zones : gmap string ZoneShape;
  m_rules : list SemanticRule
}.

(** ** Action verbs *)
Inductive ActionSpec :=
  | Estop
  | SlowTo (v : f64)
  | Resume
  | Raw (topic : string) (payload : Value).

Definition is_leaf (v : Value) : bool :=
  match v with Bool _ | Number _ | Str _ => true | _ => false end.

Definition is_primitive (v : Value) : bool :=
  match v with
  | Bool _ | Number _ | Str _ => true
  | Object m => forallb (fun kv => is_leaf kv.2) m
  | _ => false
  end.

Definition verb_count (a : SemanticAction) : nat :=
  Nat.b2n (estop a) + Nat.b2n (is_some (slow_to a))
  + Nat.b2n (resume a) + Nat.b2n (is_some (sa_topic a)).

Definition try_from_action (a : SemanticAction) (rule_name : string)
    : res SemanticError ActionSpec :=
  let count := verb_count a in
  if count =? 0 then
    Err (semantic_error_new NoActionVerb
           ("rule '" +:+ rule_name +:+ "': action has no known verb (estop/slow_to/resume)"))
  else if 1 <? count then
    Err (semantic_error_new NoActionVerb
           ("rule '" +:+ rule_name +:+ "': action has multiple verbs (only one of estop/slow_to/resume/topic allowed)"))
  else if match sa_payload a with Some p => negb (is_primitive p) | None => false end then
    Err (semantic_error_new NonPrimitivePayload
           ("rule '" +:+ rule_name +:+ "': action payload must be primitive (bool/int/float/string), got "
            +:+ match sa_payload a with Some p => fmt_value p | None => "" end))
  else if estop a then Ok Estop
  else if resume a then Ok Resume
  else match slow_to a with
  | Some v =>
      if negb (is_finite v) then
        Err (semantic_error_new InvalidDistance
               ("rule '" +:+ rule_name +:+ "': slow_to must be finite, got " +:+ fmt_f64 v))
      else Ok (SlowTo v)
  | None =>
      match sa_topic a with
      | Some topic =>
          if (topic =? "")%string then
            Err (semantic_error_new InvalidTopic
                   ("rule '" +:+ rule_name +:+ "': action topic is empty"))
          else Ok (Raw topic (default Null (sa_payload a)))
      | None => Panic "internal error: entered unreachable code"
      end
  end.

Definition try_from (a : SemanticAction) : res SemanticError ActionSpec :=
  try_from_action a "<unknown>".

(** ** Building the guard IR *)
Definition when_is_empty (w : SemanticWhen) : bool :=
  match w with
  | mkSemanticWhen None None None None None None [] [] => true
  | _ => false
  end.

Fixpoint check_distances (rule_name path : string) (ds : list f64) : res SemanticError unit :=
  match ds with
  | [] => Ok tt
  | d :: ds' =>
      if SFleb d f64_zero then
        Err (with_path (semantic_error_new InvalidDistance
               ("rule '" +:+ rule_name +:+ "': distance must be > 0, got " +:+ fmt_f64 d)) path)
      else check_distances rule_name path ds'
  end.

Definition distances (w : SemanticWhen) : list f64 :=
  option_list (near_human w) ++ option_list (not_near_human w)
  ++ option_list (dist <$> near w).

Fixpoint check_zones (zs : gmap string ZoneShape) (rule_name path : string)
    (names : list string) : res SemanticError unit :=
  match names with
  | [] => Ok tt
  | z :: names' =>
      match zs !! z with
      | None =>
          Err (with_path (semantic_error_new UnknownZone
                 ("rule '" +:+ rule_name +:+ "': references unknown zone '" +:+ z +:+ "'")) path)
      | Some _ => check_zones zs rule_name path names'
      end
  end.

Definition zone_refs (w : SemanticWhen) : list string :=
  option_list (in_zone w) ++ option_list (not_in_zone w).

Definition local_trigger (robot_id resource : string) (p : Predicate) (m : EvalMode)
    : res SemanticError Trigger :=
  t ← robot_local robot_id resource;
  mret (mkTrigger (topic_str t) (Some p) m).

Definition zone_is (z : string) : Predicate :=
  Comparison OpEq (Prim PZone) (OStr z).

Definition opt_trigger {A} (o : option A) (f : A -> res SemanticError Trigger)
    : res SemanticError (list Trigger) :=
  match o with
  | Some x => t ← f x; mret [t]
  | None => mret []
  end.

Definition leaf_triggers (w : SemanticWhen) (robot_id : string)
    : res SemanticError (list Trigger) :=
  l1 ← opt_trigger (in_zone w) (fun z => local_trigger robot_id "zone" (zone_is z) Edge);
  l2 ← opt_trigger (not_in_zone w) (fun z =>
         local_trigger robot_id "zone" (Not (zone_is z)) Edge);
  l3 ← opt_trigger (near_human w) (fun d =>
         local_trigger robot_id "human_present"
           (Comparison OpLt (Prim HumanPresence) (OFloat d)) Level);
  l4 ← opt_trigger (not_near_human w) (fun d =>
         local_trigger robot_id "human_present"
           (Comparison OpGe (Prim HumanPresence) (OFloat d)) Level);
  l5 ← opt_trigger (near w) (fun n =>
         local_trigger robot_id "proximity"
           (Comparison OpLt (Prim (Proximity (entity n))) (OFloat (dist n))) Level);
  l6 ← opt_trigger (role w) (fun r =>
         local_trigger robot_id "role" (Comparison OpEq (Prim PRobot) (OStr r)) Edge);
  mret (l1 ++ l2 ++ l3 ++ l4 ++ l5 ++ l6).

Definition child_path (path key : string) (idx : nat) : string :=
  path +:+ "." +:+ key +:+ "[" +:+ show_nat idx +:+ "]".

(** The final [match (and_parts.is_empty(), any_part)]. *)
Definition assemble (and_parts any_children : list WhenExpr) : res SemanticError WhenExpr :=
  match and_parts, any_children with
  | [], [] => Panic "internal error: entered unreachable code: empty already handled"
  | [], _ :: _ => Ok (Any any_children)
  | [e], [] => Ok e
  | _ :: _, [] => Ok (All and_parts)
  | _ :: _, _ :: _ => Ok (All (and_parts ++ [Any any_children]))
  end.

Fixpoint build_when_expr (w : SemanticWhen) (robot_id : string)
    (zs : gmap string ZoneShape) (rule_name path : string) {struct w}
    : res SemanticError WhenExpr :=
  if when_is_empty w then
    Err (with_path (semantic_error_new EmptyWhen
           ("rule '" +:+ rule_name +:+ "': when is empty (no condition key, no all, no any)"))
           path)
  else
    _ ← check_distances rule_name path (distances w);
    _ ← check_zones zs rule_name path (zone_refs w);
    leaves ← leaf_triggers w robot_id;
    all_children ← mapM_i (fun idx nested =>
      build_when_expr nested robot_id zs rule_name (child_path path "all" idx)) 0 (sw_all w);
    any_children ← mapM_i (fun idx nested =>
      build_when_expr nested robot_id zs rule_name (child_path path "any" idx)) 0 (sw_any w);
    assemble (map Leaf leaves ++ all_children) any_children.

(** ** Validation *)
Definition opt_eqb (o : option string) (s : string) : bool :=
  match o with Some x => (x =? s)%string | None => false end.

Definition action_path (rule_idx action_idx : nat) : string :=
  "rules[" +:+ show_nat rule_idx +:+ "].actions[" +:+ show_nat action_idx +:+ "]".
Definition when_path (rule_idx : nat) : string :=
  "rules[" +:+ show_nat rule_idx +:+ "].when".

(** The first [map_err] of [validate], shared with [compile]. *)
Definition promote_path (path : string) (e : SemanticError) : SemanticError :=
  if negb (is_some (field_path e)) then with_path e path
  else if opt_eqb (field_path e) "payload" then with_path e (path +:+ ".payload")
  else with_path e path.

(** The second [map_err] of [validate]. *)
Definition payload_path (path : string) (e : SemanticError) : SemanticError :=
  if bool_decide (code e = NonPrimitivePayload)
     && negb (ends_with ".payload" (default "" (field_path e)))
  then mkSemanticError (message e) (code e) (Some (path +:+ ".payload"))
  else e.

Definition validate_action (rule_idx : nat) (rule_name : string) (action_idx : nat)
    (a : SemanticAction) : res SemanticError unit :=
  let path := action_path rule_idx action_idx in
  (fun _ => tt) <$>
    map_err (payload_path path) (map_err (promote_path path) (try_from_action a rule_name)).

Definition validate_rule (zs : gmap string ZoneShape) (rule_idx : nat) (r : SemanticRule)
    : res SemanticError unit :=
  _ ← iterM_i (validate_action rule_idx (sr_name r)) 0 (sr_actions r);
  _ ← build_when_expr (sr_when r) "validation" zs (sr_name r) (when_path rule_idx);
  mret tt.

Definition validate (doc : RulesManifest) : res SemanticError unit :=
  iterM_i (validate_rule (zones doc)) 0 (m_rules doc).

(** ** Flattening to the two-level runtime guard *)
Definition second_or_error (rule_name cpath : string) : SemanticError :=
  with_path (semantic_error_new UnrepresentableNesting
    ("rule '" +:+ rule_name +:+ "': " +:+ cpath
     +:+ " introduces a second OR group; the runtime model can hold only one (an AND of two OR groups)"))
    cpath.
Definition and_with_or_error (rule_name cpath : string) : SemanticError :=
  with_path (semantic_error_new UnrepresentableNesting
    ("rule '" +:+ rule_name +:+ "': " +:+ cpath
     +:+ " is an AND of triggers ANDed with an OR group, which cannot be expressed as a single OR element"))
    cpath.
Definition and_of_triggers_error (rule_name cpath : string) (n : nat) : SemanticError :=
  with_path (semantic_error_new UnrepresentableNesting
    ("rule '" +:+ rule_name +:+ "': " +:+ cpath
     +:+ " is an AND of " +:+ show_nat n
     +:+ " triggers; an OR element must be a single trigger or an OR group"))
    cpath.

(** The loop over the children of an AND: the accumulators are the source's
    [all] and [any] vectors. *)
Definition lower_all_loop (low : WhenExpr -> string -> res SemanticError When)
    (rule_name path : string)
    : nat -> list WhenExpr -> list Trigger -> list Trigger -> res SemanticError When :=
  fix go idx cs all any :=
    match cs with
    | [] => Ok (mkWhen all any)
    | child :: cs' =>
        let cpath := child_path path "all" idx in
        match low child cpath with
        | Ok w =>
            match w_any w, any with
            | _ :: _, _ :: _ => Err (second_or_error rule_name cpath)
            | _ :: _, [] => go (S idx) cs' (all ++ w_all w) (w_any w)
            | [], _ => go (S idx) cs' (all ++ w_all w) any
            end
        | Err e => Err e
        | Panic p => Panic p
        end
    end.

(** The loop over the children of an OR. *)
Definition lower_any_loop (low : WhenExpr -> string -> res SemanticError When)
    (rule_name path : string) : nat -> list WhenExpr -> list Trigger -> res SemanticError When :=
  fix go idx cs any :=
    match cs with
    | [] => Ok (mkWhen [] any)
    | child :: cs' =>
        let cpath := child_path path "any" idx in
        match low child cpath with
        | Ok w =>
            match w_all w, w_any w with
            | _ :: _, _ :: _ => Err (and_with_or_error rule_name cpath)
            | [t], [] => go (S idx) cs' (any ++ [t])
            | ts, [] => Err (and_of_triggers_error rule_name cpath (length ts))
            | [], _ :: _ => go (S idx) cs' (any ++ w_any w)
            end
        | Err e => Err e
        | Panic p => Panic p
        end
    end.

Fixpoint lower (expr : WhenExpr) (rule_name path : string) {struct expr}
    : res SemanticError When :=
  match expr with
  | Leaf t => Ok (mkWhen [t] [])
  | All children =>
      lower_all_loop (fun c p => lower c rule_name p) rule_name path 0 children [] []
  | Any children =>
      lower_any_loop (fun c p => lower c rule_name p) rule_name path 0 children []
  end.

(** ** Compilation *)
Definition compile_action_from_spec (spec : ActionSpec) (original : SemanticAction)
    (robot_id : string) : res SemanticError Action :=
  match spec with
  | Estop =>
      t ← stop_cmd "fleet";
      mret (mkAction (topic_str t) Reliable (Object [("stop", Bool true)]))
  | Resume =>
      t ← robot_local robot_id "drive";
      mret (mkAction (topic_str t) Reliable (Object [("resume", Bool true)]))
  | SlowTo v =>
      t ← robot_local robot_id "drive";
      mret (mkAction (topic_str t) (sa_qos original) (Object [("speed_mps", value_of_f64 v)]))
  | Raw topic payload =>
      t ← map_err (fun e => semantic_error_new InvalidTopic
            ("invalid topic '" +:+ topic +:+ "': " +:+ fmt_topic_error e)) (topic_try_new topic);
      mret (mkAction (topic_str t) (sa_qos original) payload)
  end.

Definition compile_action (robot_id : string) (rule_idx : nat) (rule_name : string)
    (action_idx : nat) (a : SemanticAction) : res SemanticError Action :=
  spec ← map_err (promote_path (action_path rule_idx action_idx)) (try_from_action a rule_name);
  compile_action_from_spec spec a robot_id.

Definition compile_rule (zs : gmap string ZoneShape) (robot_id : string) (rule_idx : nat)
    (r : SemanticRule) : res SemanticError Rule :=
  expr ← build_when_expr (sr_when r) robot_id zs (sr_name r) (when_path rule_idx);
  w ← lower expr (sr_name r) (when_path rule_idx);
  actions ← mapM_i (compile_action robot_id rule_idx (sr_name r)) 0 (sr_actions r);
  mret (mkRule (sr_name r) w actions).

Definition compile (doc : RulesManifest) (robot_id : string) : res SemanticError Rules :=
  _ ← validate doc;
  if (site_id (site doc) =? "")%string then
    Err (with_path (semantic_error_new MissingField "missing [site].id") "site.id")
  else
    out ← mapM_i (compile_rule (zones doc) robot_id) 0 (m_rules doc);
    mret (mkRules out).

(** ** The ruleset envelope *)
Record SemanticRulesetRule := mkSemanticRulesetRule {
  srr_name : string;
  srr_when : SemanticWhen;
  srr_actions : list SemanticAction
}.

Record SemanticRuleset := mkSemanticRuleset {
  srs_name : string;
  srs_version : N;
  srs_owner : string;
  srs_site : SiteInfo;
  srs_zones : gmap string ZoneShape;
  srs_rules : list SemanticRulesetRule
}.

Context (to_lowercase : string -> string).

Definition name_char (c : ascii) : bool :=
  is_ascii_lowercase c || is_ascii_digit c || Ascii.eqb c "-"%char.

Definition normalize_ruleset_name (name : string) : res SemanticError string :=
  let n := to_lowercase name in
  if negb (str_forallb name_char n) || (n =? "")%string || (64 <? String.length n) then
    Err (with_path (semantic_error_new InvalidRulesetName
           ("invalid ruleset_name '" +:+ n +:+ "' (must match [a-z0-9-]{1,64})"))
           "ruleset_name")
  else Ok n.

Definition desugar (doc : SemanticRuleset) : RulesManifest :=
  mkManifest (srs_site doc) (srs_zones doc)
    (map (fun r => mkSemanticRule (srr_name r) (srr_when r) (srr_actions r)) (srs_rules doc)).

Definition compile_ruleset (doc : SemanticRuleset) (robot_id : string)
    : res SemanticError Ruleset :=
  name ← normalize_ruleset_name (srs_name doc);
  rs ← compile (desugar doc) robot_id;
  mret (mkRuleset name (srs_version doc) (srs_owner doc) (rules rs)).

(** ** Parsing: the format guess over the crates' parsers *)
Inductive Format := Json | Toml.

(** One UTF-8 encoded Unicode [White_Space] character at the head. *)
Definition strip_space (s : string) : option string :=
  match s with
  | String a s1 =>
      if in_range 9 13 a || (N_of_ascii a =? 32)%N then Some s1
      else match s1 with
      | String b s2 =>
          if (N_of_ascii a =? 194)%N && ((N_of_ascii b =? 133)%N || (N_of_ascii b =? 160)%N)
          then Some s2
          else match s2 with
          | String c s3 =>
              let n := (N_of_ascii a, N_of_ascii b, N_of_ascii c) in
              if bool_decide (n = (225, 154, 128)%N) || bool_decide (n = (226, 129, 159)%N)
                 || bool_decide (n = (227, 128, 128)%N)
                 || ((N_of_ascii a =? 226)%N && (N_of_ascii b =? 128)%N
                     && (in_range 128 138 c || in_range 168 169 c || (N_of_ascii c =? 175)%N))
              then Some s3 else None
          | EmptyString => None
          end
      | EmptyString => None
      end
  | EmptyString => None
  end.

(** [str::trim_start]; at most one step per byte. *)
Fixpoint trim_start_fuel (n : nat) (s : string) : string :=
  match n with
  | 0 => s
  | S n' => match strip_space s with Some s' => trim_start_fuel n' s' | None => s end
  end.
Definition trim_start (s : string) : string := trim_start_fuel (String.length s) s.

(** [text.trim().starts_with('{')]: trailing whitespace plays no part. *)
Definition guess_format (text : string) : Format :=
  if starts_with "{" (trim_start text) then Json else Toml.

Context (toml_manifest json_manifest : string -> string + RulesManifest).

Definition parse_with {A} (p : string -> string + A) (text : string) : res SemanticError A :=
  match p text with inl e => Err (semantic_error_new Parse e) | inr d => Ok d end.
Definition parse_semantic : string -> res SemanticError RulesManifest :=
  parse_with toml_manifest.
Definition parse_semantic_json : string -> res SemanticError RulesManifest :=
  parse_with json_manifest.
Definition parse_semantic_ruleset (toml_ruleset : string -> string + SemanticRuleset)
    : string -> res SemanticError SemanticRuleset :=
  parse_with toml_ruleset.
Definition parse_semantic_auto (text : string) : res SemanticError RulesManifest :=
  match guess_format text with
  | Json => parse_semantic_json text
  | Toml => parse_semantic text
  end.
End semantic.
