(* ===== verification/SemanticSpec.v ===== *)
(** * SemanticSpec: what the semantic compiler promises

    The reference meaning of a semantic guard as an AND/OR tree of abstract
    conditions, the refinement of that meaning by [build_when_expr] and
    [lower], the exact shape [lower] rejects, totality of the compiler and the
    well-formedness of the rules it produces. *)
From Stdlib Require Import SpecFloat.
From S2P Require Import Prelude Json Rules Topic Semantic.

(** ** Reference meaning *)

(** A flat condition key of a [when] block. *)
Inductive Cond :=
  | CInZone (z : string)
  | CNotInZone (z : string)
  | CNearHuman (d : f64)
  | CNotNearHuman (d : f64)
  | CNear (n : NearSpec)
  | CRole (r : string).

Definition conditions (w : SemanticWhen) : list Cond :=
  option_list (CInZone <$> in_zone w) ++ option_list (CNotInZone <$> not_in_zone w)
  ++ option_list (CNearHuman <$> near_human w)
  ++ option_list (CNotNearHuman <$> not_near_human w)
  ++ option_list (CNear <$> near w) ++ option_list (CRole <$> role w).

(** The documented compilation of a condition: topic, predicate, mode. *)
Definition cond_trigger (robot_id : string) (c : Cond) : Trigger :=
  let local r := "robot/" +:+ robot_id +:+ "/local/" +:+ r in
  match c with
  | CInZone z => mkTrigger (local "zone") (Some (zone_is z)) Edge
  | CNotInZone z => mkTrigger (local "zone") (Some (Not (zone_is z))) Edge
  | CNearHuman d =>
      mkTrigger (local "human_present")
        (Some (Comparison OpLt (Prim HumanPresence) (OFloat d))) Level
  | CNotNearHuman d =>
      mkTrigger (local "human_present")
        (Some (Comparison OpGe (Prim HumanPresence) (OFloat d))) Level
  | CNear n =>
      mkTrigger (local "proximity")
        (Some (Comparison OpLt (Prim (Proximity (entity n))) (OFloat (dist n)))) Level
  | CRole r =>
      mkTrigger (local "role") (Some (Comparison OpEq (Prim PRobot) (OStr r))) Edge
  end.

(** Every condition and every [all] block holds, and some [any] block does
    when there is one. *)
Fixpoint when_sem (rho : Cond -> bool) (w : SemanticWhen) : bool :=
  forallb rho (conditions w) && forallb (when_sem rho) (sw_all w)
  && match sw_any w with [] => true | l => existsb (when_sem rho) l end.

Lemma when_sem_ext (f g : Cond -> bool) :
  (forall c, f c = g c) -> forall w, when_sem f w = when_sem g w.
Proof.
  intros H w. induction w as [iz niz nh nnh n r al an IHal IHan] using SemanticWhen_nested_ind.
  cbn [when_sem sw_all sw_any].
  assert (forall l, Forall (fun w => when_sem f w = when_sem g w) l ->
    forallb (when_sem f) l = forallb (when_sem g) l /\
    existsb (when_sem f) l = existsb (when_sem g) l) as Hl.
  { induction 1 as [|x l Hx _ [I1 I2]]; [done|]. simpl. by rewrite Hx, I1, I2. }
  destruct (Hl _ IHal) as [-> _], (Hl _ IHan) as [_ Hany]. f_equal; [f_equal|].
  - induction (conditions _) as [|c cs IH]; [done|]. simpl. by rewrite H, IH.
  - destruct an; [done|]. exact Hany.
Qed.

Fixpoint expr_sem (rho : Trigger -> bool) (e : WhenExpr) : bool :=
  match e with
  | Leaf t => rho t
  | All es => forallb (expr_sem rho) es
  | Any es => existsb (expr_sem rho) es
  end.

(** No empty connective anywhere. *)
Fixpoint wf_expr (e : WhenExpr) : bool :=
  match e with
  | Leaf _ => true
  | All es | Any es => match es with [] => false | _ => forallb wf_expr es end
  end.

Fixpoint expr_triggers (e : WhenExpr) : list Trigger :=
  match e with
  | Leaf t => [t]
  | All es | Any es => concat (map expr_triggers es)
  end.

(** Every condition key of a block, nested blocks included. *)
Fixpoint all_conditions (w : SemanticWhen) : list Cond :=
  conditions w ++ concat (map all_conditions (sw_all w))
  ++ concat (map all_conditions (sw_any w)).

(** ** Which trees fit the two-level guard

    [fits e n o]: [e] is an AND of [n] triggers, ANDed with an OR group when
    [o]. *)
Inductive fits : WhenExpr -> nat -> bool -> Prop :=
  | fits_leaf t : fits (Leaf t) 1 false
  | fits_all es n o : fits_and es n o -> fits (All es) n o
  | fits_any es o : fits_or es o -> fits (Any es) 0 o
with fits_and : list WhenExpr -> nat -> bool -> Prop :=
  | fits_and_nil : fits_and [] 0 false
  | fits_and_cons e es n m o o' :
      fits e n o -> fits_and es m o' -> (o && o' = false) ->
      fits_and (e :: es) (n + m) (o || o')
with fits_or : list WhenExpr -> bool -> Prop :=
  | fits_or_nil : fits_or [] false
  | fits_or_trigger e es o : fits e 1 false -> fits_or es o -> fits_or (e :: es) true
  | fits_or_group e es o : fits e 0 true -> fits_or es o -> fits_or (e :: es) true.

Section guards.
Context (fmt_f64 : f64 -> string).

Lemma or_group_app rho l1 l2 :
  l1 <> [] -> l2 <> [] -> or_group rho (l1 ++ l2) = or_group rho l1 || or_group rho l2.
Proof.
  destruct l1 as [|a l1], l2 as [|b l2]; try done. intros _ _.
  unfold or_group. simpl. by rewrite existsb_app, orb_assoc.
Qed.

Lemma forallb_or_group rho ts : ts <> [] -> or_group rho ts = existsb rho ts.
Proof. by destruct ts. Qed.

(** *** Leaves *)
Lemma local_trigger_eq id r p m :
  has_char slash id = false -> has_char slash r = false ->
  local_trigger id r p m = Ok (mkTrigger ("robot/" +:+ id +:+ "/local/" +:+ r) (Some p) m).
Proof. intros Hi Hr. unfold local_trigger. by rewrite robot_local_Ok. Qed.

Lemma leaf_triggers_eq w id :
  has_char slash id = false ->
  leaf_triggers w id = Ok (map (cond_trigger id) (conditions w)).
Proof.
  intros Hi. destruct w as [iz niz nh nnh n r al an].
  unfold leaf_triggers, conditions. simpl.
  destruct iz, niz, nh, nnh, n, r; simpl; rewrite ?local_trigger_eq by done; done.
Qed.

Lemma when_is_empty_conditions w :
  when_is_empty w = true <-> conditions w = [] /\ sw_all w = [] /\ sw_any w = [].
Proof.
  destruct w as [[] [] [] [] [] [] [|] [|]]; unfold conditions; simpl;
    (split; [by auto|intros (?&?&?); done]).
Qed.

(** *** Inversion of the builder *)
Lemma build_unfold w id zs rn p :
  build_when_expr fmt_f64 w id zs rn p =
  if when_is_empty w then
    Err (with_path (semantic_error_new EmptyWhen
           ("rule '" +:+ rn +:+ "': when is empty (no condition key, no all, no any)")) p)
  else
    _ ← check_distances fmt_f64 rn p (distances w);
    _ ← check_zones zs rn p (zone_refs w);
    leaves ← leaf_triggers w id;
    al ← mapM_i (fun idx n => build_when_expr fmt_f64 n id zs rn (child_path p "all" idx)) 0 (sw_all w);
    an ← mapM_i (fun idx n => build_when_expr fmt_f64 n id zs rn (child_path p "any" idx)) 0 (sw_any w);
    assemble (map Leaf leaves ++ al) an.
Proof. by destruct w. Qed.

Lemma build_inv w id zs rn p e :
  has_char slash id = false ->
  build_when_expr fmt_f64 w id zs rn p = Ok e ->
  when_is_empty w = false /\
  check_distances fmt_f64 rn p (distances w) = Ok tt /\
  check_zones zs rn p (zone_refs w) = Ok tt /\
  exists al an,
    mapM_i (fun idx n => build_when_expr fmt_f64 n id zs rn (child_path p "all" idx))
      0 (sw_all w) = Ok al /\
    mapM_i (fun idx n => build_when_expr fmt_f64 n id zs rn (child_path p "any" idx))
      0 (sw_any w) = Ok an /\
    assemble (map Leaf (map (cond_trigger id) (conditions w)) ++ al) an = Ok e.
Proof.
  intros Hi. rewrite build_unfold, (leaf_triggers_eq w id Hi).
  destruct (when_is_empty w); [done|].
  rewrite !res_bind_Ok. intros ([] & Hd & H). split; [done|]. split; [done|].
  apply res_bind_Ok in H as ([] & Hz & H). split; [done|].
  apply res_bind_Ok in H as (l & [= <-] & H).
  apply res_bind_Ok in H as (al & Hal & H).
  apply res_bind_Ok in H as (an & Han & H). eauto 6.
Qed.

Lemma assemble_Ok ands anys e :
  assemble ands anys = Ok e ->
  (forall rho, expr_sem rho e =
     forallb (expr_sem rho) ands
     && match anys with [] => true | l => existsb (expr_sem rho) l end) /\
  wf_expr e = forallb wf_expr ands && forallb wf_expr anys /\
  expr_triggers e = concat (map expr_triggers ands) ++ concat (map expr_triggers anys).
Proof.
  destruct ands as [|a [|a' ands]], anys as [|b anys]; simpl; intros [= <-].
  all: try (split; [intros rho|split]).
  all: simpl; rewrite ?forallb_app, ?map_app, ?concat_app, ?andb_true_r, ?app_nil_r; simpl;
    rewrite ?andb_true_r, ?app_nil_r, <- ?app_assoc, <- ?andb_assoc; done.
Qed.

Lemma mapM_i_Forall2_in {E A B} (f : nat -> A -> res E B) (P : A -> B -> Prop) i l ys :
  Forall (fun x => forall k y, f k x = Ok y -> P x y) l ->
  mapM_i f i l = Ok ys -> Forall2 P l ys.
Proof.
  intros HP. revert i ys. induction HP as [|x l Hx Hl IH]; intros i ys.
  { intros [= <-]. constructor. }
  rewrite mapM_i_cons_Ok. intros (y & ys' & Hf & Hm & ->). constructor; eauto.
Qed.

(** *** The builder refines the reference meaning *)
(** The tree [build_when_expr] returns when it accepts the block. *)
Fixpoint expr_of (id : string) (w : SemanticWhen) : WhenExpr :=
  let parts := map Leaf (map (cond_trigger id) (conditions w)) ++ map (expr_of id) (sw_all w) in
  let anys := map (expr_of id) (sw_any w) in
  match parts, anys with
  | [e], [] => e
  | _, [] => All parts
  | [], _ => Any anys
  | _, _ => All (parts ++ [Any anys])
  end.

Lemma build_expr_of w id : has_char slash id = false -> forall zs rn p e,
  build_when_expr fmt_f64 w id zs rn p = Ok e -> e = expr_of id w.
Proof.
  intros Hi. induction w as [iz niz nh nnh n r al an IHal IHan] using SemanticWhen_nested_ind.
  intros zs rn p e H. apply (build_inv _ _ _ _ _ _ Hi) in H as (_&_&_& al' & an' & Hal & Han & Ha).
  assert (forall l l', Forall2 (fun w e => e = expr_of id w) l l' -> l' = map (expr_of id) l)
    as Hmap by (induction 1; simpl; congruence).
  assert (al' = map (expr_of id) al) as ->.
  { apply Hmap. eapply mapM_i_Forall2_in; [|exact Hal]. eapply Forall_impl; [exact IHal|].
    intros x Hx k y. apply Hx. }
  assert (an' = map (expr_of id) an) as ->.
  { apply Hmap. eapply mapM_i_Forall2_in; [|exact Han]. eapply Forall_impl; [exact IHan|].
    intros x Hx k y. apply Hx. }
  revert Ha. cbn [expr_of sw_all sw_any]. unfold assemble.
  by destruct (map Leaf _ ++ _) as [|? []], (map (expr_of id) an); intros [= <-].
Qed.

Definition built (id : string) (w : SemanticWhen) (e : WhenExpr) : Prop :=
  wf_expr e = true /\
  expr_triggers e = map (cond_trigger id) (all_conditions w) /\
  forall rho, expr_sem rho e = when_sem (fun c => rho (cond_trigger id c)) w.

Lemma built_Forall2 id l l' :
  Forall2 (built id) l l' ->
  forallb wf_expr l' = true /\
  concat (map expr_triggers l') = map (cond_trigger id) (concat (map all_conditions l)) /\
  forall rho, forallb (expr_sem rho) l' = forallb (when_sem (fun c => rho (cond_trigger id c))) l /\
              existsb (expr_sem rho) l' = existsb (when_sem (fun c => rho (cond_trigger id c))) l.
Proof.
  induction 1 as [|x y l l' (H1&H2&H3) _ (I1&I2&I3)]; [done|]. simpl.
  rewrite H1, I1, H2, I2, map_app. split; [done|]. split; [done|].
  intros rho. rewrite H3. destruct (I3 rho) as [-> ->]. done.
Qed.

Lemma leaves_built id cs :
  forallb wf_expr (map Leaf (map (cond_trigger id) cs)) = true /\
  concat (map expr_triggers (map Leaf (map (cond_trigger id) cs))) = map (cond_trigger id) cs /\
  forall rho, forallb (expr_sem rho) (map Leaf (map (cond_trigger id) cs))
              = forallb (fun c => rho (cond_trigger id c)) cs.
Proof.
  induction cs as [|c cs (I1&I2&I3)]; [done|]. simpl. rewrite I1, I2.
  split; [done|]. split; [done|]. intros rho. by rewrite I3.
Qed.

Lemma assemble_built id w al an e :
  Forall2 (built id) (sw_all w) al -> Forall2 (built id) (sw_any w) an ->
  assemble (map Leaf (map (cond_trigger id) (conditions w)) ++ al) an = Ok e ->
  built id w e.
Proof.
  intros Hal Han (Hsem & Hwf & Htr)%assemble_Ok.
  pose proof (built_Forall2 _ _ _ Hal) as (A1&A2&A3).
  pose proof (built_Forall2 _ _ _ Han) as (B1&B2&B3).
  destruct (leaves_built id (conditions w)) as (L1&L2&L3).
  split; [by rewrite Hwf, forallb_app, L1, A1, B1|]. split.
  - rewrite Htr, map_app, concat_app, L2, A2, B2, <- !map_app, <- app_assoc.
    by destruct w.
  - intros rho. rewrite Hsem, forallb_app, L3, (proj1 (A3 rho)).
    destruct w as [iz niz nh nnh n r wal wan]. cbn [when_sem sw_all sw_any] in *.
    specialize (B3 rho) as [_ HB]. destruct Han as [|x y l l' Hx Hl]; [done|].
    f_equal. exact HB.
Qed.

Lemma build_sound w id : has_char slash id = false -> forall zs rn p e,
  build_when_expr fmt_f64 w id zs rn p = Ok e -> built id w e.
Proof.
  intros Hi. induction w as [iz niz nh nnh n r al an IHal IHan] using SemanticWhen_nested_ind.
  intros zs rn p e H. apply (build_inv _ _ _ _ _ _ Hi) in H as (_&_&_& al' & an' & Hal & Han & Ha).
  revert Ha. apply assemble_built.
  - eapply mapM_i_Forall2_in; [|exact Hal]. eapply Forall_impl; [exact IHal|].
    intros x Hx k y. apply Hx.
  - eapply mapM_i_Forall2_in; [|exact Han]. eapply Forall_impl; [exact IHan|].
    intros x Hx k y. apply Hx.
Qed.

(** *** Flattening keeps the meaning *)
Lemma lower_any_cons low rn p i c cs any W :
  lower_any_loop low rn p i (c :: cs) any = Ok W <->
  exists w, low c (child_path p "any" i) = Ok w /\
    ((exists t, w = mkWhen [t] []) \/ (exists t ts, w = mkWhen [] (t :: ts))) /\
    lower_any_loop low rn p (S i) cs (any ++ w_all w ++ w_any w) = Ok W.
Proof.
  simpl. destruct (low c _) as [[al an]|er|wh]; [|split; [done|by intros (?&?&_)]..].
  simpl. split.
  - destruct al as [|t [|t' al]], an as [|u an]; try done; intros H.
    + exists (mkWhen [] (u :: an)). eauto 6.
    + exists (mkWhen [t] []). eauto 6.
  - by intros (w & [= <-] & [[t [= -> ->]]|(t & ts & [= -> ->])] & Hr).
Qed.

Lemma lower_all_cons low rn p i c cs all any W :
  lower_all_loop low rn p i (c :: cs) all any = Ok W <->
  exists w, low c (child_path p "all" i) = Ok w /\
    (w_any w = [] \/ any = []) /\
    lower_all_loop low rn p (S i) cs (all ++ w_all w) (any ++ w_any w) = Ok W.
Proof.
  simpl. destruct (low c _) as [[al an]|er|wh]; [|split; [done|by intros (?&?&_)]..].
  simpl. split.
  - destruct an as [|u an], any as [|v any]; try done; intros H; eexists;
      (split; [done|]); simpl; rewrite ?app_nil_r; auto.
  - intros (w & [= <-] & Hor & Hr). simpl in *.
    destruct an as [|u an]; [by rewrite app_nil_r in Hr|].
    destruct Hor as [| ->]; done.
Qed.

Definition sound_when (e : WhenExpr) (w : When) : Prop :=
  w_all w ++ w_any w ≡ₚ expr_triggers e /\
  (wf_expr e = true -> guard_empty w = false /\
   forall rho, forallb rho (w_all w) && or_group rho (w_any w) = expr_sem rho e).

Lemma lower_all_sound low rn p cs :
  Forall (fun e => forall p W, low e p = Ok W -> sound_when e W) cs ->
  forall i all any W, lower_all_loop low rn p i cs all any = Ok W ->
  w_all W ++ w_any W ≡ₚ all ++ any ++ concat (map expr_triggers cs) /\
  (forallb wf_expr cs = true -> forall rho,
     forallb rho (w_all W) && or_group rho (w_any W)
     = forallb rho all && or_group rho any && forallb (expr_sem rho) cs).
Proof.
  induction 1 as [|e cs He _ IH]; intros i all any W.
  - intros [= <-]. simpl. rewrite app_nil_r. split; [done|]. intros _ rho. by rewrite andb_true_r.
  - rewrite lower_all_cons. intros (w & Hlow & Hor & Hrest).
    apply He in Hlow as [Hp Hs]. apply IH in Hrest as [Hp' Hs']. split.
    + rewrite Hp', <- !app_assoc. cbn [map concat]. rewrite <- Hp. solve_Permutation.
    + cbn [forallb]. intros [Hwe Hwf]%andb_true_iff rho. rewrite (Hs' Hwf), forallb_app.
      rewrite <- (proj2 (Hs Hwe) rho). destruct Hor as [-> | ->].
      * rewrite app_nil_r. simpl. destruct (forallb rho all), (forallb rho (w_all w)),
          (or_group rho any), (forallb (expr_sem rho) cs); done.
      * simpl. destruct (forallb rho all), (forallb rho (w_all w)),
          (or_group rho (w_any w)), (forallb (expr_sem rho) cs); done.
Qed.

Lemma lower_any_sound low rn p cs :
  Forall (fun e => forall p W, low e p = Ok W -> sound_when e W) cs ->
  forall i any W, lower_any_loop low rn p i cs any = Ok W ->
  w_all W = [] /\ (any ++ concat (map expr_triggers cs)) ≡ₚ w_any W /\
  (forallb wf_expr cs = true -> forall rho,
     existsb rho (w_any W) = existsb rho any || existsb (expr_sem rho) cs).
Proof.
  induction 1 as [|e cs He _ IH]; intros i any W.
  - intros [= <-]. simpl. rewrite app_nil_r. split; [done|]. split; [done|].
    intros _ rho. by rewrite orb_false_r.
  - rewrite lower_any_cons. intros (w & Hlow & Hor & Hrest).
    apply He in Hlow as [Hp Hs]. apply IH in Hrest as (Hnil & Hp' & Hs').
    split; [done|]. split.
    + rewrite <- Hp'. cbn [map concat]. rewrite <- Hp, <- !app_assoc. done.
    + cbn [forallb]. intros [Hwe Hwf]%andb_true_iff rho. rewrite (Hs' Hwf), existsb_app.
      cbn [existsb]. rewrite <- (proj2 (Hs Hwe) rho).
      destruct Hor as [[t ->]|(t & ts & ->)]; simpl; rewrite ?orb_false_r, ?andb_true_r;
        by rewrite <- ?orb_assoc.
Qed.

Lemma wf_triggers e : wf_expr e = true -> expr_triggers e <> [].
Proof.
  induction e as [es IH|es IH|t] using WhenExpr_nested_ind; [..|done].
  all: destruct IH as [|e es He _]; [done|]; simpl; intros [H _]%andb_true_iff;
    apply He in H; by destruct (expr_triggers e).
Qed.

Lemma triggers_guard w l : w_all w ++ w_any w ≡ₚ l -> l <> [] -> guard_empty w = false.
Proof. destruct w as [[] []]; try done. simpl. by intros ->%Permutation_nil_l. Qed.

Lemma lower_sound e rn : forall p W, lower e rn p = Ok W -> sound_when e W.
Proof.
  unfold sound_when.
  induction e as [es IH|es IH|t] using WhenExpr_nested_ind; intros p W H.
  - eapply lower_all_sound in H as [Hp Hs]; [|exact IH]. split; [done|].
    intros Hwf. split; [refine (triggers_guard _ _ _ (wf_triggers _ Hwf)); done|].
    destruct es as [|e es]; [done|]. intros rho. by rewrite (Hs Hwf).
  - eapply lower_any_sound in H as (Hnil & Hp & Hs); [|exact IH].
    assert (w_all W ++ w_any W ≡ₚ expr_triggers (Any es)) as Hp'
      by (rewrite Hnil; simpl; by rewrite <- Hp).
    split; [done|]. intros Hwf. split; [refine (triggers_guard _ _ _ (wf_triggers _ Hwf)); done|].
    destruct es as [|e es]; [done|]. intros rho. rewrite Hnil.
    assert (w_any W <> []) as Hne.
    { intros Hn. rewrite Hn, Hnil in Hp'. apply wf_triggers in Hwf.
      by apply Permutation_nil_l in Hp'. }
    cbn [forallb]. rewrite forallb_or_group by done. by rewrite (Hs Hwf).
  - injection H as <-. split; [done|]. intros _. split; [done|].
    intros rho. simpl. by rewrite !andb_true_r.
Qed.

(** *** Which trees flatten *)
Definition nonempty {A} (l : list A) : bool := match l with [] => false | _ => true end.

Lemma nonempty_app {A} (l l' : list A) : nonempty (l ++ l') = nonempty l || nonempty l'.
Proof. by destruct l. Qed.

(** [w] has [n] conjuncts, and an OR group when [o]. *)
Definition dims (w : When) (n : nat) (o : bool) : Prop :=
  length (w_all w) = n /\ nonempty (w_any w) = o.

Lemma lower_all_fits low rn p cs :
  Forall (fun e => forall p W, low e p = Ok W ->
            fits e (length (w_all W)) (nonempty (w_any W))) cs ->
  forall i all any W, lower_all_loop low rn p i cs all any = Ok W ->
  exists n o, fits_and cs n o /\ nonempty any && o = false /\
              dims W (length all + n) (nonempty any || o).
Proof.
  induction 1 as [|e cs He _ IH]; intros i all any W.
  - intros [= <-]. exists 0, false. unfold dims. rewrite andb_false_r, orb_false_r, Nat.add_0_r.
    split; [constructor|done].
  - rewrite lower_all_cons. intros (w & Hlow & Hor & Hrest).
    apply He in Hlow. apply IH in Hrest as (n & o & Hf & Ho & Hd).
    rewrite nonempty_app in *. rewrite length_app in Hd. eexists _, _. split; [|split].
    + econstructor; [exact Hlow|exact Hf|]. by destruct (nonempty any), (nonempty (w_any w)), o.
    + by destruct Hor as [-> | ->]; [destruct (nonempty any), o|].
    + by rewrite orb_assoc, Nat.add_assoc.
Qed.

Lemma lower_any_fits low rn p cs :
  Forall (fun e => forall p W, low e p = Ok W ->
            fits e (length (w_all W)) (nonempty (w_any W))) cs ->
  forall i any W, lower_any_loop low rn p i cs any = Ok W ->
  exists o, fits_or cs o /\ dims W 0 (nonempty any || o).
Proof.
  induction 1 as [|e cs He _ IH]; intros i any W.
  - intros [= <-]. exists false. rewrite orb_false_r. split; [constructor|done].
  - rewrite lower_any_cons. intros (w & Hlow & Hor & Hrest).
    apply He in Hlow. apply IH in Hrest as (o & Hf & Hd).
    rewrite !nonempty_app in Hd. exists true.
    destruct Hor as [[t ->]|(t & ts & ->)]; simpl in *; rewrite orb_true_r in *;
      (split; [|done]); by econstructor.
Qed.

Lemma lower_fits e rn : forall p W,
  lower e rn p = Ok W -> fits e (length (w_all W)) (nonempty (w_any W)).
Proof.
  induction e as [es IH|es IH|t] using WhenExpr_nested_ind; intros p W H.
  - eapply lower_all_fits in H as (n & o & Hf & _ & [-> ->]); [|exact IH]. by constructor.
  - eapply lower_any_fits in H as (o & Hf & [-> ->]); [|exact IH]. by constructor.
  - injection H as <-. constructor.
Qed.

Lemma fits_lower_all low rn p cs :
  Forall (fun e => forall n o, fits e n o -> forall p, exists W, low e p = Ok W /\ dims W n o) cs ->
  forall n o, fits_and cs n o -> forall i all any, nonempty any && o = false ->
  exists W, lower_all_loop low rn p i cs all any = Ok W /\
            dims W (length all + n) (nonempty any || o).
Proof.
  induction 1 as [|e cs He _ IH]; intros n o Hf; inversion Hf as [|e' cs' n1 m o1 o2 Hf1 Hf2 Ho]; subst;
    intros i all any Hany.
  - eexists. split; [done|]. unfold dims. by rewrite Nat.add_0_r, orb_false_r.
  - destruct (He _ _ Hf1 (child_path p "all" i)) as (w & Hlow & Hl & <-).
    destruct (IH _ _ Hf2 (S i) (all ++ w_all w) (any ++ w_any w)) as (W & HW & Hd).
    { rewrite nonempty_app. by destruct (nonempty any), (nonempty (w_any w)), o2. }
    exists W. split.
    + apply lower_all_cons. exists w. split; [done|]. split; [|done].
      destruct (w_any w), any; first [by auto|done].
    + rewrite nonempty_app, length_app, Hl, <- orb_assoc, <- Nat.add_assoc in Hd. done.
Qed.

Lemma fits_lower_any low rn p cs :
  Forall (fun e => forall n o, fits e n o -> forall p, exists W, low e p = Ok W /\ dims W n o) cs ->
  forall o, fits_or cs o -> forall i any,
  exists W, lower_any_loop low rn p i cs any = Ok W /\ dims W 0 (nonempty any || o).
Proof.
  induction 1 as [|e cs He _ IH]; intros o Hf; inversion Hf as [|e' cs' o' Hf1 Hf2|e' cs' o' Hf1 Hf2];
    subst; intros i any; [by eexists; rewrite orb_false_r| |].
  all: destruct (He _ _ Hf1 (child_path p "any" i)) as (w & Hlow & Hl & Ha).
  all: destruct (IH _ Hf2 (S i) (any ++ w_all w ++ w_any w)) as (W & HW & Hd).
  all: exists W; split; [apply lower_any_cons; exists w; split; [done|]; split; [|done]|].
  all: destruct w as [[|t [|]] [|u l]]; try done; simpl in *; eauto.
  all: by rewrite nonempty_app, <- orb_assoc in Hd.
Qed.

Lemma fits_lower e rn : forall n o, fits e n o ->
  forall p, exists W, lower e rn p = Ok W /\ dims W n o.
Proof.
  induction e as [es IH|es IH|t] using WhenExpr_nested_ind; intros n o Hf p;
    inversion Hf as [t'|es' n' o' Hes|es' o' Hes]; subst.
  - apply (fits_lower_all _ rn p es IH n o Hes 0 [] []). done.
  - apply (fits_lower_any _ rn p es IH o Hes 0 []).
  - by exists (mkWhen [t] []).
Qed.

(** Any other outcome is the structured nesting error. *)
Definition ok_or_code {A} (cs : list ErrorCode) (m : res SemanticError A) : Prop :=
  match m with Ok _ => True | Err er => code er ∈ cs | Panic _ => False end.

Lemma lower_total e rn : forall p, ok_or_code [UnrepresentableNesting] (lower e rn p).
Proof.
  induction e as [es IH|es IH|t] using WhenExpr_nested_ind; intros p; [..|done]; simpl.
  - cut (forall i al an, ok_or_code [UnrepresentableNesting]
      (lower_all_loop (fun c p => lower c rn p) rn p i es al an)); [auto|].
    induction IH as [|e es He _ IHes]; intros i al an; [done|]. simpl.
    specialize (He (child_path p "all" i)). destruct (lower e rn _) as [[a [|]]|er|]; try done;
      simpl; [by apply IHes|]. destruct an; [by apply IHes|by left].
  - cut (forall i an, ok_or_code [UnrepresentableNesting]
      (lower_any_loop (fun c p => lower c rn p) rn p i es an)); [auto|].
    induction IH as [|e es He _ IHes]; intros i an; [done|]. simpl.
    specialize (He (child_path p "any" i)).
    destruct (lower e rn _) as [[[|? [|]] [|]]|er|]; try done; simpl;
      first [by apply IHes|by left].
Qed.

(** *** Which blocks the builder accepts *)
Fixpoint when_valid (zs : gmap string ZoneShape) (w : SemanticWhen) : bool :=
  negb (when_is_empty w)
  && forallb (fun d => negb (SFleb d f64_zero)) (distances w)
  && forallb (fun z => is_some (zs !! z)) (zone_refs w)
  && forallb (when_valid zs) (sw_all w) && forallb (when_valid zs) (sw_any w).

(** [cases cs m b]: [m] never panics, succeeds exactly when [b], and fails
    only with a code of [cs]. *)
Definition cases {A} (cs : list ErrorCode) (m : res SemanticError A) (b : bool) : Prop :=
  ok_or_code cs m /\ is_ok m = b.

Lemma cases_mono {A} cs cs' (m : res SemanticError A) b :
  cs ⊆ cs' -> cases cs m b -> cases cs' m b.
Proof. intros Hs [H1 H2]. split; [|done]. destruct m; simpl in *; auto. Qed.

Lemma cases_bind {A B} cs (m : res SemanticError A) (f : A -> res SemanticError B) b b' :
  cases cs m b -> (forall a, m = Ok a -> cases cs (f a) b') -> cases cs (m ≫= f) (b && b').
Proof.
  intros [H1 <-] Hf. destruct m as [a| |]; simpl in *; [apply (Hf a eq_refl)|done..].
Qed.

Lemma cases_ret {A} cs (a : A) : cases cs (Ok a) true.
Proof. done. Qed.

Lemma cases_map_err {A} cs g (m : res SemanticError A) b :
  (forall e, code (g e) = code e) -> cases cs m b -> cases cs (map_err g m) b.
Proof. intros Hg [H1 <-]. destruct m; simpl in *; [done| |done]. by rewrite <- (Hg e) in H1. Qed.

Lemma cases_fmap {A B} cs (g : A -> B) (m : res SemanticError A) b :
  cases cs m b -> cases cs (g <$> m) b.
Proof. by destruct m. Qed.

Lemma mapM_i_cases {A B} cs (f : nat -> A -> res SemanticError B) (b : A -> bool) l :
  Forall (fun x => forall k, cases cs (f k x) (b x)) l ->
  forall i, cases cs (mapM_i f i l) (forallb b l).
Proof.
  induction 1 as [|x l Hx _ IH]; intros i; simpl; [done|].
  destruct (Hx i) as [H1 <-], (IH (S i)) as [I1 <-]. split.
  - destruct (f i x); simpl; [|done..]. by destruct (mapM_i f (S i) l).
  - destruct (f i x); simpl; [|done..]. by destruct (mapM_i f (S i) l).
Qed.

Lemma iterM_i_cases {A} cs (f : nat -> A -> res SemanticError unit) (b : A -> bool) l :
  Forall (fun x => forall k, cases cs (f k x) (b x)) l ->
  forall i, cases cs (iterM_i f i l) (forallb b l).
Proof.
  induction 1 as [|x l Hx _ IH]; intros i; simpl; [done|].
  destruct (Hx i) as [H1 <-], (IH (S i)) as [I1 <-]. by destruct (f i x) as [[]| |].
Qed.

Definition when_codes : list ErrorCode := [EmptyWhen; InvalidDistance; UnknownZone].

Lemma check_distances_cases rn p ds :
  cases when_codes (check_distances fmt_f64 rn p ds)
    (forallb (fun d => negb (SFleb d f64_zero)) ds).
Proof.
  induction ds as [|d ds IH]; simpl; [done|].
  destruct (SFleb d f64_zero); simpl; [split; [set_solver|done]|done].
Qed.

Lemma check_zones_cases zs rn p names :
  cases when_codes (check_zones zs rn p names) (forallb (fun z => is_some (zs !! z)) names).
Proof.
  induction names as [|z names IH]; simpl; [done|].
  destruct (zs !! z); simpl; [done|split; [set_solver|done]].
Qed.

Lemma assemble_cases ands anys :
  nonempty ands || nonempty anys = true -> cases when_codes (assemble ands anys) true.
Proof. by destruct ands as [|? []], anys. Qed.

Lemma mapM_i_nonempty {E A B} (f : nat -> A -> res E B) i l r :
  mapM_i f i l = Ok r -> nonempty r = nonempty l.
Proof. intros [Hl _]%mapM_i_lookup. by destruct l, r. Qed.

Lemma when_nonempty w :
  nonempty (conditions w) || nonempty (sw_all w) || nonempty (sw_any w)
  = negb (when_is_empty w).
Proof. by destruct w as [[] [] [] [] [] [] [] []]. Qed.

Lemma build_cases id zs : has_char slash id = false -> forall w rn p,
  cases when_codes (build_when_expr fmt_f64 w id zs rn p) (when_valid zs w).
Proof.
  intros Hi w. induction w as [iz niz nh nnh n r al an IHal IHan] using SemanticWhen_nested_ind.
  intros rn p. rewrite build_unfold, (leaf_triggers_eq _ _ Hi).
  set (w := mkSemanticWhen iz niz nh nnh n r al an) in *.
  change (when_valid zs w) with (negb (when_is_empty w)
    && forallb (fun d => negb (SFleb d f64_zero)) (distances w)
    && forallb (fun z => is_some (zs !! z)) (zone_refs w)
    && forallb (when_valid zs) (sw_all w) && forallb (when_valid zs) (sw_any w)).
  pose proof (when_nonempty w) as Hne.
  destruct (when_is_empty w); [split; [set_solver|done]|]. cbn [negb andb].
  rewrite <- !andb_assoc, <- (andb_true_r (forallb _ (sw_any w))).
  apply cases_bind; [apply check_distances_cases|intros [] _].
  apply cases_bind; [apply check_zones_cases|intros [] _]. cbn [mbind res_bind].
  apply cases_bind; [|intros al' Hal].
  { apply mapM_i_cases. eapply Forall_impl; [exact IHal|]. simpl. auto. }
  apply cases_bind; [|intros an' Han].
  { apply mapM_i_cases. eapply Forall_impl; [exact IHan|]. simpl. auto. }
  apply assemble_cases.
  rewrite nonempty_app, (mapM_i_nonempty _ _ _ _ Hal), (mapM_i_nonempty _ _ _ _ Han).
  etrans; [|exact Hne]. by destruct (conditions w).
Qed.
End guards.

(** ** Actions, validation and compilation *)
Section compiler.
Context `{JN : JsonNumber}.
Context (fmt_f64 : f64 -> string) (fmt_value : Value -> string).

(** Exactly one verb, a primitive payload, a finite speed, a non-empty topic. *)
Definition action_valid (a : SemanticAction) : bool :=
  (verb_count a =? 1)
  && match sa_payload a with Some p => is_primitive p | None => true end
  && match slow_to a with Some v => is_finite v | None => true end
  && match sa_topic a with Some t => negb (t =? "")%string | None => true end.

(** The verb a valid action carries. *)
Definition verb_of (a : SemanticAction) : ActionSpec :=
  if estop a then Estop
  else if resume a then Resume
  else match slow_to a, sa_topic a with
       | Some v, _ => SlowTo v
       | None, Some t => Raw t (default Null (sa_payload a))
       | None, None => Estop
       end.

Definition action_codes : list ErrorCode := [NoActionVerb; NonPrimitivePayload; InvalidDistance; InvalidTopic].

Lemma try_from_action_cases a rn :
  cases action_codes (try_from_action fmt_f64 fmt_value a rn) (action_valid a) /\
  (forall s, try_from_action fmt_f64 fmt_value a rn = Ok s -> s = verb_of a).
Proof.
  unfold try_from_action, action_valid, verb_of, cases, action_codes.
  destruct a as [e sl r t p q]. unfold verb_count. simpl.
  destruct (match p with Some p => negb (is_primitive p) | None => false end) eqn:Hp.
  - assert (match p with Some p => is_primitive p | None => true end = false) as ->
      by (destruct p as [p|]; [by apply negb_true_iff in Hp|done]).
    rewrite andb_false_r.
    destruct e, sl, r, t; simpl; (split; [split; [set_solver|done]|done]).
  - assert (match p with Some p => is_primitive p | None => true end = true) as ->
      by (destruct p as [p|]; [by apply negb_false_iff in Hp|done]).
    destruct e, sl as [v|], r, t as [t|]; simpl;
      try (split; [split; [set_solver|done]|by intros ? [=]]).
    + destruct (is_finite v); simpl; (split; [split; [set_solver|done]|by intros ? [=]]).
    + destruct (t =? "")%string; simpl; (split; [split; [set_solver|done]|by intros ? [=]]).
Qed.

Lemma promote_path_code p e : code (promote_path p e) = code e.
Proof.
  unfold promote_path. destruct (negb _); [done|]. by destruct (opt_eqb _ _).
Qed.
Lemma payload_path_code p e : code (payload_path p e) = code e.
Proof. unfold payload_path. by destruct (_ && _). Qed.

Definition rule_valid (zs : gmap string ZoneShape) (r : SemanticRule) : bool :=
  forallb action_valid (sr_actions r) && when_valid zs (sr_when r).
Definition validate_codes : list ErrorCode := action_codes ++ when_codes.

Lemma validate_rule_cases zs i r :
  cases validate_codes (validate_rule fmt_f64 fmt_value zs i r) (rule_valid zs r).
Proof.
  unfold validate_rule, rule_valid. apply cases_bind; [|intros [] _].
  - apply iterM_i_cases, Forall_forall. intros a _ k. unfold validate_action.
    apply cases_fmap, cases_map_err; [apply payload_path_code|].
    apply cases_map_err; [apply promote_path_code|].
    eapply cases_mono; [|apply try_from_action_cases]. set_solver.
  - rewrite <- (andb_true_r (when_valid _ _)). apply cases_bind; [|done].
    eapply cases_mono; [|by apply build_cases]. set_solver.
Qed.

Lemma validate_cases doc :
  cases validate_codes (validate fmt_f64 fmt_value doc) (forallb (rule_valid (zones doc)) (m_rules doc)).
Proof. apply iterM_i_cases, Forall_forall. intros r _ k. apply validate_rule_cases. Qed.

(** *** The compiled action *)
Definition raw_topic_ok (a : SemanticAction) : bool :=
  match verb_of a with Raw t _ => is_ok (topic_try_new t) | _ => true end.

(** The documented expansion of each verb. *)
Definition expand_action (id : string) (a : SemanticAction) : Action :=
  match verb_of a with
  | Estop => mkAction "stop/fleet/cmd" Reliable (Object [("stop", Bool true)])
  | Resume => mkAction ("robot/" +:+ id +:+ "/local/drive") Reliable (Object [("resume", Bool true)])
  | SlowTo v =>
      mkAction ("robot/" +:+ id +:+ "/local/drive") (sa_qos a) (Object [("speed_mps", value_of_f64 v)])
  | Raw t p => mkAction (canonicalize t) (sa_qos a) p
  end.

Lemma compile_action_from_spec_eq id a :
  has_char slash id = false ->
  cases [InvalidTopic] (compile_action_from_spec (verb_of a) a id) (raw_topic_ok a) /\
  (forall act, compile_action_from_spec (verb_of a) a id = Ok act -> act = expand_action id a).
Proof.
  intros Hi. unfold compile_action_from_spec, raw_topic_ok, expand_action.
  destruct (verb_of a) as [|v| |t p].
  - unfold stop_cmd. change (topic_try_new _) with (Ok (E := TopicError) (mkTopic "stop/fleet/cmd")).
    simpl. split; [done|]. by intros ? [= <-].
  - rewrite robot_local_Ok by done. simpl. split; [done|]. by intros ? [= <-].
  - rewrite robot_local_Ok by done. simpl. split; [done|]. by intros ? [= <-].
  - destruct (topic_try_new t) as [t'|e|w] eqn:Ht; simpl.
    + split; [done|]. apply topic_try_new_Ok in Ht as (_ & -> & _). by intros ? [= <-].
    + split; [split; [set_solver|done]|done].
    + pose proof (topic_try_new_not_panic t) as Hp. by rewrite Ht in Hp.
Qed.

Lemma compile_action_cases id i rn k a :
  has_char slash id = false ->
  cases validate_codes (compile_action fmt_f64 fmt_value id i rn k a)
    (action_valid a && raw_topic_ok a) /\
  (forall act, compile_action fmt_f64 fmt_value id i rn k a = Ok act -> act = expand_action id a).
Proof.
  intros Hi. unfold compile_action.
  destruct (try_from_action_cases a rn) as [Hc Hs].
  destruct (compile_action_from_spec_eq id a Hi) as [Hc' Hs']. split.
  - apply cases_bind.
    + apply cases_map_err; [apply promote_path_code|]. eapply cases_mono; [|done]. set_solver.
    + intros s Hok%map_err_Ok%Hs. subst. eapply cases_mono; [|done]. set_solver.
  - intros act (s & Hok%map_err_Ok%Hs & Hact)%res_bind_Ok. subst. auto.
Qed.

(** *** The compiled rule *)
Definition representable (id : string) (w : SemanticWhen) : bool :=
  is_ok (lower (expr_of id w) "" "").

Lemma lower_ok_indep e rn p rn' p' : is_ok (lower e rn p) = is_ok (lower e rn' p').
Proof.
  apply eq_true_iff_eq. split; intros H.
  - destruct (lower e rn p) as [W| |] eqn:HW; [|done..].
    by destruct (fits_lower _ rn' _ _ (lower_fits _ _ _ _ HW) p') as (? & -> & _).
  - destruct (lower e rn' p') as [W| |] eqn:HW; [|done..].
    by destruct (fits_lower _ rn _ _ (lower_fits _ _ _ _ HW) p) as (? & -> & _).
Qed.

Lemma cases_true {A} cs cs' (m : res SemanticError A) : cases cs m true -> cases cs' m true.
Proof. intros [_ H]. by destruct m. Qed.

(** What is still to go wrong once a manifest is validated. *)
Definition late_codes : list ErrorCode := [MissingField; UnrepresentableNesting; InvalidTopic].

Definition rule_compilable (id : string) (r : SemanticRule) : bool :=
  representable id (sr_when r) && forallb raw_topic_ok (sr_actions r).

Lemma lower_cases e rn p : cases late_codes (lower e rn p) (is_ok (lower e "" "")).
Proof.
  split; [|apply lower_ok_indep]. pose proof (lower_total e rn p) as H.
  destruct (lower e rn p); simpl in *; try done. set_solver.
Qed.

Lemma compile_rule_cases zs id i r :
  has_char slash id = false -> rule_valid zs r = true ->
  cases late_codes (compile_rule fmt_f64 fmt_value zs id i r) (rule_compilable id r).
Proof.
  intros Hi. unfold rule_valid. rewrite andb_true_iff. intros [Ha Hw].
  unfold compile_rule, rule_compilable.
  pose proof (build_cases fmt_f64 id zs Hi (sr_when r) (sr_name r) (when_path i)) as Hb.
  rewrite Hw in Hb. change (?x && ?y) with (true && (x && y)).
  apply cases_bind; [eapply cases_true, Hb|]. intros e He.
  apply (build_expr_of _ _ _ Hi) in He as ->.
  apply cases_bind; [apply lower_cases|intros W _].
  rewrite <- (andb_true_r (forallb _ _)). apply cases_bind; [|done].
  apply mapM_i_cases, Forall_forall. intros a Hin k.
  rewrite forallb_forall in Ha. specialize (Ha a (proj1 (list_elem_of_In _ _) Hin)).
  destruct (compile_action_cases id i (sr_name r) k a Hi) as [Hc _]. unfold compile_action in *.
  destruct (try_from_action_cases a (sr_name r)) as [Ht Hs]. rewrite Ha in Ht.
  change (raw_topic_ok a) with (true && raw_topic_ok a).
  apply cases_bind; [eapply cases_true, cases_map_err, Ht; apply promote_path_code|].
  intros s Hok%map_err_Ok%Hs. subst. eapply cases_mono; [|by apply compile_action_from_spec_eq].
  set_solver.
Qed.

(** What a compiled rule owes to its source rule. *)
Definition rule_refines (id : string) (sr : SemanticRule) (r : Rule) : Prop :=
  r_name r = sr_name sr /\
  r_actions r = map (expand_action id) (sr_actions sr) /\
  guard_empty (r_when r) = false /\
  w_all (r_when r) ++ w_any (r_when r) ≡ₚ map (cond_trigger id) (all_conditions (sr_when sr)) /\
  forall rho, guard_holds rho (r_when r)
              = when_sem (fun c => rho (cond_trigger id c)) (sr_when sr).

Lemma mapM_i_map {E A B} (f : nat -> A -> res E B) (g : A -> B) i l r :
  (forall k x y, f k x = Ok y -> y = g x) -> mapM_i f i l = Ok r -> r = map g l.
Proof.
  intros Hf H. eapply (mapM_i_Forall2 _ (fun x y => y = g x)) in H; [|exact Hf].
  induction H; simpl; congruence.
Qed.

Lemma compile_rule_refines zs id i sr r :
  has_char slash id = false ->
  compile_rule fmt_f64 fmt_value zs id i sr = Ok r -> rule_refines id sr r.
Proof.
  intros Hi (e & He & H)%res_bind_Ok. apply res_bind_Ok in H as (W & HW & H).
  apply res_bind_Ok in H as (acts & Hacts & [= <-]).
  apply (build_sound _ _ _ Hi) in He as (Hwf & Htr & Hsem).
  apply lower_sound in HW as [Hp Hs]. destruct (Hs Hwf) as [Hne HW].
  split; [done|]. split; [|split; [done|split]]; simpl.
  - eapply mapM_i_map; [|exact Hacts]. intros k a act. by apply compile_action_cases.
  - by rewrite <- Htr.
  - intros rho. unfold guard_holds. by rewrite Hne, HW, Hsem.
Qed.

Lemma compile_Ok doc id rs :
  compile fmt_f64 fmt_value doc id = Ok rs <->
  validate fmt_f64 fmt_value doc = Ok tt /\ site_id (site doc) <> "" /\
  mapM_i (compile_rule fmt_f64 fmt_value (zones doc) id) 0 (m_rules doc) = Ok (rules rs).
Proof.
  unfold compile. rewrite res_bind_Ok. split.
  - intros ([] & -> & H). destruct (String.eqb_spec (site_id (site doc)) ""); [done|].
    apply res_bind_Ok in H as (out & Hout & [= <-]). done.
  - intros (-> & Hs & Hr). exists tt. split; [done|]. apply String.eqb_neq in Hs.
    rewrite Hs, Hr. by destruct rs.
Qed.

Lemma compiled_refines doc id rs :
  has_char slash id = false -> compile fmt_f64 fmt_value doc id = Ok rs ->
  Forall2 (rule_refines id) (m_rules doc) (rules rs).
Proof.
  intros Hi (_ & _ & H)%compile_Ok. eapply mapM_i_Forall2; [|exact H].
  intros k sr r. by apply compile_rule_refines.
Qed.

Lemma compile_validated doc id rs :
  compile fmt_f64 fmt_value doc id = Ok rs -> forallb (rule_valid (zones doc)) (m_rules doc) = true.
Proof. intros (Hv & _)%compile_Ok. destruct (validate_cases doc) as [_ <-]. by rewrite Hv. Qed.

(** *** Topics of compiled rules *)
Definition valid_topic (s : string) : bool :=
  match topic_try_new s with Ok t => (topic_str t =? s)%string | _ => false end.

Lemma valid_topic_intro s t : topic_try_new s = Ok t -> valid_topic (topic_str t) = true.
Proof. intros H%topic_revalidates. unfold valid_topic. by rewrite H, String.eqb_refl. Qed.

Lemma cond_trigger_valid id c :
  has_char slash id = false ->
  valid_topic (t_topic (cond_trigger id c)) = true /\ is_some (t_pred (cond_trigger id c)) = true.
Proof.
  intros Hi. split; [|by destruct c].
  assert (forall r, has_char slash r = false ->
    valid_topic ("robot/" +:+ id +:+ "/local/" +:+ r) = true) as Hr.
  { intros r Hr. pose proof (robot_local_Ok (E := unit) id r Hi Hr) as H.
    apply expect_Ok in H. apply (valid_topic_intro _ _ H). }
  destruct c; by apply Hr.
Qed.

Lemma expand_action_valid id a :
  has_char slash id = false -> raw_topic_ok a = true ->
  valid_topic (a_topic (expand_action id a)) = true.
Proof.
  intros Hi. unfold raw_topic_ok, expand_action.
  pose proof (proj1 (expect_Ok _ _ _) (robot_local_Ok (E := unit) id "drive" Hi eq_refl)) as Hd.
  destruct (verb_of a) as [|v| |t p]; intros Ht; [done|apply (valid_topic_intro _ _ Hd)..|].
  destruct (topic_try_new t) as [t'| |] eqn:H; [|done..].
  pose proof (valid_topic_intro _ _ H) as Hv. by apply topic_try_new_Ok in H as (_ & -> & _).
Qed.

Lemma mapM_i_ok_all {E A B} (f : nat -> A -> res E B) (P : A -> Prop) i l r :
  (forall k x y, f k x = Ok y -> P x) -> mapM_i f i l = Ok r -> Forall P l.
Proof.
  intros Hf H. eapply (mapM_i_Forall2 _ (fun x _ => P x)) in H; [|exact Hf].
  by induction H; constructor.
Qed.

Lemma compile_rule_actions_ok zs id i sr r :
  has_char slash id = false ->
  compile_rule fmt_f64 fmt_value zs id i sr = Ok r ->
  Forall (fun a => raw_topic_ok a = true) (sr_actions sr).
Proof.
  intros Hi (e & He & H)%res_bind_Ok. apply res_bind_Ok in H as (W & HW & H).
  apply res_bind_Ok in H as (acts & Hacts & [= <-]).
  eapply mapM_i_ok_all; [|exact Hacts]. intros k a act Ha.
  destruct (compile_action_cases id i (sr_name sr) k a Hi) as [[_ Hc] _].
  rewrite Ha in Hc. by symmetry in Hc; apply andb_true_iff in Hc as [_ ?].
Qed.

(** *** Totality *)
Lemma compile_outcome (doc : RulesManifest) (id : string) :
  has_char slash id = false ->
  is_panic (compile fmt_f64 fmt_value doc id) = false /\
  is_ok (compile fmt_f64 fmt_value doc id) =
    forallb (rule_valid (zones doc)) (m_rules doc)
    && (negb (site_id (site doc) =? "")%string && forallb (rule_compilable id) (m_rules doc)) /\
  forall e, compile fmt_f64 fmt_value doc id = Err e ->
    validate fmt_f64 fmt_value doc = Err e \/
    (validate fmt_f64 fmt_value doc = Ok tt /\ code e ∈ late_codes).
Proof.
  intros Hi. unfold compile. destruct (validate_cases doc) as [Hv <-].
  destruct (validate fmt_f64 fmt_value doc) as [[]|e|w] eqn:E; [|split_and!; [done..|]; intros ? [= <-]; by left|done].
  cbn [mbind res_bind is_ok andb].
  destruct (site_id (site doc) =? "")%string; cbn [negb andb].
  { split_and!; [done..|]. intros e [= <-]. right. split; [done|]. by left. }
  assert (Forall (fun r => forall k, cases late_codes
    (compile_rule fmt_f64 fmt_value (zones doc) id k r) (rule_compilable id r)) (m_rules doc)) as Hr.
  { destruct (validate_cases doc) as [_ Hok]. rewrite E in Hok. symmetry in Hok.
    apply Forall_forall. intros r Hin k. apply compile_rule_cases; [done|].
    rewrite forallb_forall in Hok. by apply Hok, list_elem_of_In. }
  destruct (mapM_i_cases _ _ _ _ Hr 0) as [Hc <-].
  destruct (mapM_i _ 0 (m_rules doc)); simpl in *; [split_and!; done| |done].
  split_and!; [done..|]. intros e' [= <-]. auto.
Qed.

Lemma compile_no_panic doc id :
  has_char slash id = false -> is_panic (compile fmt_f64 fmt_value doc id) = false.
Proof. intros Hi. apply (compile_outcome doc id Hi). Qed.

Lemma compiled_topics (doc : RulesManifest) (id : string) (rs : Rules) :
  has_char slash id = false ->
  compile fmt_f64 fmt_value doc id = Ok rs ->
  Forall (fun r =>
    Forall (fun t => valid_topic (t_topic t) = true /\ is_some (t_pred t) = true)
      (w_all (r_when r) ++ w_any (r_when r)) /\
    Forall (fun a => valid_topic (a_topic a) = true) (r_actions r)) (rules rs).
Proof.
  intros Hi (_ & _ & H)%compile_Ok.
  eapply (mapM_i_Forall2 _ (fun sr r => rule_refines id sr r /\
    Forall (fun a => raw_topic_ok a = true) (sr_actions sr))) in H.
  - induction H as [|sr r srs rs' [(_ & Hacts & _ & Hp & _) Hraw] _ IH]; constructor; [|done].
    rewrite Hp, Hacts, Forall_map, Forall_map. split.
    + apply Forall_forall. intros c _. by apply cond_trigger_valid.
    + eapply Forall_impl; [exact Hraw|]. intros a. by apply expand_action_valid.
  - intros k sr r Hr. split; [by eapply compile_rule_refines|by eapply compile_rule_actions_ok].
Qed.

(** ** Properties *)

(** C6. The compiler implements the reference meaning.  When [compile]
    returns rules, they are the manifest's rules in order under the same
    names; each one's actions are the documented expansions of the source
    actions; its triggers are exactly the triggers of the source conditions,
    none lost and none added; its guard is not empty; and under every
    valuation of the triggers the two-level guard is true exactly when the
    nested semantic condition is. *)
Theorem compile_refines (doc : RulesManifest) (id : string) (rs : Rules) :
  has_char slash id = false ->
  compile fmt_f64 fmt_value doc id = Ok rs ->
  Forall2 (rule_refines id) (m_rules doc) (rules rs).
Proof. apply compiled_refines. Qed.

(** C7. The compiler is total on robot identifiers without a slash: it never
    panics; it succeeds exactly when every rule is valid, the site is named,
    every condition fits the two-level guard and every raw action topic is a
    valid topic; and it fails either as [validate] fails or, on a validated
    manifest, with one of the three late codes (missing field, unrepresentable
    nesting, invalid topic). *)
Theorem compile_total (doc : RulesManifest) (id : string) :
  has_char slash id = false ->
  is_panic (compile fmt_f64 fmt_value doc id) = false /\
  is_ok (compile fmt_f64 fmt_value doc id) =
    forallb (rule_valid (zones doc)) (m_rules doc)
    && (negb (site_id (site doc) =? "")%string && forallb (rule_compilable id) (m_rules doc)) /\
  forall e, compile fmt_f64 fmt_value doc id = Err e ->
    validate fmt_f64 fmt_value doc = Err e \/
    (validate fmt_f64 fmt_value doc = Ok tt /\ code e ∈ late_codes).
Proof. apply compile_outcome. Qed.

(** C38. What the compiler emits can be deployed: on a slash-free robot
    identifier every trigger of every compiled rule carries a predicate and
    listens on a topic in canonical validated form, and every action
    publishes on such a topic. *)
Theorem compiled_topics_valid (doc : RulesManifest) (id : string) (rs : Rules) :
  has_char slash id = false ->
  compile fmt_f64 fmt_value doc id = Ok rs ->
  Forall (fun r =>
    Forall (fun t => valid_topic (t_topic t) = true /\ is_some (t_pred t) = true)
      (w_all (r_when r) ++ w_any (r_when r)) /\
    Forall (fun a => valid_topic (a_topic a) = true) (r_actions r)) (rules rs).
Proof. apply compiled_topics. Qed.

(** C37. The validator accepts exactly the manifests whose every action has
    one verb, a primitive payload, a finite speed and a non-empty topic and
    whose every condition block is non-empty, positive in its distances and
    closed under the declared zones; it never panics. *)
Theorem validate_exact (doc : RulesManifest) :
  (validate fmt_f64 fmt_value doc = Ok tt <-> forallb (rule_valid (zones doc)) (m_rules doc) = true) /\
  is_panic (validate fmt_f64 fmt_value doc) = false /\
  (forall e, validate fmt_f64 fmt_value doc = Err e -> code e ∈ validate_codes).
Proof.
  destruct (validate_cases doc) as [Hc <-].
  destruct (validate fmt_f64 fmt_value doc) as [[]|e|w]; simpl in *; [| |done].
  - done.
  - split_and!; [done..|]. by intros ? [= <-].
Qed.

(** A single action compiles exactly when it is valid and its raw topic,
    if any, is a topic; it then expands as documented: [estop] is
    [{stop:true}] on [stop/fleet/cmd] and [resume] is [{resume:true}] on the
    robot's drive topic, both reliable whatever the author's [qos], while
    [slow_to] and raw actions keep the author's [qos]. *)
Theorem compile_action_exact (id rn : string) (i k : nat) (a : SemanticAction) (act : Action) :
  has_char slash id = false ->
  (compile_action fmt_f64 fmt_value id i rn k a = Ok act <->
   action_valid a && raw_topic_ok a = true /\ act = expand_action id a).
Proof.
  intros Hi. destruct (compile_action_cases id i rn k a Hi) as [[_ <-] He]. split.
  - intros H. rewrite H. auto.
  - destruct (compile_action _ _ _ _ _ _ _) as [act'| |]; [|by intros []..].
    intros [_ ->]. by rewrite <- (He act').
Qed.
End compiler.

(** C36. Flattening is exact: [lower] yields a guard of [n] conjuncts with or
    without an OR group exactly on the trees that are an AND of [n] triggers
    with at most one OR group (under any grouping), and rejects every other
    tree with the nesting error; it never panics. *)
Theorem lower_exact (e : WhenExpr) (rn p : string) :
  (forall n o, fits e n o <-> exists W, lower e rn p = Ok W /\ dims W n o) /\
  (is_ok (lower e rn p) = false ->
   exists err, lower e rn p = Err err /\ code err = UnrepresentableNesting).
Proof.
  split.
  - intros n o. split; [intros H; by apply (fits_lower _ rn)|].
    intros (W & HW & <- & <-). by eapply lower_fits.
  - pose proof (lower_total e rn p) as H. destruct (lower e rn p) as [|err|]; simpl in *; [done| |done].
    intros _. exists err. split; [done|]. set_solver.
Qed.

(** ** Concrete manifests *)
Module Ex.
Definition fmt (_ : f64) : string := "f".
Definition fmtv (_ : Value (JN := model_number)) : string := "v".
Definition metre : f64 := f64_of_Z 1.
Definition cond_in (z : string) : SemanticWhen :=
  mkSemanticWhen (Some z) None None None None None [] [].
Definition cond_near : SemanticWhen := mkSemanticWhen None None (Some metre) None None None [] [].
Definition cond_role (r : string) : SemanticWhen :=
  mkSemanticWhen None None None None None (Some r) [] [].
Definition either (a b : SemanticWhen) : SemanticWhen :=
  mkSemanticWhen None None None None None None [] [a; b].
Definition both (a b : SemanticWhen) : SemanticWhen :=
  mkSemanticWhen None None None None None None [a; b] [].
Definition estop_action : SemanticAction (JN := model_number) :=
  mkSemanticAction true None false None None BestEffort.
Definition slow_action : SemanticAction (JN := model_number) :=
  mkSemanticAction false (Some metre) false None None BestEffort.
Definition raw_action (t : string) : SemanticAction (JN := model_number) :=
  mkSemanticAction false None false (Some t) (Some (Str "on")) Reliable.
Definition ex_zones : gmap string ZoneShape :=
  {["dock" := mkZone "rect" f64_zero f64_zero metre metre]}.
Definition manifest (w : SemanticWhen) : RulesManifest (JN := model_number) :=
  mkManifest (mkSite "plant" "map") ex_zones
    [mkSemanticRule "guard" w [estop_action; slow_action; raw_action "actuator/horn"]].
Definition good : RulesManifest := manifest (both (cond_in "dock") (either cond_near (cond_role "forklift"))).
Definition two_ors : RulesManifest :=
  manifest (both (either (cond_in "dock") cond_near) (either cond_near (cond_role "forklift"))).

Definition good_rules : Rules (JN := model_number) :=
  match compile fmt fmtv good "7" with Ok r => r | _ => Rules_default end.
End Ex.

Lemma compile_refines_witness : Forall2 (rule_refines "7") (m_rules Ex.good) (rules Ex.good_rules).
Proof.
  apply (compile_refines Ex.fmt Ex.fmtv Ex.good "7" Ex.good_rules); reflexivity.
Defined.

Lemma compile_total_witness : is_panic (compile Ex.fmt Ex.fmtv Ex.good "7") = false.
Proof. apply (compile_total Ex.fmt Ex.fmtv Ex.good "7"); reflexivity. Defined.

Lemma compiled_topics_valid_witness :
  Forall (fun r =>
    Forall (fun t => valid_topic (t_topic t) = true /\ is_some (t_pred t) = true)
      (w_all (r_when r) ++ w_any (r_when r)) /\
    Forall (fun a => valid_topic (a_topic a) = true) (r_actions r)) (rules Ex.good_rules).
Proof.
  apply (compiled_topics_valid Ex.fmt Ex.fmtv Ex.good "7" Ex.good_rules); reflexivity.
Defined.

Lemma compile_action_exact_witness :
  compile_action Ex.fmt Ex.fmtv "7" 0 "guard" 0 Ex.estop_action
  = Ok (mkAction "stop/fleet/cmd" Reliable (Object [("stop", Bool true)])).
Proof.
  apply (compile_action_exact Ex.fmt Ex.fmtv "7" "guard" 0 0 Ex.estop_action
    (mkAction "stop/fleet/cmd" Reliable (Object [("stop", Bool true)]))); [reflexivity|].
  split; reflexivity.
Defined.

(** Validation does not imply compilation: a manifest whose condition is
    an AND of two OR groups is accepted by [validate], and [compile] rejects
    it with [E010] at the second group. *)
Theorem validate_accepts_uncompilable (fmt_f64 : f64 -> string) (fmt_value : Value -> string) :
  validate fmt_f64 fmt_value Ex.two_ors = Ok tt /\
  exists e, compile fmt_f64 fmt_value Ex.two_ors "7" = Err e /\
            code e = UnrepresentableNesting /\ field_path e = Some "rules[0].when.all[1]".
Proof. split; [reflexivity|]. eexists. split; [reflexivity|]. split; reflexivity. Qed.
