(* ===== verification/Engine.v ===== *)
(** * Engine: the evaluation state of the rule engine ([src/engine.rs])

    The predicate evaluator, the edge/level trigger semantics over the [prev]
    map, ingestion of samples and zone events, the tick and the topic
    collection.  The async loop around them is in Loop.v. *)
From Stdlib Require Import SpecFloat.
From S2P Require Import Prelude Json Rules Topic.

(** [1e-9] *)
Definition EPSILON : f64 := f64_dec 1 9.

(** An [Arc<T>]: the value and the identity [Arc::ptr_eq] compares. *)
Record Arc (A : Type) := mkArc { arc_id : nat; arc_val : A }.
Arguments mkArc {A}.
Arguments arc_id {A}.
Arguments arc_val {A}.
Definition ptr_eq {A} (a b : Arc A) : bool := arc_id a =? arc_id b.

Abbreviation ZoneMap := (gmap string (gset string)).
(** Key of [prev]: topic, rule index, trigger index. *)
Abbreviation PrevKey := (string * nat * nat)%type.
Abbreviation PrevMap := (gmap (string * nat * nat) bool).

Section engine.
Context `{JN : JsonNumber}.

(** The pure part of [EvalState]; [transport] and [store] belong to [run].
    Instants are [N] (nanoseconds since an arbitrary origin). *)
Record EvalState := mkEval {
  latest : gmap string Value;
  zones : ZoneMap;
  prev : PrevMap;
  last_rules : option (Arc Rules);
  timestamps : gmap string N;
  staleness_timeout : option N
}.

Definition empty_state : EvalState := mkEval ∅ ∅ ∅ None ∅ None.

(** [EvalState::new] keeps the transport and the store beside the state, for
    [run], which takes them out of it. *)
Record Wired (T S : Type) := mkWired { wired_transport : T; wired_store : S; wired_state : EvalState }.
Arguments mkWired {T S}.
Arguments wired_transport {T S}.
Arguments wired_store {T S}.
Arguments wired_state {T S}.
Definition eval_new {T S : Type} (transport : T) (store : S) : Wired T S := mkWired transport store empty_state.
Definition zones_map (st : EvalState) : ZoneMap := zones st.
Definition latest_snapshot (st : EvalState) : gmap string Value := latest st.

Definition with_staleness (st : EvalState) (timeout : N) : EvalState :=
  mkEval (latest st) (zones st) (prev st) (last_rules st) (timestamps st) (Some timeout).
Definition set_zones (st : EvalState) (zs : ZoneMap) : EvalState :=
  mkEval (latest st) zs (prev st) (last_rules st) (timestamps st) (staleness_timeout st).
Definition set_prev (st : EvalState) (p : PrevMap) : EvalState :=
  mkEval (latest st) (zones st) p (last_rules st) (timestamps st) (staleness_timeout st).
Definition set_last_rules (st : EvalState) (r : Arc Rules) : EvalState :=
  mkEval (latest st) (zones st) (prev st) (Some r) (timestamps st) (staleness_timeout st).

(** ** Zones *)
Definition enter_zone_map (zs : ZoneMap) (robot_id zone_id : string) : ZoneMap :=
  <[robot_id := {[zone_id]} ∪ default ∅ (zs !! robot_id)]> zs.

Definition clear_zone_map (zs : ZoneMap) (robot_id zone_id : string) : ZoneMap :=
  match zs !! robot_id with
  | Some s =>
      let s' := s ∖ {[zone_id]} in
      if decide (s' = ∅) then delete robot_id zs else <[robot_id := s']> zs
  | None => zs
  end.

Definition enter_zone (st : EvalState) (robot_id zone_id : string) : EvalState :=
  set_zones st (enter_zone_map (zones st) robot_id zone_id).
Definition clear_zone (st : EvalState) (robot_id zone_id : string) : EvalState :=
  set_zones st (clear_zone_map (zones st) robot_id zone_id).

(** The free function; the method reads [self.zones]. *)
Definition share_zone (zs : ZoneMap) (robot_a robot_b : string) : bool :=
  match zs !! robot_a with
  | None => false
  | Some a_zones =>
      match zs !! robot_b with
      | None => false
      | Some b_zones => existsb (fun z => bool_decide (z ∈ b_zones)) (elements a_zones)
      end
  end.
Definition state_share_zone (st : EvalState) : string -> string -> bool := share_zone (zones st).

(** ** Ingestion *)
Definition is_zone_event (topic : string) : bool :=
  starts_with "zone/" topic && (ends_with "/entered" topic || ends_with "/cleared" topic).

Definition ingest_sample (now : N) (st : EvalState) (topic : string) (payload : Value)
    : EvalState :=
  mkEval (<[topic := payload]> (latest st)) (zones st) (prev st) (last_rules st)
    (<[topic := now]> (timestamps st)) (staleness_timeout st).

(** [payload.get("robot_id").and_then(|v| v.as_str())] *)
Definition get_str (payload : Value) (k : string) : option string :=
  value_get payload k ≫= as_str.

Definition ingest (now : N) (st : EvalState) (topic : string) (payload : Value) : EvalState :=
  if is_zone_event topic then
    let parts := split_on slash topic in
    if 3 <=? length parts then
      let zone_id := nth 1 parts "" in
      match get_str payload "robot_id" with
      | Some robot_id =>
          if ends_with "/entered" topic then enter_zone st robot_id zone_id
          else clear_zone st robot_id zone_id
      | None => st
      end
    else st
  else ingest_sample now st topic payload.

(** ** Predicates *)
Definition prim_field (p : PrimitiveRef) : string :=
  match p with
  | PZone => "zone_id"
  | PRobot => "role"
  | HumanPresence => "separation_distance"
  | Proximity _ => "separation_distance"
  | PSite => "site_id"
  end.

Definition resolve_operand (op : Operand) (payload : Value) : option Value :=
  match op with
  | OBool v => Some (Bool v)
  | OInt v => Some (Number (from_i64 v))
  | OFloat v => Number <$> from_f64 v
  | OStr v => Some (Str v)
  | Field name => value_get payload name
  | Prim p =>
      let field := prim_field p in
      match p with
      | Proximity entity =>
          if bool_decide (get_str payload "peer_id" = Some entity)
          then value_get payload field else None
      | _ => value_get payload field
      end
  end.

Definition values_equal (a b : Value) : bool :=
  match a, b with
  | Number x, Number y =>
      match as_f64 x, as_f64 y with
      | Some xf, Some yf => SFltb (SFabs (f64_sub xf yf)) EPSILON
      | _, _ => false
      end
  | _, _ => value_eqb a b
  end.

Definition json_cmp (a b : Value) : option comparison :=
  match a, b with
  | Number x, Number y =>
      match as_f64 x, as_f64 y with
      | Some xf, Some yf => SFcompare xf yf
      | _, _ => None
      end
  | Str x, Str y => Some (String.compare x y)
  | Bool x, Bool y => Some (Bool.compare x y)
  | _, _ => None
  end.

Definition ord_is (f : comparison -> bool) (o : option comparison) : bool :=
  match o with Some c => f c | None => false end.
Definition is_lt (c : comparison) : bool := match c with Lt => true | _ => false end.
Definition is_gt (c : comparison) : bool := match c with Gt => true | _ => false end.
Definition is_le (c : comparison) : bool := negb (is_gt c).
Definition is_ge (c : comparison) : bool := negb (is_lt c).

Definition eval_comparison (op : Op) (l r : Value) (zs : ZoneMap) : bool :=
  match op with
  | OpEq => values_equal l r
  | OpNe => negb (values_equal l r)
  | OpLt => ord_is is_lt (json_cmp l r)
  | OpGt => ord_is is_gt (json_cmp l r)
  | OpLe => ord_is is_le (json_cmp l r)
  | OpGe => ord_is is_ge (json_cmp l r)
  | SameZoneAs =>
      match as_str l, as_str r with
      | Some a, Some b => share_zone zs a b
      | _, _ => false
      end
  end.

Fixpoint eval_tree (pred : Predicate) (payload : Value) (zs : ZoneMap) : bool :=
  match pred with
  | Comparison op lhs rhs =>
      match resolve_operand lhs payload, resolve_operand rhs payload with
      | Some l, Some r => eval_comparison op l r zs
      | _, _ => false
      end
  | And v => forallb (fun p => eval_tree p payload zs) v
  | Or v => existsb (fun p => eval_tree p payload zs) v
  | Not b => negb (eval_tree b payload zs)
  end.

Definition eval_predicate (pred : option Predicate) (payload : Value) (zs : ZoneMap) : bool :=
  match pred with None => true | Some p => eval_tree p payload zs end.

(** ** Triggers *)
Definition trigger_matches (t : Trigger) (topic : string) (payload : Value) (zs : ZoneMap)
    : bool :=
  (topic =? t_topic t)%string && eval_predicate (t_pred t) payload zs.

(** The current outcome of a trigger on a snapshot. *)
Definition current (snap : gmap string Value) (zs : ZoneMap) (t : Trigger) : bool :=
  match snap !! t_topic t with
  | Some p => trigger_matches t (t_topic t) p zs
  | None => false
  end.

(** Returns the verdict and the [prev] map it leaves. *)
Definition trigger_edge_matches (t : Trigger) (snap : gmap string Value) (pv : PrevMap)
    (rule_idx trigger_idx : nat) (zs : ZoneMap) : bool * PrevMap :=
  let cur := current snap zs t in
  match t_mode t with
  | Level => (cur, pv)
  | Edge =>
      let key := (t_topic t, rule_idx, trigger_idx) in
      (match pv !! key with Some p => negb (Bool.eqb p cur) | None => false end,
       <[key := cur]> pv)
  end.

(** [iter().enumerate().all(..)] from index [i]: stops at the first false. *)
Fixpoint all_triggers (snap : gmap string Value) (zs : ZoneMap) (rule_idx i : nat)
    (ts : list Trigger) (pv : PrevMap) : bool * PrevMap :=
  match ts with
  | [] => (true, pv)
  | t :: ts' =>
      let '(b, pv') := trigger_edge_matches t snap pv rule_idx i zs in
      if b then all_triggers snap zs rule_idx (S i) ts' pv' else (false, pv')
  end.

(** [iter().enumerate().any(..)]: stops at the first true. *)
Fixpoint any_triggers (snap : gmap string Value) (zs : ZoneMap) (rule_idx i : nat)
    (ts : list Trigger) (pv : PrevMap) : bool * PrevMap :=
  match ts with
  | [] => (false, pv)
  | t :: ts' =>
      let '(b, pv') := trigger_edge_matches t snap pv rule_idx i zs in
      if b then (true, pv') else any_triggers snap zs rule_idx (S i) ts' pv'
  end.

Definition when_satisfied_with_prev (w : When) (snap : gmap string Value) (pv : PrevMap)
    (rule_idx : nat) (zs : ZoneMap) : bool * PrevMap :=
  if guard_empty w then (false, pv)
  else
    let '(all_ok, pv1) := all_triggers snap zs rule_idx 0 (w_all w) pv in
    let '(any_ok, pv2) :=
      match w_any w with
      | [] => (true, pv1)
      | any => any_triggers snap zs rule_idx (length (w_all w)) any pv1
      end in
    (all_ok && any_ok, pv2).

(** ** The tick *)
Definition snapshot (now : N) (st : EvalState) : gmap string Value :=
  match staleness_timeout st with
  | Some timeout =>
      map_imap (fun k v =>
        match timestamps st !! k with
        | Some ts => if (now - ts <=? timeout)%N then Some v else None
        | None => Some v
        end) (latest st)
  | None => latest st
  end.

Fixpoint tick_rules (snap : gmap string Value) (zs : ZoneMap) (rule_idx : nat)
    (rs : list Rule) (pv : PrevMap) : list Action * PrevMap :=
  match rs with
  | [] => ([], pv)
  | r :: rs' =>
      let '(ok, pv') := when_satisfied_with_prev (r_when r) snap pv rule_idx zs in
      let '(out, pv'') := tick_rules snap zs (S rule_idx) rs' pv' in
      ((if ok then r_actions r else []) ++ out, pv'')
  end.

Definition tick_inner (now : N) (st : EvalState) (rs : Rules) : list Action * EvalState :=
  let '(out, pv) := tick_rules (snapshot now st) (zones st) 0 (rules rs) (prev st) in
  (out, set_prev st pv).

Definition tick (now : N) (st : EvalState) (rs : Rules) : list Action * EvalState :=
  tick_inner now st rs.

(** The pointer check shared by [tick_with_arc] and the loop. *)
Definition refresh_baseline (st : EvalState) (rs : Arc Rules) : EvalState :=
  if match last_rules st with Some p => negb (ptr_eq p rs) | None => true end
  then set_last_rules (set_prev st ∅) rs
  else st.

Definition tick_with_arc (now : N) (st : EvalState) (rs : Arc Rules) : list Action * EvalState :=
  tick_inner now (refresh_baseline st rs) (arc_val rs).

(** ** Topics of a ruleset *)
Definition collect_topics (w : When) : list string :=
  map t_topic (w_all w) ++ map t_topic (w_any w).

Definition sorted_topics (rs : Rules) : list string :=
  dedup (sort_by id (concat (map (fun r => collect_topics (r_when r)) (rules rs)))).
End engine.
