(* ===== verification/EngineSpec.v ===== *)
(** * EngineSpec: what the rule engine promises

    The tick against a declarative reading of the guards ([fires],
    [guard_fires], [evaluated]): its verdicts, the edge baseline it leaves,
    level rules, and the first tick after a hot swap. *)
From Stdlib Require Import SpecFloat.
From S2P Require Import Prelude Json Rules Topic Semantic SemanticSpec Engine.

(** ** Indexed quantifiers over a trigger list *)
Fixpoint forall_i {A} (f : nat -> A -> bool) (i : nat) (l : list A) : bool :=
  match l with [] => true | x :: l' => f i x && forall_i f (S i) l' end.
Fixpoint exists_i {A} (f : nat -> A -> bool) (i : nat) (l : list A) : bool :=
  match l with [] => false | x :: l' => f i x || exists_i f (S i) l' end.

Lemma forall_i_ext {A} (f g : nat -> A -> bool) i l :
  (forall j x, i <= j -> f j x = g j x) -> forall_i f i l = forall_i g i l.
Proof.
  revert i. induction l as [|x l IH]; intros i H; [done|]. simpl.
  rewrite (H i x), (IH (S i)) by (intros; try apply H; lia). done.
Qed.
Lemma exists_i_ext {A} (f g : nat -> A -> bool) i l :
  (forall j x, i <= j -> f j x = g j x) -> exists_i f i l = exists_i g i l.
Proof.
  revert i. induction l as [|x l IH]; intros i H; [done|]. simpl.
  rewrite (H i x), (IH (S i)) by (intros; try apply H; lia). done.
Qed.
Lemma forall_i_const {A} (f : A -> bool) i l : forall_i (fun _ => f) i l = forallb f l.
Proof. revert i. induction l as [|x l IH]; intros i; simpl; by rewrite ?IH. Qed.
Lemma exists_i_const {A} (f : A -> bool) i l : exists_i (fun _ => f) i l = existsb f l.
Proof. revert i. induction l as [|x l IH]; intros i; simpl; by rewrite ?IH. Qed.

Section engine_spec.
Context `{JN : JsonNumber}.

Implicit Types (snap : gmap string Value) (zs : ZoneMap) (pv : PrevMap) (t : Trigger)
  (ri i j r k : nat) (tp : string) (ts : list Trigger).

Definition is_edge (t : Trigger) : bool := match t_mode t with Edge => true | Level => false end.

(** ** The declarative reading of a tick

    Everything is read off the [prev] map as it is before the tick. *)
Definition fires (snap : gmap string Value) (zs : ZoneMap) (pv : PrevMap) (ri i : nat)
    (t : Trigger) : bool :=
  let cur := current snap zs t in
  if is_edge t then
    match pv !! (t_topic t, ri, i) with Some p => negb (Bool.eqb p cur) | None => false end
  else cur.

Definition guard_fires (snap : gmap string Value) (zs : ZoneMap) (pv : PrevMap) (ri : nat)
    (w : When) : bool :=
  negb (guard_empty w)
  && (forall_i (fires snap zs pv ri) 0 (w_all w)
      && match w_any w with
         | [] => true
         | any => exists_i (fires snap zs pv ri) (length (w_all w)) any
         end).

(** Whether the short-circuiting loops reach trigger [j] of the guard. *)
Definition evaluated (snap : gmap string Value) (zs : ZoneMap) (pv : PrevMap) (ri : nat)
    (w : When) (j : nat) : bool :=
  let n := length (w_all w) in
  if j <? n then forall_i (fires snap zs pv ri) 0 (take j (w_all w))
  else negb (exists_i (fires snap zs pv ri) n (take (j - n) (w_any w))).

Lemma trigger_edge_matches_eq t snap pv ri i zs :
  trigger_edge_matches t snap pv ri i zs =
  (fires snap zs pv ri i t,
   if is_edge t then <[(t_topic t, ri, i) := current snap zs t]> pv else pv).
Proof. unfold trigger_edge_matches, fires, is_edge. by destruct (t_mode t). Qed.

(** A trigger's evaluation writes only its own key. *)
Lemma edge_write_other t snap (pv : PrevMap) (ri i : nat) zs tp r j :
  (r, j) <> (ri, i) ->
  (if is_edge t then <[(t_topic t, ri, i) := current snap zs t]> pv else pv) !! (tp, r, j)
  = pv !! (tp, r, j).
Proof. intros H. destruct (is_edge t); [|done]. apply lookup_insert_ne. congruence. Qed.

Lemma fires_ext snap zs (pv pv' : PrevMap) ri i t :
  (forall tp, pv !! (tp, ri, i) = pv' !! (tp, ri, i)) ->
  fires snap zs pv ri i t = fires snap zs pv' ri i t.
Proof. intros H. unfold fires. by rewrite H. Qed.

Lemma fires_write snap zs (pv : PrevMap) (ri i j : nat) t t' :
  i < j ->
  fires snap zs (if is_edge t then <[(t_topic t, ri, i) := current snap zs t]> pv else pv) ri j t'
  = fires snap zs pv ri j t'.
Proof. intros H. apply fires_ext. intros tp. apply edge_write_other. intros [= ?]; lia. Qed.

(** *** The two loops *)
Lemma all_triggers_keep snap zs ri i ts (pv : PrevMap) tp (r j : nat) :
  r <> ri \/ j < i \/ i + length ts <= j ->
  (all_triggers snap zs ri i ts pv).2 !! (tp, r, j) = pv !! (tp, r, j).
Proof.
  revert i pv. induction ts as [|t ts IH]; intros i pv H; [done|]. cbn [all_triggers length] in *.
  rewrite trigger_edge_matches_eq.
  destruct (fires snap zs pv ri i t); simpl; [rewrite IH by lia|];
    apply edge_write_other; intros [= ??]; lia.
Qed.

Lemma any_triggers_keep snap zs ri i ts (pv : PrevMap) tp (r j : nat) :
  r <> ri \/ j < i \/ i + length ts <= j ->
  (any_triggers snap zs ri i ts pv).2 !! (tp, r, j) = pv !! (tp, r, j).
Proof.
  revert i pv. induction ts as [|t ts IH]; intros i pv H; [done|]. cbn [any_triggers length] in *.
  rewrite trigger_edge_matches_eq.
  destruct (fires snap zs pv ri i t); simpl; [|rewrite IH by lia];
    apply edge_write_other; intros [= ??]; lia.
Qed.

Lemma all_triggers_verdict snap zs ri i ts pv :
  (all_triggers snap zs ri i ts pv).1 = forall_i (fires snap zs pv ri) i ts.
Proof.
  revert i pv. induction ts as [|t ts IH]; intros i pv; [done|]. cbn [all_triggers forall_i].
  rewrite trigger_edge_matches_eq. destruct (fires snap zs pv ri i t); [|done].
  rewrite IH. apply forall_i_ext. intros j t' Hj. apply fires_write. lia.
Qed.

Lemma any_triggers_verdict snap zs ri i ts pv :
  (any_triggers snap zs ri i ts pv).1 = exists_i (fires snap zs pv ri) i ts.
Proof.
  revert i pv. induction ts as [|t ts IH]; intros i pv; [done|]. cbn [any_triggers exists_i].
  rewrite trigger_edge_matches_eq. destruct (fires snap zs pv ri i t); [done|].
  rewrite IH. apply exists_i_ext. intros j t' Hj. apply fires_write. lia.
Qed.

(** What a loop leaves under the key of its [j]-th trigger, when [reached]. *)
Definition written (snap : gmap string Value) (zs : ZoneMap) (pv : PrevMap) (ri k : nat)
    (tp : string) (ot : option Trigger) (reached : bool) : option bool :=
  match ot with
  | Some t => if (bool_decide (t_topic t = tp) && is_edge t) && reached
              then Some (current snap zs t) else pv !! (tp, ri, k)
  | None => pv !! (tp, ri, k)
  end.

Lemma edge_write_here t snap (pv : PrevMap) (ri i : nat) zs tp :
  (if is_edge t then <[(t_topic t, ri, i) := current snap zs t]> pv else pv) !! (tp, ri, i)
  = written snap zs pv ri i tp (Some t) true.
Proof.
  unfold written. destruct (is_edge t); rewrite ?andb_false_r, ?andb_true_r; [|done].
  case_bool_decide as Ht; [subst; apply lookup_insert_eq|].
  apply lookup_insert_ne. congruence.
Qed.

Lemma all_triggers_prev snap zs ri ts tp : forall i j pv,
  (all_triggers snap zs ri i ts pv).2 !! (tp, ri, i + j)
  = written snap zs pv ri (i + j) tp (ts !! j)
      (forall_i (fires snap zs pv ri) i (take j ts)).
Proof.
  induction ts as [|t ts IH]; intros i j pv; [done|]. cbn [all_triggers].
  rewrite trigger_edge_matches_eq. destruct j as [|j]; cbn [lookup list_lookup take forall_i].
  - rewrite Nat.add_0_r. rewrite <- edge_write_here.
    destruct (fires snap zs pv ri i t); [|done]. apply all_triggers_keep. lia.
  - destruct (fires snap zs pv ri i t); cbn [andb snd].
    + rewrite <- Nat.add_succ_comm, IH. unfold written.
      rewrite edge_write_other by (intros [=]; lia).
      erewrite forall_i_ext; [done|]. intros k t' Hk. apply fires_write. lia.
    + rewrite edge_write_other by (intros [=]; lia). unfold written.
      change (list_lookup j ts) with (ts !! j). destruct (ts !! j); [|done]. by rewrite andb_false_r.
Qed.

Lemma any_triggers_prev snap zs ri ts tp : forall i j pv,
  (any_triggers snap zs ri i ts pv).2 !! (tp, ri, i + j)
  = written snap zs pv ri (i + j) tp (ts !! j)
      (negb (exists_i (fires snap zs pv ri) i (take j ts))).
Proof.
  induction ts as [|t ts IH]; intros i j pv; [done|]. cbn [any_triggers].
  rewrite trigger_edge_matches_eq. destruct j as [|j]; cbn [lookup list_lookup take exists_i].
  - rewrite Nat.add_0_r. rewrite <- edge_write_here.
    destruct (fires snap zs pv ri i t); [done|]. apply any_triggers_keep. lia.
  - destruct (fires snap zs pv ri i t); cbn [orb negb snd].
    + rewrite edge_write_other by (intros [=]; lia). unfold written.
      change (list_lookup j ts) with (ts !! j). destruct (ts !! j); [|done]. by rewrite andb_false_r.
    + rewrite <- Nat.add_succ_comm, IH. unfold written.
      rewrite edge_write_other by (intros [=]; lia).
      erewrite exists_i_ext; [done|]. intros k t' Hk. apply fires_write. lia.
Qed.

(** *** The guard *)
Definition guard_triggers (w : When) : list Trigger := w_all w ++ w_any w.

Lemma when_satisfied_verdict w snap pv ri zs :
  (when_satisfied_with_prev w snap pv ri zs).1 = guard_fires snap zs pv ri w.
Proof.
  unfold when_satisfied_with_prev, guard_fires. destruct (guard_empty w); [done|].
  destruct (all_triggers snap zs ri 0 (w_all w) pv) as [ok pv1] eqn:E.
  pose proof (all_triggers_verdict snap zs ri 0 (w_all w) pv) as Hv. rewrite E in Hv.
  simpl in Hv. subst ok. destruct (w_any w) as [|a any]; [done|].
  destruct (any_triggers snap zs ri (length (w_all w)) (a :: any) pv1) as [ok pv2] eqn:E2.
  pose proof (any_triggers_verdict snap zs ri (length (w_all w)) (a :: any) pv1) as Hv.
  rewrite E2 in Hv. simpl fst in *. subst ok.
  cbn [negb andb]. f_equal. apply exists_i_ext.
  intros j t Hj. apply fires_ext. intros tp.
  pose proof (all_triggers_keep snap zs ri 0 (w_all w) pv tp ri j) as Hk.
  rewrite E in Hk. apply Hk. lia.
Qed.

Lemma when_satisfied_prev w snap pv ri zs tp j :
  guard_empty w = false ->
  (when_satisfied_with_prev w snap pv ri zs).2 !! (tp, ri, j)
  = written snap zs pv ri j tp (guard_triggers w !! j) (evaluated snap zs pv ri w j).
Proof.
  intros Hne. unfold when_satisfied_with_prev, guard_triggers, evaluated. rewrite Hne.
  set (n := length (w_all w)).
  pose proof (all_triggers_prev snap zs ri (w_all w) tp 0 j pv) as Ha.
  pose proof (all_triggers_keep snap zs ri 0 (w_all w) pv) as Hk.
  destruct (all_triggers snap zs ri 0 (w_all w) pv) as [ok pv1]. cbn [snd] in *.
  assert ((let '(any_ok, pv2) := match w_any w with
      [] => (true, pv1) | any => any_triggers snap zs ri n any pv1 end in (ok && any_ok, pv2)).2
    = (any_triggers snap zs ri n (w_any w) pv1).2) as ->.
  { destruct (w_any w); [done|]. by destruct (any_triggers _ _ _ _ _ _). }
  destruct (Nat.ltb_spec j n) as [Hj|Hj].
  - rewrite any_triggers_keep by lia. rewrite lookup_app_l by done. exact Ha.
  - rewrite lookup_app_r by done. fold n.
    pose proof (any_triggers_prev snap zs ri (w_any w) tp n (j - n) pv1) as Hany.
    replace (n + (j - n)) with j in Hany by lia. rewrite Hany. unfold written.
    rewrite (Hk tp ri j) by lia.
    erewrite exists_i_ext; [done|]. intros k t Hkn. apply fires_ext. intros tp'. apply Hk. lia.
Qed.

Lemma when_satisfied_keep w snap pv ri zs tp r j :
  r <> ri -> (when_satisfied_with_prev w snap pv ri zs).2 !! (tp, r, j) = pv !! (tp, r, j).
Proof.
  intros Hr. unfold when_satisfied_with_prev. destruct (guard_empty w); [done|].
  pose proof (all_triggers_keep snap zs ri 0 (w_all w) pv tp r j (or_introl Hr)) as Hk.
  destruct (all_triggers snap zs ri 0 (w_all w) pv) as [ok pv1]. cbn [snd] in *.
  destruct (w_any w) as [|a any]; [done|].
  pose proof (any_triggers_keep snap zs ri (length (w_all w)) (a :: any) pv1 tp r j (or_introl Hr)).
  destruct (any_triggers _ _ _ _ _ _) as [ok' pv2]. simpl in *. congruence.
Qed.

(** *** The tick over the rules *)
Lemma guard_fires_ext snap zs pv pv' ri w :
  (forall tp j, pv !! (tp, ri, j) = pv' !! (tp, ri, j)) ->
  guard_fires snap zs pv ri w = guard_fires snap zs pv' ri w.
Proof.
  intros H. unfold guard_fires.
  rewrite (forall_i_ext (fires snap zs pv ri) (fires snap zs pv' ri)) by (intros; by apply fires_ext).
  destruct (w_any w) as [|a any]; [done|].
  by rewrite (exists_i_ext (fires snap zs pv ri) (fires snap zs pv' ri)) by (intros; by apply fires_ext).
Qed.

Lemma evaluated_ext snap zs pv pv' ri w j :
  (forall tp j, pv !! (tp, ri, j) = pv' !! (tp, ri, j)) ->
  evaluated snap zs pv ri w j = evaluated snap zs pv' ri w j.
Proof.
  intros H. unfold evaluated.
  rewrite (forall_i_ext (fires snap zs pv ri) (fires snap zs pv' ri)) by (intros; by apply fires_ext).
  by rewrite (exists_i_ext (fires snap zs pv ri) (fires snap zs pv' ri)) by (intros; by apply fires_ext).
Qed.

Definition rule_output (snap : gmap string Value) (zs : ZoneMap) (pv : PrevMap) (ri : nat)
    (r : Rule) : list Action :=
  if guard_fires snap zs pv ri (r_when r) then r_actions r else [].

Fixpoint tick_output (snap : gmap string Value) (zs : ZoneMap) (pv : PrevMap) (ri : nat)
    (rs : list Rule) : list Action :=
  match rs with
  | [] => []
  | r :: rs' => rule_output snap zs pv ri r ++ tick_output snap zs pv (S ri) rs'
  end.

Lemma tick_output_ext snap zs pv pv' ri rs :
  (forall tp r j, ri <= r -> pv !! (tp, r, j) = pv' !! (tp, r, j)) ->
  tick_output snap zs pv ri rs = tick_output snap zs pv' ri rs.
Proof.
  revert ri. induction rs as [|r rs IH]; intros ri H; [done|]. simpl. unfold rule_output.
  rewrite (guard_fires_ext snap zs pv pv' ri) by (intros; by apply H).
  by rewrite (IH (S ri)) by (intros; apply H; lia).
Qed.

Lemma tick_rules_output snap zs rs : forall ri pv,
  (tick_rules snap zs ri rs pv).1 = tick_output snap zs pv ri rs.
Proof.
  induction rs as [|r rs IH]; intros ri pv; [done|]. cbn [tick_rules tick_output].
  pose proof (when_satisfied_verdict (r_when r) snap pv ri zs) as Hv.
  pose proof (when_satisfied_keep (r_when r) snap pv ri zs) as Hk.
  destruct (when_satisfied_with_prev (r_when r) snap pv ri zs) as [ok pv1]. cbn [fst snd] in *.
  subst ok. specialize (IH (S ri) pv1). destruct (tick_rules snap zs (S ri) rs pv1) as [out pv2].
  cbn [fst] in *. subst out. unfold rule_output. f_equal.
  apply tick_output_ext. intros tp r' j Hr. apply Hk. lia.
Qed.

Lemma tick_rules_keep snap zs rs : forall ri pv tp r j,
  r < ri \/ ri + length rs <= r ->
  (tick_rules snap zs ri rs pv).2 !! (tp, r, j) = pv !! (tp, r, j).
Proof.
  induction rs as [|r0 rs IH]; intros ri pv tp r j H; [done|]. cbn [tick_rules length] in *.
  pose proof (when_satisfied_keep (r_when r0) snap pv ri zs tp r j) as Hk.
  destruct (when_satisfied_with_prev (r_when r0) snap pv ri zs) as [ok pv1].
  specialize (IH (S ri) pv1 tp r j). destruct (tick_rules snap zs (S ri) rs pv1) as [out pv2].
  cbn [snd] in *. rewrite IH by lia. apply Hk. lia.
Qed.

(** The [prev] entry of trigger [j] of rule [ri + k] after the tick. *)
Lemma tick_rules_prev snap zs rs : forall ri k pv tp j,
  (tick_rules snap zs ri rs pv).2 !! (tp, ri + k, j) =
  match rs !! k with
  | Some r =>
      if guard_empty (r_when r) then pv !! (tp, ri + k, j)
      else written snap zs pv (ri + k) j tp (guard_triggers (r_when r) !! j)
             (evaluated snap zs pv (ri + k) (r_when r) j)
  | None => pv !! (tp, ri + k, j)
  end.
Proof.
  induction rs as [|r rs IH]; intros ri k pv tp j; [done|]. cbn [tick_rules].
  pose proof (when_satisfied_keep (r_when r) snap pv ri zs) as Hk.
  destruct k as [|k]; cbn [lookup list_lookup].
  - rewrite Nat.add_0_r in *.
    pose proof (when_satisfied_prev (r_when r) snap pv ri zs tp j) as Hp.
    destruct (when_satisfied_with_prev (r_when r) snap pv ri zs) as [ok pv1] eqn:E.
    pose proof (tick_rules_keep snap zs rs (S ri) pv1 tp ri j) as Hr.
    destruct (tick_rules snap zs (S ri) rs pv1) as [out pv2]. cbn [snd] in *.
    rewrite Hr by lia. destruct (guard_empty (r_when r)) eqn:Hg; [|by apply Hp].
    unfold when_satisfied_with_prev in E. rewrite Hg in E. by injection E as <- <-.
  - destruct (when_satisfied_with_prev (r_when r) snap pv ri zs) as [ok pv1].
    specialize (IH (S ri) k pv1 tp j). destruct (tick_rules snap zs (S ri) rs pv1) as [out pv2].
    cbn [snd] in *. rewrite <- Nat.add_succ_comm, IH. change (list_lookup k rs) with (rs !! k).
    assert (forall tp j, pv1 !! (tp, S ri + k, j) = pv !! (tp, S ri + k, j)) as Hk'
      by (intros; apply Hk; lia).
    destruct (rs !! k); [|apply Hk']. unfold written.
    rewrite (evaluated_ext snap zs pv1 pv), Hk' by (intros; apply Hk'). done.
Qed.

Lemma tick_rules_prev0 snap zs rs pv tp k j :
  (tick_rules snap zs 0 rs pv).2 !! (tp, k, j) =
  match rs !! k with
  | Some r =>
      if guard_empty (r_when r) then pv !! (tp, k, j)
      else written snap zs pv k j tp (guard_triggers (r_when r) !! j)
             (evaluated snap zs pv k (r_when r) j)
  | None => pv !! (tp, k, j)
  end.
Proof. apply (tick_rules_prev snap zs rs 0 k). Qed.

(** *** Level-only guards and empty baselines *)
Definition no_baseline (pv : PrevMap) : Prop := forall tp r j, pv !! (tp, r, j) = None.

(** The valuation a guard sees on the first tick of a ruleset. *)
Definition first_tick_value (snap : gmap string Value) (zs : ZoneMap) (t : Trigger) : bool :=
  negb (is_edge t) && current snap zs t.

Lemma guard_fires_valuation snap zs pv ri w rho :
  (forall i t, t ∈ guard_triggers w -> fires snap zs pv ri i t = rho t) ->
  guard_fires snap zs pv ri w = guard_holds rho w.
Proof.
  intros H. unfold guard_fires, guard_holds. f_equal.
  assert (forall l i, (forall t, t ∈ l -> t ∈ guard_triggers w) ->
    forall_i (fires snap zs pv ri) i l = forallb rho l /\
    exists_i (fires snap zs pv ri) i l = existsb rho l) as Hl.
  { induction l as [|t l IH]; intros i Hin; [done|]. simpl.
    destruct (IH (S i)) as [-> ->]; [intros t' Ht'; apply Hin; by right|].
    rewrite H by (apply Hin; by left). done. }
  unfold guard_triggers in *. destruct (Hl (w_all w) 0) as [-> _].
  { intros t Ht. apply elem_of_app. by left. }
  destruct (Hl (w_any w) (length (w_all w))) as [_ Hany].
  { intros t Ht. apply elem_of_app. by right. }
  destruct (w_any w) as [|a any]; [done|]. by rewrite Hany.
Qed.

Lemma guard_fires_first_tick snap zs pv ri w :
  no_baseline pv -> guard_fires snap zs pv ri w = guard_holds (first_tick_value snap zs) w.
Proof.
  intros Hpv. apply guard_fires_valuation. intros i t _. unfold fires, first_tick_value.
  rewrite Hpv. by destruct (is_edge t).
Qed.

Lemma tick_output_valuation snap zs pv rho (rs : list Rule) : forall ri,
  (forall (r : Rule) ri', r ∈ rs -> guard_fires snap zs pv ri' (r_when r) = guard_holds rho (r_when r)) ->
  tick_output snap zs pv ri rs
  = concat (map (fun r : Rule => if guard_holds rho (r_when r) then r_actions r else []) rs).
Proof.
  induction rs as [|r rs IH]; intros ri H; [done|]. simpl. unfold rule_output.
  rewrite H by (by left). f_equal. apply IH. intros r' ri' Hr'. apply H. by right.
Qed.

Definition level_only (r : Rule) : bool :=
  forallb (fun t => negb (is_edge t)) (guard_triggers (r_when r)).

Lemma level_only_trigger (r : Rule) t : level_only r = true -> t ∈ guard_triggers (r_when r) -> is_edge t = false.
Proof.
  unfold level_only. rewrite forallb_forall. intros H Ht%list_elem_of_In.
  apply H in Ht. by apply negb_true_iff in Ht.
Qed.

Lemma level_only_fires snap zs pv ri (r : Rule) :
  level_only r = true -> guard_fires snap zs pv ri (r_when r) = guard_holds (current snap zs) (r_when r).
Proof.
  intros Hl. apply guard_fires_valuation. intros i t Ht. unfold fires.
  by rewrite (level_only_trigger r t Hl Ht).
Qed.

Lemma level_only_prev snap zs (rs : list Rule) pv :
  forallb level_only rs = true -> (tick_rules snap zs 0 rs pv).2 = pv.
Proof.
  rewrite forallb_forall. intros Hl. apply map_eq. intros [[tp k] j].
  rewrite tick_rules_prev0.
  destruct (rs !! k) as [r|] eqn:Hk; [|done]. destruct (guard_empty (r_when r)); [done|].
  unfold written. destruct (guard_triggers (r_when r) !! j) as [t|] eqn:Hj; [|done].
  rewrite (level_only_trigger r t); [by rewrite andb_false_r| |].
  - apply Hl, list_elem_of_In. by eapply list_elem_of_lookup_2.
  - by eapply list_elem_of_lookup_2.
Qed.

Lemma swap_tick_output (now : N) (st : EvalState) (rs : Arc Rules) :
  match last_rules st with Some old => ptr_eq old rs = false | None => True end ->
  (tick_with_arc now st rs).1 =
    concat (map (fun r : Rule =>
      if guard_holds (first_tick_value (snapshot now st) (zones st)) (r_when r)
      then r_actions r else []) (rules (arc_val rs))).
Proof.
  intros Hp. unfold tick_with_arc, refresh_baseline.
  assert (match last_rules st with Some p => negb (ptr_eq p rs) | None => true end = true) as ->
    by (destruct (last_rules st); [by rewrite Hp|done]).
  unfold tick_inner.
  set (st' := set_last_rules (set_prev st ∅) rs).
  pose proof (tick_rules_output (snapshot now st') (zones st') (rules (arc_val rs)) 0 (prev st')) as H.
  destruct (tick_rules _ _ _ _ _) as [out pv]. simpl fst in *. subst out.
  apply tick_output_valuation. intros r ri Hr. apply guard_fires_first_tick.
  intros tp k j. apply lookup_empty.
Qed.

(** ** Properties of the tick *)

(** C14. The tick is exact.  Its output is, rule by rule in order, the actions
    of the rules whose guard fires, each guard being read against the [prev]
    map as it was before the tick; it changes nothing of the state but
    [prev]. *)
Theorem tick_actions_exact (now : N) (st : EvalState) (rs : Rules) :
  (tick now st rs).1 = tick_output (snapshot now st) (zones st) (prev st) 0 (rules rs) /\
  latest (tick now st rs).2 = latest st /\ zones (tick now st rs).2 = zones st /\
  timestamps (tick now st rs).2 = timestamps st /\ last_rules (tick now st rs).2 = last_rules st.
Proof.
  unfold tick, tick_inner. rewrite <- tick_rules_output.
  by destruct (tick_rules _ _ _ _ _).
Qed.

(** C31. The edge memory is exact: after a tick, the entry of trigger [j] of
    rule [k] is the trigger's outcome in this tick if it is an edge trigger
    the short-circuiting evaluation reached, and is the old entry otherwise;
    so a trigger behind a false conjunct keeps a baseline older than the
    previous tick. *)
Theorem tick_prev_exact (now : N) (st : EvalState) (rs : Rules) (k j : nat) (r : Rule) (t : Trigger) :
  rules rs !! k = Some r -> guard_triggers (r_when r) !! j = Some t ->
  prev (tick now st rs).2 !! (t_topic t, k, j) =
    if is_edge t && evaluated (snapshot now st) (zones st) (prev st) k (r_when r) j
    then Some (current (snapshot now st) (zones st) t)
    else prev st !! (t_topic t, k, j).
Proof.
  intros Hr Ht. unfold tick, tick_inner.
  pose proof (tick_rules_prev0 (snapshot now st) (zones st) (rules rs) (prev st) (t_topic t) k j) as H.
  rewrite Hr in H. destruct (tick_rules _ _ _ _ _) as [out pv]. simpl in *. rewrite H.
  assert (guard_empty (r_when r) = false) as ->.
  { destruct (r_when r) as [[] []]; try done. }
  rewrite Ht. unfold written. by rewrite bool_decide_eq_true_2.
Qed.

(** For rules made of level triggers the tick is the boolean meaning of
    their guards over the current outcomes, and it leaves the state as it
    was. *)
Theorem level_tick_boolean (now : N) (st : EvalState) (rs : Rules) :
  forallb level_only (rules rs) = true ->
  (tick now st rs).1 =
    concat (map (fun r : Rule => if guard_holds (current (snapshot now st) (zones st)) (r_when r)
                          then r_actions r else []) (rules rs)) /\
  (tick now st rs).2 = st.
Proof.
  intros Hlv. pose proof Hlv as Hl. rewrite forallb_forall in Hl. unfold tick, tick_inner.
  pose proof (tick_rules_output (snapshot now st) (zones st) (rules rs) 0 (prev st)) as H.
  pose proof (level_only_prev (snapshot now st) (zones st) (rules rs) (prev st) Hlv) as Hpv.
  destruct (tick_rules _ _ _ _ _) as [out pv]. simpl in *. subst out pv.
  split; [|by destruct st].
  apply tick_output_valuation. intros r ri Hr. apply level_only_fires, Hl. by apply list_elem_of_In.
Qed.

(** A hot swap starts from no baseline: the first tick under a new
    ruleset pointer fires exactly the rules whose guard holds when every edge
    trigger counts as false, so a rule with an edge conjunct never fires on
    it, whatever the old rules had recorded. *)
Theorem hot_swap_resets_edges (now : N) (st : EvalState) (rs : Arc Rules) :
  match last_rules st with Some old => ptr_eq old rs = false | None => True end ->
  (tick_with_arc now st rs).1 =
    concat (map (fun r : Rule =>
      if guard_holds (first_tick_value (snapshot now st) (zones st)) (r_when r)
      then r_actions r else []) (rules (arc_val rs))).
Proof. apply swap_tick_output. Qed.
End engine_spec.

(** ** Concrete instances *)
Module TickEx.
Definition lvl (tp : string) : Trigger := mkTrigger tp None Level.
Definition edg (tp : string) : Trigger := mkTrigger tp None Edge.
Definition act (tp : string) : Action (JN := model_number) := mkAction tp Reliable (Str "go").
Definition r_level : Rule := mkRule "l" (mkWhen [lvl "sensor/a"] []) [act "actuator/a"].
Definition r_edge : Rule := mkRule "e" (mkWhen [edg "sensor/a"] []) [act "actuator/b"].
Definition rs : Rules := mkRules [r_level; r_edge].
Definition rs_level : Rules := mkRules [r_level].
Definition st : EvalState := ingest 5 empty_state "sensor/a" (Bool true).
End TickEx.

Lemma tick_prev_exact_witness :
  prev (tick 6 TickEx.st TickEx.rs).2 !! ("sensor/a", 1, 0) = Some true.
Proof.
  exact (tick_prev_exact 6 TickEx.st TickEx.rs 1 0 TickEx.r_edge (TickEx.edg "sensor/a") eq_refl eq_refl).
Defined.

Lemma level_tick_boolean_witness :
  (tick 6 TickEx.st TickEx.rs_level).1 = [TickEx.act "actuator/a"].
Proof. exact (proj1 (level_tick_boolean 6 TickEx.st TickEx.rs_level eq_refl)). Defined.

Lemma hot_swap_resets_edges_witness :
  (tick_with_arc 6 TickEx.st (mkArc 1 TickEx.rs)).1 = [TickEx.act "actuator/a"].
Proof. exact (hot_swap_resets_edges 6 TickEx.st (mkArc 1 TickEx.rs) I). Defined.
