(* ===== verification/EngineProps.v ===== *)
(** * EngineProps: behaviour of the engine over sequences of samples and ticks

    Edge rules over a run of ticks, the zone map against the event history,
    staleness, rules that can never fire, fail-closed evaluation, the meaning
    of compiled conditions and the compiler composed with the tick. *)
From Stdlib Require Import SpecFloat.
From S2P Require Import Prelude Json Rules Topic Semantic SemanticSpec Engine EngineSpec.

Section engine_props.
Context `{JN : JsonNumber}.
Implicit Types (snap : gmap string Value) (zs : ZoneMap) (pv : PrevMap) (t : Trigger)
  (st : EvalState) (tp : string).

(** ** Runs of ticks under one ruleset *)

(** A round: samples arrive, each at its time, then the engine ticks. *)
Record Round := mkRound { arrivals : list (N * string * Value); tick_time : N }.

Definition arrive (st : EvalState) (l : list (N * string * Value)) : EvalState :=
  foldl (fun st s => ingest s.1.1 st s.1.2 s.2) st l.

(** What [tick] publishes at each round. *)
Fixpoint engine_run (rs : Rules) (st : EvalState) (l : list Round) : list (list Action) :=
  match l with
  | [] => []
  | rd :: l' =>
      let '(out, st') := tick (tick_time rd) (arrive st (arrivals rd)) rs in
      out :: engine_run rs st' l'
  end.

(** What the samples alone leave for each tick to see. *)
Fixpoint views (st : EvalState) (l : list Round) : list (gmap string Value * ZoneMap) :=
  match l with
  | [] => []
  | rd :: l' =>
      let st' := arrive st (arrivals rd) in
      (snapshot (tick_time rd) st', zones st') :: views st' l'
  end.

(** What the rules [rs], the first of them at index [ri], publish at each
    view, with the memory [tick_rules] keeps for them. *)
Fixpoint rules_run (ri : nat) (rs : list Rule) (pv : PrevMap)
    (l : list (gmap string Value * ZoneMap)) : list (list Action) :=
  match l with
  | [] => []
  | (snap, zs) :: l' =>
      let '(out, pv') := tick_rules snap zs ri rs pv in out :: rules_run ri rs pv' l'
  end.

(** Where a run of outcomes changes; nothing to compare with counts as no
    change. *)
Fixpoint changes (last : option bool) (l : list bool) : list bool :=
  match l with
  | [] => []
  | c :: l' =>
      match last with Some p => negb (Bool.eqb p c) | None => false end :: changes (Some c) l'
  end.

Lemma tick_rules_app snap zs (rs1 rs2 : list Rule) : forall ri pv,
  tick_rules snap zs ri (rs1 ++ rs2) pv =
  let '(o1, pv1) := tick_rules snap zs ri rs1 pv in
  let '(o2, pv2) := tick_rules snap zs (ri + length rs1) rs2 pv1 in (o1 ++ o2, pv2).
Proof.
  induction rs1 as [|r rs1 IH]; intros ri pv; cbn [app tick_rules length].
  - rewrite Nat.add_0_r. by destruct (tick_rules _ _ _ rs2 _).
  - destruct (when_satisfied_with_prev _ _ _ _ _) as [ok pv']. rewrite IH.
    destruct (tick_rules _ _ (S ri) rs1 pv') as [o1 pv1]. rewrite <- Nat.add_succ_comm.
    destruct (tick_rules _ _ _ rs2 pv1) as [o2 pv2]. by rewrite app_assoc.
Qed.

(** Memories that agree on the indices of the rules run. *)
Definition agree_from (ri n : nat) (pv pv' : PrevMap) : Prop :=
  forall tp k j, ri <= k < ri + n -> pv !! (tp, k, j) = pv' !! (tp, k, j).

Lemma tick_rules_agree snap zs (rs : list Rule) ri pv pv' :
  agree_from ri (length rs) pv pv' ->
  (tick_rules snap zs ri rs pv).1 = (tick_rules snap zs ri rs pv').1 /\
  agree_from ri (length rs) (tick_rules snap zs ri rs pv).2 (tick_rules snap zs ri rs pv').2.
Proof.
  intros Ha. split.
  - rewrite !tick_rules_output. revert ri Ha. induction rs as [|r rs IH]; intros ri Ha; [done|].
    cbn [tick_output length] in *. unfold rule_output.
    rewrite (guard_fires_ext snap zs pv pv' ri) by (intros; apply Ha; lia).
    by rewrite (IH (S ri)) by (intros tp k j Hk; apply Ha; lia).
  - intros tp k j Hk. replace k with (ri + (k - ri)) by lia. rewrite !tick_rules_prev.
    destruct (rs !! (k - ri)) as [r|]; [|by apply Ha; lia].
    assert (forall tp j, pv !! (tp, ri + (k - ri), j) = pv' !! (tp, ri + (k - ri), j)) as Hk'
      by (intros; apply Ha; lia).
    unfold written. by rewrite (evaluated_ext snap zs pv pv'), !Hk'.
Qed.

Lemma rules_run_agree ri rs l : forall pv pv',
  agree_from ri (length rs) pv pv' -> rules_run ri rs pv l = rules_run ri rs pv' l.
Proof.
  induction l as [|[snap zs] l IH]; intros pv pv' Ha; [done|]. cbn [rules_run].
  destruct (tick_rules_agree snap zs rs ri pv pv' Ha) as [Ho Hp].
  destruct (tick_rules snap zs ri rs pv) as [o q], (tick_rules snap zs ri rs pv') as [o' q'].
  cbn [fst snd] in *. subst o'. by rewrite (IH q q').
Qed.

(** Rules are independent of their neighbours over a whole run. *)
Lemma rules_run_app rs1 rs2 l : forall ri pv,
  rules_run ri (rs1 ++ rs2) pv l
  = zip_with app (rules_run ri rs1 pv l) (rules_run (ri + length rs1) rs2 pv l).
Proof.
  induction l as [|[snap zs] l IH]; intros ri pv; [done|]. cbn [rules_run].
  rewrite tick_rules_app.
  pose proof (tick_rules_keep snap zs rs1 ri pv) as Hk1.
  destruct (tick_rules snap zs ri rs1 pv) as [o1 pv1] eqn:E1. cbn [snd] in Hk1.
  destruct (tick_rules_agree snap zs rs2 (ri + length rs1) pv1 pv) as [Ho Hp];
    [intros tp k j Hk; apply Hk1; lia|].
  pose proof (tick_rules_keep snap zs rs2 (ri + length rs1) pv1) as Hk2.
  destruct (tick_rules snap zs (ri + length rs1) rs2 pv1) as [o2 pv2],
    (tick_rules snap zs (ri + length rs1) rs2 pv) as [o2' pv2'].
  cbn [fst snd zip_with] in *. subst o2'. rewrite IH. do 2 f_equal.
  - apply rules_run_agree. intros tp k j Hk. apply Hk2. lia.
  - by apply rules_run_agree.
Qed.

(** One edge rule, from its recorded outcome. *)
Lemma edge_rule_run (ri : nat) (r : Rule) (t : Trigger) :
  r_when r = mkWhen [t] [] -> is_edge t = true ->
  forall l pv, rules_run ri [r] pv l
  = map (fun c : bool => if c then r_actions r else [])
      (changes (pv !! (t_topic t, ri, 0)) (map (fun s => current s.1 s.2 t) l)).
Proof.
  intros Hw He. induction l as [|[snap zs] l IH]; intros pv; [done|].
  assert (tick_rules snap zs ri [r] pv =
    (if fires snap zs pv ri 0 t then r_actions r else [], <[(t_topic t, ri, 0) := current snap zs t]> pv)) as Ht.
  { cbn [tick_rules]. rewrite Hw. unfold when_satisfied_with_prev. cbn [guard_empty w_all w_any all_triggers].
    rewrite trigger_edge_matches_eq, He. destruct (fires snap zs pv ri 0 t); cbn [andb]; by rewrite app_nil_r. }
  cbn [rules_run map changes fst snd]. rewrite Ht, IH, lookup_insert_eq. unfold fires. rewrite He.
  by destruct (pv !! _).
Qed.

Lemma arrive_set_prev l : forall st p, arrive (set_prev st p) l = set_prev (arrive st l) p.
Proof.
  induction l as [|[[now tp] v] l IH]; intros st p; [done|]. cbn [arrive foldl fst snd].
  change (foldl _ ?s l) with (arrive s l). rewrite <- IH. f_equal. unfold ingest.
  destruct (is_zone_event tp); [|done]. destruct (3 <=? _); [|done].
  destruct (get_str v "robot_id"); [|done]. by destruct (ends_with "/entered" tp).
Qed.

Lemma views_set_prev l : forall st p, views (set_prev st p) l = views st l.
Proof.
  induction l as [|rd l IH]; intros st p; [done|]. cbn [views]. rewrite arrive_set_prev. by rewrite IH.
Qed.

Lemma ingest_prev now st tp payload : prev (ingest now st tp payload) = prev st.
Proof.
  unfold ingest. destruct (is_zone_event tp); [|done]. destruct (3 <=? _); [|done].
  destruct (get_str payload "robot_id"); [|done]. by destruct (ends_with "/entered" tp).
Qed.

Lemma arrive_prev l : forall st, prev (arrive st l) = prev st.
Proof.
  induction l as [|[[now tp] v] l IH]; intros st; [done|]. cbn [arrive foldl fst snd].
  change (foldl _ ?s l) with (arrive s l). by rewrite IH, ingest_prev.
Qed.

Lemma engine_run_rules (rs : Rules) l : forall st,
  engine_run rs st l = rules_run 0 (rules rs) (prev st) (views st l).
Proof.
  induction l as [|rd l IH]; intros st; [done|]. cbn [engine_run views rules_run].
  unfold tick, tick_inner. rewrite arrive_prev.
  destruct (tick_rules _ _ _ _ _) as [out pv]. by rewrite IH, views_set_prev.
Qed.

(** ** Runs of timed events *)
Inductive EngineEvent :=
  | Sampled (now : N) (tp : string) (payload : Value)
  | Ticked (now : N) (rs : Rules)
  | TickedArc (now : N) (rs : Arc Rules)
  | Swapped (rs : Arc Rules).
Definition engine_event (st : EvalState) (e : EngineEvent) : EvalState :=
  match e with
  | Sampled now tp payload => ingest now st tp payload
  | Ticked now rs => (tick now st rs).2
  | TickedArc now rs => (tick_with_arc now st rs).2
  | Swapped rs => refresh_baseline st rs
  end.
Definition run_events (st : EvalState) (es : list EngineEvent) : EvalState := foldl engine_event st es.

(** The last sample of a topic, with the time it arrived; zone events are no
    samples. *)
Definition sample_of (tp : string) (e : EngineEvent) : option (N * Value) :=
  match e with
  | Sampled now tp' v => if (tp' =? tp)%string && negb (is_zone_event tp') then Some (now, v) else None
  | _ => None
  end.
Fixpoint last_sample (tp : string) (es : list EngineEvent) : option (N * Value) :=
  match es with
  | [] => None
  | e :: es' => match last_sample tp es' with Some s => Some s | None => sample_of tp e end
  end.

Lemma tick_samples now st rs :
  latest (tick now st rs).2 = latest st /\ timestamps (tick now st rs).2 = timestamps st /\
  staleness_timeout (tick now st rs).2 = staleness_timeout st.
Proof. unfold tick, tick_inner. by destruct (tick_rules _ _ _ _ _). Qed.
Lemma refresh_samples st rs :
  latest (refresh_baseline st rs) = latest st /\ timestamps (refresh_baseline st rs) = timestamps st /\
  staleness_timeout (refresh_baseline st rs) = staleness_timeout st.
Proof. unfold refresh_baseline. by destruct (match _ with Some _ => _ | None => _ end). Qed.

Lemma event_samples st e tp :
  staleness_timeout (engine_event st e) = staleness_timeout st /\
  latest (engine_event st e) !! tp
    = match sample_of tp e with Some s => Some s.2 | None => latest st !! tp end /\
  timestamps (engine_event st e) !! tp
    = match sample_of tp e with Some s => Some s.1 | None => timestamps st !! tp end.
Proof.
  destruct e as [now tp' v|now rs|now rs|rs]; cbn [engine_event sample_of].
  - unfold ingest. destruct (is_zone_event tp'); cbn [negb]; rewrite ?andb_false_r, ?andb_true_r.
    + destruct (3 <=? _); [|done]. destruct (get_str v "robot_id"); [|done]. by destruct (ends_with "/entered" tp').
    + cbn [ingest_sample latest timestamps staleness_timeout].
      destruct (String.eqb_spec tp' tp) as [->|Hne]; [by rewrite !lookup_insert_eq|].
      by rewrite !lookup_insert_ne.
  - by destruct (tick_samples now st rs) as (-> & -> & ->).
  - destruct (tick_samples now (refresh_baseline st rs) (arc_val rs)) as (H1 & H2 & H3).
    destruct (refresh_samples st rs) as (H4 & H5 & H6). unfold tick_with_arc.
    change (tick_inner now (refresh_baseline st rs) (arc_val rs)) with (tick now (refresh_baseline st rs) (arc_val rs)).
    by rewrite H1, H2, H3, H4, H5, H6.
  - by destruct (refresh_samples st rs) as (-> & -> & ->).
Qed.

Lemma run_events_samples es : forall st tp,
  staleness_timeout (run_events st es) = staleness_timeout st /\
  latest (run_events st es) !! tp
    = match last_sample tp es with Some s => Some s.2 | None => latest st !! tp end /\
  timestamps (run_events st es) !! tp
    = match last_sample tp es with Some s => Some s.1 | None => timestamps st !! tp end.
Proof.
  induction es as [|e es IH]; intros st tp; [done|]. cbn [run_events foldl last_sample].
  change (foldl engine_event ?s es) with (run_events s es).
  destruct (IH (engine_event st e) tp) as (-> & -> & ->), (event_samples st e tp) as (-> & -> & ->).
  by destruct (last_sample tp es).
Qed.

(** ** Reachable engine states *)
Inductive engine_step : EvalState -> EvalState -> Prop :=
  | step_ingest now st tp payload : engine_step st (ingest now st tp payload)
  | step_tick now st rs : engine_step st (tick now st rs).2
  | step_tick_arc now st rs : engine_step st (tick_with_arc now st rs).2
  | step_swap st rs : engine_step st (refresh_baseline st rs).

Inductive engine_init : EvalState -> Prop :=
  | init_empty : engine_init empty_state
  | init_staleness timeout : engine_init (with_staleness empty_state timeout).

Definition engine_reachable (st : EvalState) : Prop :=
  exists st0, engine_init st0 /\ rtc engine_step st0 st.

Lemma init_holds_nothing st tp :
  engine_init st -> latest st !! tp = None /\ timestamps st !! tp = None.
Proof. by intros []; split; apply lookup_empty. Qed.

(** What every reachable state satisfies. *)
Record engine_inv (st : EvalState) : Prop := {
  inv_no_zone_sample : forall tp, is_zone_event tp = true -> latest st !! tp = None;
  inv_zone_prev : forall tp k j b,
    is_zone_event tp = true -> prev st !! (tp, k, j) = Some b -> b = false;
  inv_stamped : dom (latest st) = dom (timestamps st);
  inv_zones_nonempty : forall r, zones st !! r <> Some ∅
}.

Lemma current_absent snap zs t : snap !! t_topic t = None -> current snap zs t = false.
Proof. unfold current. by intros ->. Qed.

Lemma snapshot_subset now st tp v : snapshot now st !! tp = Some v -> latest st !! tp = Some v.
Proof.
  unfold snapshot. destruct (staleness_timeout st); [|done].
  rewrite map_lookup_imap. destruct (latest st !! tp) as [v'|]; simpl; [|done].
  destruct (timestamps st !! tp); [|congruence]. destruct (_ <=? _)%N; congruence.
Qed.

Lemma snapshot_None now st tp : latest st !! tp = None -> snapshot now st !! tp = None.
Proof.
  intros H. destruct (snapshot now st !! tp) eqn:E; [|done].
  apply snapshot_subset in E. congruence.
Qed.

(** A tick writes only current outcomes into [prev]. *)
Lemma tick_rules_prev_value snap zs (rs : list Rule) pv tp k j b :
  (tick_rules snap zs 0 rs pv).2 !! (tp, k, j) = Some b ->
  pv !! (tp, k, j) = Some b \/ exists t, t_topic t = tp /\ b = current snap zs t.
Proof.
  rewrite tick_rules_prev0. destruct (rs !! k) as [r|]; [|by left].
  destruct (guard_empty (r_when r)); [by left|]. unfold written.
  destruct (guard_triggers (r_when r) !! j) as [t|]; [|by left].
  destruct (bool_decide_reflect (t_topic t = tp)) as [Ht|]; simpl; [|by left].
  destruct (is_edge t && _); [|by left]. intros [= <-]. right. eauto.
Qed.

Lemma engine_inv_tick now st rs : engine_inv st -> engine_inv (tick now st rs).2.
Proof.
  intros [H1 H2 H3 H4]. unfold tick, tick_inner.
  pose proof (tick_rules_prev_value (snapshot now st) (zones st) (rules rs) (prev st)) as Hp.
  destruct (tick_rules _ _ _ _ _) as [out pv]. simpl in *. split; simpl; try done.
  intros tp k j b Hz [Hb|(t & <- & ->)]%Hp; [by eapply H2|].
  apply current_absent, snapshot_None. auto.
Qed.

Lemma snapshot_refresh now st rs : snapshot now (refresh_baseline st rs) = snapshot now st.
Proof. unfold refresh_baseline. by destruct (match _ with Some _ => _ | None => _ end). Qed.

Lemma engine_inv_refresh st rs : engine_inv st -> engine_inv (refresh_baseline st rs).
Proof.
  intros H. unfold refresh_baseline. destruct (match _ with Some _ => _ | None => _ end); [|done].
  destruct H as [H1 H2 H3 H4]. by split; simpl.
Qed.

Lemma enter_zone_lookup zs r z r' :
  enter_zone_map zs r z !! r' = if decide (r = r') then Some ({[z]} ∪ default ∅ (zs !! r)) else zs !! r'.
Proof.
  unfold enter_zone_map. destruct (decide (r = r')) as [->|Hne]; [apply lookup_insert_eq|].
  by apply lookup_insert_ne.
Qed.

Lemma zone_set_enter zs r z r' : 
  default ∅ (enter_zone_map zs r z !! r')
  = if decide (r = r') then {[z]} ∪ default ∅ (zs !! r') else default ∅ (zs !! r').
Proof. rewrite enter_zone_lookup. by destruct (decide (r = r')) as [->|]. Qed.

Lemma zone_set_clear zs r z r' :
  default ∅ (clear_zone_map zs r z !! r')
  = if decide (r = r') then default ∅ (zs !! r') ∖ {[z]} else default ∅ (zs !! r').
Proof.
  unfold clear_zone_map. destruct (zs !! r) as [s|] eqn:E.
  - destruct (decide (s ∖ {[z]} = ∅)) as [He|He], (decide (r = r')) as [->|Hne].
    + by rewrite lookup_delete_eq, E.
    + by rewrite lookup_delete_ne.
    + by rewrite lookup_insert_eq, E.
    + by rewrite lookup_insert_ne.
  - destruct (decide (r = r')) as [->|]; [|done]. rewrite E. simpl. by apply leibniz_equiv; set_solver.
Qed.

Lemma zones_nonempty_enter zs r z :
  (forall r, zs !! r <> Some ∅) -> forall r', enter_zone_map zs r z !! r' <> Some ∅.
Proof.
  intros H r'. rewrite enter_zone_lookup. destruct (decide (r = r')); [|done].
  intros [= Hs]. assert (z ∈ (∅ : gset string)) as Hz by (rewrite <- Hs; set_solver).
  by apply not_elem_of_empty in Hz.
Qed.

Lemma zones_nonempty_clear zs r z :
  (forall r, zs !! r <> Some ∅) -> forall r', clear_zone_map zs r z !! r' <> Some ∅.
Proof.
  intros H r'. unfold clear_zone_map. destruct (zs !! r) as [s|]; [|done].
  destruct (decide (s ∖ {[z]} = ∅)) as [He|He].
  - rewrite lookup_delete. by destruct (decide (r = r')).
  - rewrite lookup_insert. destruct (decide (r = r')); [|done]. congruence.
Qed.

(** The zone update a sample stands for, if it stands for one. *)
Definition zone_update (tp : string) (payload : Value) : option (string * string * bool) :=
  if is_zone_event tp && (3 <=? length (split_on slash tp)) then
    (fun r => (r, nth 1 (split_on slash tp) "", ends_with "/entered" tp))
      <$> get_str payload "robot_id"
  else None.

Definition apply_update (zs : ZoneMap) (u : option (string * string * bool)) : ZoneMap :=
  match u with
  | Some (r, z, true) => enter_zone_map zs r z
  | Some (r, z, false) => clear_zone_map zs r z
  | None => zs
  end.

Lemma ingest_zones now st tp payload :
  zones (ingest now st tp payload) = apply_update (zones st) (zone_update tp payload).
Proof.
  unfold ingest, zone_update. destruct (is_zone_event tp); [|done]. cbn [andb].
  destruct (3 <=? _); [|done]. destruct (get_str payload "robot_id"); [|done]. simpl.
  by destruct (ends_with "/entered" tp).
Qed.

Lemma ingest_event_frame now st tp payload :
  is_zone_event tp = true ->
  latest (ingest now st tp payload) = latest st /\
  timestamps (ingest now st tp payload) = timestamps st.
Proof.
  unfold ingest. intros ->. destruct (3 <=? _); [|done].
  destruct (get_str payload "robot_id"); [|done]. by destruct (ends_with "/entered" tp).
Qed.

Lemma engine_inv_ingest now st tp payload : engine_inv st -> engine_inv (ingest now st tp payload).
Proof.
  intros [H1 H2 H3 H4].
  assert (forall r, zones (ingest now st tp payload) !! r <> Some ∅) as Hz.
  { rewrite ingest_zones. destruct (zone_update tp payload) as [[[r z] []]|]; simpl; [| |done].
    - by apply zones_nonempty_enter.
    - by apply zones_nonempty_clear. }
  destruct (is_zone_event tp) eqn:E.
  - destruct (ingest_event_frame now st tp payload E) as [Hl Ht].
    split; rewrite ?Hl, ?Ht, ?ingest_prev; done.
  - split; [| |unfold ingest; rewrite E; simpl; by rewrite !dom_insert_L, H3|done].
    + intros tp' Htp'. unfold ingest. rewrite E. simpl.
      rewrite lookup_insert_ne by congruence. auto.
    + rewrite ingest_prev. done.
Qed.

Lemma engine_inv_init st : engine_init st -> engine_inv st.
Proof.
  intros []; (split; simpl; [intros; apply lookup_empty| |by rewrite !dom_empty_L|by intros r; rewrite lookup_empty]);
    intros tp k j b _; by rewrite lookup_empty.
Qed.

Lemma reachable_inv st : engine_reachable st -> engine_inv st.
Proof.
  intros (st0 & Hi & Hs). apply engine_inv_init in Hi.
  induction Hs as [|x y z [] _ IH]; [done|..]; apply IH.
  - by apply engine_inv_ingest.
  - by apply engine_inv_tick.
  - unfold tick_with_arc. by apply engine_inv_tick, engine_inv_refresh.
  - by apply engine_inv_refresh.
Qed.

(** ** The zone history *)

(** The zone updates of a run of samples, oldest first. *)
Definition updates (l : list (string * Value)) : list (string * string * bool) :=
  omap (fun s => zone_update s.1 s.2) l.

(** Whether robot [r] is in zone [z] after the updates: the last update about
    the pair decides. *)
Fixpoint in_zone_after (us : list (string * string * bool)) (acc : bool) (r z : string) : bool :=
  match us with
  | [] => acc
  | (r', z', e) :: us' =>
      in_zone_after us' (if bool_decide (r' = r /\ z' = z) then e else acc) r z
  end.

Definition ingest_all (now : N) (st : EvalState) (l : list (string * Value)) : EvalState :=
  foldl (fun st s => ingest now st s.1 s.2) st l.

Definition zone_mem (zs : ZoneMap) (r z : string) : bool := bool_decide (z ∈ default ∅ (zs !! r)).

Lemma apply_update_mem zs r' z' e r z :
  zone_mem (apply_update zs (Some (r', z', e))) r z
  = if bool_decide (r' = r /\ z' = z) then e else zone_mem zs r z.
Proof.
  unfold zone_mem, apply_update.
  destruct (bool_decide_reflect (r' = r /\ z' = z)) as [[-> ->]|Hne].
  - destruct e; rewrite ?zone_set_enter, ?zone_set_clear, decide_True by done;
      [apply bool_decide_eq_true_2|apply bool_decide_eq_false_2]; set_solver.
  - apply bool_decide_ext. destruct e; rewrite ?zone_set_enter, ?zone_set_clear;
      (destruct (decide (r' = r)); [set_solver|done]).
Qed.

Lemma ingest_all_zones now l : forall st r z,
  zone_mem (zones (ingest_all now st l)) r z = in_zone_after (updates l) (zone_mem (zones st) r z) r z.
Proof.
  unfold updates. induction l as [|[tp p] l IH]; intros st r z; [done|].
  cbn [ingest_all foldl fst snd]. fold (ingest_all now (ingest now st tp p) l).
  rewrite IH, ingest_zones. cbn [omap list_omap fst snd].
  destruct (zone_update tp p) as [[[r' z'] e]|]; [|done].
  rewrite apply_update_mem. done.
Qed.

Lemma share_zone_spec zs a b :
  share_zone zs a b = true <-> exists z, zone_mem zs a z = true /\ zone_mem zs b z = true.
Proof.
  unfold share_zone, zone_mem. setoid_rewrite bool_decide_eq_true.
  destruct (zs !! a) as [sa|]; [|split; [done|by intros (z & Hz%not_elem_of_empty & _)]].
  destruct (zs !! b) as [sb|]; [|split; [done|by intros (z & _ & Hz%not_elem_of_empty)]].
  rewrite existsb_exists. setoid_rewrite bool_decide_eq_true.
  setoid_rewrite <- list_elem_of_In. by setoid_rewrite elem_of_elements.
Qed.

(** ** Predicates on absent data *)

(** No comparison of [p] has both operands in the payload. *)
Fixpoint unresolved (payload : Value) (p : Predicate) : bool :=
  match p with
  | Comparison _ l r =>
      negb (is_some (resolve_operand l payload) && is_some (resolve_operand r payload))
  | And ps | Or ps => forallb (unresolved payload) ps
  | Not p => unresolved payload p
  end.

(** The predicate with every comparison read as false. *)
Fixpoint all_false (p : Predicate) : bool :=
  match p with
  | Comparison _ _ _ => false
  | And ps => forallb all_false ps
  | Or ps => existsb all_false ps
  | Not p => negb (all_false p)
  end.

(** ** The meaning of the compiled conditions *)
Definition local_payload (id : string) (snap : gmap string Value) (r : string) : option Value :=
  snap !! ("robot/" +:+ id +:+ "/local/" +:+ r).

(** [f] holds of the number in field [k]. *)
Definition num_field (f : f64 -> bool) (k : string) (p : Value) : bool :=
  match value_get p k with
  | Some (Number n) => match as_f64 n with Some x => f x | None => false end
  | _ => false
  end.
Definition str_field (k s : string) (p : Value) : bool :=
  match value_get p k with Some (Str x) => (x =? s)%string | _ => false end.

(** What each condition asks of the latest samples; a distance that is not
    finite is never met. *)
Definition cond_true (id : string) (snap : gmap string Value) (c : Cond) : bool :=
  let on r f := match local_payload id snap r with Some p => f p | None => false end in
  match c with
  | CInZone z => on "zone" (str_field "zone_id" z)
  | CNotInZone z => on "zone" (fun p => negb (str_field "zone_id" z p))
  | CNearHuman d =>
      on "human_present" (num_field (fun x => is_finite d && SFltb x d) "separation_distance")
  | CNotNearHuman d =>
      on "human_present" (num_field (fun x => is_finite d && SFleb d x) "separation_distance")
  | CNear n =>
      on "proximity" (fun p => bool_decide (get_str p "peer_id" = Some (entity n))
        && num_field (fun x => is_finite (dist n) && SFltb x (dist n)) "separation_distance" p)
  | CRole r => on "role" (str_field "role" r)
  end.

Lemma current_local id snap zs r p m :
  current snap zs (mkTrigger ("robot/" +:+ id +:+ "/local/" +:+ r) (Some p) m)
  = match local_payload id snap r with Some v => eval_tree p v zs | None => false end.
Proof.
  unfold current, local_payload, trigger_matches. cbn [t_topic t_pred eval_predicate].
  rewrite String.eqb_refl. done.
Qed.

Lemma eval_str_eq pr s v zs :
  (pr = PZone \/ pr = PRobot) ->
  eval_tree (Comparison OpEq (Prim pr) (OStr s)) v zs = str_field (prim_field pr) s v.
Proof.
  intros [-> | ->]; simpl; unfold str_field; destruct (value_get v _) as [[]|]; done.
Qed.

Context {JL : JsonNumberLaws JN}.

Lemma resolve_float d v :
  (is_finite d = true /\ exists n, resolve_operand (OFloat d) v = Some (Number n) /\ as_f64 n = Some d)
  \/ (is_finite d = false /\ resolve_operand (OFloat d) v = None).
Proof.
  simpl. destruct (is_finite d) eqn:Hd; [left|right].
  - destruct (from_f64_finite d Hd) as (n & -> & Hn). eauto.
  - by rewrite (from_f64_nonfinite d Hd).
Qed.

Lemma SFleb_swap x d : x <> S754_nan -> is_finite d = true ->
  ord_is is_ge (SFcompare x d) = SFleb d x.
Proof.
  intros Hx Hd. unfold SFleb, SFcompare.
  destruct x as [[]|[]| |[] mx ex], d as [[]|[]| |[] md ed]; try done.
  all: rewrite Z.compare_antisym; destruct (ed ?= ex)%Z; simpl; try done.
  all: match goal with |- context [?f Eq ?a ?b] =>
         assert (f Eq b a = CompOpp (f Eq a b)) as -> by apply Pos.compare_antisym;
         by destruct (f Eq a b)
       end.
Qed.

Lemma eval_distance op (f : f64 -> f64 -> bool) d v zs (pl : option Value) :
  (forall x, x <> S754_nan -> is_finite d = true ->
     match op with
     | OpLt => ord_is is_lt (SFcompare x d)
     | _ => ord_is is_ge (SFcompare x d)
     end = f x d) ->
  op = OpLt \/ op = OpGe ->
  match pl, resolve_operand (OFloat d) v with
  | Some l, Some r => eval_comparison op l r zs
  | _, _ => false
  end
  = match pl with
    | Some (Number n) => match as_f64 n with Some x => is_finite d && f x d | None => false end
    | _ => false
    end.
Proof.
  intros Hf Hop. destruct (resolve_float d v) as [[Hd (n & -> & Hn)]|[Hd ->]]; rewrite Hd.
  - destruct pl as [[| |m| | |]|]; try (by destruct Hop as [-> | ->]).
    pose proof (as_f64_not_nan m) as Hm.
    destruct Hop as [-> | ->]; simpl; rewrite Hn;
      (destruct (as_f64 m) as [x|]; [|done]); apply Hf; congruence.
  - destruct pl as [[]|]; try done. by destruct (as_f64 _).
Qed.

Lemma lt_ok d x : x <> S754_nan -> is_finite d = true -> ord_is is_lt (SFcompare x d) = SFltb x d.
Proof. intros _ _. unfold SFltb. by destruct (SFcompare x d) as [[]|]. Qed.

Lemma current_cond id snap zs c :
  current snap zs (cond_trigger id c) = cond_true id snap c.
Proof.
  destruct c as [z|z|d|d|n|r]; unfold cond_trigger, cond_true; rewrite current_local;
    (destruct (local_payload id snap _) as [v|]; [|done]).
  - by apply eval_str_eq; left.
  - cbn [eval_tree]. f_equal. by apply eval_str_eq; left.
  - exact (eval_distance OpLt SFltb d v zs _ (lt_ok d) (or_introl eq_refl)).
  - exact (eval_distance OpGe (fun x d => SFleb d x) d v zs _
             (fun x => SFleb_swap x d) (or_intror eq_refl)).
  - cbn [eval_tree resolve_operand prim_field].
    case_bool_decide; [|done].
    exact (eval_distance OpLt SFltb (dist n) v zs _ (lt_ok (dist n)) (or_introl eq_refl)).
  - by apply eval_str_eq; right.
Qed.

(** *** The compiler composed with the tick *)
Definition edge_cond (c : Cond) : bool :=
  match c with CInZone _ | CNotInZone _ | CRole _ => true | _ => false end.

Lemma cond_trigger_edge id c : is_edge (cond_trigger id c) = edge_cond c.
Proof. by destruct c. Qed.

(** The actions a manifest asks for under a valuation of its conditions. *)
Definition source_output (id : string) (v : Cond -> bool) (srs : list SemanticRule) : list Action :=
  concat (map (fun sr => if when_sem v (sr_when sr)
                         then map (expand_action id) (sr_actions sr) else []) srs).

Lemma refines_output id rho v srs (rs : list Rule) :
  Forall2 (rule_refines id) srs rs -> (forall c, rho (cond_trigger id c) = v c) ->
  concat (map (fun r : Rule => if guard_holds rho (r_when r) then r_actions r else []) rs)
  = source_output id v srs.
Proof.
  intros HF Hv. unfold source_output.
  induction HF as [|sr r srs rs (_ & Ha & _ & _ & Hg) _ IH]; [done|]. simpl.
  by rewrite Hg, Ha, IH, (when_sem_ext _ v).
Qed.

Lemma compiled_level_only id sr (r : Rule) :
  rule_refines id sr r ->
  forallb (fun c => negb (edge_cond c)) (all_conditions (sr_when sr)) = true ->
  level_only r = true.
Proof.
  intros (_ & _ & _ & Hp & _) Hc. unfold level_only, guard_triggers.
  rewrite forallb_forall. intros t Ht%list_elem_of_In. rewrite Hp in Ht.
  apply list_elem_of_fmap in Ht as (c & -> & Hin). rewrite cond_trigger_edge.
  rewrite forallb_forall in Hc. by apply Hc, list_elem_of_In.
Qed.

(** ** Properties *)

(** C15. Edge rules fire exactly on changes.  Over any run of the engine -
    rounds of samples, each closed by a tick, under one ruleset, started
    without a baseline - a rule guarded by one edge trigger adds its actions
    to what a tick publishes if and only if the trigger's outcome on what the
    samples left differs from the outcome at the tick before, in either
    direction, and never at the first tick; they stand between the actions of
    the rules before it and those of the rules after it, which publish what
    they would without it. *)
Theorem edge_rule_fires_on_changes (rs : Rules) (pre post : list Rule) (r : Rule) (t : Trigger)
    (st : EvalState) (l : list Round) :
  rules rs = pre ++ r :: post -> r_when r = mkWhen [t] [] -> is_edge t = true -> prev st = ∅ ->
  let seen := views st l in
  engine_run rs st l =
    zip_with app (rules_run 0 pre ∅ seen)
      (zip_with app
        (map (fun c : bool => if c then r_actions r else [])
           (changes None (map (fun s => current s.1 s.2 t) seen)))
        (rules_run (S (length pre)) post ∅ seen)).
Proof.
  intros Hr Hw He Hp. cbn zeta. rewrite engine_run_rules, Hr, Hp, rules_run_app.
  rewrite (rules_run_app [r] post), (edge_rule_run _ _ _ Hw He), lookup_empty.
  by rewrite Nat.add_0_l, Nat.add_comm.
Qed.

(** C30. The zone map is the event history: after any run of samples robot [r]
    is in zone [z] exactly when the last [entered]/[cleared] event about the
    pair was an entry (or there was none and it was there before), samples of
    other topics and malformed events changing nothing; two robots share a
    zone exactly when some zone holds both. *)
Theorem zones_follow_events (now : N) (st : EvalState) (l : list (string * Value)) :
  let zs := zones (ingest_all now st l) in
  (forall r z, zone_mem zs r z = in_zone_after (updates l) (zone_mem (zones st) r z) r z) /\
  (forall a b, share_zone zs a b = true <-> exists z, zone_mem zs a z = true /\ zone_mem zs b z = true).
Proof. split; [apply ingest_all_zones|apply share_zone_spec]. Qed.

(** A rule that waits on a zone event topic is dead: in every reachable
    state of the engine, a guard with a conjunct on a topic of the form
    [zone/*/entered] or [zone/*/cleared] does not fire, in level or in edge
    mode, because [ingest] diverts those samples into the zone map. *)
Theorem zone_event_rules_dead (now : N) (st : EvalState) (ri : nat) (w : When) (t : Trigger) :
  engine_reachable st -> t ∈ w_all w -> is_zone_event (t_topic t) = true ->
  guard_fires (snapshot now st) (zones st) (prev st) ri w = false.
Proof.
  intros [H1 H2 _ _]%reachable_inv Ht Hz.
  assert (forall i, fires (snapshot now st) (zones st) (prev st) ri i t = false) as Hf.
  { intros i. unfold fires. rewrite current_absent by (apply snapshot_None; auto).
    destruct (is_edge t); [|done]. destruct (prev st !! _) as [b|] eqn:Hb; [|done].
    by rewrite (H2 _ _ _ _ Hz Hb). }
  unfold guard_fires. apply andb_false_iff. right. apply andb_false_iff. left.
  generalize 0. induction (w_all w) as [|t' ts IH]; intros i; [by apply elem_of_nil in Ht|].
  simpl. apply elem_of_cons in Ht as [<-|Ht]; [by rewrite Hf|].
  by rewrite (IH Ht), andb_false_r.
Qed.

(** C40. Staleness is exact and fails closed.  After any run of the engine -
    samples, ticks and ruleset swaps, each at its time - the state holds of
    every topic the last sample that arrived on it and the time it arrived
    (zone events are kept elsewhere), and nothing of a topic without one.  A
    tick sees that sample if and only if no timeout is set or no more than the
    timeout has passed since it arrived; a trigger whose sample is older is
    false, whatever its predicate. *)
Theorem staleness_exact (st0 : EvalState) (es : list EngineEvent) (now : N) (tp : string) :
  engine_init st0 ->
  let st := run_events st0 es in
  staleness_timeout st = staleness_timeout st0 /\
  latest st !! tp = snd <$> last_sample tp es /\ timestamps st !! tp = fst <$> last_sample tp es /\
  snapshot now st !! tp =
    match last_sample tp es, staleness_timeout st0 with
    | Some (at_, v), Some timeout => if (now - at_ <=? timeout)%N then Some v else None
    | Some (_, v), None => Some v
    | None, _ => None
    end /\
  forall timeout at_ v t zs, staleness_timeout st0 = Some timeout -> last_sample tp es = Some (at_, v) ->
    (timeout < now - at_)%N -> t_topic t = tp -> current (snapshot now st) zs t = false.
Proof.
  intros Hi st. destruct (run_events_samples es st0 tp) as (Ht & Hl & Hs). fold st in Ht, Hl, Hs.
  rewrite (proj1 (init_holds_nothing st0 tp Hi)) in Hl. rewrite (proj2 (init_holds_nothing st0 tp Hi)) in Hs.
  assert (latest st !! tp = snd <$> last_sample tp es /\ timestamps st !! tp = fst <$> last_sample tp es)
    as [Hl' Hs'] by (rewrite Hl, Hs; by destruct (last_sample tp es)).
  split; [done|]. split; [done|]. split; [done|].
  assert (snapshot now st !! tp =
    match last_sample tp es, staleness_timeout st0 with
    | Some (at_, v), Some timeout => if (now - at_ <=? timeout)%N then Some v else None
    | Some (_, v), None => Some v
    | None, _ => None
    end) as Hsnap.
  { unfold snapshot. rewrite Ht. destruct (staleness_timeout st0);
      rewrite ?map_lookup_imap, Hl', ?Hs'; by destruct (last_sample tp es) as [[at_ v]|]. }
  split; [done|]. intros timeout at_ v t zs Hto Hlast Hlt <-. apply current_absent.
  rewrite Hsnap, Hlast, Hto. by destruct (N.leb_spec (now - at_) timeout); [lia|].
Qed.

(** Evaluation on absent data: a comparison one of whose operands is
    missing is false, so a predicate none of whose comparisons resolves
    evaluates as the connectives over [false]; conjunctions and disjunctions
    of comparisons fail closed, but a negation fails open. *)
Theorem absent_data_reads_false (p : Predicate) (payload : Value) (zs : ZoneMap) :
  unresolved payload p = true -> eval_tree p payload zs = all_false p.
Proof.
  induction p as [op l r|ps IH|ps IH|p IH] using Predicate_nested_ind; simpl.
  - destruct (resolve_operand l payload), (resolve_operand r payload); done.
  - induction IH as [|p ps Hp _ IHps]; simpl; [done|]. rewrite andb_true_iff.
    intros [H1 H2]. by rewrite Hp, IHps.
  - induction IH as [|p ps Hp _ IHps]; simpl; [done|]. rewrite andb_true_iff.
    intros [H1 H2]. by rewrite Hp, IHps.
  - intros H. by rewrite IH.
Qed.

Lemma compiled_level_tick (fmt_f64 : f64 -> string) (fmt_value : Value -> string)
    (doc : RulesManifest) (id : string) (rs : Rules) (now : N) (st : EvalState) :
  has_char slash id = false -> compile fmt_f64 fmt_value doc id = Ok rs ->
  forallb (fun sr => forallb (fun c => negb (edge_cond c)) (all_conditions (sr_when sr)))
    (m_rules doc) = true ->
  (tick now st rs).1 = source_output id (cond_true id (snapshot now st)) (m_rules doc).
Proof.
  intros Hi Hc%(compiled_refines _ _ _ _ _ Hi) Hl.
  rewrite <- (refines_output id (current (snapshot now st) (zones st)) _ _ _ Hc)
    by (intros; apply current_cond).
  unfold tick, tick_inner.
  pose proof (tick_rules_output (snapshot now st) (zones st) (rules rs) 0 (prev st)) as H.
  destruct (tick_rules _ _ _ _ _) as [out pv]. simpl in *. subst out.
  apply tick_output_valuation. intros r ri Hr. apply level_only_fires.
  revert Hl Hr. clear -Hc. induction Hc as [|sr r' srs rs' Href _ IH].
  - intros _ H. by apply elem_of_nil in H.
  - cbn [forallb]. intros [H1 H2]%andb_true_iff [->|Hr]%elem_of_cons; [|by apply IH].
    by eapply compiled_level_only.
Qed.


(** C5. From manifest to actions: for a manifest of level conditions (the
    distance keys), one tick of the engine under the compiled rules publishes
    exactly the expansions of the actions of the manifest rules whose nested
    condition holds of the latest samples, in manifest order. *)
Theorem compile_then_tick (fmt_f64 : f64 -> string) (fmt_value : Value -> string)
    (doc : RulesManifest) (id : string) (rs : Rules) (now : N) (st : EvalState) :
  has_char slash id = false -> compile fmt_f64 fmt_value doc id = Ok rs ->
  forallb (fun sr => forallb (fun c => negb (edge_cond c)) (all_conditions (sr_when sr)))
    (m_rules doc) = true ->
  (tick now st rs).1 = source_output id (cond_true id (snapshot now st)) (m_rules doc).
Proof. apply compiled_level_tick. Qed.

(** From manifest to actions on a hot swap: whatever the manifest and
    whatever the engine had recorded, the first tick under the newly compiled
    rules publishes the actions of the rules whose nested condition holds
    with every edge condition ([in_zone], [not_in_zone], [role]) counted as
    false. *)
Theorem compile_then_swap (fmt_f64 : f64 -> string) (fmt_value : Value -> string)
    (doc : RulesManifest) (id : string) (rs : Arc Rules) (now : N) (st : EvalState) :
  has_char slash id = false -> compile fmt_f64 fmt_value doc id = Ok (arc_val rs) ->
  match last_rules st with Some old => ptr_eq old rs = false | None => True end ->
  (tick_with_arc now st rs).1 =
    source_output id (fun c => negb (edge_cond c) && cond_true id (snapshot now st) c) (m_rules doc).
Proof.
  intros Hi Hc%(compiled_refines _ _ _ _ _ Hi) Hp.
  rewrite <- (refines_output id (first_tick_value (snapshot now st) (zones st)) _ _ _ Hc)
    by (intros c; unfold first_tick_value; by rewrite cond_trigger_edge, current_cond).
  by apply swap_tick_output.
Qed.

(** The subscription set is exact: the topics subscribed for a ruleset
    are sorted, without duplicates, and are exactly the topics of the
    triggers of its guards. *)
Theorem sensor_topics_exact (rs : Rules) :
  StronglySorted String.le (sorted_topics rs) /\ NoDup (sorted_topics rs) /\
  forall tp, tp ∈ sorted_topics rs <->
    exists (r : Rule) t, r ∈ rules rs /\ t ∈ guard_triggers (r_when r) /\ t_topic t = tp.
Proof.
  unfold sorted_topics.
  set (l := concat (map (fun r => collect_topics (r_when r)) (rules rs))).
  destruct (dedup_sorted (sort_by id l) (sort_by_sorted id l)) as [Hs Hn].
  split; [done|]. split; [done|]. intros tp.
  rewrite dedup_elem_of, sort_by_perm. unfold l. rewrite list_elem_of_In, in_concat.
  split.
  - intros (ts & Hin & Ht). apply in_map_iff in Hin as (r & <- & Hr).
    unfold collect_topics in Ht. rewrite <- map_app in Ht.
    apply in_map_iff in Ht as (t & <- & Ht). exists r, t. by rewrite !list_elem_of_In.
  - intros (r & t & Hr & Ht & <-). exists (collect_topics (r_when r)).
    split; [apply in_map_iff; exists r; by rewrite <- list_elem_of_In|].
    unfold collect_topics. rewrite <- map_app. by apply in_map, list_elem_of_In.
Qed.

(** A NaN distance is accepted and inert: a condition block [near_human =
    nan] passes validation (only [d <= 0] is rejected), yet the condition it
    compiles to is false on every snapshot, and so is its negative form. *)
Theorem nan_distance_inert (zs : gmap string ZoneShape) (id : string)
    (snap : gmap string Value) (zm : ZoneMap) :
  when_valid zs (mkSemanticWhen None None (Some f64_nan) None None None [] []) = true /\
  current snap zm (cond_trigger id (CNearHuman f64_nan)) = false /\
  current snap zm (cond_trigger id (CNotNearHuman f64_nan)) = false.
Proof.
  split; [done|]. rewrite !current_cond. unfold cond_true.
  split; (destruct (local_payload id snap _) as [v|]; [|done]); unfold num_field;
    (destruct (value_get v _) as [[]|]; try done); by destruct (as_f64 _).
Qed.
End engine_props.

(** ** Concrete instances *)
Module RunEx.
Definition payload (k : string) (v : string) : Value (JN := model_number) := Object [(k, Str v)].
Definition zone_topic : string := "robot/7/local/zone".
Definition rounds : list (Round (JN := model_number)) :=
  map (fun z => mkRound [(0%N, zone_topic, payload "zone_id" z)] 1) ["aisle"; "dock"; "dock"; "aisle"].
Definition doc (w : SemanticWhen) : RulesManifest (JN := model_number) :=
  mkManifest (mkSite "plant" "map") Ex.ex_zones [mkSemanticRule "dock-stop" w [Ex.estop_action]].
Definition compiled (w : SemanticWhen) : Rules (JN := model_number) :=
  match compile Ex.fmt Ex.fmtv (doc w) "7" with Ok r => r | _ => Rules_default end.
Definition zone_rule : Rule :=
  mkRule "dock-stop" (mkWhen [cond_trigger "7" (CInZone "dock")] [])
    [expand_action "7" Ex.estop_action].
Definition human (n : Z) : Value (JN := model_number) :=
  Object [("separation_distance", Number (from_i64 n))].
Definition near_state : EvalState :=
  ingest 0 empty_state "robot/7/local/human_present" (human 0).
Definition event_state : EvalState := ingest 0 empty_state "zone/dock/entered" (payload "robot_id" "7").
Definition aged : EvalState :=
  run_events (with_staleness empty_state 10)
    [Sampled 1 "sensor/a" (human 0); Sampled 3 "sensor/a" (human 1); Ticked 5 Rules_default].
Definition event_trigger : Trigger := mkTrigger "zone/dock/entered" None Level.
End RunEx.

Lemma edge_rule_fires_on_changes_witness :
  engine_run (RunEx.compiled (Ex.cond_in "dock")) empty_state RunEx.rounds
  = [[]; r_actions RunEx.zone_rule; []; r_actions RunEx.zone_rule].
Proof.
  exact (edge_rule_fires_on_changes (RunEx.compiled (Ex.cond_in "dock")) [] [] RunEx.zone_rule
    (cond_trigger "7" (CInZone "dock")) empty_state RunEx.rounds eq_refl eq_refl eq_refl eq_refl).
Defined.

Lemma zone_event_rules_dead_witness :
  guard_fires (snapshot 1 RunEx.event_state) (zones RunEx.event_state) (prev RunEx.event_state) 0
    (mkWhen [RunEx.event_trigger] []) = false.
Proof.
  apply (zone_event_rules_dead 1 RunEx.event_state 0 (mkWhen [RunEx.event_trigger] [])
    RunEx.event_trigger).
  - exists empty_state. split; [constructor|]. eapply rtc_l; [apply step_ingest|apply rtc_refl].
  - left.
  - reflexivity.
Defined.

Lemma staleness_exact_witness :
  timestamps RunEx.aged !! "sensor/a" = Some 3%N /\ snapshot 20 RunEx.aged !! "sensor/a" = None.
Proof.
  destruct (staleness_exact (with_staleness empty_state 10)
    [Sampled 1 "sensor/a" (RunEx.human 0); Sampled 3 "sensor/a" (RunEx.human 1); Ticked 5 Rules_default]
    20 "sensor/a" (init_staleness 10)) as (_ & _ & H1 & H2 & _).
  split; [exact H1|exact H2].
Defined.

Lemma absent_data_reads_false_witness :
  eval_tree (Not (zone_is "dock")) (RunEx.payload "other" "x") ∅ = true.
Proof. exact (absent_data_reads_false (Not (zone_is "dock")) (RunEx.payload "other" "x") ∅ eq_refl). Defined.


Lemma compile_then_tick_witness :
  (tick 1 RunEx.near_state (RunEx.compiled Ex.cond_near)).1 = [expand_action "7" Ex.estop_action].
Proof.
  exact (compile_then_tick Ex.fmt Ex.fmtv (RunEx.doc Ex.cond_near) "7" (RunEx.compiled Ex.cond_near)
    1 RunEx.near_state eq_refl eq_refl eq_refl).
Defined.

Lemma compile_then_swap_witness :
  (tick_with_arc 1 RunEx.near_state (mkArc 3 (RunEx.compiled Ex.cond_near))).1
  = [expand_action "7" Ex.estop_action].
Proof.
  exact (compile_then_swap Ex.fmt Ex.fmtv (RunEx.doc Ex.cond_near) "7"
    (mkArc 3 (RunEx.compiled Ex.cond_near)) 1 RunEx.near_state eq_refl eq_refl I).
Defined.

Lemma nan_distance_inert_witness :
  when_valid ∅ (mkSemanticWhen None None (Some f64_nan) None None None [] []) = true.
Proof. exact (proj1 (nan_distance_inert (JN := model_number) ∅ "7" ∅ ∅)). Defined.

(** [not_in_zone] fails open on a sample without a zone: through the
    compiler and the engine, a [zone] sample that carries no [zone_id] makes
    the compiled [not_in_zone] condition true. *)
Theorem not_in_zone_fails_open (z k v : string) :
  k <> "zone_id" ->
  current (snapshot 1 (ingest 0 empty_state RunEx.zone_topic (RunEx.payload k v))) ∅
    (cond_trigger "7" (CNotInZone z)) = true.
Proof.
  intros Hk. rewrite current_cond. unfold cond_true, local_payload.
  change (snapshot 1 (ingest 0 empty_state RunEx.zone_topic (RunEx.payload k v)))
    with (<[RunEx.zone_topic := RunEx.payload k v]> (∅ : gmap string (Value (JN := model_number)))).
  change ("robot/" +:+ "7" +:+ "/local/" +:+ "zone") with RunEx.zone_topic.
  rewrite lookup_insert_eq. unfold str_field, RunEx.payload. simpl.
  apply String.eqb_neq in Hk. by rewrite Hk.
Qed.

Lemma not_in_zone_fails_open_witness :
  current (snapshot 1 (ingest 0 empty_state RunEx.zone_topic (RunEx.payload "pose" "x"))) ∅
    (cond_trigger "7" (CNotInZone "dock")) = true.
Proof. apply (not_in_zone_fails_open "dock" "pose" "x"). discriminate. Defined.
