(* ===== verification/Registry.v ===== *)
(** * Registry: ownership, versions and audit of rulesets ([src/registry.rs])

    The two SQL tables as a map and a list, [publish] with every early return
    and every statement that can fail, and the content digest.  The [toml]
    writer, SHA-256 and the clock are parameters; a database statement's
    success is an oracle [db], indexed by the statement's position. *)
From S2P Require Import Prelude Json Rules Topic Semantic SemanticSpec.

Inductive RegistryError := Db | Io | BadName | Lock (e : string) | Ser (e : string).
(** [Display]; [e] is the text of the database's or the system's error. *)
Definition fmt_registry_error (e : string) (err : RegistryError) : string :=
  match err with
  | Db => "registry db error: " +:+ e
  | Io => "registry io error: " +:+ e
  | BadName => "invalid ruleset_name"
  | Lock e => "registry lock poisoned: " +:+ e
  | Ser e => "registry serialization error: " +:+ e
  end.

Inductive RegisterOutcome :=
  | Inserted
  | Updated (version : Z) (sha : string)
  | RejectedConflict.

Record RegRow := mkRow { row_owner : string; row_version : Z; row_sha : string }.
Record AuditRow := mkAudit {
  au_ts : string; au_name : string; au_owner : string; au_version : Z;
  au_sha : string; au_status : string; au_blob : string
}.
Record Registry := mkRegistry { table : gmap string RegRow; audit : list AuditRow }.
Definition registry_empty : Registry := mkRegistry ∅ [].

(** [Registry::new]: [parent] is the creation of the parent directory, if the
    path has one, [stored] the opened database's tables; [CREATE TABLE IF NOT
    EXISTS] keeps what is there. *)
Definition registry_new (parent : option (string + unit)) (stored : string + Registry)
    (create_tables : string + unit) : res RegistryError Registry :=
  match parent with
  | Some (inl _) => Err Io
  | _ =>
      match stored with
      | inl _ => Err Db
      | inr r => match create_tables with inl _ => Err Db | inr _ => Ok r end
      end
  end.

(** [i64] addition wraps (release build); [as u64] reinterprets the bits. *)
Definition wrap_i64 (z : Z) : Z := (z + 2 ^ 63) mod 2 ^ 64 - 2 ^ 63.
Definition as_u64 (z : Z) : Z := z mod 2 ^ 64.

(** ** [to_hex]: two lower-case digits per byte *)
Definition hex_digit (n : N) : ascii :=
  if (n <? 10)%N then ascii_of_N (48 + n) else ascii_of_N (87 + n).
Fixpoint to_hex (bytes : string) : string :=
  match bytes with
  | "" => ""
  | String b bs =>
      String (hex_digit (N_of_ascii b / 16)) (String (hex_digit (N_of_ascii b mod 16)) (to_hex bs))
  end.

(** The name check at the head of [publish]. *)
Definition ruleset_name_ok (name : string) : bool :=
  str_forallb (fun c => is_ascii_lowercase c || is_ascii_digit c || Ascii.eqb c "-"%char) name
  && negb (name =? "")%string && negb (64 <? String.length name).

Lemma name_ok_no_slash s :
  str_forallb (fun c => is_ascii_lowercase c || is_ascii_digit c || Ascii.eqb c "-"%char) s = true ->
  has_char slash s = false.
Proof.
  induction s as [|c s IH]; simpl; [done|]. intros [Hc Hs]%andb_true_iff. rewrite IH by done.
  destruct (Ascii.eqb_spec c slash) as [->|]; done.
Qed.

Section registry.
Context `{JN : JsonNumber}.
Context (ruleset_to_toml : Ruleset -> string + string) (sha256 : string -> string).

Definition canonical_ruleset (rs : Ruleset) : res RegistryError string :=
  let rs' := mkRuleset (ruleset_name rs) (version rs) (robot_owner rs)
               (sort_by r_name (rs_rules rs)) in
  match ruleset_to_toml rs' with inr s => Ok s | inl e => Err (Ser e) end.

Definition ruleset_digest (rs : Ruleset) : res RegistryError string :=
  c ← canonical_ruleset rs; mret (to_hex (sha256 c)).

Definition write_audit (ok : bool) (ts : string) (st : Registry) (rs : Ruleset) (ver : Z)
    (sha status : string) : Registry * res RegistryError unit :=
  match canonical_ruleset rs with
  | Ok blob =>
      if ok then
        (mkRegistry (table st)
           (audit st ++ [mkAudit ts (ruleset_name rs) (robot_owner rs) ver sha status blob]), Ok tt)
      else (st, Err Db)
  | Err e => (st, Err e)
  | Panic w => (st, Panic w)
  end.

(** [f()?; Ok(out)] on a state-passing call. *)
Definition then_ok {A B} (m : Registry * res RegistryError A) (out : B)
    : Registry * res RegistryError B :=
  (m.1, match m.2 with Ok _ => Ok out | Err e => Err e | Panic w => Panic w end).

Definition publish (db : nat -> bool) (ts : string) (st : Registry) (rs : Ruleset)
    (claiming_id : string) : Registry * res RegistryError RegisterOutcome :=
  if negb (ruleset_name_ok (ruleset_name rs)) then (st, Err BadName)
  else match ruleset_digest rs with
  | Err e => (st, Err e)
  | Panic w => (st, Panic w)
  | Ok sha =>
      if negb (db 0) then (st, Err Db)
      else match table st !! ruleset_name rs with
      | None =>
          if negb (db 1) then (st, Err Db)
          else
            let st1 := mkRegistry
              (<[ruleset_name rs := mkRow (robot_owner rs) 1 sha]> (table st)) (audit st) in
            then_ok (write_audit (db 2) ts st1 rs 1 sha "inserted") Inserted
      | Some row =>
          if negb (row_owner row =? robot_owner rs)%string then
            then_ok (write_audit (db 1) ts st rs (row_version row) sha "rejected_conflict")
              RejectedConflict
          else if (row_sha row =? sha)%string then
            (st, Ok (Updated (as_u64 (row_version row)) sha))
          else
            let new_ver := wrap_i64 (row_version row + 1) in
            if negb (db 1) then (st, Err Db)
            else
              let st1 := mkRegistry
                (<[ruleset_name rs := mkRow (robot_owner rs) new_ver sha]> (table st))
                (audit st) in
              then_ok (write_audit (db 2) ts st1 rs new_ver sha "updated")
                (Updated (as_u64 new_ver) sha)
      end
  end.

(** ** Runs of publications *)
Definition all_ok (_ : nat) : bool := true.

(** A run with its clock readings and statement outcomes. *)
Record Publication := mkPub { p_db : nat -> bool; p_ts : string; p_rs : Ruleset; p_by : string }.
Definition publish_one (st : Registry) (p : Publication) : Registry :=
  (publish (p_db p) (p_ts p) st (p_rs p) (p_by p)).1.
Definition publish_run (st : Registry) (ps : list Publication) : Registry :=
  foldl publish_one st ps.

(** The digest of a ruleset that has one. *)
Definition digest_of (rs : Ruleset) : string :=
  match ruleset_digest rs with Ok d => d | _ => "" end.

(** The publications that reach the row of [n]. *)
Definition concerns (n : string) (p : Publication) : bool :=
  (ruleset_name (p_rs p) =? n)%string && ruleset_name_ok n && is_ok (ruleset_digest (p_rs p)).

(** The row a history of publications leaves: the first publisher owns the
    name; its publications count one version per change of digest. *)
Definition owned_digests (o : string) (rss : list Ruleset) : list string :=
  map digest_of (List.filter (fun rs => (robot_owner rs =? o)%string) rss).
Definition row_of_history (rss : list Ruleset) : option RegRow :=
  match rss with
  | [] => None
  | rs :: _ =>
      let ds := owned_digests (robot_owner rs) rss in
      Some (mkRow (robot_owner rs) (Z.of_nat (length (dedup ds))) (List.last ds ""))
  end.

Definition history (n : string) (ps : list Publication) : list Ruleset :=
  map p_rs (List.filter (concerns n) ps).

Lemma dedup_snoc (l : list string) x :
  dedup (l ++ [x]) = match l with
                     | [] => [x]
                     | _ => if (List.last l "" =? x)%string then dedup l else dedup l ++ [x]
                     end.
Proof.
  destruct l as [|y l]; [done|]. revert y. induction l as [|z l IH]; intros y.
  { simpl. by destruct (String.eqb_spec y x) as [->|]. }
  change ((y :: z :: l) ++ [x]) with (y :: z :: (l ++ [x])).
  rewrite !dedup_cons2. specialize (IH z). change ((z :: l) ++ [x]) with (z :: (l ++ [x])) in IH.
  rewrite IH. change (List.last (y :: z :: l) "") with (List.last (z :: l) "").
  by destruct (List.last (z :: l) "" =? x)%string, (y =? z)%string.
Qed.

Lemma last_snoc_string (l : list string) x d : List.last (l ++ [x]) d = x.
Proof. apply List.last_last. Qed.

Lemma wrap_i64_small z : (- 2 ^ 63 <= z < 2 ^ 63)%Z -> wrap_i64 z = z.
Proof. intros H. unfold wrap_i64. rewrite Z.mod_small; lia. Qed.

Lemma dedup_length (l : list string) : length (dedup l) <= length l.
Proof.
  induction l as [|y [|z l] IH]; [done..|]. rewrite dedup_cons2.
  destruct (y =? z)%string; simpl in *; lia.
Qed.

Lemma dedup_nonempty (l : list string) : l <> [] -> dedup l <> [].
Proof.
  induction l as [|y [|z l] IH]; [done..|]. rewrite dedup_cons2.
  destruct (y =? z)%string; [intros _; by apply IH|done].
Qed.

Lemma owned_digests_snoc o rss rs :
  owned_digests o (rss ++ [rs]) =
  owned_digests o rss ++ (if (robot_owner rs =? o)%string then [digest_of rs] else []).
Proof.
  unfold owned_digests. rewrite List.filter_app, map_app. simpl.
  by destruct (robot_owner rs =? o)%string.
Qed.

Lemma owned_digests_length o rss : length (owned_digests o rss) <= length rss.
Proof. unfold owned_digests. rewrite length_map. apply List.filter_length_le. Qed.

Lemma row_of_history_snoc rss rs :
  row_of_history (rss ++ [rs]) =
  match row_of_history rss with
  | None => Some (mkRow (robot_owner rs) 1 (digest_of rs))
  | Some row =>
      if negb (row_owner row =? robot_owner rs)%string then Some row
      else if (row_sha row =? digest_of rs)%string then Some row
      else Some (mkRow (robot_owner rs) (row_version row + 1) (digest_of rs))
  end.
Proof.
  destruct rss as [|r0 rss].
  { simpl. unfold owned_digests. simpl. by rewrite String.eqb_refl. }
  cbn [row_of_history app]. change (r0 :: rss ++ [rs]) with ((r0 :: rss) ++ [rs]).
  rewrite owned_digests_snoc. cbn [row_owner row_sha row_version].
  destruct (String.eqb_spec (robot_owner r0) (robot_owner rs)) as [Ho|Ho].
  - rewrite <- Ho, String.eqb_refl. cbn [negb]. rewrite last_snoc_string, dedup_snoc.
    assert (owned_digests (robot_owner r0) (r0 :: rss) <> []) as Hne
      by (unfold owned_digests; simpl; by rewrite String.eqb_refl).
    destruct (owned_digests (robot_owner r0) (r0 :: rss)) as [|d ds]; [done|].
    destruct (String.eqb_spec (List.last (d :: ds) "") (digest_of rs)) as [->|Hd]; [done|].
    rewrite length_app. simpl length. do 2 f_equal. lia.
  - assert ((robot_owner rs =? robot_owner r0)%string = false) as -> by (apply String.eqb_neq; congruence).
    by rewrite app_nil_r.
Qed.

Lemma history_snoc n ps p :
  history n (ps ++ [p]) = history n ps ++ (if concerns n p then [p_rs p] else []).
Proof. unfold history. rewrite List.filter_app, map_app. simpl. by destruct (concerns n p). Qed.

Lemma history_length n ps : length (history n ps) <= length ps.
Proof. unfold history. rewrite length_map. apply List.filter_length_le. Qed.

Lemma row_of_history_bound rss row :
  row_of_history rss = Some row -> (1 <= row_version row <= Z.of_nat (length rss))%Z.
Proof.
  destruct rss as [|r0 rss]; [done|]. intros [= <-]. cbn [row_version].
  pose proof (dedup_length (owned_digests (robot_owner r0) (r0 :: rss))) as H1.
  pose proof (owned_digests_length (robot_owner r0) (r0 :: rss)) as H2.
  assert (dedup (owned_digests (robot_owner r0) (r0 :: rss)) <> []) as Hne.
  { apply dedup_nonempty. unfold owned_digests. simpl. by rewrite String.eqb_refl. }
  destruct (dedup _); [done|]. simpl in *. lia.
Qed.

(** One fault-free publication moves the row as the history does. *)
Lemma publish_row st p n :
  (forall k, p_db p k = true) ->
  (forall row, table st !! n = Some row -> (0 <= row_version row < 2 ^ 63 - 1)%Z) ->
  table (publish_one st p) !! n =
  if concerns n p then
    match table st !! n with
    | None => Some (mkRow (robot_owner (p_rs p)) 1 (digest_of (p_rs p)))
    | Some row =>
        if negb (row_owner row =? robot_owner (p_rs p))%string then Some row
        else if (row_sha row =? digest_of (p_rs p))%string then Some row
        else Some (mkRow (robot_owner (p_rs p)) (row_version row + 1) (digest_of (p_rs p)))
    end
  else table st !! n.
Proof.
  intros Hdb Hb. unfold publish_one, publish, concerns, digest_of. destruct p as [db ts rs by_].
  cbn [p_db p_ts p_rs p_by] in *.
  destruct (String.eqb_spec (ruleset_name rs) n) as [<-|Hn]; cbn [andb].
  - destruct (ruleset_name_ok (ruleset_name rs)); [|done]. cbn [negb andb].
    unfold ruleset_digest, write_audit. destruct (canonical_ruleset rs) as [c|e|w]; [|done..].
    simpl. rewrite !Hdb. cbn [negb].
    destruct (table st !! ruleset_name rs) as [row|] eqn:E.
    + destruct (negb _); [done|]. destruct (row_sha row =? _)%string; [done|].
      simpl. rewrite lookup_insert_eq. rewrite wrap_i64_small; [done|].
      specialize (Hb row eq_refl). lia.
    + simpl. by rewrite lookup_insert_eq.
  - unfold ruleset_digest, write_audit.
    destruct (negb (ruleset_name_ok _)); [done|].
    destruct (canonical_ruleset rs) as [c|e|w]; [|done..]. simpl. rewrite !Hdb. cbn [negb].
    destruct (table st !! ruleset_name rs) as [row|].
    + destruct (negb _); [done|]. destruct (row_sha row =? _)%string; [done|].
      simpl. by rewrite lookup_insert_ne.
    + simpl. by rewrite lookup_insert_ne.
Qed.

Lemma publish_run_history ps n :
  (forall p k, p ∈ ps -> p_db p k = true) -> (Z.of_nat (length ps) < 2 ^ 63 - 1)%Z ->
  table (publish_run registry_empty ps) !! n = row_of_history (history n ps).
Proof.
  induction ps as [|p ps IH] using rev_ind; intros Hdb Hlen; [done|].
  rewrite length_app in Hlen. simpl in Hlen.
  unfold publish_run in *. rewrite foldl_snoc, history_snoc.
  specialize (IH (fun q k Hq => Hdb q k (proj2 (elem_of_app _ _ _) (or_introl Hq)))).
  rewrite publish_row.
  - rewrite IH by lia. destruct (concerns n p); [by rewrite row_of_history_snoc|by rewrite app_nil_r].
  - intros k. apply Hdb, elem_of_app. right. by left.
  - rewrite IH by lia. intros row Hrow%row_of_history_bound.
    pose proof (history_length n ps). lia.
Qed.

Lemma digest_perm rs rs' :
  ruleset_name rs' = ruleset_name rs -> version rs' = version rs ->
  robot_owner rs' = robot_owner rs ->
  rs_rules rs ≡ₚ rs_rules rs' -> NoDup (map r_name (rs_rules rs)) ->
  canonical_ruleset rs' = canonical_ruleset rs.
Proof.
  intros Hn Hv Ho Hp Hd. unfold canonical_ruleset. rewrite Hn, Hv, Ho.
  by rewrite (sort_by_unique r_name (rs_rules rs) (rs_rules rs')).
Qed.

(** What one publication may do to the tables, whatever fails. *)
Definition publish_effect (st st' : Registry) (rs : Ruleset) : Prop :=
  (forall n, n <> ruleset_name rs -> table st' !! n = table st !! n) /\
  (forall row, table st !! ruleset_name rs = Some row ->
     exists row', table st' !! ruleset_name rs = Some row' /\ row_owner row' = row_owner row /\
       (row_owner row <> robot_owner rs -> row' = row)) /\
  (exists rows, audit st' = audit st ++ rows /\ length rows <= 1).

Lemma publish_effect_refl st rs : publish_effect st st rs.
Proof.
  split; [done|]. split; [eauto|]. exists []. by rewrite app_nil_r; auto.
Qed.

Lemma write_audit_cases ok ts st rs v sha status :
  table (write_audit ok ts st rs v sha status).1 = table st /\
  exists rows, audit (write_audit ok ts st rs v sha status).1 = audit st ++ rows /\ length rows <= 1.
Proof.
  unfold write_audit. destruct (canonical_ruleset rs); [|split; [done|exists []; by rewrite app_nil_r; auto]..].
  destruct ok; (split; [done|]); simpl; [eauto|]. exists []. by rewrite app_nil_r; auto.
Qed.

Lemma publish_effect_ok db ts st rs who : publish_effect st (publish db ts st rs who).1 rs.
Proof.
  unfold publish. destruct (negb _); [apply publish_effect_refl|].
  destruct (ruleset_digest rs) as [sha|e|w]; [|apply publish_effect_refl..].
  destruct (negb (db 0)); [apply publish_effect_refl|].
  destruct (table st !! ruleset_name rs) as [row|] eqn:E.
  - destruct (String.eqb_spec (row_owner row) (robot_owner rs)) as [Ho|Ho]; cbn [negb].
    + destruct (row_sha row =? sha)%string; [apply publish_effect_refl|].
      destruct (negb (db 1)); [apply publish_effect_refl|].
      unfold then_ok. cbn [fst].
      match goal with |- context [write_audit ?ok ?ts ?st1 ?rs ?v ?sha ?s] =>
        destruct (write_audit_cases ok ts st1 rs v sha s) as [Ht Ha] end.
      split; [intros n Hn; rewrite Ht; simpl; by rewrite lookup_insert_ne|].
      split; [|exact Ha]. intros row'. rewrite E. intros [= <-]. rewrite Ht. simpl.
      rewrite lookup_insert_eq. eexists. split; [done|]. by split.
    + unfold then_ok. cbn [fst].
      match goal with |- context [write_audit ?ok ?ts ?st1 ?rs ?v ?sha ?s] =>
        destruct (write_audit_cases ok ts st1 rs v sha s) as [Ht Ha] end.
      split; [intros n Hn; by rewrite Ht|]. split; [|exact Ha].
      intros row'. rewrite E. intros [= <-]. rewrite Ht. eauto.
  - destruct (negb (db 1)); [apply publish_effect_refl|]. unfold then_ok. cbn [fst].
    match goal with |- context [write_audit ?ok ?ts ?st1 ?rs ?v ?sha ?s] =>
      destruct (write_audit_cases ok ts st1 rs v sha s) as [Ht Ha] end.
    split; [intros n Hn; rewrite Ht; simpl; by rewrite lookup_insert_ne|].
    split; [|exact Ha]. by rewrite E.
Qed.

Lemma publish_run_owner ps : forall st n row,
  table st !! n = Some row ->
  exists row', table (publish_run st ps) !! n = Some row' /\ row_owner row' = row_owner row.
Proof.
  induction ps as [|p ps IH]; intros st n row Hrow; [eauto|].
  cbn [publish_run foldl]. fold (publish_run (publish_one st p) ps).
  destruct (publish_effect_ok (p_db p) (p_ts p) st (p_rs p) (p_by p)) as (Hother & Hown & _).
  destruct (String.eqb_spec n (ruleset_name (p_rs p))) as [->|Hn].
  - destruct (Hown row Hrow) as (row1 & H1 & Ho & _).
    destruct (IH _ _ _ H1) as (row2 & H2 & Ho2). exists row2. split; [done|]. congruence.
  - apply (IH (publish_one st p)). unfold publish_one. by rewrite Hother.
Qed.

(** A publication the registry takes leaves its author as the owner. *)
Lemma publish_accepted_row db ts st rs who out :
  (publish db ts st rs who).2 = Ok out -> out <> RejectedConflict ->
  exists row, table (publish db ts st rs who).1 !! ruleset_name rs = Some row /\
    row_owner row = robot_owner rs.
Proof.
  unfold publish. destruct (negb _); [done|]. destruct (ruleset_digest rs) as [sha|e|w]; [|done..].
  destruct (negb (db 0)); [done|]. destruct (table st !! ruleset_name rs) as [row|] eqn:E.
  - destruct (String.eqb_spec (row_owner row) (robot_owner rs)) as [Ho|Ho]; cbn [negb].
    + destruct (row_sha row =? sha)%string; [intros _ _; exists row; auto|].
      destruct (negb (db 1)); [done|]. unfold then_ok. cbn [fst snd].
      match goal with |- context [write_audit ?ok ?ts ?st1 ?rs ?v ?sha ?s] =>
        destruct (write_audit_cases ok ts st1 rs v sha s) as [Ht _] end.
      intros _ _. rewrite Ht. simpl. rewrite lookup_insert_eq. eauto.
    + unfold then_ok. cbn [fst snd]. by destruct (write_audit _ _ _ _ _ _ _).2; intros [= <-].
  - destruct (negb (db 1)); [done|]. unfold then_ok. cbn [fst snd].
    match goal with |- context [write_audit ?ok ?ts ?st1 ?rs ?v ?sha ?s] =>
      destruct (write_audit_cases ok ts st1 rs v sha s) as [Ht _] end.
    intros _ _. rewrite Ht. simpl. rewrite lookup_insert_eq. eauto.
Qed.

(** ** Properties *)

(** C21. The registry is its history.  After any run of publications whose
    statements all succeed, the row of a name is determined by the
    publications of that name alone: the first publisher owns it, its digest
    is the owner's last one, and its version counts the changes of digest in
    the owner's publications; publications by others, malformed names and
    re-publications of the same content leave no trace in it. *)
Theorem registry_follows_history (ps : list Publication) (n : string) :
  (forall p k, p ∈ ps -> p_db p k = true) -> (Z.of_nat (length ps) < 2 ^ 63 - 1)%Z ->
  table (publish_run registry_empty ps) !! n = row_of_history (history n ps).
Proof. apply publish_run_history. Qed.

(** Ownership is permanent: whatever statements fail along the way, a
    name once registered keeps its owner through every later publication,
    and a publication by anybody else leaves the whole table as it was. *)
Theorem registry_owner_permanent (st : Registry) (ps : list Publication) (n : string) (row : RegRow) :
  table st !! n = Some row ->
  (exists row', table (publish_run st ps) !! n = Some row' /\ row_owner row' = row_owner row) /\
  forall p, ruleset_name (p_rs p) = n -> robot_owner (p_rs p) <> row_owner row ->
    table (publish_one st p) = table st.
Proof.
  intros Hrow. split; [by apply publish_run_owner|]. intros p <- Ho.
  destruct (publish_effect_ok (p_db p) (p_ts p) st (p_rs p) (p_by p)) as (Hother & Hown & _).
  apply map_eq. intros m. destruct (String.eqb_spec m (ruleset_name (p_rs p))) as [->|Hm].
  - destruct (Hown row Hrow) as (row' & H1 & _ & Hsame). unfold publish_one.
    rewrite H1, Hrow. f_equal. apply Hsame. congruence.
  - by apply Hother.
Qed.

(** The digest does not depend on the order of the rules: publishing the
    same rules (under distinct names) in another order right after a
    successful publication changes neither the registry nor its audit log and
    reports the current version. *)
Theorem republish_idempotent (ts ts' by1 by2 : string) (st : Registry) (rs rs' : Ruleset) :
  ruleset_name rs' = ruleset_name rs -> version rs' = version rs ->
  robot_owner rs' = robot_owner rs ->
  rs_rules rs ≡ₚ rs_rules rs' -> NoDup (map r_name (rs_rules rs)) ->
  let st1 := (publish all_ok ts st rs by1).1 in
  is_ok (publish all_ok ts st rs by1).2 = true ->
  (publish all_ok ts st rs by1).2 <> Ok RejectedConflict ->
  exists row, table st1 !! ruleset_name rs = Some row /\
    publish all_ok ts' st1 rs' by2 = (st1, Ok (Updated (as_u64 (row_version row)) (row_sha row))).
Proof.
  intros Hn Hv Ho Hp Hd. cbv zeta.
  pose proof (digest_perm rs rs' Hn Hv Ho Hp Hd) as Hc.
  unfold publish, all_ok, ruleset_digest, write_audit. rewrite Hn, Ho, Hc.
  destruct (ruleset_name_ok (ruleset_name rs)); [|done]. cbn [negb].
  destruct (canonical_ruleset rs) as [c|e|w]; [|done..]. cbn [mbind res_bind mret res_ret negb].
  destruct (table st !! ruleset_name rs) as [row|] eqn:E.
  - destruct (negb (row_owner row =? robot_owner rs)%string) eqn:Hown; [done|].
    destruct (row_sha row =? to_hex (sha256 c))%string eqn:Hs.
    + intros _ _. exists row. simpl. rewrite E, Hown, Hs. apply String.eqb_eq in Hs. by rewrite Hs.
    + intros _ _. eexists. simpl. rewrite lookup_insert_eq. split; [done|].
      simpl. by rewrite !String.eqb_refl.
  - intros _ _. eexists. simpl. rewrite lookup_insert_eq. split; [done|].
    simpl. by rewrite !String.eqb_refl.
Qed.

(** A publication is not atomic: when the audit statement of a first
    publication fails, the caller gets an error while the row has been
    written, and the retry then reports success without writing any audit
    row, so the insertion is never audited. *)
Theorem publish_not_atomic (ts ts' by1 by2 : string) (st : Registry) (rs : Ruleset) :
  ruleset_name_ok (ruleset_name rs) = true -> is_ok (ruleset_digest rs) = true ->
  table st !! ruleset_name rs = None ->
  let st1 := (publish (fun k => k <? 2) ts st rs by1).1 in
  (publish (fun k => k <? 2) ts st rs by1).2 = Err Db /\
  is_some (table st1 !! ruleset_name rs) = true /\ audit st1 = audit st /\
  publish all_ok ts' st1 rs by2 = (st1, Ok (Updated 1 (digest_of rs))).
Proof.
  intros Hn Hd E. cbv zeta. unfold publish, all_ok, digest_of, ruleset_digest, write_audit in *.
  rewrite Hn. destruct (canonical_ruleset rs) as [c|e|w]; [|done..].
  simpl. rewrite E. simpl. rewrite lookup_insert_eq. simpl. by rewrite !String.eqb_refl.
Qed.

(** A compiled ruleset is publishable: the name [compile_ruleset] gives
    it is one the registry accepts, its publication never fails with
    [BadName], and its publication topic exists for every slash-free site. *)
Theorem compiled_ruleset_publishable (fmt_f64 : f64 -> string) (fmt_value : Value -> string)
    (to_lowercase : string -> string) (doc : SemanticRuleset) (id site ts who : string)
    (db : nat -> bool) (st : Registry) (rs : Ruleset) :
  compile_ruleset fmt_f64 fmt_value to_lowercase doc id = Ok rs ->
  has_char slash site = false ->
  ruleset_name_ok (ruleset_name rs) = true /\
  (publish db ts st rs who).2 <> Err BadName /\
  ruleset_pub_key (E := unit) site (ruleset_name rs)
  = Ok (mkTopic ("fleet/" +:+ site +:+ "/ruleset/" +:+ ruleset_name rs)).
Proof.
  intros (name & Hname & H)%res_bind_Ok Hs. apply res_bind_Ok in H as (rules' & _ & [= <-]).
  cbn [ruleset_name]. unfold normalize_ruleset_name in Hname. cbv zeta in Hname.
  destruct (_ || (64 <? _)) eqn:Hc; [done|]. injection Hname as <-.
  assert (ruleset_name_ok (to_lowercase (srs_name doc)) = true) as Hok.
  { bool_hyps. unfold ruleset_name_ok, name_char in *.
    repeat match goal with H : _ = _ |- _ => rewrite H end. done. }
  split; [done|]. split.
  - unfold publish. cbn [ruleset_name]. rewrite Hok. cbn [negb].
    unfold ruleset_digest, write_audit, then_ok, canonical_ruleset.
    destruct (ruleset_to_toml _); [done|]. simpl.
    destruct (db 0), (table st !! _) as [row|], (db 1), (db 2); simpl; try done;
      (destruct (row_owner row =? _)%string; simpl; [|done]);
      by destruct (row_sha row =? _)%string.
  - assert (has_char slash (to_lowercase (srs_name doc)) = false) as Hsl.
    { unfold ruleset_name_ok in Hok. bool_hyps. by apply name_ok_no_slash. }
    by apply (scoped_builders_Ok (E := unit) site _ Hs Hsl).
Qed.
End registry.

(** ** Concrete instances *)
Module RegEx.
Definition writer (rs : Ruleset (JN := model_number)) : string + string :=
  inr (ruleset_name rs +:+ join_with ";" (map r_name (rs_rules rs))).
Definition rule (n : string) : Rule (JN := model_number) := mkRule n When_default [].
Definition rset (n o : string) (rs : list string) : Ruleset := mkRuleset n 1 o (map rule rs).
Definition pub (n o : string) (rs : list string) : Publication :=
  mkPub all_ok "0" (rset n o rs) "7".
Definition run : list Publication :=
  [pub "dock" "7" ["a"]; pub "dock" "8" ["b"]; pub "dock" "7" ["a"]; pub "dock" "7" ["a"; "b"]].
Definition sha (s : string) : string := s.
Definition st1 : Registry := publish_run writer sha registry_empty [pub "dock" "7" ["a"]].
Definition sem_doc : SemanticRuleset (JN := model_number) :=
  mkSemanticRuleset "Dock" 3 "7" (mkSite "plant" "map") ∅ [].
End RegEx.

Lemma registry_follows_history_witness :
  row_version <$> table (publish_run RegEx.writer RegEx.sha registry_empty RegEx.run) !! "dock" = Some 2%Z.
Proof.
  rewrite (registry_follows_history RegEx.writer RegEx.sha RegEx.run "dock").
  - reflexivity.
  - intros p k Hp. unfold RegEx.run in Hp.
    repeat (apply elem_of_cons in Hp as [->|Hp]; [reflexivity|]). by apply elem_of_nil in Hp.
  - reflexivity.
Defined.

Lemma registry_owner_permanent_witness :
  exists row', table (publish_run RegEx.writer RegEx.sha RegEx.st1 RegEx.run) !! "dock" = Some row' /\
    row_owner row' = "7".
Proof.
  refine (proj1 (registry_owner_permanent RegEx.writer RegEx.sha RegEx.st1 RegEx.run "dock"
    (mkRow "7" 1 (to_hex (RegEx.sha "docka"))) _)). reflexivity.
Defined.

Lemma republish_idempotent_witness :
  exists row, table RegEx.st1 !! "dock" = Some row /\
    publish RegEx.writer RegEx.sha all_ok "1" RegEx.st1 (RegEx.rset "dock" "7" ["a"]) "9"
    = (RegEx.st1, Ok (Updated (as_u64 (row_version row)) (row_sha row))).
Proof.
  apply (republish_idempotent RegEx.writer RegEx.sha "0" "1" "7" "9" registry_empty
    (RegEx.rset "dock" "7" ["a"]) (RegEx.rset "dock" "7" ["a"])); try reflexivity; [|discriminate].
  apply NoDup_singleton.
Defined.

Lemma publish_not_atomic_witness :
  (publish RegEx.writer RegEx.sha (fun k => k <? 2) "0" registry_empty
    (RegEx.rset "dock" "7" ["a"]) "7").2 = Err Db.
Proof.
  apply (publish_not_atomic RegEx.writer RegEx.sha "0" "1" "7" "7" registry_empty
    (RegEx.rset "dock" "7" ["a"])); reflexivity.
Defined.

Lemma compiled_ruleset_publishable_witness :
  ruleset_pub_key (E := unit) "plant" "dock" = Ok (mkTopic "fleet/plant/ruleset/dock").
Proof.
  apply (compiled_ruleset_publishable RegEx.writer RegEx.sha Ex.fmt Ex.fmtv to_ascii_lowercase
    RegEx.sem_doc "7" "plant" "0" "7" all_ok registry_empty (mkRuleset "dock" 3 "7" []));
    reflexivity.
Defined.
