(* ===== verification/Mutation.v ===== *)
(** * Mutation: content fingerprints ([src/mutation.rs])

    The lower-case hexadecimal SHA-256 of a text, of a ruleset's TOML, and the
    comparison with the last one seen.  SHA-256 and the writer are parameters;
    that the fingerprint loses nothing of the digest is proved of the
    hexadecimal form, which the registry's digests share. *)
From S2P Require Import Prelude Json Rules Registry.

(** ** Hexadecimal, read back *)
Definition hex_value (c : ascii) : option N :=
  let n := N_of_ascii c in
  if (48 <=? n)%N && (n <=? 57)%N then Some (n - 48)%N
  else if (97 <=? n)%N && (n <=? 102)%N then Some (n - 87)%N else None.
Fixpoint of_hex (s : string) : option string :=
  match s with
  | "" => Some ""
  | String a (String b s') =>
      hi ← hex_value a; lo ← hex_value b; rest ← of_hex s';
      Some (String (ascii_of_N (16 * hi + lo)) rest)
  | _ => None
  end.

Lemma hex_byte (b : ascii) :
  hex_value (hex_digit (N_of_ascii b / 16)) = Some (N_of_ascii b / 16)%N /\
  hex_value (hex_digit (N_of_ascii b mod 16)) = Some (N_of_ascii b mod 16)%N /\
  ascii_of_N (16 * (N_of_ascii b / 16) + N_of_ascii b mod 16) = b.
Proof. by destruct b as [[] [] [] [] [] [] [] []]. Qed.

Lemma of_to_hex s : of_hex (to_hex s) = Some s.
Proof.
  induction s as [|b s IH]; [done|]. cbn [to_hex of_hex].
  destruct (hex_byte b) as (-> & -> & Hb). cbn [mbind option_bind]. by rewrite IH, Hb.
Qed.

(** ** The wrappers *)
Section mutation.
Context `{JN : JsonNumber}.
Context (ruleset_to_toml : Ruleset -> string + string) (sha256 : string -> string).

Record MutatedRuleset := mkMutated { mu_ruleset : Ruleset; mu_sha : string }.

(** [{:x}] of the digest. *)
Definition compute_sha (data : string) : string := to_hex (sha256 data).

Definition mutate_ruleset (rs : Ruleset) : res unit MutatedRuleset :=
  match ruleset_to_toml rs with
  | inl _ => Panic "Ruleset is serializable"
  | inr raw_toml => Ok (mkMutated rs (compute_sha raw_toml))
  end.

Definition is_same_as_last (raw_toml last_sha : string) : bool :=
  (compute_sha raw_toml =? last_sha)%string.

(** A ruleset's own text is recognised, and two texts are the same exactly
    when their digests are: the hexadecimal form adds no collision. *)
Theorem fingerprints_exact :
  (forall rs m text, mutate_ruleset rs = Ok m -> ruleset_to_toml rs = inr text ->
     mu_ruleset m = rs /\ is_same_as_last text (mu_sha m) = true) /\
  (forall a b, is_same_as_last a (compute_sha b) = true <-> sha256 a = sha256 b) /\
  (forall rs rs' c c', canonical_ruleset ruleset_to_toml rs = Ok c ->
     canonical_ruleset ruleset_to_toml rs' = Ok c' ->
     (ruleset_digest ruleset_to_toml sha256 rs = ruleset_digest ruleset_to_toml sha256 rs'
      <-> sha256 c = sha256 c')).
Proof.
  assert (forall x y, to_hex x = to_hex y <-> x = y) as Hinj.
  { intros x y. split; [|congruence]. intros H. apply (f_equal of_hex) in H. rewrite !of_to_hex in H.
    by injection H. }
  unfold is_same_as_last, compute_sha. split; [|split].
  - intros rs m text Hm Ht. unfold mutate_ruleset in Hm. rewrite Ht in Hm. injection Hm as <-.
    cbn. unfold compute_sha. by rewrite String.eqb_refl.
  - intros a b. rewrite String.eqb_eq. apply Hinj.
  - intros rs rs' c c' Hc Hc'. unfold ruleset_digest. rewrite Hc, Hc'. cbn.
    split; [intros [= H]; by apply Hinj|by intros ->].
Qed.
End mutation.
