(* ===== verification/ClientConfig.v ===== *)
(** * ClientConfig: client and server configuration ([src/config.rs])

    The configuration records, [ClientConfig::validate] check by check, and
    the two [from_toml] entry points over the [toml] crate's reader. *)
From S2P Require Import Prelude Semantic.

Record ClientSection := mkClientSection { heartbeat_interval_ms : u64 }.
Record ServerSection := mkServerSection { endpoints : list string }.
Record LocationSubscriptions := mkLocSubs { ls_x : string; ls_y : string; ls_z : string }.
Record ZoneSubscriptions := mkZoneSubs {
  zs_site_id : string; zone_enter : string; zone_exit : string
}.
Record DefaultSubscriptions := mkSubs {
  ds_location : option LocationSubscriptions; ds_zone : option ZoneSubscriptions
}.
Record PublisherConfig := mkPublisher { pc_topic : string; period_ms : u64 }.
Record DefaultPublishers := mkPubs {
  dp_location : option PublisherConfig; dp_zone : option PublisherConfig
}.
Record ClientConfig := mkClientConfig {
  cc_client : ClientSection;
  cc_server : option ServerSection;
  default_subscriptions : option DefaultSubscriptions;
  default_publishers : option DefaultPublishers
}.

Record ExpectedClient := mkExpected { ec_robot_id : string }.
Record ServerConfig := mkServerConfig { expected_clients : list ExpectedClient }.
Definition ServerConfig_default : ServerConfig := mkServerConfig [].

(** [o.ok_or(msg)?] *)
Definition ok_or {A} (o : option A) (msg : string) : res string A :=
  match o with Some a => Ok a | None => Err msg end.
(** [if s.is_empty() { return Err(msg) }] *)
Definition non_empty (s msg : string) : res string unit :=
  if (s =? "")%string then Err msg else Ok tt.

Definition config_validate (c : ClientConfig) : res string unit :=
  subs ← ok_or (default_subscriptions c) "missing [default_subscriptions] table";
  loc ← ok_or (ds_location subs) "missing [default_subscriptions.location] table";
  _ ← non_empty (ls_x loc) "default_subscriptions.location.x is empty";
  _ ← non_empty (ls_y loc) "default_subscriptions.location.y is empty";
  _ ← non_empty (ls_z loc) "default_subscriptions.location.z is empty";
  zone ← ok_or (ds_zone subs) "missing [default_subscriptions.zone] table";
  _ ← non_empty (zs_site_id zone) "default_subscriptions.zone.site_id is empty";
  _ ← non_empty (zone_enter zone) "default_subscriptions.zone.zone_enter is empty";
  _ ← non_empty (zone_exit zone) "default_subscriptions.zone.zone_exit is empty";
  pubs ← ok_or (default_publishers c) "missing [default_publishers] table";
  pub_loc ← ok_or (dp_location pubs) "missing [default_publishers.location] table";
  _ ← non_empty (pc_topic pub_loc) "default_publishers.location.topic is empty";
  pub_zone ← ok_or (dp_zone pubs) "missing [default_publishers.zone] table";
  _ ← non_empty (pc_topic pub_zone) "default_publishers.zone.topic is empty";
  mret tt.

Section from_toml.
Context (toml_client : string -> string + ClientConfig)
        (toml_server : string -> string + ServerConfig).

Definition client_config_from_toml (text : string) : res string ClientConfig :=
  match toml_client text with
  | inl e => Err ("invalid client config TOML: " +:+ e)
  | inr cfg => _ ← config_validate cfg; mret cfg
  end.

(** [text.trim().is_empty()] *)
Definition server_config_from_toml (text : string) : res string ServerConfig :=
  if (trim_start text =? "")%string then Ok ServerConfig_default
  else match toml_server text with
       | inl e => Err ("invalid server config TOML: " +:+ e)
       | inr cfg => Ok cfg
       end.
End from_toml.

(** ** The check list *)
Definition field {A} (f : A -> string) (o : option A) : bool :=
  match o with Some a => negb (f a =? "")%string | None => false end.

(** The requirements in the order the file states them, with the complaint
    each one raises. *)
Definition requirements (c : ClientConfig) : list (bool * string) :=
  let subs := default_subscriptions c in
  let loc := subs ≫= ds_location in
  let zone := subs ≫= ds_zone in
  let pubs := default_publishers c in
  let ploc := pubs ≫= dp_location in
  let pzone := pubs ≫= dp_zone in
  [ (is_some subs, "missing [default_subscriptions] table");
    (is_some loc, "missing [default_subscriptions.location] table");
    (field ls_x loc, "default_subscriptions.location.x is empty");
    (field ls_y loc, "default_subscriptions.location.y is empty");
    (field ls_z loc, "default_subscriptions.location.z is empty");
    (is_some zone, "missing [default_subscriptions.zone] table");
    (field zs_site_id zone, "default_subscriptions.zone.site_id is empty");
    (field zone_enter zone, "default_subscriptions.zone.zone_enter is empty");
    (field zone_exit zone, "default_subscriptions.zone.zone_exit is empty");
    (is_some pubs, "missing [default_publishers] table");
    (is_some ploc, "missing [default_publishers.location] table");
    (field pc_topic ploc, "default_publishers.location.topic is empty");
    (is_some pzone, "missing [default_publishers.zone] table");
    (field pc_topic pzone, "default_publishers.zone.topic is empty") ].

Fixpoint first_unmet (l : list (bool * string)) : res string unit :=
  match l with
  | [] => Ok tt
  | (ok, msg) :: l' => if ok then first_unmet l' else Err msg
  end.

(** Loading a client configuration succeeds exactly when the text parses
    and all fourteen requirements hold, returning the parsed configuration
    unchanged; otherwise the error is the parser's or names the first
    requirement that is not met. *)
Theorem client_config_loads (toml_client : string -> string + ClientConfig) (text : string) :
  client_config_from_toml toml_client text =
  match toml_client text with
  | inl e => Err ("invalid client config TOML: " +:+ e)
  | inr cfg =>
      match first_unmet (requirements cfg) with
      | Ok _ => Ok cfg
      | Err e => Err e
      | Panic w => Panic w
      end
  end.
Proof.
  unfold client_config_from_toml. destruct (toml_client text) as [|cfg]; [done|].
  assert (config_validate cfg = first_unmet (requirements cfg)) as ->.
  { destruct cfg as [cl sv subs pubs].
    destruct subs as [[loc zone]|]; [|done]. destruct loc as [[x y z]|]; [|done].
    unfold config_validate, requirements, non_empty, field. simpl.
    destruct (x =? "")%string; [done|]. simpl. destruct (y =? "")%string; [done|].
    simpl. destruct (z =? "")%string; [done|]. simpl.
    destruct zone as [[s en ex]|]; [|done]. simpl.
    destruct (s =? "")%string; [done|]. simpl. destruct (en =? "")%string; [done|].
    simpl. destruct (ex =? "")%string; [done|]. simpl.
    destruct pubs as [[[[tl pl]|] pz]|]; [|done..]. simpl.
    destruct (tl =? "")%string; [done|]. simpl. destruct pz as [[tz pz]|]; [|done]. simpl.
    by destruct (tz =? "")%string. }
  by destruct (first_unmet _).
Qed.
