(* ===== verification/Lease.v ===== *)
(** * Lease: the registration lease ([src/registration/lease.rs])

    The client table and its operations, one lock acquisition each, and the
    per-robot state machine they implement. *)
From S2P Require Import Prelude ClientConfig.

Inductive ClientState := Unknown | Expected | Registered | Poisoned.
#[export] Instance ClientState_eq_dec : EqDecision ClientState.
Proof. solve_decision. Defined.

Inductive RegistrationError :=
  AlreadyRegistered | ErrPoisoned | NotRegistered | Timeout | ServerError (msg : string).

Record ClientEntry := mkEntry { e_state : ClientState; e_config : option ClientConfig }.
Record Lease := mkLease { clients : gmap string ClientEntry; l_config : ServerConfig }.

Definition lease_new (config : ServerConfig) : Lease :=
  mkLease
    (foldl (fun m e => <[ec_robot_id e := mkEntry Expected None]> m) ∅ (expected_clients config))
    config.

Definition set_clients (l : Lease) (m : gmap string ClientEntry) : Lease := mkLease m (l_config l).

(** The unexpected-client branch only logs. *)
Definition register (l : Lease) (robot_id : string) (config : ClientConfig)
    : Lease * res RegistrationError unit :=
  match clients l !! robot_id with
  | Some (mkEntry Poisoned _) => (l, Err ErrPoisoned)
  | Some (mkEntry Registered _) => (l, Err AlreadyRegistered)
  | _ => (set_clients l (<[robot_id := mkEntry Registered (Some config)]> (clients l)), Ok tt)
  end.

Definition deregister (l : Lease) (robot_id : string) : Lease * res RegistrationError unit :=
  match clients l !! robot_id with
  | Some (mkEntry Registered _) => (set_clients l (delete robot_id (clients l)), Ok tt)
  | Some (mkEntry Poisoned _) => (l, Err ErrPoisoned)
  | _ => (l, Err NotRegistered)
  end.

Definition poison (l : Lease) (robot_id : string) : Lease :=
  set_clients l (<[robot_id := mkEntry Poisoned None]> (clients l)).

Definition on_liveliness_delete (l : Lease) (robot_id : string) : Lease * bool :=
  match clients l !! robot_id with
  | Some (mkEntry Registered _) =>
      (set_clients l (<[robot_id := mkEntry Poisoned None]> (clients l)), true)
  | _ => (l, false)
  end.

Definition state (l : Lease) (robot_id : string) : ClientState :=
  match clients l !! robot_id with Some e => e_state e | None => Unknown end.

(** ** The state machine of one robot *)
Inductive lease_op :=
  | OpRegister (id : string) (c : ClientConfig)
  | OpDeregister (id : string)
  | OpPoison (id : string)
  | OpDelete (id : string).
Definition op_id (o : lease_op) : string :=
  match o with OpRegister id _ | OpDeregister id | OpPoison id | OpDelete id => id end.

Definition apply_op (l : Lease) (o : lease_op) : Lease :=
  match o with
  | OpRegister id c => (register l id c).1
  | OpDeregister id => (deregister l id).1
  | OpPoison id => poison l id
  | OpDelete id => (on_liveliness_delete l id).1
  end.

Inductive transition : lease_op -> ClientState -> ClientState -> Prop :=
  | tr_register id c s : s <> Poisoned -> transition (OpRegister id c) s Registered
  | tr_register_poisoned id c : transition (OpRegister id c) Poisoned Poisoned
  | tr_deregister id : transition (OpDeregister id) Registered Unknown
  | tr_deregister_no id s : s <> Registered -> transition (OpDeregister id) s s
  | tr_poison id s : transition (OpPoison id) s Poisoned
  | tr_delete id : transition (OpDelete id) Registered Poisoned
  | tr_delete_no id s : s <> Registered -> transition (OpDelete id) s s.

Lemma state_insert m c id id' e :
  state (mkLease (<[id := e]> m) c) id' = if decide (id = id') then e_state e else state (mkLease m c) id'.
Proof.
  unfold state. simpl. destruct (decide (id = id')) as [->|Hne]; [by rewrite lookup_insert_eq|].
  by rewrite lookup_insert_ne.
Qed.
Lemma state_delete m c id id' :
  state (mkLease (delete id m) c) id' = if decide (id = id') then Unknown else state (mkLease m c) id'.
Proof.
  unfold state. simpl. destruct (decide (id = id')) as [->|Hne]; [by rewrite lookup_delete_eq|].
  by rewrite lookup_delete_ne.
Qed.

Lemma apply_op_other l o id : id <> op_id o -> state (apply_op l o) id = state l id.
Proof.
  intros Hne. destruct l as [m cfg], o as [i c|i|i|i]; simpl in *;
    unfold register, deregister, poison, on_liveliness_delete, set_clients; simpl;
    try destruct (m !! i) as [[[] ?]|]; simpl;
    rewrite ?state_insert, ?state_delete; try done; by rewrite decide_False by congruence.
Qed.

Lemma apply_op_transition l o : transition o (state l (op_id o)) (state (apply_op l o) (op_id o)).
Proof.
  destruct l as [m cfg], o as [i c|i|i|i]; simpl;
    unfold register, deregister, poison, on_liveliness_delete, set_clients; simpl;
    [|..|rewrite state_insert, decide_True by done; constructor|].
  all: destruct (m !! i) as [[s c']|] eqn:E;
    assert (state (mkLease m cfg) i = match m !! i with Some e => e_state e | None => Unknown end)
      as Hs by done; rewrite E in Hs; simpl in Hs; rewrite Hs.
  all: try destruct s; simpl; rewrite ?Hs, ?state_insert, ?state_delete, ?decide_True by done;
    simpl; by constructor.
Qed.

Definition run_ops (l : Lease) (os : list lease_op) : Lease := foldl apply_op l os.

Lemma run_ops_poisoned os : forall l id, state l id = Poisoned -> state (run_ops l os) id = Poisoned.
Proof.
  induction os as [|o os IH]; intros l id H; [done|]. apply IH.
  destruct (decide (id = op_id o)) as [->|Hne]; [|by rewrite apply_op_other].
  pose proof (apply_op_transition l o) as Ht. rewrite H in Ht. by inversion Ht.
Qed.

Lemma lease_new_state cfg id :
  state (lease_new cfg) id =
  if existsb (fun e => (ec_robot_id e =? id)%string) (expected_clients cfg) then Expected else Unknown.
Proof.
  unfold lease_new.
  assert (forall es m, (forall e, m !! id = Some e -> e_state e = Expected) ->
    state (mkLease (foldl (fun m e => <[ec_robot_id e := mkEntry Expected None]> m) m es) cfg) id
    = if existsb (fun e => (ec_robot_id e =? id)%string) es then Expected
      else state (mkLease m cfg) id) as H; [|by apply H; intros e; rewrite lookup_empty].
  induction es as [|e es IH]; intros m Hm; [done|]. simpl.
  destruct (String.eqb_spec (ec_robot_id e) id) as [->|Hne]; simpl.
  - rewrite IH by (intros e'; rewrite lookup_insert_eq; by intros [= <-]).
    rewrite state_insert, decide_True by done. by destruct (existsb _ es).
  - rewrite IH by (intros e'; rewrite lookup_insert_ne; auto).
    by rewrite state_insert, decide_False.
Qed.

(** ** Properties *)

(** C17. The lease table implements one state machine per robot: every
    operation moves the robot it names along an edge of the machine and
    leaves every other robot's state as it was; the table starts with exactly
    the configured robots [Expected]. *)
Theorem lease_refines_machine :
  (forall l o, transition o (state l (op_id o)) (state (apply_op l o) (op_id o))) /\
  (forall l o id, id <> op_id o -> state (apply_op l o) id = state l id) /\
  (forall cfg id, state (lease_new cfg) id =
     if existsb (fun e => (ec_robot_id e =? id)%string) (expected_clients cfg)
     then Expected else Unknown).
Proof. split; [exact apply_op_transition|]. split; [exact apply_op_other|exact lease_new_state]. Qed.

(** Poisoning is for ever, and happens atomically on the registered: no
    sequence of operations takes a robot out of [Poisoned], every attempt to
    register it is rejected, and a liveliness deletion poisons exactly the
    robots that are registered at that moment, reporting whether it did. *)
Theorem poison_absorbing (l : Lease) (os : list lease_op) (id : string) :
  (state l id = Poisoned ->
   state (run_ops l os) id = Poisoned /\
   forall c, register (run_ops l os) id c = (run_ops l os, Err ErrPoisoned)) /\
  (on_liveliness_delete l id).2 = bool_decide (state l id = Registered) /\
  state (on_liveliness_delete l id).1 id =
    (if bool_decide (state l id = Registered) then Poisoned else state l id).
Proof.
  split; [|split].
  - intros H. assert (state (run_ops l os) id = Poisoned) as Hp by by apply run_ops_poisoned.
    split; [done|]. intros c. unfold register. unfold state in Hp.
    destruct (clients (run_ops l os) !! id) as [[s c']|]; [|done]. simpl in Hp. by subst s.
  - unfold on_liveliness_delete, state. by destruct (clients l !! id) as [[[] ?]|].
  - pose proof (apply_op_transition l (OpDelete id)) as Ht. simpl in Ht.
    inversion Ht as [| | | | |i Hs Hs'|i s Hs Hi Hs' Hs'']; subst.
    + by rewrite bool_decide_eq_true_2.
    + by rewrite bool_decide_eq_false_2 by congruence.
Qed.

Lemma poison_absorbing_witness :
  state (run_ops (poison (lease_new ServerConfig_default) "7") [OpDeregister "7"; OpDelete "7"]) "7" = Poisoned.
Proof.
  exact (proj1 (proj1 (poison_absorbing (poison (lease_new ServerConfig_default) "7")
    [OpDeregister "7"; OpDelete "7"] "7") eq_refl)).
Defined.
