(* ===== verification/Registration.v ===== *)
(** * Registration: the handshake between client and server
      ([src/registration/transport.rs])

    The two server handlers and the heartbeat monitor as steps over the
    lease, their task loops (a panic ends the task), the two client calls,
    and the exchange of the client with the server.  The JSON codec is
    [serde_json]'s, behind the class [RegistrationWire]; publication is
    fire-and-forget in the handlers ([let _ = ...]). *)
From S2P Require Import Prelude Topic ClientConfig Lease.

Inductive RegistrationRequest :=
  | Register (robot_id : string) (config : ClientConfig)
  | Deregister (robot_id : string).

Inductive RegistrationStatus :=
  | Ack | RejectAlreadyRegistered | RejectPoisoned | RejectServerError (msg : string)
  | Ignore | MissingRobotId | StPoisoned.

Definition REGISTRATION_TIMEOUT_SECS : N := 5.

Inductive SampleKind := Put | Delete.

(** The JSON encoding of requests and responses; decoding may fail. *)
Class RegistrationWire := {
  encode_request : RegistrationRequest -> string;
  decode_request : string -> option RegistrationRequest;
  encode_response : RegistrationStatus -> string;
  decode_response : string -> string + RegistrationStatus
}.

(** Documented: [from_slice] reads back what [to_value] wrote for the derived
    formats. *)
Class RegistrationWireLaws (W : RegistrationWire) : Prop := {
  decode_encode_request r : decode_request (encode_request r) = Some r;
  decode_encode_response s : decode_response (encode_response s) = inr s
}.

Section registration.
Context `{W : RegistrationWire}.
(** [{:?}] of an error or a status, in messages only. *)
Context (debug_error : RegistrationError -> string) (debug_status : RegistrationStatus -> string).

(** What a handler does with one sample: the lease it leaves and, unless it
    panics, the response it publishes. *)
Abbreviation HandlerResult := (Lease * res unit (option (Topic * RegistrationStatus)))%type.

Definition respond (t : res unit Topic) (s : RegistrationStatus)
    : res unit (option (Topic * RegistrationStatus)) :=
  match t with Ok t => Ok (Some (t, s)) | Err e => Err e | Panic w => Panic w end.

Definition register_status (r : res RegistrationError unit) : RegistrationStatus :=
  match r with
  | Ok _ => Ack
  | Err AlreadyRegistered => RejectAlreadyRegistered
  | Err ErrPoisoned => RejectPoisoned
  | Err e => RejectServerError (debug_error e)
  | Panic w => RejectServerError w
  end.

Definition handle_registration (l : Lease) (bytes : string) : HandlerResult :=
  match decode_request bytes with
  | None => (l, Ok None)
  | Some (Deregister _) => (l, Ok None)
  | Some (Register robot_id config) =>
      let '(l', status) :=
        if (robot_id =? "")%string then (l, MissingRobotId)
        else let '(l', r) := register l robot_id config in (l', register_status r) in
      (l', respond (registration_response robot_id) status)
  end.

Definition handle_deregistration (l : Lease) (bytes : string) : HandlerResult :=
  match decode_request bytes with
  | None => (l, Ok None)
  | Some (Register _ _) => (l, Ok None)
  | Some (Deregister robot_id) =>
      match deregistration_response robot_id with
      | Ok response_key =>
          if (robot_id =? "")%string then (l, Ok (Some (response_key, MissingRobotId)))
          else
            let '(l', r) := deregister l robot_id in
            (l', Ok (Some (response_key, if is_ok r then Ack else Ignore)))
      | Err e => (l, Err e)
      | Panic w => (l, Panic w)
      end
  end.

(** [Put] only logs. *)
Definition handle_liveliness (l : Lease) (key : string) (kind : SampleKind) : HandlerResult :=
  match split_on slash key with
  | _ :: robot_id :: _ =>
      match kind with
      | Put => (l, Ok None)
      | Delete =>
          let '(l', poisoned) := on_liveliness_delete l robot_id in
          if poisoned then (l', respond (heartbeat_alert robot_id) StPoisoned) else (l', Ok None)
      end
  | _ => (l, Ok None)
  end.

(** A spawned [while let Ok(sample) = recv] task: a panic in the body ends it
    and the samples after it are never looked at. *)
Fixpoint run_task (handler : Lease -> string -> HandlerResult) (l : Lease) (samples : list string)
    : Lease * list (Topic * RegistrationStatus) * bool :=
  match samples with
  | [] => (l, [], true)
  | s :: rest =>
      match handler l s with
      | (l', Ok r) =>
          let '(l'', out, alive) := run_task handler l' rest in
          (l'', option_list r ++ out, alive)
      | (l', _) => (l', [], false)
      end
  end.

(** ** The client calls

    [sub] and [pub] are the outcomes of subscribing and publishing, [reply]
    the payload received within the timeout. *)
Definition expect_pattern (t : Topic) (msg : string) : res RegistrationError Pattern :=
  expect msg (pattern_try_new (topic_str t)).

Definition transport_result (r : string + unit) : res RegistrationError unit :=
  match r with inl e => Err (ServerError e) | inr _ => Ok tt end.

Definition register_reply (status : RegistrationStatus) : res RegistrationError unit :=
  match status with
  | Ack => Ok tt
  | RejectAlreadyRegistered => Err AlreadyRegistered
  | RejectPoisoned => Err ErrPoisoned
  | RejectServerError msg => Err (ServerError msg)
  | MissingRobotId => Err (ServerError "MissingRobotId")
  | status => Err (ServerError ("unexpected registration status: " +:+ debug_status status))
  end.

Definition register_with_client (robot_id : string) (sub pub : string + unit)
    (reply : option string) : res RegistrationError unit :=
  if (robot_id =? "")%string then Err (ServerError "MissingRobotId")
  else
    response_topic ← registration_response robot_id;
    _ ← expect_pattern response_topic "response topic is valid pattern";
    _ ← transport_result sub;
    _ ← transport_result pub;
    match reply with
    | None => Err Timeout
    | Some bytes =>
        match decode_response bytes with
        | inl e => Err (ServerError ("bad registration response: " +:+ e))
        | inr status => register_reply status
        end
    end.

Definition deregister_with_server (robot_id : string) (sub pub : string + unit)
    (reply : option string) : res RegistrationError unit :=
  response_topic ← deregistration_response robot_id;
  _ ← expect_pattern response_topic "response topic valid";
  _ ← transport_result sub;
  _ ← transport_result pub;
  match reply with
  | None => Err Timeout
  | Some bytes =>
      match decode_response bytes with
      | inl e => Err (ServerError ("bad deregistration response: " +:+ e))
      | inr (Ack | Ignore) => Ok tt
      | inr status =>
          Err (ServerError ("unexpected deregistration status: " +:+ debug_status status))
      end
  end.

(** ** One exchange over a network that may lose either message

    The response reaches the client when it was published on the topic the
    client listens to. *)
Definition reply_on (topic : res unit Topic) (r : res unit (option (Topic * RegistrationStatus)))
    : option string :=
  match topic, r with
  | Ok want, Ok (Some (t, s)) => if decide (t = want) then Some (encode_response s) else None
  | _, _ => None
  end.

Definition exchange_register (l : Lease) (robot_id : string) (config : ClientConfig)
    (request_arrives response_arrives : bool) : Lease * res RegistrationError unit :=
  let '(l', r) :=
    if request_arrives then handle_registration l (encode_request (Register robot_id config))
    else (l, Ok None) in
  (l', register_with_client robot_id (inr tt) (inr tt)
         (if response_arrives then reply_on (registration_response robot_id) r else None)).

Definition exchange_deregister (l : Lease) (robot_id : string)
    (request_arrives response_arrives : bool) : Lease * res RegistrationError unit :=
  let '(l', r) :=
    if request_arrives then handle_deregistration l (encode_request (Deregister robot_id))
    else (l, Ok None) in
  (l', deregister_with_server robot_id (inr tt) (inr tt)
         (if response_arrives then reply_on (deregistration_response robot_id) r else None)).

(** An identifier the handshake supports: one topic segment, not a wildcard. *)
Definition plain_id (id : string) : bool :=
  negb (id =? "")%string && negb (has_char slash id) && negb (is_wildcard id).

Lemma no_slash_no_double s : has_char slash s = false -> contains_str "//" s = false.
Proof.
  induction s as [|c s IH]; [done|]. cbn [has_char contains_str].
  intros [Hc Hs]%orb_false_iff. rewrite (IH Hs), orb_false_r.
  unfold starts_with. apply bool_decide_eq_false_2. intros [r Hr]. cbn [strip_prefix] in Hr.
  rewrite Ascii.eqb_sym in Hc. by rewrite Hc in Hr.
Qed.

Lemma slash_then_plain c s : c <> slash -> has_char slash s = false ->
  contains_str "//" (String slash (String c s)) = false.
Proof.
  intros Hc Hs. cbn [contains_str]. rewrite no_slash_no_double by done.
  unfold starts_with. apply Ascii.eqb_neq in Hc. rewrite Ascii.eqb_sym in Hc.
  rewrite !bool_decide_eq_false_2; [done|..]; intros [r Hr]; cbn [strip_prefix] in Hr;
    by rewrite ?Ascii.eqb_refl, ?Hc in Hr.
Qed.

Lemma plain_pattern (lit id : string) :
  (lit = "registration" \/ lit = "deregistration") -> plain_id id = true ->
  pattern_try_new (path ["fleet"; lit; "response"] id)
  = Ok (mkPattern (path ["fleet"; lit; "response"] id)).
Proof.
  intros Hl Hi. unfold plain_id in Hi. apply andb_true_iff in Hi as [Hi Hw].
  apply andb_true_iff in Hi as [Hne Hs]. rewrite negb_true_iff in Hne, Hs, Hw.
  unfold pattern_try_new.
  assert (contains_str "//" (path ["fleet"; lit; "response"] id) = false) as Hc.
  { destruct id as [|c id]; [done|]. cbn [has_char] in Hs. apply orb_false_iff in Hs as [Hc Hs].
    apply Ascii.eqb_neq in Hc. pose proof (slash_then_plain c id Hc Hs) as Hd.
    by destruct Hl as [-> | ->]. }
  rewrite Hc, andb_false_r, andb_false_r.
  assert ((path ["fleet"; lit; "response"] id =? "")%string = false) as -> by done.
  assert (canonicalize (path ["fleet"; lit; "response"] id) = path ["fleet"; lit; "response"] id) as -> by done.
  assert (forallb (fun w => negb (has_char slash w)) ["fleet"; lit; "response"] = true) as Hws
    by (by destruct Hl as [-> | ->]).
  rewrite split_path, split_on_single by done.
  rewrite wildcard_free_pattern; [done|..]; destruct Hl as [-> | ->]; simpl; by rewrite ?Hw.
Qed.

Lemma plain_no_slash id : plain_id id = true -> has_char slash id = false /\ (id =? "")%string = false.
Proof. unfold plain_id. intros [[H1 H2]%andb_true_iff _]%andb_true_iff. by rewrite !negb_true_iff in *. Qed.

Context {WL : RegistrationWireLaws W}.

Lemma register_client_plain id reply :
  plain_id id = true ->
  register_with_client id (inr tt) (inr tt) reply =
  match reply with
  | None => Err Timeout
  | Some bytes =>
      match decode_response bytes with
      | inl e => Err (ServerError ("bad registration response: " +:+ e))
      | inr status => register_reply status
      end
  end.
Proof.
  intros Hi. destruct (plain_no_slash id Hi) as [Hs Hne].
  unfold register_with_client, expect_pattern. rewrite Hne, registration_response_eq, Hs.
  cbn [mbind res_bind topic_str].
  pose proof (plain_pattern "registration" id (or_introl eq_refl) Hi) as Hp.
  change (path _ id) with ("fleet/registration/response/" +:+ id) in Hp. by rewrite Hp.
Qed.

Lemma deregister_client_plain id reply :
  plain_id id = true ->
  deregister_with_server id (inr tt) (inr tt) reply =
  match reply with
  | None => Err Timeout
  | Some bytes =>
      match decode_response bytes with
      | inl e => Err (ServerError ("bad deregistration response: " +:+ e))
      | inr (Ack | Ignore) => Ok tt
      | inr status =>
          Err (ServerError ("unexpected deregistration status: " +:+ debug_status status))
      end
  end.
Proof.
  intros Hi. destruct (plain_no_slash id Hi) as [Hs Hne].
  unfold deregister_with_server, expect_pattern. rewrite deregistration_response_eq, Hs.
  cbn [mbind res_bind topic_str].
  pose proof (plain_pattern "deregistration" id (or_intror eq_refl) Hi) as Hp.
  change (path _ id) with ("fleet/deregistration/response/" +:+ id) in Hp. by rewrite Hp.
Qed.

Lemma handle_registration_plain l id cfg :
  plain_id id = true ->
  handle_registration l (encode_request (Register id cfg)) =
  ((register l id cfg).1,
   Ok (Some (mkTopic ("fleet/registration/response/" +:+ id), register_status (register l id cfg).2))).
Proof.
  intros Hi. destruct (plain_no_slash id Hi) as [Hs Hne].
  unfold handle_registration. rewrite decode_encode_request, Hne, registration_response_eq, Hs.
  by destruct (register l id cfg).
Qed.

Lemma register_outcome l id cfg :
  (register l id cfg).2 = match state l id with
                          | Poisoned => Err ErrPoisoned
                          | Registered => Err AlreadyRegistered
                          | _ => Ok tt
                          end.
Proof. unfold register, state. by destruct (clients l !! id) as [[[] ?]|]. Qed.

Lemma deregister_outcome l id :
  (deregister l id).2 = match state l id with
                        | Poisoned => Err ErrPoisoned
                        | Registered => Ok tt
                        | _ => Err NotRegistered
                        end.
Proof. unfold deregister, state. by destruct (clients l !! id) as [[[] ?]|]. Qed.

(** *** Exchanges *)
Lemma register_exchange (l : Lease) (id : string) (cfg : ClientConfig) (req resp : bool) :
  plain_id id = true ->
  exchange_register l id cfg req resp =
  (if req then (register l id cfg).1 else l,
   if req && resp then
     match state l id with
     | Poisoned => Err ErrPoisoned
     | Registered => Err AlreadyRegistered
     | _ => Ok tt
     end
   else Err Timeout).
Proof.
  intros Hi. unfold exchange_register. destruct (plain_no_slash id Hi) as [Hs Hne].
  destruct req; [rewrite (handle_registration_plain l id cfg Hi)|];
    rewrite register_client_plain by done; unfold reply_on;
    rewrite registration_response_eq, Hs; destruct resp; try done.
  rewrite decide_True by done. rewrite decode_encode_response, register_outcome.
  by destruct (state l id).
Qed.

(** ** Properties *)

(** C26. The registration handshake is faithful: over a network that delivers
    both messages, for a plain robot identifier, the client's result is
    exactly the lease's verdict on its state - success when it was unknown or
    expected, [AlreadyRegistered] or [Poisoned] otherwise - and the lease
    moves exactly as [register] moves it; if either message is lost the
    client times out, the lease having moved if and only if the request
    arrived. *)
Theorem register_handshake (l : Lease) (id : string) (cfg : ClientConfig) (req resp : bool) :
  plain_id id = true ->
  exchange_register l id cfg req resp =
  (if req then (register l id cfg).1 else l,
   if req && resp then
     match state l id with
     | Poisoned => Err ErrPoisoned
     | Registered => Err AlreadyRegistered
     | _ => Ok tt
     end
   else Err Timeout).
Proof. apply register_exchange. Qed.

(** Deregistration reports success whether or not anything was
    deregistered: with both messages delivered the client gets [Ok] in every
    state of the lease, also when the robot was never registered or is
    poisoned and stays so; only a registered robot is removed. *)
Theorem deregister_reports_success (l : Lease) (id : string) :
  plain_id id = true ->
  (exchange_deregister l id true true).2 = Ok tt /\
  state (exchange_deregister l id true true).1 id =
    (match state l id with Registered => Unknown | s => s end).
Proof.
  intros Hi. unfold exchange_deregister, handle_deregistration.
  destruct (plain_no_slash id Hi) as [Hs Hne].
  rewrite decode_encode_request, deregistration_response_eq, Hs, Hne.
  pose proof (deregister_outcome l id) as Ho. pose proof (apply_op_transition l (OpDeregister id)) as Ht.
  cbn [apply_op op_id] in Ht. destruct (deregister l id) as [l' r]. cbn [fst snd] in *. subst r.
  rewrite deregister_client_plain by done. unfold reply_on.
  rewrite decide_True by done. rewrite decode_encode_response. split.
  - by destruct (state l id).
  - inversion Ht; subst; [done|]. by destruct (state l id).
Qed.

(** One identifier with a slash kills the registration service: the
    handler first registers such a robot and then panics building its
    response topic, which ends the task, so no request that comes after it is
    ever handled. *)
Theorem slash_id_kills_registration (l : Lease) (id : string) (cfg : ClientConfig)
    (later : list string) :
  has_char slash id = true -> state l id = Unknown ->
  exists l', run_task handle_registration l (encode_request (Register id cfg) :: later) = (l', [], false) /\
    state l' id = Registered /\ l' = (register l id cfg).1.
Proof.
  intros Hs Hu. cbn [run_task]. unfold handle_registration. rewrite decode_encode_request.
  assert ((id =? "")%string = false) as -> by (destruct id; done).
  rewrite registration_response_eq, Hs.
  assert (state (register l id cfg).1 id = Registered) as Hr.
  { pose proof (apply_op_transition l (OpRegister id cfg)) as Ht. simpl in Ht. rewrite Hu in Ht.
    by inversion Ht. }
  destruct (register l id cfg) as [l' r]. cbn [fst snd] in *. eauto.
Qed.

(** The heartbeat monitor never panics and raises an alert exactly when a
    deletion has just poisoned a registered robot, on that robot's alert
    topic; other samples leave the lease as it was. *)
Theorem heartbeat_alert_exact (l : Lease) (key : string) (kind : SampleKind) :
  is_panic (handle_liveliness l key kind).2 = false /\
  forall t s, (handle_liveliness l key kind).2 = Ok (Some (t, s)) <->
    exists a id rest, split_on slash key = a :: id :: rest /\ kind = Delete /\
      state l id = Registered /\ s = StPoisoned /\
      t = mkTopic ("fleet/alerts/heartbeat/" +:+ id).
Proof.
  unfold handle_liveliness. pose proof (split_on_parts slash key) as Hp.
  destruct (split_on slash key) as [|a [|id rest]] eqn:E;
    [split; [done|]; intros t s; split; [done|by intros (?&?&?&?&?)]..|].
  inversion Hp as [|?? _ Hp']; subst. inversion Hp' as [|?? Hid _]; subst.
  destruct kind; [split; [done|]; intros t s; split; [done|by intros (?&?&?&_&?&_)]|].
  assert ((on_liveliness_delete l id).2 = bool_decide (state l id = Registered)) as Hd
    by (unfold on_liveliness_delete, state; by destruct (clients l !! id) as [[[] ?]|]).
  destruct (on_liveliness_delete l id) as [l' b]. simpl in Hd. subst b.
  case_bool_decide as Hst.
  - rewrite heartbeat_alert_eq, Hid. simpl. split; [done|]. intros t s. split.
    + intros [= <- <-]. exists a, id, rest. done.
    + by intros (?&?&?&[= <- <- <-]&_&_&->&->).
  - split; [done|]. intros t s. split; [done|].
    by intros (?&?&?&[= <- <- <-]&_&?&_).
Qed.
End registration.

(** ** A concrete wire, for evaluation

    Any injective text encoding will do; this one writes the bits of the
    [Countable] code. *)
Module WireEx.
Definition loc_code (l : LocationSubscriptions) := (ls_x l, ls_y l, ls_z l).
Definition zone_code (z : ZoneSubscriptions) := (zs_site_id z, zone_enter z, zone_exit z).
Definition pub_code (p : PublisherConfig) := (pc_topic p, uint_val (period_ms p)).
Definition subs_code (d : DefaultSubscriptions) :=
  (loc_code <$> ds_location d, zone_code <$> ds_zone d).
Definition pubs_code (d : DefaultPublishers) := (pub_code <$> dp_location d, pub_code <$> dp_zone d).
Definition cfg_code (c : ClientConfig) :=
  (uint_val (heartbeat_interval_ms (cc_client c)), endpoints <$> cc_server c,
   subs_code <$> default_subscriptions c, pubs_code <$> default_publishers c).
Definition loc_of x := let '(a, b, c) := x in mkLocSubs a b c.
Definition zone_of x := let '(a, b, c) := x in mkZoneSubs a b c.
Definition pub_of x := let '(a, b) := x in mkPublisher a (uint_wrap 64 b).
Definition subs_of x := let '(a, b) := x in mkSubs (loc_of <$> a) (zone_of <$> b).
Definition pubs_of x := let '(a, b) := x in mkPubs (pub_of <$> a) (pub_of <$> b).
Definition cfg_of x :=
  let '(a, b, c, d) := x in
  mkClientConfig (mkClientSection (uint_wrap 64 a)) (mkServerSection <$> b) (subs_of <$> c) (pubs_of <$> d).
Lemma cfg_of_code c : cfg_of (cfg_code c) = c.
Proof.
  destruct c as [[h] [[e]|] [[[[]|] [[]|]]|] [[[[]|] [[]|]]|]];
    unfold cfg_of, cfg_code; simpl; by rewrite ?uint_wrap_val.
Qed.

Definition req_code (r : RegistrationRequest) :=
  match r with Register id c => inl (id, cfg_code c) | Deregister id => inr id end.
Definition status_code (s : RegistrationStatus) : nat * string :=
  match s with
  | Ack => (0, "") | RejectAlreadyRegistered => (1, "") | RejectPoisoned => (2, "")
  | RejectServerError m => (3, m) | Ignore => (4, "") | MissingRobotId => (5, "")
  | StPoisoned => (6, "")
  end.
Definition status_of (x : nat * string) : string + RegistrationStatus :=
  match x.1 with
  | 0 => inr Ack | 1 => inr RejectAlreadyRegistered | 2 => inr RejectPoisoned
  | 3 => inr (RejectServerError x.2) | 4 => inr Ignore | 5 => inr MissingRobotId
  | 6 => inr StPoisoned | _ => inl "status"
  end.

#[global] Instance wire : RegistrationWire := {|
  encode_request r := pos_bits (encode (req_code r));
  decode_request s :=
    (fun x => match x with inl (id, c) => Register id (cfg_of c) | inr id => Deregister id end)
      <$> decode (bits_pos s);
  encode_response s := pos_bits (encode (status_code s));
  decode_response s := match decode (bits_pos s) with Some x => status_of x | None => inl "bits" end
|}.
#[global] Instance wire_laws : RegistrationWireLaws wire.
Proof.
  split.
  - intros [id c|id]; cbn [encode_request decode_request wire];
      rewrite bits_pos_bits, decode_encode; [|done].
    cbn [fmap option_fmap option_map req_code]. by rewrite cfg_of_code.
  - intros s. cbn [encode_response decode_response wire]. rewrite bits_pos_bits, decode_encode.
    by destruct s.
Qed.

Definition cfg : ClientConfig := mkClientConfig (mkClientSection (uint_wrap 64 1000)) None None None.
Definition lease0 : Lease := lease_new (mkServerConfig [mkExpected "7"]).
Definition dbg_e (_ : RegistrationError) : string := "e".
Definition dbg_s (_ : RegistrationStatus) : string := "s".
End WireEx.

Lemma register_handshake_witness :
  (exchange_register WireEx.dbg_e WireEx.dbg_s WireEx.lease0 "7" WireEx.cfg true true).2 = Ok tt.
Proof.
  rewrite (register_handshake WireEx.dbg_e WireEx.dbg_s WireEx.lease0 "7" WireEx.cfg true true eq_refl).
  reflexivity.
Defined.

Lemma deregister_reports_success_witness :
  (exchange_deregister WireEx.dbg_s WireEx.lease0 "7" true true).2 = Ok tt.
Proof. exact (proj1 (deregister_reports_success WireEx.dbg_s WireEx.lease0 "7" eq_refl)). Defined.

Lemma slash_id_kills_registration_witness :
  exists l', state l' "a/b" = Registered /\
    run_task (handle_registration WireEx.dbg_e) WireEx.lease0
      [encode_request (Register "a/b" WireEx.cfg); encode_request (Register "7" WireEx.cfg)]
    = (l', [], false).
Proof.
  destruct (slash_id_kills_registration WireEx.dbg_e WireEx.lease0 "a/b" WireEx.cfg
    [encode_request (Register "7" WireEx.cfg)] eq_refl eq_refl) as (l' & H1 & H2 & _).
  exists l'. split; [exact H2|exact H1].
Defined.
