(* ===== verification/Channels.v ===== *)
(** * Channels: what the program relies on of tokio's channels

    [tokio::sync::watch] and [tokio::sync::mpsc] are third-party: two classes
    of operations with the documented behaviour as laws, and one concrete
    instance of each on which the laws hold. *)
From S2P Require Import Prelude.

(** ** [watch]: one value, many receivers that remember what they have seen *)
Class Watch (A : Type) := {
  wchan : Type;
  wrx : Type;
  (** [let (tx, _) = channel(a)]: the first receiver is dropped at once. *)
  watch_channel : A -> wchan;
  (** [let _ = tx.send(a)]: the result is ignored. *)
  watch_send : wchan -> A -> wchan;
  watch_subscribe : wchan -> wchan * wrx;
  rx_borrow : wchan -> wrx -> A;
  rx_has_changed : wchan -> wrx -> bool;
  (** [changed().await] returning: the current value is seen. *)
  rx_mark_seen : wchan -> wrx -> wrx;
  (** The receiver is one of this channel, not dropped. *)
  receiver_of : wchan -> wrx -> Prop;
  watch_value : wchan -> A;
  receiver_count : wchan -> nat
}.

(** Documented: [send] fails, and does not make the value available, when
    every receiver has been dropped; otherwise it replaces the value and
    notifies every receiver; a new receiver considers the most recent value
    seen. *)
Class WatchLaws {A} (W : Watch A) : Prop := {
  value_channel a : watch_value (watch_channel a) = a;
  receivers_channel a : receiver_count (watch_channel a) = 0;
  value_send_closed c a : receiver_count c = 0 -> watch_value (watch_send c a) = watch_value c;
  value_send_open c a : receiver_count c <> 0 -> watch_value (watch_send c a) = a;
  receivers_send c a : receiver_count (watch_send c a) = receiver_count c;
  value_subscribe c : watch_value (watch_subscribe c).1 = watch_value c;
  receivers_subscribe c : receiver_count (watch_subscribe c).1 = S (receiver_count c);
  borrow_value c r : rx_borrow c r = watch_value c;
  subscribed_seen c : rx_has_changed (watch_subscribe c).1 (watch_subscribe c).2 = false;
  subscribed_receiver c : receiver_of (watch_subscribe c).1 (watch_subscribe c).2;
  sent_receiver c a r : receiver_of c r -> receiver_of (watch_send c a) r;
  marked_receiver c r : receiver_of c r -> receiver_of c (rx_mark_seen c r);
  receiver_counts c r : receiver_of c r -> receiver_count c <> 0;
  sent_changed c a r : receiver_of c r -> rx_has_changed (watch_send c a) r = true;
  marked_seen c r : rx_has_changed c (rx_mark_seen c r) = false;
  (** Marking depends on the channel alone, and does nothing when the value
      was seen. *)
  marked_again c c' r : rx_mark_seen c (rx_mark_seen c' r) = rx_mark_seen c r;
  marked_idle c r : receiver_of c r -> rx_has_changed c r = false -> rx_mark_seen c r = r
}.

(** ** Bounded [mpsc]: [try_send] drops the value when the channel is full *)
Class Mpsc (A : Type) := {
  queue : Type;
  q_new : nat -> queue;
  q_try_send : queue -> A -> queue;
  q_recv : queue -> option (A * queue);
  q_items : queue -> list A;
  q_capacity : queue -> nat
}.
Class MpscLaws {A} (M : Mpsc A) : Prop := {
  items_new n : q_items (q_new n) = [];
  capacity_new n : q_capacity (q_new n) = n;
  items_send q a : q_items (q_try_send q a) =
    if length (q_items q) <? q_capacity q then q_items q ++ [a] else q_items q;
  capacity_send q a : q_capacity (q_try_send q a) = q_capacity q;
  recv_empty q : q_items q = [] -> q_recv q = None;
  recv_cons q a l : q_items q = a :: l ->
    exists q', q_recv q = Some (a, q') /\ q_items q' = l /\ q_capacity q' = q_capacity q
}.

(** ** Instances *)
Record wstate (A : Type) := mkW { w_val : A; w_ver : nat; w_rcv : nat }.
Arguments mkW {A}. Arguments w_val {A}. Arguments w_ver {A}. Arguments w_rcv {A}.

Definition model_watch (A : Type) : Watch A := {|
  wchan := wstate A;
  wrx := nat;
  watch_channel a := mkW a 0 0;
  watch_send c a := match w_rcv c with 0 => c | n => mkW a (S (w_ver c)) n end;
  watch_subscribe c := (mkW (w_val c) (w_ver c) (S (w_rcv c)), w_ver c);
  rx_borrow c _ := w_val c;
  rx_has_changed c r := negb (r =? w_ver c);
  rx_mark_seen c _ := w_ver c;
  receiver_of c r := r <= w_ver c /\ w_rcv c <> 0;
  watch_value := w_val;
  receiver_count := w_rcv
|}.

Definition model_mpsc (A : Type) : Mpsc A := {|
  queue := nat * list A;
  q_new n := (n, []);
  q_try_send q a := if length q.2 <? q.1 then (q.1, q.2 ++ [a]) else q;
  q_recv q := match q.2 with [] => None | a :: l => Some (a, (q.1, l)) end;
  q_items := snd;
  q_capacity := fst
|}.

#[export] Instance model_watch_laws A : WatchLaws (model_watch A).
Proof.
  split; simpl; try done.
  - intros [v n [|k]] a; simpl; done.
  - intros [v n [|k]] a; simpl; done.
  - intros [v n [|k]] a; simpl; done.
  - intros [v n k]. simpl. by rewrite Nat.eqb_refl.
  - intros [v n [|k]] a r [Hr Hk]; simpl in *; [done|lia].
  - intros c r [_ Hk]. split; [lia|done].
  - by intros c r [_ Hk].
  - intros [v n [|k]] a r [Hr Hk]; simpl in *; [done|]. apply negb_true_iff, Nat.eqb_neq. lia.
  - intros [v n k] r. simpl. by rewrite Nat.eqb_refl.
  - intros [v n k] r _. simpl. by intros ->%negb_false_iff%Nat.eqb_eq.
Qed.

#[export] Instance model_mpsc_laws A : MpscLaws (model_mpsc A).
Proof.
  split; simpl; try done.
  - intros [n l] a. simpl. by destruct (length l <? n).
  - intros [n l] a. simpl. by destruct (length l <? n).
  - intros [n l]; simpl. by intros ->.
  - intros [n l] a l'; simpl. intros ->. eauto.
Qed.
