(* ===== verification/Config.v ===== *)
(** * Config: the active ruleset and its hot reload ([src/config.rs])

    [ActiveRules] with its two copies of the ruleset (the lock and the watch
    channel), and the two modes of [HotReload::run] as steps on a message.
    The TOML readers and the ruleset writer are the [toml] crate's. *)
From S2P Require Import Prelude Json Rules Engine Registry Channels.

Section config.
Context `{JN : JsonNumber} {W : Watch (Arc Rules)}.
Context (rules_from_toml : string -> string + Rules)
        (ruleset_from_toml : string -> string + Ruleset)
        (ruleset_to_toml : Ruleset -> string + string)
        (sha256 : string -> string).

(** ** The store *)
Record ActiveRules := mkActive { inner : Arc Rules; watch_tx : wchan }.

Definition active_new (rs : Arc Rules) : ActiveRules := mkActive rs (watch_channel rs).

(** [id] is the identity of the freshly allocated [Arc]. *)
Definition bootstrap (id : nat) (toml_text : string) : res string ActiveRules :=
  match rules_from_toml toml_text with
  | inl e => Err e
  | inr rs => Ok (active_new (mkArc id rs))
  end.

Definition store_current (s : ActiveRules) : Arc Rules := inner s.
Definition store_swap (s : ActiveRules) (rs : Arc Rules) : ActiveRules :=
  mkActive rs (watch_send (watch_tx s) rs).
Definition store_subscribe (s : ActiveRules) : ActiveRules * wrx :=
  let '(tx, rx) := watch_subscribe (watch_tx s) in (mkActive (inner s) tx, rx).

(** What the subscribers of the store see. *)
Definition store_watched (s : ActiveRules) : Arc Rules := watch_value (watch_tx s).

(** ** Hot reload: one message *)
Record ReloadState := mkReload { rl_store : ActiveRules; rl_registry : option Registry }.

Definition accepted (o : res RegistryError RegisterOutcome) : bool :=
  match o with Ok Inserted | Ok (Updated _ _) => true | _ => false end.

(** [db] and [ts] are the registry's statement outcomes and clock; [id] is the
    identity of the new [Arc]. [Ruleset::to_toml] panics when the writer
    fails. *)
Definition reload_step (db : nat -> bool) (ts robot_id : string) (id : nat) (st : ReloadState)
    (text : string) : res unit ReloadState :=
  match rl_registry st with
  | Some reg =>
      match ruleset_from_toml text with
      | inr rs =>
          let '(reg', out) := publish ruleset_to_toml sha256 db ts reg rs robot_id in
          match out with
          | Ok Inserted | Ok (Updated _ _) =>
              match Ruleset_to_toml ruleset_to_toml rs with
              | Panic w => Panic w
              | Err e => Err e
              | Ok t =>
                  match rules_from_toml t with
                  | inr rules =>
                      Ok (mkReload (store_swap (rl_store st) (mkArc id rules)) (Some reg'))
                  | inl _ => Ok (mkReload (rl_store st) (Some reg'))
                  end
              end
          | Panic w => Panic w
          | _ => Ok (mkReload (rl_store st) (Some reg'))
          end
      | inl _ => Ok st
      end
  | None =>
      match rules_from_toml text with
      | inr rules => Ok (mkReload (store_swap (rl_store st) (mkArc id rules)) None)
      | inl _ => Ok st
      end
  end.

(** The per-robot loop over a run of messages, each with its new identity. *)
Definition reload_run (st : ReloadState) (msgs : list (nat * string)) : res unit ReloadState :=
  foldl (fun acc m => acc ≫= fun st => reload_step all_ok "" "" m.1 st m.2) (Ok st) msgs.

(** The last message that parses. *)
Definition last_good (init : Rules) (msgs : list (nat * string)) : Rules :=
  foldl (fun r m => match rules_from_toml m.2 with inr r' => r' | inl _ => r end) init msgs.

Context {WL : WatchLaws W}.

Lemma swap_watched s rs :
  receiver_count (watch_tx s) <> 0 -> store_watched (store_swap s rs) = rs.
Proof. intros H. unfold store_watched, store_swap. simpl. by apply value_send_open. Qed.

Lemma swap_receivers s rs :
  receiver_count (watch_tx (store_swap s rs)) = receiver_count (watch_tx s).
Proof. apply receivers_send. Qed.

Lemma reload_run_snoc st msgs m :
  reload_run st (msgs ++ [m]) = reload_run st msgs ≫= fun st => reload_step all_ok "" "" m.1 st m.2.
Proof. unfold reload_run. by rewrite foldl_snoc. Qed.

Lemma reload_run_ok st msgs :
  rl_registry st = None ->
  exists st', reload_run st msgs = Ok st' /\ rl_registry st' = None /\
    arc_val (inner (rl_store st')) = last_good (arc_val (inner (rl_store st))) msgs /\
    receiver_count (watch_tx (rl_store st')) = receiver_count (watch_tx (rl_store st)) /\
    (receiver_count (watch_tx (rl_store st)) <> 0 ->
     store_watched (rl_store st) = inner (rl_store st) ->
     store_watched (rl_store st') = inner (rl_store st')).
Proof.
  intros Hr. induction msgs as [|m msgs IH] using rev_ind; [by exists st|].
  destruct IH as (st' & H1 & H2 & H3 & H4 & H5). rewrite reload_run_snoc, H1.
  unfold last_good in *. rewrite foldl_snoc. simpl. unfold reload_step. rewrite H2.
  destruct (rules_from_toml m.2) as [e|rules].
  - exists st'. done.
  - eexists. split; [done|]. split; [done|]. split; [done|]. split; [|intros Hc _].
    + simpl. by rewrite receivers_send.
    + apply swap_watched. congruence.
Qed.

(** ** Properties *)

(** Hot reload keeps the last good ruleset: after any run of messages on
    the robot's rules topic the active ruleset is the last one that parsed,
    or the initial one when none did; a malformed message changes nothing.
    Once a subscriber exists, it sees the same ruleset as [current]. *)
Theorem hot_reload_last_good (s : ActiveRules) (msgs : list (nat * string)) :
  exists st', reload_run (mkReload s None) msgs = Ok st' /\
    arc_val (store_current (rl_store st')) = last_good (arc_val (store_current s)) msgs /\
    (receiver_count (watch_tx s) <> 0 -> store_watched s = store_current s ->
     store_watched (rl_store st') = store_current (rl_store st')).
Proof.
  destruct (reload_run_ok (mkReload s None) msgs eq_refl) as (st' & H1 & _ & H3 & _ & H5).
  exists st'. auto.
Qed.

(** A swap made before anybody subscribes is lost to the subscribers:
    the store's [current] is the new ruleset, but the watch channel drops the
    value, so the engine, which subscribes later, evaluates the old one and
    is not told of any change. *)
Theorem early_swap_is_lost (old new : Arc Rules) :
  let s := store_swap (active_new old) new in
  let sub := store_subscribe s in
  store_current sub.1 = new /\
  rx_borrow (watch_tx sub.1) sub.2 = old /\
  rx_has_changed (watch_tx sub.1) sub.2 = false.
Proof.
  unfold store_subscribe, store_swap, active_new. simpl.
  pose proof (value_subscribe (watch_send (watch_channel old) new)) as Hv.
  pose proof (subscribed_seen (watch_send (watch_channel old) new)) as Hs.
  destruct (watch_subscribe _) as [tx rx]. simpl in *. split; [done|]. split; [|done].
  rewrite borrow_value, Hv, value_send_closed by apply receivers_channel. apply value_channel.
Qed.

(** C32. In fleet mode a message reaches the engine only through the registry:
    a step changes the active ruleset only if the message parsed as a
    ruleset, the registry accepted it, its publisher owns the name there, and
    the rules activated are the ones its text denotes; a conflict keeps the
    ruleset and the ownership as they were. *)
Theorem registry_reload_guarded (db : nat -> bool) (ts robot_id : string) (id : nat)
    (s : ActiveRules) (reg : Registry) (text : string) (st' : ReloadState) :
  reload_step db ts robot_id id (mkReload s (Some reg)) text = Ok st' ->
  rl_store st' = s \/
  exists rs rules t reg' row,
    ruleset_from_toml text = inr rs /\ ruleset_to_toml rs = inr t /\
    rules_from_toml t = inr rules /\
    accepted (publish ruleset_to_toml sha256 db ts reg rs robot_id).2 = true /\
    rl_registry st' = Some reg' /\ table reg' !! ruleset_name rs = Some row /\
    row_owner row = robot_owner rs /\
    rl_store st' = store_swap s (mkArc id rules).
Proof.
  unfold reload_step, Ruleset_to_toml. simpl. destruct (ruleset_from_toml text) as [e|rs]; [intros [= <-]; by left|].
  assert (accepted (publish ruleset_to_toml sha256 db ts reg rs robot_id).2 = true ->
    exists row, table (publish ruleset_to_toml sha256 db ts reg rs robot_id).1 !! ruleset_name rs
      = Some row /\ row_owner row = robot_owner rs) as Hrow.
  { intros Ha. destruct (publish _ _ _ _ _ _ _).2 as [o| |] eqn:Ho; [|done..].
    eapply publish_accepted_row; [exact Ho|]. by intros ->. }
  destruct (publish ruleset_to_toml sha256 db ts reg rs robot_id) as [reg' out] eqn:Hpub.
  cbn [fst snd] in Hrow.
  destruct out as [[|v sha|]|e|w]; try (intros [= <-]; by left); try done.
  all: destruct (ruleset_to_toml rs) as [|t] eqn:Ht; [done|];
    destruct (rules_from_toml t) as [|rules] eqn:Hr; intros [= <-]; [by left|right];
    destruct (Hrow eq_refl) as (row & Hl & Ho); exists rs, rules, t, reg', row;
    rewrite Hpub; auto 10.
Qed.
End config.

(** ** Concrete instances *)
Module ConfigEx.
#[global] Instance arc_watch : Watch (Arc (Rules (JN := model_number))) := model_watch _.
Definition no_rules : Arc (Rules (JN := model_number)) := mkArc 0 Rules_default.
Definition reader (t : string) : string + Rules (JN := model_number) :=
  if (t =? "bad")%string then inl "parse error" else inr (mkRules [RegEx.rule t]).
Definition rs_reader (t : string) : string + Ruleset (JN := model_number) := inr (RegEx.rset "dock" "7" [t]).
End ConfigEx.

Lemma registry_reload_guarded_witness :
  exists st', reload_step ConfigEx.reader ConfigEx.rs_reader RegEx.writer RegEx.sha all_ok "0" "7" 1
      (mkReload (active_new ConfigEx.no_rules) (Some registry_empty)) "a" = Ok st' /\
    rl_store st' <> active_new ConfigEx.no_rules /\
    is_some (rl_registry st' ≫= fun reg => table reg !! "dock") = true.
Proof.
  eexists. split; [reflexivity|].
  match goal with |- _ /\ is_some (rl_registry ?st ≫= _) = _ =>
    destruct (registry_reload_guarded ConfigEx.reader ConfigEx.rs_reader RegEx.writer RegEx.sha
      all_ok "0" "7" 1 (active_new ConfigEx.no_rules) registry_empty "a" st eq_refl)
      as [H|(rs & rules & t & reg' & row & H1 & _ & _ & _ & H4 & H5 & _ & _)]
  end.
  - discriminate H.
  - split; [discriminate|]. rewrite H4. simpl. injection H1 as <-.
    change (ruleset_name _) with "dock" in H5. by rewrite H5.
Defined.

Lemma hot_reload_last_good_witness :
  exists st', reload_run ConfigEx.reader ConfigEx.rs_reader RegEx.writer RegEx.sha
      (mkReload (active_new ConfigEx.no_rules) None) [(1, "a"); (2, "bad")] = Ok st' /\
    arc_val (store_current (rl_store st')) = mkRules [RegEx.rule "a"].
Proof.
  destruct (hot_reload_last_good ConfigEx.reader ConfigEx.rs_reader RegEx.writer RegEx.sha
    (active_new ConfigEx.no_rules) [(1, "a"); (2, "bad")]) as (st' & H1 & H2 & _).
  exists st'. split; [exact H1|]. rewrite H2. reflexivity.
Defined.

Lemma early_swap_is_lost_witness :
  store_current (store_subscribe (store_swap (active_new ConfigEx.no_rules)
    (mkArc 1 (mkRules [RegEx.rule "a"])))).1 = mkArc 1 (mkRules [RegEx.rule "a"]).
Proof.
  exact (proj1 (early_swap_is_lost ConfigEx.no_rules (mkArc 1 (mkRules [RegEx.rule "a"])))).
Defined.
