(* ===== verification/Loop.v ===== *)
(** * Loop: the engine's event loop ([EvalState::run] of [src/engine.rs])

    The start-up, the three branches of the [select!] and the subscriber
    tasks around them, as steps over the loop's state; subscribing and
    publishing are oracles of the transport.  Dropping a [JoinHandle] detaches
    its task (documented), so [tasks], the running subscriber tasks, keeps
    what [subscribers] forgets. *)
From S2P Require Import Prelude Json Rules Topic Engine EngineSpec EngineProps Channels Config.

Section loop.
Context `{JN : JsonNumber} {W : Watch (Arc Rules)} {Q : Mpsc (string * Value)}.

Record LoopState := mkLoop {
  ev : EvalState;
  lp_store : ActiveRules;
  store_rx : wrx;
  samples : queue;
  subscribers : list string;
  tasks : list string;
  current_topics : list string;
  fired : list (Topic * Action);
  ticks : N
}.

(** ** Subscribing to a ruleset's topics *)

(** The [for] loop: the topics subscribed before the first failure, and how
    it ended.  [sub] is the transport's answer to a subscription. *)
Fixpoint subscribe_each (sub : string -> string + unit) (topics : list string)
    : list string * res string unit :=
  match topics with
  | [] => ([], Ok tt)
  | t :: rest =>
      match pattern_try_new t with
      | Ok p =>
          match sub (pattern_str p) with
          | inr _ => let '(hs, r) := subscribe_each sub rest in (t :: hs, r)
          | inl e => ([], Err e)
          end
      | Err e => ([], Err (fmt_topic_error e))
      | Panic w => ([], Panic w)
      end
  end.

(** Returns the new [subscribers], [tasks] and [topics]. *)
Definition subscribe_to_topics (sub : string -> string + unit) (rs : Rules) (subs tks topics : list string)
    : list string * list string * list string * res string unit :=
  let new_topics := sorted_topics rs in
  let '(hs, r) := subscribe_each sub new_topics in
  (subs ++ hs, tks ++ hs, match r with Ok _ => new_topics | _ => topics end, r).

(** [fire_action]: an invalid topic is logged and dropped; publication
    failures are only logged. *)
Definition fire_action (a : Action) : option (Topic * Action) :=
  match topic_try_new (a_topic a) with Ok t => Some (t, a) | _ => None end.

(** ** The steps *)
Definition set_ev (l : LoopState) (e : EvalState) : LoopState :=
  mkLoop e (lp_store l) (store_rx l) (samples l) (subscribers l) (tasks l) (current_topics l)
    (fired l) (ticks l).

(** The start-up up to the loop; [None] when the initial subscription fails.
    [swapped] are the swaps made while it awaits, between reading the current
    ruleset and subscribing to the store. *)
Definition loop_start (e : EvalState) (s : ActiveRules) (sub : string -> string + unit)
    (swapped : list (Arc Rules)) : option LoopState :=
  let initial_rules := store_current s in
  let '(subs, tks, topics, r) := subscribe_to_topics sub (arc_val initial_rules) [] [] [] in
  match r with
  | Ok _ =>
      let s' := foldl store_swap s swapped in
      let '(s'', rx) := store_subscribe s' in
      Some (mkLoop (set_last_rules e initial_rules) s'' rx (q_new 256) subs tks topics [] 0)
  | _ => None
  end.

Definition on_tick (now : N) (l : LoopState) : LoopState :=
  let rules := rx_borrow (watch_tx (lp_store l)) (store_rx l) in
  let '(actions, e) := tick_inner now (refresh_baseline (ev l) rules) (arc_val rules) in
  mkLoop e (lp_store l) (store_rx l) (samples l) (subscribers l) (tasks l) (current_topics l)
    (fired l ++ omap fire_action actions) (ticks l + 1).

Definition on_sample (now : N) (l : LoopState) : LoopState :=
  match q_recv (samples l) with
  | Some ((topic, payload), q) =>
      mkLoop (ingest now (ev l) topic payload) (lp_store l) (store_rx l) q (subscribers l) (tasks l)
        (current_topics l) (fired l) (ticks l)
  | None => l
  end.

(** The [changed] branch: the change is seen, which the drain loop repeats
    for the swaps of the debounce; then the topics of the ruleset borrowed are
    compared with the current ones.  Debounce.v has the branch step by step. *)
Definition mark_changed (l : LoopState) : LoopState :=
  mkLoop (ev l) (lp_store l) (rx_mark_seen (watch_tx (lp_store l)) (store_rx l)) (samples l)
    (subscribers l) (tasks l) (current_topics l) (fired l) (ticks l).

Definition set_subscriptions (l : LoopState) (subs tks topics : list string) : LoopState :=
  mkLoop (ev l) (lp_store l) (store_rx l) (samples l) subs tks topics (fired l) (ticks l).

Definition rebuild (sub : string -> string + unit) (l : LoopState) : LoopState :=
  let rules := rx_borrow (watch_tx (lp_store l)) (store_rx l) in
  if decide (sorted_topics (arc_val rules) = current_topics l) then l
  else
    let '(subs, tks, topics, _) :=
      subscribe_to_topics sub (arc_val rules) [] (tasks l) (current_topics l) in
    set_subscriptions l subs tks topics.

Definition on_changed (sub : string -> string + unit) (l : LoopState) : LoopState :=
  rebuild sub (mark_changed l).

(** A subscriber task (or one of the two zone tasks, whose patterns are
    [zone/*/entered] and [zone/*/cleared]) hands over a sample. *)
Definition deliver (l : LoopState) (topic : string) (payload : Value) : LoopState :=
  mkLoop (ev l) (lp_store l) (store_rx l) (q_try_send (samples l) (topic, payload)) (subscribers l)
    (tasks l) (current_topics l) (fired l) (ticks l).

Definition swap_in (l : LoopState) (rs : Arc Rules) : LoopState :=
  mkLoop (ev l) (store_swap (lp_store l) rs) (store_rx l) (samples l) (subscribers l) (tasks l)
    (current_topics l) (fired l) (ticks l).

(** [late] are the swaps made on another thread after the last look at the
    receiver and before the borrow: they are rebuilt for, and still count as
    unseen. *)
Inductive loop_step : LoopState -> LoopState -> Prop :=
  | ls_tick now l : loop_step l (on_tick now l)
  | ls_sample now l : loop_step l (on_sample now l)
  | ls_changed sub late l :
      rx_has_changed (watch_tx (lp_store l)) (store_rx l) = true ->
      loop_step l (rebuild sub (foldl swap_in (mark_changed l) late))
  | ls_deliver l topic payload :
      topic ∈ tasks l \/ (is_zone_event topic = true /\ length (split_on slash topic) = 3) ->
      loop_step l (deliver l topic payload)
  | ls_swap l rs : loop_step l (swap_in l rs).

(** ** Invariant *)
Record loop_inv (l : LoopState) : Prop := {
  li_engine : engine_inv (ev l);
  li_queue : length (q_items (samples l)) <= q_capacity (samples l) /\ q_capacity (samples l) = 256;
  li_handles : subscribers l ⊆ tasks l;
  li_topics : current_topics l ⊆ tasks l;
  li_receiver : receiver_of (watch_tx (lp_store l)) (store_rx l);
  li_fired : Forall (fun ta => topic_try_new (a_topic ta.2) = Ok ta.1) (fired l)
}.

Context {WL : WatchLaws W} {QL : MpscLaws Q}.

Lemma subscribe_each_ok sub ts hs :
  subscribe_each sub ts = (hs, Ok tt) -> hs = ts.
Proof.
  revert hs. induction ts as [|t ts IH]; intros hs; simpl; [congruence|].
  destruct (pattern_try_new t); [|done..]. destruct (sub _); [done|].
  destruct (subscribe_each sub ts) as [hs' r]. intros [= <- ->]. by rewrite (IH hs').
Qed.

Lemma subscribe_topics_inv sub rs subs tks topics subs' tks' topics' r :
  subscribe_to_topics sub rs subs tks topics = (subs', tks', topics', r) ->
  subs ⊆ tks -> topics ⊆ tks ->
  tks ⊆ tks' /\ subs' ⊆ tks' /\ topics' ⊆ tks' /\ (r = Ok tt -> topics' = sorted_topics rs).
Proof.
  unfold subscribe_to_topics. destruct (subscribe_each sub (sorted_topics rs)) as [hs r'] eqn:E.
  intros [= <- <- <- <-] H1 H2. split; [set_solver|]. split; [set_solver|].
  destruct r' as [[]| |]; [|split; [set_solver|done]..].
  apply subscribe_each_ok in E as ->. split; [set_solver|done].
Qed.

Lemma fire_action_topic actions :
  Forall (fun ta => topic_try_new (a_topic ta.2) = Ok ta.1) (omap fire_action actions).
Proof.
  induction actions as [|a l IH]; [constructor|]. simpl. unfold fire_action.
  destruct (topic_try_new (a_topic a)) eqn:E; [|done..]. by constructor.
Qed.

Lemma loop_inv_swap l rs : loop_inv l -> loop_inv (swap_in l rs).
Proof. intros [H1 H2 H3 H4 H5 H6]. split; try done. by apply sent_receiver. Qed.

Lemma loop_inv_rebuild sub l : loop_inv l -> loop_inv (rebuild sub l).
Proof.
  intros [H1 H2 H3 H4 H5 H6]. unfold rebuild. destruct (decide _); [by split|].
  destruct (subscribe_to_topics _ _ _ _ _) as [[[subs tks] topics] r] eqn:E.
  apply subscribe_topics_inv in E as (Ha & Hb & Hd & _); [|set_solver|done].
  by split.
Qed.

Lemma loop_inv_step l l' : loop_step l l' -> loop_inv l -> loop_inv l'.
Proof.
  intros Hstep Hi. pose proof Hi as [H1 [H2 H2'] H3 H4 H5 H6].
  destruct Hstep as [now l|now l|sub late l Hc|l tp p Ht|l rs].
  - unfold on_tick. set (rules := rx_borrow _ _).
    pose proof (engine_inv_tick now _ (arc_val rules) (engine_inv_refresh _ rules H1)) as He.
    unfold tick in He. destruct (tick_inner _ _ _) as [acts e].
    split; simpl; try done. apply Forall_app. split; [done|apply fire_action_topic].
  - unfold on_sample. destruct (q_items (samples l)) as [|[tp p] q] eqn:E.
    + rewrite (recv_empty _ E). split; try done. by rewrite E.
    + destruct (recv_cons _ _ _ E) as (q' & -> & Hq & Hcap).
      split; simpl; try done; [by apply engine_inv_ingest|].
      rewrite Hq, Hcap. simpl in H2. split; [lia|done].
  - apply loop_inv_rebuild. induction late as [|rs late IH] using rev_ind.
    + split; try done. by apply marked_receiver.
    + rewrite foldl_snoc. by apply loop_inv_swap.
  - split; simpl; try done. rewrite items_send, capacity_send.
    split; [|done]. destruct (Nat.ltb_spec (length (q_items (samples l))) (q_capacity (samples l)));
      rewrite ?length_app; simpl; lia.
  - by apply loop_inv_swap.
Qed.

Lemma swaps_current s l :
  store_current (foldl store_swap s l) = List.last l (store_current s).
Proof.
  induction l as [|x l IH] using rev_ind; [done|].
  by rewrite foldl_snoc, List.last_last.
Qed.

Lemma swaps_receivers s l :
  receiver_count (watch_tx (foldl store_swap s l)) = receiver_count (watch_tx s).
Proof.
  induction l as [|x l IH] using rev_ind; [done|]. rewrite foldl_snoc. simpl. by rewrite receivers_send.
Qed.

Lemma swaps_lost s l :
  receiver_count (watch_tx s) = 0 ->
  watch_value (watch_tx (foldl store_swap s l)) = watch_value (watch_tx s).
Proof.
  intros Hr. induction l as [|x l IH] using rev_ind; [done|]. rewrite foldl_snoc.
  unfold store_swap at 1. cbn [watch_tx]. by rewrite value_send_closed by (by rewrite swaps_receivers).
Qed.

Lemma loop_inv_start e s sub swapped l :
  engine_inv e -> loop_start e s sub swapped = Some l -> loop_inv l.
Proof.
  intros He. unfold loop_start.
  destruct (subscribe_to_topics _ _ _ _ _) as [[[subs tks] topics] r] eqn:E.
  apply subscribe_topics_inv in E as (Ha & Hb & Hd & _); [|set_solver..].
  destruct r as [[]| |]; [|done..].
  pose proof (subscribed_receiver (watch_tx (foldl store_swap s swapped))) as Hr.
  unfold store_subscribe. destruct (watch_subscribe _) as [tx rx]. simpl in Hr.
  intros [= <-]. split; simpl; try done.
  - destruct He as [I1 I2 I3 I4]. by split.
  - rewrite items_new, capacity_new. simpl. lia.
Qed.

(** ** Properties *)

(** C16. The loop invariant: from any successful start, through any
    interleaving of ticks, samples, ruleset changes, deliveries and swaps,
    the sample channel never holds more than its 256 entries, the engine
    state stays well formed, every topic the loop believes subscribed has a
    running subscriber task, the store keeps a live receiver, and everything
    published is an action whose topic validates to the topic it was
    published on. *)
Theorem loop_invariant (e : EvalState) (s : ActiveRules) (sub : string -> string + unit)
    (swapped : list (Arc Rules)) (l l' : LoopState) :
  engine_reachable e -> loop_start e s sub swapped = Some l -> rtc loop_step l l' -> loop_inv l'.
Proof.
  intros He Hs Hr. apply reachable_inv in He. apply (loop_inv_start _ _ _ _ _ He) in Hs.
  induction Hr as [|x y z Hxy _ IH]; [done|]. by apply IH, (loop_inv_step _ _ Hxy).
Qed.

(** Subscriber tasks accumulate: a rebuild drops the old handles without
    stopping their tasks, so no step ever ends a task, and a successful
    rebuild for new topics leaves both the old tasks and a fresh one per new
    topic running, while making exactly the new ruleset's topics current. *)
Theorem rebuild_leaks_tasks (sub : string -> string + unit) (l : LoopState) :
  (forall l', loop_step l l' -> exists more, tasks l' = tasks l ++ more) /\
  (forall rules, rules = rx_borrow (watch_tx (lp_store l)) (rx_mark_seen (watch_tx (lp_store l)) (store_rx l)) ->
   sorted_topics (arc_val rules) <> current_topics l ->
   subscribe_each sub (sorted_topics (arc_val rules)) = (sorted_topics (arc_val rules), Ok tt) ->
   tasks (on_changed sub l) = tasks l ++ sorted_topics (arc_val rules) /\
   subscribers (on_changed sub l) = sorted_topics (arc_val rules) /\
   current_topics (on_changed sub l) = sorted_topics (arc_val rules)).
Proof.
  split.
  - intros l' [now l0|now l0|sub' late l0 Hc|l0 tp p Ht|l0 rs]; simpl.
    + unfold on_tick. destruct (tick_inner _ _ _). exists []. by rewrite app_nil_r.
    + unfold on_sample. destruct (q_recv _) as [[[] ?]|]; exists []; by rewrite app_nil_r.
    + assert (tasks (foldl swap_in (mark_changed l0) late) = tasks l0) as <-
        by (induction late as [|rs late IH] using rev_ind; [done|]; by rewrite foldl_snoc).
      unfold rebuild. destruct (decide _); [exists []; by rewrite app_nil_r|].
      unfold subscribe_to_topics. destruct (subscribe_each _ _). simpl. eauto.
    + exists []. by rewrite app_nil_r.
    + exists []. by rewrite app_nil_r.
  - intros rules -> Hne Hs. unfold on_changed, rebuild. cbn [mark_changed lp_store store_rx current_topics]. rewrite decide_False by done.
    unfold subscribe_to_topics. by rewrite Hs.
Qed.

(** A ruleset swapped in during start-up is not evaluated: with no other
    subscriber of the store, swaps made before the loop subscribes leave its
    receiver on the ruleset the store was created with, with no change
    pending; the first tick evaluates that old ruleset although the store's
    [current] is the new one. *)
Theorem startup_swap_not_evaluated (e : EvalState) (old new : Arc Rules) (sub : string -> string + unit)
    (l : LoopState) (now : N) :
  loop_start e (active_new old) sub [new] = Some l ->
  store_current (lp_store l) = new /\
  rx_has_changed (watch_tx (lp_store l)) (store_rx l) = false /\
  ev (on_tick now l) = (tick_with_arc now (set_last_rules e old) old).2.
Proof.
  unfold loop_start. simpl.
  destruct (subscribe_to_topics _ _ _ _ _) as [[[subs tks] topics] r].
  destruct r as [[]| |]; [|done..].
  unfold store_subscribe, store_swap, active_new. simpl.
  pose proof (value_subscribe (watch_send (watch_channel old) new)) as Hv.
  pose proof (subscribed_seen (watch_send (watch_channel old) new)) as Hs.
  destruct (watch_subscribe _) as [tx rx]. simpl in *. intros [= <-]. simpl.
  split; [done|]. split; [done|]. unfold on_tick. simpl.
  rewrite borrow_value, Hv, value_send_closed by apply receivers_channel. rewrite value_channel.
  unfold tick_with_arc. by destruct (tick_inner _ _ _).
Qed.
End loop.

(** ** Concrete instances *)
Module LoopEx.
#[global] Instance sample_queue : Mpsc (string * Value (JN := model_number)) := model_mpsc _.
Definition sub_all (_ : string) : string + unit := inr tt.
Definition watching (tp : string) : Rules (JN := model_number) :=
  mkRules [mkRule "r" (mkWhen [mkTrigger tp None Level] []) [TickEx.act "actuator/horn"]].
Definition old : Arc (Rules (JN := model_number)) := mkArc 0 (watching "sensor/a").
Definition new : Arc (Rules (JN := model_number)) := mkArc 1 (watching "sensor/b").
Definition started (sw : list (Arc Rules)) : LoopState :=
  match loop_start empty_state (active_new old) sub_all sw with
  | Some l => l
  | None => mkLoop empty_state (active_new old) 0 (q_new 0) [] [] [] [] 0
  end.
End LoopEx.

Lemma loop_invariant_witness :
  loop_inv (on_tick 9 (on_sample 8 (deliver (LoopEx.started []) "sensor/a" (Bool true)))).
Proof.
  apply (loop_invariant empty_state (active_new LoopEx.old) LoopEx.sub_all [] (LoopEx.started [])).
  - exists empty_state. split; [constructor|apply rtc_refl].
  - reflexivity.
  - eapply rtc_l; [apply ls_deliver; left; vm_compute; left|].
    eapply rtc_l; [apply ls_sample|]. eapply rtc_l; [apply ls_tick|]. apply rtc_refl.
Defined.

Lemma rebuild_leaks_tasks_witness :
  tasks (on_changed LoopEx.sub_all (swap_in (LoopEx.started []) LoopEx.new)) = ["sensor/a"; "sensor/b"].
Proof.
  apply (proj2 (rebuild_leaks_tasks LoopEx.sub_all (swap_in (LoopEx.started []) LoopEx.new))
    LoopEx.new); [reflexivity|discriminate|reflexivity].
Defined.

Lemma startup_swap_not_evaluated_witness :
  store_current (lp_store (LoopEx.started [LoopEx.new])) = LoopEx.new.
Proof.
  apply (startup_swap_not_evaluated empty_state LoopEx.old LoopEx.new LoopEx.sub_all
    (LoopEx.started [LoopEx.new]) 0). reflexivity.
Defined.
