(* ===== verification/Debounce.v ===== *)
(** * Debounce: the [changed] branch of [EvalState::run] step by step

    Loop.v takes a ruleset change as one step.  The branch of
    [src/engine.rs] is not one: it sleeps, drains the changes that came
    meanwhile, borrows the ruleset and subscribes topic by topic, while other
    tasks swap rulesets and deliver samples on other threads at any point.
    Here each of its awaits is a step of its own; the theorems say that the
    detailed loop refines the loop of Loop.v, that its subscriptions follow
    the ruleset, and that the branch ends. *)
From S2P Require Import Prelude Json Rules Topic Engine EngineSpec EngineProps Channels Config Loop.

Section debounce.
Context `{JN : JsonNumber} {W : Watch (Arc Rules)} {Q : Mpsc (string * Value)}.

(** ** Where the loop is *)
Inductive Phase :=
  | Selecting          (** at [tokio::select!] *)
  | Sleeping           (** in [sleep(10ms)], the change seen *)
  | Draining           (** before [has_changed] *)
  | Awaiting           (** before [changed().await], after [has_changed] was true *)
  | Borrowing          (** before [borrow], after [has_changed] was false *)
  | Subscribing (sub : string -> string + unit) (todo new_topics : list string).

Record Detailed := mkDetailed { dt_loop : LoopState; dt_phase : Phase }.

(** The loop's own steps, and those of the other tasks. *)
Inductive Event :=
  | Ticked (now : N)
  | Sampled (now : N)
  | Changed
  | Woken
  | Checked
  | Awaited
  | Borrowed (sub : string -> string + unit)
  | Subscribed
  | Delivered (topic : string) (payload : Value)
  | Swapped (rs : Arc Rules).

Definition pending (l : LoopState) : bool := rx_has_changed (watch_tx (lp_store l)) (store_rx l).
Definition watched_topics (l : LoopState) : list string :=
  sorted_topics (arc_val (rx_borrow (watch_tx (lp_store l)) (store_rx l))).

(** A sample reaches the channel from a running subscriber task. *)
Definition may_deliver (l : LoopState) (topic : string) : bool :=
  bool_decide (topic ∈ tasks l) || is_zone_event topic && (length (split_on slash topic) =? 3).

(** One subscription of the rebuild: the handle is kept, or the rebuild ends
    and leaves [current_topics] as it was. *)
Definition subscribe_next (sub : string -> string + unit) (t : string) (rest new_topics : list string)
    (l : LoopState) : Detailed :=
  match pattern_try_new t with
  | Ok p =>
      match sub (pattern_str p) with
      | inr _ => mkDetailed (set_subscriptions l (subscribers l ++ [t]) (tasks l ++ [t]) (current_topics l))
                   (Subscribing sub rest new_topics)
      | inl _ => mkDetailed l Selecting
      end
  | _ => mkDetailed l Selecting
  end.

Definition dstep (d : Detailed) (e : Event) : option Detailed :=
  let l := dt_loop d in
  match e, dt_phase d with
  | Delivered topic payload, ph =>
      if may_deliver l topic then Some (mkDetailed (deliver l topic payload) ph) else None
  | Swapped rs, ph => Some (mkDetailed (swap_in l rs) ph)
  | Ticked now, Selecting => Some (mkDetailed (on_tick now l) Selecting)
  | Sampled now, Selecting => Some (mkDetailed (on_sample now l) Selecting)
  | Changed, Selecting => if pending l then Some (mkDetailed (mark_changed l) Sleeping) else None
  | Woken, Sleeping => Some (mkDetailed l Draining)
  | Checked, Draining => Some (mkDetailed l (if pending l then Awaiting else Borrowing))
  | Awaited, Awaiting => Some (mkDetailed (mark_changed l) Draining)
  | Borrowed sub, Borrowing =>
      if decide (watched_topics l = current_topics l) then Some (mkDetailed l Selecting)
      else Some (mkDetailed (set_subscriptions l [] (tasks l) (current_topics l))
                   (Subscribing sub (watched_topics l) (watched_topics l)))
  | Subscribed, Subscribing sub (t :: rest) new_topics => Some (subscribe_next sub t rest new_topics l)
  | Subscribed, Subscribing sub [] new_topics =>
      Some (mkDetailed (set_subscriptions l (subscribers l) (tasks l) new_topics) Selecting)
  | _, _ => None
  end.

Fixpoint drun (d : Detailed) (es : list Event) : option Detailed :=
  match es with
  | [] => Some d
  | e :: es => match dstep d e with Some d' => drun d' es | None => None end
  end.
(** ** The simulation

    A branch in progress stands for a state of Loop.v that has not taken its
    [changed] step yet, up to the borrow, or that has taken all of it. *)
Definition set_rx (l : LoopState) (rx : wrx) : LoopState :=
  mkLoop (ev l) (lp_store l) rx (samples l) (subscribers l) (tasks l) (current_topics l) (fired l) (ticks l).

(** What is left of a rebuild. *)
Definition finish (sub : string -> string + unit) (todo new_topics : list string) (l : LoopState) : LoopState :=
  let '(hs, r) := subscribe_each sub todo in
  set_subscriptions l (subscribers l ++ hs) (tasks l ++ hs)
    (match r with Ok _ => new_topics | _ => current_topics l end).

Definition unseen (a l : LoopState) : Prop :=
  pending a = true /\ receiver_of (watch_tx (lp_store a)) (store_rx a) /\
  exists r, l = set_rx a r /\ receiver_of (watch_tx (lp_store a)) r /\
    forall c, rx_mark_seen c r = rx_mark_seen c (store_rx a).

Definition stands_for (d : Detailed) (a : LoopState) : Prop :=
  match dt_phase d with
  | Selecting => dt_loop d = a
  | Sleeping | Draining | Awaiting => unseen a (dt_loop d)
  | Borrowing => pending a = true /\ exists late, dt_loop d = foldl swap_in (mark_changed a) late
  | Subscribing sub todo new_topics => finish sub todo new_topics (dt_loop d) = a
  end.

Context {WL : WatchLaws W} {QL : MpscLaws Q}.

Lemma may_deliver_step l topic payload :
  may_deliver l topic = true -> loop_step l (deliver l topic payload).
Proof.
  unfold may_deliver. intros [H%bool_decide_eq_true|H]%orb_true_iff; apply ls_deliver; [by left|right].
  apply andb_true_iff in H as [H1 H2%Nat.eqb_eq]. done.
Qed.

Lemma may_deliver_mono l l' topic :
  tasks l ⊆ tasks l' -> may_deliver l topic = true -> may_deliver l' topic = true.
Proof.
  unfold may_deliver. intros Hs [H%bool_decide_eq_true|H]%orb_true_iff; apply orb_true_iff; [left|by right].
  apply bool_decide_eq_true. set_solver.
Qed.

Lemma late_swaps_fields l late :
  tasks (foldl swap_in l late) = tasks l /\
  (forall topic payload, deliver (foldl swap_in l late) topic payload = foldl swap_in (deliver l topic payload) late).
Proof.
  induction late as [|rs late [IH1 IH2]] using rev_ind; [done|]. rewrite !foldl_snoc. split; [done|].
  intros topic payload. rewrite foldl_snoc, <- IH2. done.
Qed.

Lemma finish_tasks sub todo new_topics l : tasks l ⊆ tasks (finish sub todo new_topics l).
Proof. unfold finish. destruct (subscribe_each sub todo). simpl. set_solver. Qed.
Lemma finish_deliver sub todo new_topics l topic payload :
  finish sub todo new_topics (deliver l topic payload) = deliver (finish sub todo new_topics l) topic payload.
Proof. unfold finish. by destruct (subscribe_each sub todo). Qed.
Lemma finish_swap sub todo new_topics l rs :
  finish sub todo new_topics (swap_in l rs) = swap_in (finish sub todo new_topics l) rs.
Proof. unfold finish. by destruct (subscribe_each sub todo). Qed.

Lemma unseen_deliver a l topic payload :
  unseen a l -> unseen (deliver a topic payload) (deliver l topic payload).
Proof. intros (Hp & Hr & r & -> & H1 & H2). split; [done|]. split; [done|]. by exists r. Qed.
Lemma unseen_swap a l rs : unseen a l -> unseen (swap_in a rs) (swap_in l rs).
Proof.
  intros (Hp & Hr & r & -> & H1 & H2). split; [by apply sent_changed|].
  split; [by apply sent_receiver|]. exists r. split; [done|]. split; [by apply sent_receiver|done].
Qed.
Lemma unseen_mark a l : unseen a l -> unseen a (mark_changed l).
Proof.
  intros (Hp & Hr & r & -> & H1 & H2). split; [done|]. split; [done|].
  exists (rx_mark_seen (watch_tx (lp_store a)) r). split; [done|]. split; [by apply marked_receiver|].
  intros c. by rewrite marked_again.
Qed.
Lemma unseen_drained a l : unseen a l -> pending l = false -> l = mark_changed a.
Proof.
  intros (Hp & Hr & r & -> & H1 & H2) Hd. unfold mark_changed. rewrite <- H2.
  by rewrite (marked_idle _ r H1 Hd).
Qed.

Lemma rebuild_finish sub l :
  watched_topics l <> current_topics l ->
  rebuild sub l = finish sub (watched_topics l) (watched_topics l)
    (set_subscriptions l [] (tasks l) (current_topics l)).
Proof.
  intros Hne. unfold rebuild, watched_topics in *. rewrite decide_False by done.
  unfold subscribe_to_topics, finish. by destruct (subscribe_each _ _).
Qed.

(** Each subscription is the head of what is left. *)
Lemma subscribe_next_stands sub t rest new_topics l :
  stands_for (subscribe_next sub t rest new_topics l) (finish sub (t :: rest) new_topics l).
Proof.
  assert (forall l0 : LoopState, mkLoop (ev l0) (lp_store l0) (store_rx l0) (samples l0) (subscribers l0)
    (tasks l0) (current_topics l0) (fired l0) (ticks l0) = l0) as Heta by (by intros []).
  unfold subscribe_next, finish. cbn [subscribe_each].
  destruct (pattern_try_new t) as [p|e|w];
    [|cbn; unfold set_subscriptions; rewrite !app_nil_r; symmetry; apply Heta..].
  destruct (sub (pattern_str p)) as [e|u];
    [cbn; unfold set_subscriptions; rewrite !app_nil_r; symmetry; apply Heta|].
  cbn. unfold finish. destruct (subscribe_each sub rest) as [hs r]. unfold set_subscriptions. cbn.
  by rewrite <- !app_assoc.
Qed.

(** The steps of other tasks are steps of the state a branch stands for. *)
Lemma stands_deliver l ph a topic payload :
  may_deliver l topic = true -> stands_for (mkDetailed l ph) a ->
  loop_step a (deliver a topic payload) /\ stands_for (mkDetailed (deliver l topic payload) ph) (deliver a topic payload).
Proof.
  intros Hm Hs. assert (tasks l ⊆ tasks a) as Ht.
  { destruct ph; cbn in Hs;
      [by subst|by destruct Hs as (_ & _ & r & -> & _)..| |by subst; apply finish_tasks].
    destruct Hs as (_ & late & ->). by rewrite (proj1 (late_swaps_fields _ _)). }
  split; [by eapply may_deliver_step, may_deliver_mono|].
  destruct ph; cbn in Hs |- *; [by subst|by apply unseen_deliver..| |].
  - destruct Hs as (Hp & late & ->). split; [done|]. exists late. by rewrite (proj2 (late_swaps_fields _ _)).
  - subst. apply finish_deliver.
Qed.

Lemma stands_swap l ph a rs :
  stands_for (mkDetailed l ph) a ->
  exists a', rtc loop_step a a' /\ stands_for (mkDetailed (swap_in l rs) ph) a'.
Proof.
  intros Hs. destruct ph; cbn in Hs |- *.
  1-4: exists (swap_in a rs); split; [apply rtc_once, ls_swap|]; first [by subst|by apply unseen_swap].
  - exists a. split; [apply rtc_refl|]. destruct Hs as (Hp & late & ->). split; [done|].
    exists (late ++ [rs]). by rewrite foldl_snoc.
  - exists (swap_in a rs). split; [apply rtc_once, ls_swap|]. subst. apply finish_swap.
Qed.

(** The borrow is where the change of Loop.v happens. *)
Lemma stands_borrow l a sub :
  stands_for (mkDetailed l Borrowing) a -> forall d', dstep (mkDetailed l Borrowing) (Borrowed sub) = Some d' ->
  exists a', loop_step a a' /\ stands_for d' a'.
Proof.
  intros Hs d' Hd. cbn in Hs. destruct Hs as (Hp & late & ->). exists (rebuild sub (foldl swap_in (mark_changed a) late)).
  split; [by apply ls_changed|]. unfold dstep in Hd. cbn [dt_loop dt_phase] in Hd. set (l := foldl swap_in _ late) in *.
  destruct (decide (watched_topics l = current_topics l)) as [He|Hne]; injection Hd as <-; cbn.
  - unfold rebuild, watched_topics in *. by rewrite decide_True.
  - by rewrite rebuild_finish.
Qed.

Lemma dstep_stands d e d' a :
  dstep d e = Some d' -> loop_inv a -> stands_for d a ->
  exists a', rtc loop_step a a' /\ stands_for d' a'.
Proof.
  destruct d as [l ph]. intros Hd Hi Hs.
  assert (forall a', loop_step a a' -> stands_for d' a' -> exists a', rtc loop_step a a' /\ stands_for d' a') as Hone
    by (intros a' H1 H2; exists a'; split; [by apply rtc_once|done]).
  assert (stands_for d' a -> exists a', rtc loop_step a a' /\ stands_for d' a') as Hnone
    by (intros H2; exists a; split; [apply rtc_refl|done]).
  destruct e as [now|now| | | | |sub| |topic payload|rs]; cbn in Hd;
    [destruct ph; simplify_eq..| |].
  - apply (Hone (on_tick now a)); [constructor|]. cbn in *. by subst.
  - apply (Hone (on_sample now a)); [constructor|]. cbn in *. by subst.
  - destruct (pending l) eqn:Hp; [|done]. injection Hd as <-. apply Hnone. cbn in *. subst l.
    split; [done|]. split; [apply Hi|]. exists (rx_mark_seen (watch_tx (lp_store a)) (store_rx a)).
    split; [done|]. split; [apply marked_receiver, Hi|]. intros c. by apply marked_again.
  - by apply Hnone.
  - apply Hnone. destruct (pending l) eqn:Hp; [done|]. cbn in *. split; [apply Hs|]. exists [].
    by apply unseen_drained.
  - by apply Hnone, unseen_mark.
  - destruct (stands_borrow l a sub Hs d' Hd) as (a' & H1 & H2). by apply (Hone a').
  - destruct todo as [|t rest]; injection Hd as <-; apply Hnone; cbn in Hs; subst a.
    + unfold finish. cbn. unfold set_subscriptions. by rewrite !app_nil_r.
    + apply subscribe_next_stands.
  - destruct (may_deliver l topic) eqn:Hm; [|done]. injection Hd as <-.
    destruct (stands_deliver l ph a topic payload Hm Hs) as [H1 H2]. by eapply Hone.
  - injection Hd as <-. by apply stands_swap.
Qed.

Lemma drun_stands d es d' a :
  drun d es = Some d' -> loop_inv a -> stands_for d a ->
  exists a', rtc loop_step a a' /\ stands_for d' a'.
Proof.
  revert d a. induction es as [|e es IH]; intros d a; cbn; [intros [= <-]; eauto using rtc_refl|].
  destruct (dstep d e) as [d1|] eqn:Hd; [|done]. intros Hr Hi Hs.
  destruct (dstep_stands _ _ _ _ Hd Hi Hs) as (a1 & H1 & Hs1).
  destruct (IH d1 a1 Hr) as (a' & H2 & Hs2); [|done|].
  - clear -H1 Hi WL QL. induction H1 as [|x y z Hxy _ IH]; [done|]. by apply IH, (loop_inv_step _ _ Hxy).
  - exists a'. split; [by etrans|done].
Qed.

(** What is published, held and evaluated agrees with a state of Loop.v. *)
Lemma stands_visible d a :
  stands_for d a ->
  exists a', rtc loop_step a a' /\ ev (dt_loop d) = ev a' /\ lp_store (dt_loop d) = lp_store a' /\
    samples (dt_loop d) = samples a' /\ fired (dt_loop d) = fired a' /\ ticks (dt_loop d) = ticks a'.
Proof.
  destruct d as [l ph]. intros Hs. destruct ph; cbn in Hs |- *.
  1: subst; eauto 10 using rtc_refl.
  1-3: destruct Hs as (_ & _ & r & -> & _); exists a; eauto 10 using rtc_refl.
  - destruct Hs as (_ & late & ->). exists (foldl swap_in a late). split.
    + induction late as [|rs late IH] using rev_ind; [apply rtc_refl|]. rewrite foldl_snoc.
      eapply rtc_r; [done|apply ls_swap].
    + induction late as [|rs late IH] using rev_ind; [done|]. rewrite !foldl_snoc.
      destruct IH as (H1 & H2 & H3 & H4 & H5). cbn. by rewrite H2.
  - exists a. subst a. unfold finish. destruct (subscribe_each sub todo). eauto 10 using rtc_refl.
Qed.





Lemma tick_keeps now l :
  lp_store (on_tick now l) = lp_store l /\ store_rx (on_tick now l) = store_rx l /\
  current_topics (on_tick now l) = current_topics l.
Proof. unfold on_tick. by destruct (tick_inner _ _ _). Qed.
Lemma sample_keeps now l :
  lp_store (on_sample now l) = lp_store l /\ store_rx (on_sample now l) = store_rx l /\
  current_topics (on_sample now l) = current_topics l.
Proof. unfold on_sample. by destruct (q_recv _) as [[[] ?]|]. Qed.





(** ** The branch ends *)

(** The loop's own next step in the branch. *)
Definition own_event (sub : string -> string + unit) (ph : Phase) : option Event :=
  match ph with
  | Selecting => None
  | Sleeping => Some Woken
  | Draining => Some Checked
  | Awaiting => Some Awaited
  | Borrowing => Some (Borrowed sub)
  | Subscribing _ _ _ => Some Subscribed
  end.
Definition own_step (sub : string -> string + unit) (d : Detailed) : option Detailed :=
  match own_event sub (dt_phase d) with Some e => dstep d e | None => None end.
Fixpoint own_run (sub : string -> string + unit) (fuel : nat) (d : Detailed) : Detailed :=
  match fuel with
  | 0 => d
  | S n => match own_step sub d with Some d' => own_run sub n d' | None => d end
  end.

(** The steps left, if no ruleset is swapped in. *)
Definition steps_left (d : Detailed) : nat :=
  let topics := length (watched_topics (dt_loop d)) in
  match dt_phase d with
  | Selecting => 0
  | Subscribing _ todo _ => S (length todo)
  | Borrowing => 2 + topics
  | Draining => (if pending (dt_loop d) then 5 else 3) + topics
  | Awaiting => 4 + topics
  | Sleeping => 6 + topics
  end.

Lemma own_step_progress sub d :
  dt_phase d <> Selecting -> exists d', own_step sub d = Some d' /\ steps_left d' < steps_left d.
Proof.
  destruct d as [l ph]. intros Hph. unfold own_step, steps_left. cbn [dt_phase dt_loop].
  destruct ph as [| | | | |s todo nt]; cbn [own_event dstep dt_phase dt_loop].
  - done.
  - eexists; split; [done|]. cbn. destruct (pending l); lia.
  - eexists; split; [done|]. cbn. destruct (pending l); cbn; lia.
  - eexists; split; [done|]. cbn [dt_phase dt_loop].
    replace (pending (mark_changed l)) with false by (symmetry; apply marked_seen).
    unfold watched_topics. cbn. rewrite !borrow_value. lia.
  - destruct (decide _); (eexists; split; [done|]); cbn; lia.
  - destruct todo as [|t rest]; (eexists; split; [done|]); cbn; [lia|].
    unfold subscribe_next. destruct (pattern_try_new t) as [p| |]; cbn; [|lia..].
    destruct (s (pattern_str p)); cbn; lia.
Qed.

Lemma own_run_ends sub fuel d : steps_left d <= fuel -> dt_phase (own_run sub fuel d) = Selecting.
Proof.
  revert d. induction fuel as [|n IH]; intros d Hn.
  - destruct d as [l ph]. unfold steps_left in Hn. cbn in Hn |- *.
    destruct ph; cbn in Hn; try done; destruct (pending l); lia.
  - cbn. assert (dt_phase d = Selecting \/ dt_phase d <> Selecting) as [Hs|Hs]
      by (destruct (dt_phase d); auto).
    + unfold own_step. rewrite Hs. done.
    + destruct (own_step_progress sub d Hs) as (d' & -> & Hlt). apply IH. lia.
Qed.

(** *** Counting *)
Definition is_wake (e : Event) : bool := match e with Changed | Awaited => true | _ => false end.
Definition is_entry (e : Event) : bool := match e with Changed => true | _ => false end.
Definition is_rebuild (e : Event) : bool := match e with Borrowed _ => true | _ => false end.
Definition is_swap (e : Event) : bool := match e with Swapped _ => true | _ => false end.
Definition count (f : Event -> bool) (es : list Event) : nat := length (List.filter f es).
Definition credit (l : LoopState) : nat := if pending l then 1 else 0.

(** Between the entry and the borrow one rebuild is still to come; an awaited
    change is one the receiver has not seen. *)
Definition owed (ph : Phase) : nat :=
  match ph with Sleeping | Draining | Awaiting | Borrowing => 1 | _ => 0 end.
Definition awaited_pending (d : Detailed) : Prop :=
  dt_phase d = Awaiting -> pending (dt_loop d) = true.

Lemma count_cons f e es : count f (e :: es) = (if f e then 1 else 0) + count f es.
Proof. unfold count. cbn. by destruct (f e). Qed.

Lemma pending_quiet l l' :
  lp_store l' = lp_store l /\ store_rx l' = store_rx l /\ current_topics l' = current_topics l ->
  pending l' = pending l.
Proof. intros (H1 & H2 & _). unfold pending. by rewrite H1, H2. Qed.

Lemma dstep_counts d e d' :
  dstep d e = Some d' -> receiver_of (watch_tx (lp_store (dt_loop d))) (store_rx (dt_loop d)) ->
  awaited_pending d ->
  (if is_wake e then 1 else 0) + credit (dt_loop d') <= (if is_swap e then 1 else 0) + credit (dt_loop d) /\
  (if is_rebuild e then 1 else 0) + owed (dt_phase d') <= (if is_entry e then 1 else 0) + owed (dt_phase d) /\
  receiver_of (watch_tx (lp_store (dt_loop d'))) (store_rx (dt_loop d')) /\ awaited_pending d'.
Proof.
  destruct d as [l ph]. unfold awaited_pending. intros Hd Hr Hap. cbn [dt_loop dt_phase] in *.
  assert (forall l', pending (mark_changed l') = false) as Hmark by (intros; apply marked_seen).
  destruct e as [now|now| | | | |sub| |topic payload|rs]; cbn in Hd; [destruct ph; simplify_eq..| |]; cbn.
  - pose proof (tick_keeps now l) as Hk. unfold credit. rewrite (pending_quiet _ _ Hk).
    destruct Hk as (-> & -> & _). by split_and!.
  - pose proof (sample_keeps now l) as Hk. unfold credit. rewrite (pending_quiet _ _ Hk).
    destruct Hk as (-> & -> & _). by split_and!.
  - destruct (pending l) eqn:Hp; [|done]. injection Hd as <-. unfold credit. cbn [dt_loop dt_phase].
    rewrite Hmark, Hp. split_and!; [done|done|by apply marked_receiver|done].
  - by split_and!.
  - destruct (pending l) eqn:Hp; by split_and!.
  - unfold credit. rewrite Hmark, (Hap eq_refl). split_and!; [done|done|by apply marked_receiver|done].
  - destruct (decide _); injection Hd as <-; by split_and!.
  - destruct todo as [|t rest]; injection Hd as <-; [by split_and!|]. unfold subscribe_next.
    destruct (pattern_try_new t) as [p| |]; [destruct (sub (pattern_str p))|..]; by split_and!.
  - destruct (may_deliver _ _); [|done]. injection Hd as <-. by split_and!.
  - injection Hd as <-. assert (pending (swap_in l rs) = true) as Hs by (by apply sent_changed).
    unfold credit. cbn [dt_loop dt_phase]. rewrite Hs. split_and!; [destruct (pending l); lia|done|by apply sent_receiver|done].
Qed.

Lemma drun_counts d es d' :
  drun d es = Some d' -> receiver_of (watch_tx (lp_store (dt_loop d))) (store_rx (dt_loop d)) ->
  awaited_pending d ->
  count is_wake es + credit (dt_loop d') <= count is_swap es + credit (dt_loop d) /\
  count is_rebuild es + owed (dt_phase d') <= count is_entry es + owed (dt_phase d).
Proof.
  revert d. induction es as [|e es IH]; intros d; cbn [drun]; [by intros [= <-]|].
  destruct (dstep d e) as [d1|] eqn:Hd; [|done]. intros Hrun Hr Hap.
  destruct (dstep_counts _ _ _ Hd Hr Hap) as (H1 & H2 & Hr1 & Hap1).
  destruct (IH d1 Hrun Hr1 Hap1) as [H3 H4]. rewrite !count_cons. lia.
Qed.

Lemma entries_wake es : count is_entry es <= count is_wake es.
Proof.
  induction es as [|e es IH]; [done|]. rewrite !count_cons.
  destruct e; cbn [is_entry is_wake]; lia.
Qed.

(** ** Properties *)

(** C3. The loop with its debounce refines the loop that handles a change in
    one step.  From a successful start, through every interleaving of the
    awaits of the [changed] branch with swaps and deliveries on other
    threads, what the engine holds, has queued, published and counted is that
    of a run of Loop.v; and whenever the loop is back at its [select!], the
    whole state is one that run reaches. *)
Theorem debounce_refines (e : EvalState) (s : ActiveRules) (sub : string -> string + unit)
    (swapped : list (Arc Rules)) (l : LoopState) (es : list Event) (d : Detailed) :
  engine_reachable e -> loop_start e s sub swapped = Some l ->
  drun (mkDetailed l Selecting) es = Some d ->
  (exists a, rtc loop_step l a /\ ev (dt_loop d) = ev a /\ lp_store (dt_loop d) = lp_store a /\
     samples (dt_loop d) = samples a /\ fired (dt_loop d) = fired a /\ ticks (dt_loop d) = ticks a) /\
  (dt_phase d = Selecting -> rtc loop_step l (dt_loop d)).
Proof.
  intros He%reachable_inv Hs Hr. apply (loop_inv_start _ _ _ _ _ He) in Hs.
  destruct (drun_stands _ _ _ l Hr Hs) as (a & Ha & Hst); [done|]. split.
  - destruct (stands_visible _ _ Hst) as (a' & Ha' & H). exists a'. split; [by etrans|done].
  - intros Hp. unfold stands_for in Hst. rewrite Hp in Hst. by rewrite Hst.
Qed.


(** C12. The branch ends and coalesces.  Left alone, the branch is back at
    [select!] within the steps [steps_left] counts: at most six and one per
    topic.  Under swaps it cannot be kept draining for free: over a whole run
    every wake-up, on entry or in the drain loop, is paid for by a swap, and
    there are at most as many rebuilds as entries, so at most as many as
    swaps. *)
Theorem branch_ends_and_coalesces (e : EvalState) (s : ActiveRules) (sub0 sub : string -> string + unit)
    (swapped : list (Arc Rules)) (l : LoopState) (es : list Event) (d : Detailed) :
  engine_reachable e -> loop_start e s sub0 swapped = Some l ->
  drun (mkDetailed l Selecting) es = Some d ->
  dt_phase (own_run sub (steps_left d) d) = Selecting /\
  count is_wake es <= count is_swap es /\
  count is_rebuild es <= count is_entry es /\
  count is_rebuild es <= count is_swap es.
Proof.
  intros He%reachable_inv Hs Hr. split; [by apply own_run_ends|].
  assert (pending l = false) as Hp.
  { revert Hs. unfold loop_start. destruct (subscribe_to_topics _ _ _ _ _) as [[[subs tks] tps] r].
    destruct r as [[]| |]; [|done..].
    pose proof (subscribed_seen (watch_tx (foldl store_swap s swapped))) as Hseen.
    unfold store_subscribe. destruct (watch_subscribe _) as [tx rx]. by intros [= <-]. }
  apply (loop_inv_start _ _ _ _ _ He) in Hs.
  destruct (drun_counts _ _ _ Hr) as [H1 H2]; [apply Hs|done|]. pose proof (entries_wake es).
  unfold credit in H1. cbn in H1, H2. rewrite Hp in H1. lia.
Qed.

Lemma subscribe_each_stops sub pre t post :
  (forall s, sub s = inr tt) -> Forall (fun t => is_ok (pattern_try_new t) = true) pre ->
  is_ok (pattern_try_new t) = false ->
  exists r, subscribe_each sub (pre ++ t :: post) = (pre, r) /\ r <> Ok tt.
Proof.
  intros Hsub Hpre Ht. induction Hpre as [|x pre Hx _ IH]; cbn [app subscribe_each].
  - destruct (pattern_try_new t) as [p|e|w]; [done|by eexists..].
  - destruct (pattern_try_new x) as [p|e|w]; [|done..]. rewrite Hsub. destruct IH as (r & -> & Hr). by exists r.
Qed.

(** One invalid topic starves a ruleset.  A ruleset that is swapped in with an
    invalid topic is the one the engine evaluates from then on; the rebuild
    subscribes to the topics before the invalid one in order, to none after
    it, keeps the old topics as its current ones, and is not tried again: no
    change is pending. *)
Theorem invalid_topic_starves_rules (sub : string -> string + unit) (l : LoopState)
    (pre post : list string) (t : string) :
  let rules := rx_borrow (watch_tx (lp_store l)) (rx_mark_seen (watch_tx (lp_store l)) (store_rx l)) in
  sorted_topics (arc_val rules) = pre ++ t :: post -> sorted_topics (arc_val rules) <> current_topics l ->
  (forall s, sub s = inr tt) -> Forall (fun t => is_ok (pattern_try_new t) = true) pre ->
  is_ok (pattern_try_new t) = false ->
  let l' := on_changed sub l in
  tasks l' = tasks l ++ pre /\ current_topics l' = current_topics l /\ pending l' = false /\
  rx_borrow (watch_tx (lp_store l')) (store_rx l') = rules.
Proof.
  intros rules Hs Hne Hsub Hpre Ht l'. subst l'. unfold on_changed, rebuild.
  cbn [mark_changed lp_store store_rx current_topics tasks]. fold rules. rewrite decide_False by done.
  unfold subscribe_to_topics. rewrite Hs.
  destruct (subscribe_each_stops sub pre t post Hsub Hpre Ht) as (r & -> & Hr).
  cbn. split; [done|]. split; [by destruct r as [[]| |]|]. split; [apply marked_seen|done].
Qed.
End debounce.

(** ** A concrete run: one change, and two more while it is debounced *)
Module DebounceEx.
Definition third : Arc (Rules (JN := model_number)) := mkArc 2 (LoopEx.watching "sensor/c").
(** The second swap is seen by the drain loop, the third comes between its
    last look and the borrow. *)
Definition events : list Event :=
  [Swapped LoopEx.new; Changed; Swapped LoopEx.old; Woken; Checked; Awaited; Checked; Swapped third;
   Borrowed LoopEx.sub_all; Delivered "sensor/a" (Bool true); Subscribed; Subscribed; Sampled 8;
   Changed; Woken; Checked; Borrowed LoopEx.sub_all; Ticked 9].
Definition settled (d : option Detailed) : bool :=
  match d with
  | Some (mkDetailed l Selecting) => bool_decide (current_topics l = ["sensor/c"]) && negb (pending l)
  | _ => false
  end.
Lemma empty_reachable : engine_reachable (JN := model_number) empty_state.
Proof. exists empty_state. split; [constructor|apply rtc_refl]. Qed.
Lemma start_ok : loop_start empty_state (active_new LoopEx.old) LoopEx.sub_all [] = Some (LoopEx.started []).
Proof. reflexivity. Qed.
Lemma final_settled : settled (drun (mkDetailed (LoopEx.started []) Selecting) events) = true.
Proof. vm_compute. reflexivity. Qed.
Lemma debounced_run : exists l,
  drun (mkDetailed (LoopEx.started []) Selecting) events = Some (mkDetailed l Selecting) /\
  current_topics l = ["sensor/c"] /\ pending l = false.
Proof.
  generalize final_settled.
  generalize (drun (mkDetailed (LoopEx.started []) Selecting) events). intros [[l []]|] H; try discriminate H.
  apply andb_prop in H as [H1%bool_decide_eq_true H2%negb_true_iff]. by exists l.
Qed.
End DebounceEx.

Lemma debounce_refines_witness :
  exists l, current_topics l = ["sensor/c"] /\ rtc loop_step (LoopEx.started []) l.
Proof.
  destruct DebounceEx.debounced_run as (fin & Hrun & Hc & _). exists fin. split; [exact Hc|].
  destruct (debounce_refines empty_state (active_new LoopEx.old) LoopEx.sub_all [] (LoopEx.started [])
    DebounceEx.events (mkDetailed fin Selecting) DebounceEx.empty_reachable DebounceEx.start_ok Hrun)
    as [_ H].
  exact (H eq_refl).
Defined.


Lemma branch_ends_and_coalesces_witness :
  count is_rebuild DebounceEx.events <= count is_swap DebounceEx.events.
Proof.
  destruct DebounceEx.debounced_run as (fin & Hrun & _).
  destruct (branch_ends_and_coalesces empty_state (active_new LoopEx.old) LoopEx.sub_all
    LoopEx.sub_all [] (LoopEx.started []) DebounceEx.events (mkDetailed fin Selecting)
    DebounceEx.empty_reachable DebounceEx.start_ok Hrun) as (_ & _ & _ & H).
  exact H.
Defined.

Lemma invalid_topic_starves_rules_witness :
  let bad : Arc (Rules (JN := model_number)) := mkArc 1 (LoopEx.watching "/sensor/b") in
  current_topics (on_changed LoopEx.sub_all (swap_in (LoopEx.started []) bad)) = ["sensor/a"].
Proof.
  intros bad.
  apply (invalid_topic_starves_rules LoopEx.sub_all (swap_in (LoopEx.started []) bad) [] [] "/sensor/b");
    [reflexivity|discriminate|reflexivity|apply Forall_nil_2|reflexivity].
Defined.
