(* ===== verification/Node.v ===== *)
(** * Node: the engine loop and the hot-reload task of one process

    [Runtime::bootstrap] and [run_server] start [run_engine] and the hot
    reload as two tasks on one store.  A node is the loop of Loop.v, the
    registry of Config.v and the messages the reload task has received; its
    steps are the loop's, with the swaps made by the reload task. *)
From S2P Require Import Prelude Json Rules Topic Engine EngineSpec EngineProps Registry Channels Config Loop.

Section node.
Context `{JN : JsonNumber} {W : Watch (Arc Rules)} {Q : Mpsc (string * Value)}.
Context (rules_from_toml : string -> string + Rules)
        (ruleset_from_toml : string -> string + Ruleset)
        (ruleset_to_toml : Ruleset -> string + string)
        (sha256 : string -> string).

Record Node := mkNode {
  nd_loop : LoopState;
  nd_registry : option Registry;
  nd_received : list (nat * string)
}.

Definition set_store (l : LoopState) (s : ActiveRules) : LoopState :=
  mkLoop (ev l) s (store_rx l) (samples l) (subscribers l) (tasks l) (current_topics l) (fired l) (ticks l).
Definition with_loop (n : Node) (l : LoopState) : Node := mkNode l (nd_registry n) (nd_received n).

(** One iteration of the reload task on the node's store. *)
Definition node_reload (db : nat -> bool) (ts robot_id : string) (id : nat) (text : string) (n : Node)
    : res unit Node :=
  match reload_step rules_from_toml ruleset_from_toml ruleset_to_toml sha256 db ts robot_id id
          (mkReload (lp_store (nd_loop n)) (nd_registry n)) text with
  | Ok st => Ok (mkNode (set_store (nd_loop n) (rl_store st)) (rl_registry st)
                        (nd_received n ++ [(id, text)]))
  | Err e => Err e
  | Panic w => Panic w
  end.

Inductive node_receives : Node -> Node -> Prop :=
  | nr_reload db ts robot_id id text n n' :
      node_reload db ts robot_id id text n = Ok n' -> node_receives n n'.

(** A change is rebuilt for with the messages that arrive in between, as in
    [loop_step]. *)
Inductive node_step : Node -> Node -> Prop :=
  | ns_tick now n : node_step n (with_loop n (on_tick now (nd_loop n)))
  | ns_sample now n : node_step n (with_loop n (on_sample now (nd_loop n)))
  | ns_changed sub n n' :
      rx_has_changed (watch_tx (lp_store (nd_loop n))) (store_rx (nd_loop n)) = true ->
      rtc node_receives (with_loop n (mark_changed (nd_loop n))) n' ->
      node_step n (with_loop n' (rebuild sub (nd_loop n')))
  | ns_deliver topic payload n :
      topic ∈ tasks (nd_loop n) \/ (is_zone_event topic = true /\ length (split_on slash topic) = 3) ->
      node_step n (with_loop n (deliver (nd_loop n) topic payload))
  | ns_reload n n' : node_receives n n' -> node_step n n'.

(** The start: [early] are the texts whose swaps the store saw before the
    loop subscribed to it. *)
Definition node_start (e : EvalState) (init : Arc Rules) (sub : string -> string + unit)
    (early : list (Arc Rules)) (reg : option Registry) : option Node :=
  match loop_start e (active_new init) sub early with
  | Some l => Some (mkNode l reg [])
  | None => None
  end.

(** The rules a text activates: per robot the rules themselves, in the fleet
    those of the ruleset, as its own text denotes them. *)
Definition activates (fleet : bool) (text : string) (rs : Rules) : Prop :=
  if fleet
  then exists doc t, ruleset_from_toml text = inr doc /\ ruleset_to_toml doc = inr t /\
         rules_from_toml t = inr rs
  else rules_from_toml text = inr rs.

Definition from_source (fleet : bool) (init : Rules) (received : list (nat * string)) (rs : Rules) : Prop :=
  rs = init \/ exists m, m ∈ received /\ activates fleet m.2 rs.

Definition published_by (rs : Rules) (ta : Topic * Action) : Prop :=
  exists r, r ∈ rules rs /\ ta.2 ∈ r_actions r.

(** The ruleset the loop evaluates at its next tick. *)
Definition evaluated_rules (n : Node) : Rules :=
  arc_val (rx_borrow (watch_tx (lp_store (nd_loop n))) (store_rx (nd_loop n))).

Record node_inv (fleet : bool) (init : Rules) (n : Node) : Prop := {
  ni_mode : is_some (nd_registry n) = fleet;
  ni_receiver : receiver_count (watch_tx (lp_store (nd_loop n))) <> 0;
  ni_source : from_source fleet init (nd_received n) (evaluated_rules n);
  ni_last : fleet = false ->
    evaluated_rules n = last_good rules_from_toml init (nd_received n);
  ni_fired : Forall (fun ta => exists rs, from_source fleet init (nd_received n) rs /\ published_by rs ta)
    (fired (nd_loop n))
}.

(** ** Lemmas *)
Lemma tick_inner_actions now st (rs : Rules) a :
  a ∈ (tick_inner now st rs).1 -> exists r, r ∈ rules rs /\ a ∈ r_actions r.
Proof.
  unfold tick_inner. generalize (prev st), 0. induction (rules rs) as [|r l IH]; intros pv i;
    [intros H; by apply elem_of_nil in H|]. simpl.
  destruct (when_satisfied_with_prev _ _ _ _ _) as [ok pv']. specialize (IH pv' (S i)).
  destruct (tick_rules _ _ _ _ _) as [out pv'']. simpl in *.
  intros [Ha|Ha]%elem_of_app.
  - exists r. destruct ok; [split; [left|done]|by apply elem_of_nil in Ha].
  - destruct (IH Ha) as (r' & Hr & Ha'). exists r'. split; [by right|done].
Qed.

Lemma fired_tick now l :
  exists acts, fired (on_tick now l) = fired l ++ omap fire_action acts /\
    forall a, a ∈ acts -> exists r,
      r ∈ rules (arc_val (rx_borrow (watch_tx (lp_store l)) (store_rx l))) /\ a ∈ r_actions r.
Proof.
  unfold on_tick. set (rs := rx_borrow _ _).
  pose proof (tick_inner_actions now (refresh_baseline (ev l) rs) (arc_val rs)) as Ha.
  destruct (tick_inner _ _ _) as [acts e]. by exists acts.
Qed.

Lemma fire_action_Some a ta : fire_action a = Some ta -> ta.2 = a.
Proof. unfold fire_action. destruct (topic_try_new _); [|done..]. by intros [= <-]. Qed.

Lemma from_source_mono fleet init ms m rs :
  from_source fleet init ms rs -> from_source fleet init (ms ++ [m]) rs.
Proof. intros [->|(m' & Hm & Ha)]; [by left|right]. exists m'. split; [set_solver|done]. Qed.

Context {WL : WatchLaws W}.

Lemma evaluated_watch n : evaluated_rules n = arc_val (watch_value (watch_tx (lp_store (nd_loop n)))).
Proof. unfold evaluated_rules. by rewrite borrow_value. Qed.

(** A reload either keeps the store or swaps in what the text activates. *)
Lemma node_reload_cases db ts robot_id id text n n' :
  node_reload db ts robot_id id text n = Ok n' ->
  nd_received n' = nd_received n ++ [(id, text)] /\
  is_some (nd_registry n') = is_some (nd_registry n) /\
  fired (nd_loop n') = fired (nd_loop n) /\
  ((lp_store (nd_loop n') = lp_store (nd_loop n) /\
    (is_some (nd_registry n) = false -> is_err (match rules_from_toml text with inl e => Err e | inr r => Ok r end) = true)) \/
   exists rs, activates (is_some (nd_registry n)) text rs /\
     lp_store (nd_loop n') = store_swap (lp_store (nd_loop n)) (mkArc id rs)).
Proof.
  unfold node_reload, reload_step, Ruleset_to_toml. cbn [rl_registry rl_store].
  destruct (nd_registry n) as [reg|]; cbn [is_some].
  - destruct (ruleset_from_toml text) as [e|doc] eqn:Hd;
      [intros [= <-]; cbn; split; [done|]; split; [done|]; split; [done|]; by left|].
    destruct (publish _ _ _ _ _ _ _) as [reg' out].
    destruct out as [[|v sha|]|e|w]; try done;
      try (intros [= <-]; cbn; split; [done|]; split; [done|]; split; [done|]; by left).
    all: destruct (ruleset_to_toml doc) as [e|t] eqn:Ht; [done|];
      destruct (rules_from_toml t) as [e|rs] eqn:Hr; intros [= <-]; cbn;
      (split; [done|]); (split; [done|]); (split; [done|]); [by left|right];
      exists rs; split; [by exists doc, t|done].
  - destruct (rules_from_toml text) as [e|rs] eqn:Hr; intros [= <-]; cbn;
      (split; [done|]); (split; [done|]); (split; [done|]); [by left|right].
    by exists rs.
Qed.

(** Steps of the loop proper keep the store's value and receivers. *)
Lemma quiet_step_inv fleet init n l :
  lp_store l = lp_store (nd_loop n) ->
  Forall (fun ta => exists rs, from_source fleet init (nd_received n) rs /\ published_by rs ta) (fired l) ->
  node_inv fleet init n -> node_inv fleet init (with_loop n l).
Proof.
  intros Hs Hf [H1 H2 H3 H4 _]. rewrite evaluated_watch in H3, H4.
  split; rewrite ?evaluated_watch; cbn [with_loop nd_loop nd_registry nd_received]; rewrite ?Hs; done.
Qed.

Lemma receives_inv fleet init n n' :
  node_receives n n' -> node_inv fleet init n -> node_inv fleet init n'.
Proof.
  intros Hrec [H1 H2 H3 H4 H5]. destruct Hrec as [db ts rid id text n n' Hr].
  apply node_reload_cases in Hr as (Hm & Hreg & Hf & Hs).
  rewrite evaluated_watch in H3, H4.
  assert (Forall (fun ta => exists rs, from_source fleet init (nd_received n') rs /\ published_by rs ta)
            (fired (nd_loop n'))) as Hf'.
  { rewrite Hf, Hm. eapply Forall_impl; [exact H5|]. intros ta (rs & Hrs & Hp). exists rs.
    split; [by apply from_source_mono|done]. }
  destruct Hs as [[Hs Hbad]|(rs & Ha & Hs)].
  - split; rewrite ?evaluated_watch, ?Hs; [by rewrite Hreg|done|rewrite Hm; by apply from_source_mono| |done].
    intros ->. rewrite Hm. unfold last_good. rewrite foldl_snoc. cbn [snd].
    specialize (Hbad H1). destruct (rules_from_toml text); [|done]. by apply H4.
  - assert (watch_value (watch_tx (lp_store (nd_loop n'))) = mkArc id rs) as Hv.
    { rewrite Hs. by apply swap_watched. }
    split; rewrite ?evaluated_watch, ?Hv; [by rewrite Hreg| | | |done].
    + by rewrite Hs, swap_receivers.
    + rewrite Hm. right. exists (id, text). split; [set_solver|]. by rewrite <- H1.
    + intros ->. rewrite Hm. unfold last_good. rewrite foldl_snoc. cbn [snd arc_val].
      rewrite H1 in Ha. simpl in Ha. by rewrite Ha.
Qed.

Lemma rtc_receives_inv fleet init n n' :
  rtc node_receives n n' -> node_inv fleet init n -> node_inv fleet init n'.
Proof. induction 1 as [|x y z Hxy _ IH]; [done|]. intros Hi. by eapply IH, receives_inv. Qed.

Lemma rebuild_inv fleet init sub n :
  node_inv fleet init n -> node_inv fleet init (with_loop n (rebuild sub (nd_loop n))).
Proof.
  intros Hi. apply quiet_step_inv; [..|done]; unfold rebuild; destruct (decide _); try done; try apply Hi;
    destruct (subscribe_to_topics _ _ _ _ _) as [[[] ?] ?]; first [done | apply Hi].
Qed.

Lemma node_inv_step fleet init n n' : node_step n n' -> node_inv fleet init n -> node_inv fleet init n'.
Proof.
  intros Hstep Hi. destruct Hstep as [now n|now n|sub n n' Hc Hms|tp p n Ht|n n' Hr].
  - apply quiet_step_inv; [|  |done].
    { unfold on_tick. by destruct (tick_inner _ _ _). }
    destruct (fired_tick now (nd_loop n)) as (acts & -> & Ha). apply Forall_app. split; [apply Hi|].
    apply Forall_forall. intros ta (a & Hin & Hfa)%list_elem_of_omap.
    exists (evaluated_rules n). split; [apply Hi|]. apply fire_action_Some in Hfa. unfold published_by.
    rewrite Hfa. by apply Ha.
  - apply quiet_step_inv; [..|done]; unfold on_sample; destruct (q_recv _) as [[[] ?]|];
      first [done | apply Hi].
  - apply rebuild_inv. eapply rtc_receives_inv; [exact Hms|]. by apply quiet_step_inv; [|apply Hi|].
  - apply quiet_step_inv; [done|apply Hi|done].
  - by eapply receives_inv.
Qed.

Lemma node_inv_start e init sub early reg n :
  node_start e init sub early reg = Some n ->
  node_inv (is_some reg) (arc_val init) n.
Proof.
  unfold node_start, loop_start. destruct (subscribe_to_topics _ _ _ _ _) as [[[subs tks] topics] r].
  destruct r as [[]| |]; [|done..].
  pose proof (value_subscribe (watch_tx (foldl store_swap (active_new init) early))) as Hv.
  pose proof (receivers_subscribe (watch_tx (foldl store_swap (active_new init) early))) as Hr.
  unfold store_subscribe. destruct (watch_subscribe _) as [tx rx]. simpl in Hv, Hr. intros [= <-].
  assert (watch_value tx = init) as Hv'.
  { rewrite Hv, swaps_lost by apply receivers_channel. apply value_channel. }
  split; rewrite ?evaluated_watch; simpl; rewrite ?Hv', ?Hr; try done. by left.
Qed.

Lemma node_inv_run e init sub early reg n n' :
  node_start e init sub early reg = Some n -> rtc node_step n n' -> node_inv (is_some reg) (arc_val init) n'.
Proof.
  intros Hs Hr. apply node_inv_start in Hs.
  induction Hr as [|x y z Hxy _ IH]; [done|]. by apply IH, (node_inv_step _ _ _ _ Hxy).
Qed.

(** ** Properties *)

(** C9. Nothing is published that no accepted ruleset asks for: over any
    interleaving of ticks, samples, ruleset changes, deliveries and reload
    messages, every action a node has published is an action of a rule of
    the ruleset it started with or of a ruleset that a received message
    denotes - in fleet mode, a message that parsed as a ruleset whose own
    text parses as rules. *)
Theorem node_provenance (e : EvalState) (init : Arc Rules) (sub : string -> string + unit)
    (early : list (Arc Rules)) (reg : option Registry) (n n' : Node) :
  node_start e init sub early reg = Some n -> rtc node_step n n' ->
  forall t a, (t, a) ∈ fired (nd_loop n') ->
  exists rs r, r ∈ rules rs /\ a ∈ r_actions r /\
    (rs = arc_val init \/ exists m, m ∈ nd_received n' /\ activates (is_some reg) m.2 rs).
Proof.
  intros Hs Hr t a Hin. destruct (node_inv_run _ _ _ _ _ _ _ Hs Hr) as [_ _ _ _ Hf].
  rewrite Forall_forall in Hf. destruct (Hf _ Hin) as (rs & Hsrc & r & Hr' & Ha). by exists rs, r.
Qed.

(** C8. A robot evaluates the last good ruleset: whatever the interleaving, the
    ruleset its next tick evaluates is the last one that parsed among the
    messages received since the loop subscribed to the store - or the one it
    started with if none did - and that tick publishes exactly that
    ruleset's tick.  Swaps made before the loop subscribed are not among
    them: they are lost. *)
Theorem robot_evaluates_last_good (e : EvalState) (init : Arc Rules) (sub : string -> string + unit)
    (early : list (Arc Rules)) (n n' : Node) (now : N) :
  node_start e init sub early None = Some n -> rtc node_step n n' ->
  let rs := last_good rules_from_toml (arc_val init) (nd_received n') in
  evaluated_rules n' = rs /\
  exists arc, arc_val arc = rs /\
    fired (on_tick now (nd_loop n')) =
      fired (nd_loop n') ++ omap fire_action (tick_with_arc now (ev (nd_loop n')) arc).1.
Proof.
  intros Hs Hr rs. destruct (node_inv_run _ _ _ _ _ _ _ Hs Hr) as [_ _ _ Hl _].
  specialize (Hl eq_refl). split; [exact Hl|].
  exists (rx_borrow (watch_tx (lp_store (nd_loop n'))) (store_rx (nd_loop n'))).
  split; [exact Hl|]. unfold on_tick, tick_with_arc. by destruct (tick_inner _ _ _).
Qed.
End node.

(** ** A concrete node *)
Module NodeEx.
Definition started (early : list (Arc Rules)) : Node :=
  mkNode (LoopEx.started early) None [].
(** Any text but ["bad"] is the ruleset watching [sensor/b]. *)
Definition reader (t : string) : string + Rules (JN := model_number) :=
  if (t =? "bad")%string then inl "parse error" else inr (LoopEx.watching "sensor/b").
Definition reload (id : nat) (text : string) (n : Node) : Node :=
  match node_reload reader ConfigEx.rs_reader RegEx.writer RegEx.sha all_ok "" "7" id text n with
  | Ok n' => n'
  | _ => n
  end.
(** A good and a bad message, the change, then a sample of [sensor/b] and a
    tick. *)
Definition n1 : Node := reload 2 "bad" (reload 1 "good" (started [])).
Definition changed : Node := with_loop n1 (on_changed LoopEx.sub_all (nd_loop n1)).
Definition n2 : Node := with_loop changed (deliver (nd_loop changed) "sensor/b" (Bool true)).
Definition n3 : Node := with_loop n2 (on_sample 8 (nd_loop n2)).
Definition n4 : Node := with_loop n3 (on_tick 9 (nd_loop n3)).
Lemma run : rtc (node_step reader ConfigEx.rs_reader RegEx.writer RegEx.sha) (started []) n4.
Proof.
  eapply rtc_l; [apply ns_reload, (nr_reload _ _ _ _ all_ok "" "7" 1 "good"); reflexivity|].
  eapply rtc_l; [apply ns_reload, (nr_reload _ _ _ _ all_ok "" "7" 2 "bad"); reflexivity|].
  eapply rtc_l; [apply (ns_changed _ _ _ _ LoopEx.sub_all); [reflexivity|apply rtc_refl]|].
  eapply rtc_l; [apply ns_deliver; left; vm_compute; right; left|].
  eapply rtc_l; [apply (ns_sample _ _ _ _ 8)|]. eapply rtc_l; [apply (ns_tick _ _ _ _ 9)|]. apply rtc_refl.
Qed.
End NodeEx.

Lemma node_provenance_witness :
  map (fun ta => topic_str ta.1) (fired (nd_loop NodeEx.n4)) = ["actuator/horn"] /\
  exists rs r, r ∈ rules rs /\ TickEx.act "actuator/horn" ∈ r_actions r /\
    (rs = arc_val LoopEx.old \/
     exists m, m ∈ nd_received NodeEx.n4 /\
       activates NodeEx.reader ConfigEx.rs_reader RegEx.writer false m.2 rs).
Proof.
  split; [vm_compute; reflexivity|].
  apply (node_provenance NodeEx.reader ConfigEx.rs_reader RegEx.writer RegEx.sha empty_state LoopEx.old
    LoopEx.sub_all [] None (NodeEx.started []) NodeEx.n4 eq_refl NodeEx.run
    (mkTopic "actuator/horn")).
  apply (list_elem_of_lookup_2 _ 0).
  vm_cast_no_check (eq_refl (Some (mkTopic "actuator/horn", TickEx.act "actuator/horn"))).
Defined.

Lemma robot_evaluates_last_good_witness : evaluated_rules NodeEx.n4 = LoopEx.watching "sensor/b".
Proof.
  exact (proj1 (robot_evaluates_last_good NodeEx.reader ConfigEx.rs_reader RegEx.writer RegEx.sha
    empty_state LoopEx.old LoopEx.sub_all [] (NodeEx.started []) NodeEx.n4 9 eq_refl NodeEx.run)).
Defined.
