(* ===== verification/Transport.v ===== *)
(** * Transport: the seam to the mesh ([src/transport.rs])

    What each verb asks of the zenoh session: the put with its QoS knobs, the
    kind of subscriber a pattern is routed to, the liveliness token and the
    session configurations.  The session itself is zenoh's. *)
From S2P Require Import Prelude Json Rules Topic Auth Registration.

Inductive Reliability := RelReliable | RelBestEffort.
Inductive CongestionControl := Block | Drop.
Inductive Priority := InteractiveHigh | DataLow.

Section transport.
Context `{JN : JsonNumber}.
(** [serde_json::to_vec] (or its error) and [to_string]. *)
Context (to_vec : Value -> string + string) (json_strings : list string -> string + string).

Inductive Envelope :=
  | EnvAction (qos : Qos) (payload : Value)
  | EnvSignal (payload : Value)
  | RawBytes (bytes : string).

(** The put handed to the session; [None] leaves the session's defaults. *)
Record Put := mkPut {
  put_key : string; put_bytes : string;
  put_qos : option (Reliability * CongestionControl * Priority)
}.

Definition qos_knobs (q : Qos) : Reliability * CongestionControl * Priority :=
  match q with
  | Reliable => (RelReliable, Block, InteractiveHigh)
  | BestEffort => (RelBestEffort, Drop, DataLow)
  end.

Definition serialize (v : Value) : res string string :=
  match to_vec v with inl e => Err e | inr b => Ok b end.

Definition publish_put (topic : Topic) (e : Envelope) : res string Put :=
  match e with
  | EnvAction qos payload =>
      bytes ← serialize payload; mret (mkPut (topic_str topic) bytes (Some (qos_knobs qos)))
  | EnvSignal payload => bytes ← serialize payload; mret (mkPut (topic_str topic) bytes None)
  | RawBytes bytes => mret (mkPut (topic_str topic) bytes None)
  end.

(** Which API a subscription goes to. *)
Inductive SubscriberKind := LivelinessSubscriber | SampleSubscriber.
Definition subscribe_kind (p : Pattern) : SubscriberKind :=
  if contains_str "liveliness" (pattern_str p) then LivelinessSubscriber else SampleSubscriber.

(** [declare_liveliness]: the token declared, kept in [_tokens]. *)
Definition declare_liveliness {E} (tokens : list string) (robot_id : string)
    : res E (list string) :=
  key ← liveliness_key robot_id; mret (tokens ++ [topic_str key]).

(** ** Session configurations, as insertions on the default one *)
Definition router_config : ZConfig :=
  [ ("mode", quote "router"); ("scouting/multicast/enabled", "true");
    ("listen/endpoints", "[" +:+ quote "tcp/127.0.0.1:0" +:+ "]") ].

Definition endpoints_json (l : list string) : string :=
  match json_strings l with inr s => s | inl _ => "[]" end.

Definition client_config (endpoints : list string) : ZConfig :=
  [ ("mode", quote "client"); ("scouting/multicast/enabled", "false") ]
  ++ match endpoints with [] => [] | _ => [("connect/endpoints", endpoints_json endpoints)] end.

(** The helpers for isolated test sessions. *)
Definition test_endpoint (port : u16) : string :=
  "[" +:+ quote ("tcp/127.0.0.1:" +:+ pretty (uint_val port)) +:+ "]".
Definition test_router_config (port : u16) : ZConfig :=
  [ ("mode", quote "router"); ("scouting/multicast/enabled", "false");
    ("scouting/gossip/enabled", "false"); ("listen/endpoints", test_endpoint port) ].
Definition test_client_config (port : u16) : ZConfig :=
  [ ("mode", quote "client"); ("scouting/multicast/enabled", "false");
    ("connect/endpoints", test_endpoint port) ].

Definition with_endpoints (config : ZConfig) (endpoints : list string) : ZConfig :=
  config ++ [("mode", quote "client")]
  ++ match endpoints with [] => [] | _ => [("connect/endpoints", endpoints_json endpoints)] end
  ++ [("scouting/multicast/enabled", "false")].
End transport.

Lemma contains_across c sub (a b : string) :
  has_char c sub = false -> sub <> "" ->
  contains_str sub (a +:+ String c b) = contains_str sub a || contains_str sub b.
Proof.
  intros Hs Hne. induction a as [|y a IH].
  - change ("" +:+ String c b) with (String c b). destruct sub as [|x sub]; [done|].
    cbn [contains_str]. rewrite !starts_with_is_some. cbn [strip_prefix].
    cbn [has_char] in Hs. apply orb_false_iff in Hs as [Hx _]. by rewrite Hx.
  - change (String y a +:+ String c b) with (String y (a +:+ String c b)). cbn [contains_str].
    rewrite IH, !starts_with_is_some.
    change (String y (a +:+ String c b)) with (String y a +:+ String c b).
    rewrite strip_prefix_across by done. by rewrite orb_assoc.
Qed.

Lemma response_contains_liveliness id :
  contains_str "liveliness" ("fleet/registration/response/" +:+ id) = contains_str "liveliness" id.
Proof.
  change ("fleet/registration/response/" +:+ id)
    with ("fleet/registration/response" +:+ String slash id).
  by rewrite contains_across.
Qed.

(** ** Properties *)

(** Where subscriptions go: the heartbeat pattern is routed to the
    liveliness API and the other fleet patterns to ordinary subscribers; but
    routing is by substring, so the client of a robot whose identifier
    contains the word [liveliness] waits for its registration response on
    the liveliness API, where the response, an ordinary put, is never
    delivered, while every other plain identifier waits on an ordinary
    subscriber. *)
Theorem subscription_routing :
  subscribe_kind (mkPattern LIVELINESS_PATTERN) = LivelinessSubscriber /\
  Forall (fun p => subscribe_kind (mkPattern p) = SampleSubscriber)
    [REGISTRATION_KEY; DEREGISTRATION_KEY; RULESET_PUB_PATTERN; ZONE_ENTERED_PATTERN;
     ZONE_CLEARED_PATTERN; SIGNAL_PRESENCE_PATTERN] /\
  forall id, plain_id id = true ->
    exists t p, registration_response (E := unit) id = Ok t /\
      pattern_try_new (topic_str t) = Ok p /\
      subscribe_kind p = (if contains_str "liveliness" id then LivelinessSubscriber else SampleSubscriber).
Proof.
  split; [done|]. split; [by repeat constructor|]. intros id Hi.
  destruct (plain_no_slash id Hi) as [Hs _].
  exists (mkTopic ("fleet/registration/response/" +:+ id)),
    (mkPattern ("fleet/registration/response/" +:+ id)).
  rewrite registration_response_eq, Hs. split; [done|]. split.
  - apply (plain_pattern "registration" id (or_introl eq_refl) Hi).
  - unfold subscribe_kind. cbn [pattern_str]. by rewrite response_contains_liveliness.
Qed.
