(* ===== verification/Signaling.v ===== *)
(** * Signaling: the WebRTC handshake over the mesh ([src/signaling.rs])

    The message envelope, the four publishers, the three inbound
    subscriptions of [run_signal_receiver] with their dispatch to a handler,
    and presence.  Zenoh's key-expression matching and the text codec of the
    derived formats are classes with their documented laws. *)
From S2P Require Import Prelude Json Rules Topic Auth Registration Transport.

(** ** Data *)
Record IceCandidate := mkIce {
  candidate : string; sdp_mid : option string; mline_index : option u16
}.
Inductive SignalKind := Offer | Answer.
Record SignalMessage := mkSignal {
  sig_sdp : string; sig_kind : SignalKind; sig_from : string; sig_to : string;
  sig_ice : list IceCandidate
}.
Record Presence := mkPresence { pres_id : string; streams : list string }.

(** ** The codec of the derived formats

    [to_value] writes, [to_vec] renders, [from_slice] reads. *)
Class SignalWire `{JN : JsonNumber} := {
  wire_to_vec : Value -> string + string;
  signal_to_value : SignalMessage -> string + Value;
  presence_to_value : Presence -> string + Value;
  signal_from_slice : string -> string + SignalMessage;
  presence_from_slice : string -> string + Presence
}.
Class SignalWireLaws `{JN : JsonNumber} (SW : SignalWire) : Prop := {
  signal_reads_back m :
    exists v b, signal_to_value m = inr v /\ wire_to_vec v = inr b /\ signal_from_slice b = inr m;
  presence_reads_back p :
    exists v b, presence_to_value p = inr v /\ wire_to_vec v = inr b /\ presence_from_slice b = inr p
}.

(** ** Key expressions

    Zenoh documents [*] as any one chunk.  The law speaks of patterns whose
    chunks are plain or a star, and of keys whose chunks are all plain. *)
Definition plain_chunk (w : string) : bool :=
  negb (w =? "")%string
  && forallb (fun c => negb (has_char c w)) ["*"%char; "$"%char; "#"%char; "?"%char].
Fixpoint chunks_match (ps ks : list string) : bool :=
  match ps, ks with
  | [], [] => true
  | p :: ps', k :: ks' => ((p =? "*") || (p =? k))%string && chunks_match ps' ks'
  | _, _ => false
  end.
Class KeyMatch := key_matches : string -> string -> bool.
Class KeyMatchLaw (K : KeyMatch) : Prop := key_matches_chunks p k :
  forallb (fun w => plain_chunk w || (w =? "*")%string) (split_on slash p) = true ->
  forallb plain_chunk (split_on slash k) = true ->
  key_matches p k = chunks_match (split_on slash p) (split_on slash k).

(** ** Publishers *)
Section signaling.
Context `{JN : JsonNumber} {SW : SignalWire} {K : KeyMatch}.

Definition put_value (key : Topic) (v : string + Value) : res string Put :=
  match v with inl e => Err e | inr v => publish_put wire_to_vec key (EnvSignal v) end.

Definition put_signal (key : Topic) (kind : SignalKind) (from to sdp : string)
    (ice : list IceCandidate) : res string Put :=
  put_value key (signal_to_value (mkSignal sdp kind from to ice)).

Definition publish_presence (robot_id : string) (ss : list string) : res string Put :=
  key ← signal_presence_key robot_id;
  put_value key (presence_to_value (mkPresence robot_id ss)).
Definition publish_offer (robot_id peer_id sdp : string) (ice : list IceCandidate)
    : res string Put :=
  key ← signal_offer_key robot_id peer_id; put_signal key Offer robot_id peer_id sdp ice.
Definition publish_answer (robot_id peer_id sdp : string) (ice : list IceCandidate)
    : res string Put :=
  key ← signal_answer_key robot_id peer_id; put_signal key Answer robot_id peer_id sdp ice.
Definition publish_ice (robot_id peer_id : string) (ice : IceCandidate) : res string Put :=
  key ← signal_ice_key robot_id peer_id; put_signal key Offer robot_id peer_id "" [ice].

(** ** The receiver *)

(** The calls of the [SignalHandler] trait. *)
Inductive Callback :=
  | OnOffer (from : string) (msg : SignalMessage)
  | OnAnswer (from : string) (msg : SignalMessage)
  | OnIce (from : string) (c : IceCandidate).

Definition parse_signal (bytes : string) : option SignalMessage :=
  match signal_from_slice bytes with inr m => Some m | inl _ => None end.

Definition offer_task (bytes : string) : list Callback :=
  match parse_signal bytes with Some m => [OnOffer (sig_from m) m] | None => [] end.
Definition answer_task (bytes : string) : list Callback :=
  match parse_signal bytes with Some m => [OnAnswer (sig_from m) m] | None => [] end.
Definition ice_task (bytes : string) : list Callback :=
  match parse_signal bytes with Some m => map (OnIce (sig_from m)) (sig_ice m) | None => [] end.

(** The three subscriptions, in the order they are made, each with the body
    of the task that owns it; a failed subscription ends the set-up. *)
Definition run_signal_receiver (sub : Pattern -> string + unit) (robot_id : string)
    : res string (list (Pattern * (string -> list Callback))) :=
  let subscribe p := match sub p with inr _ => Ok tt | inl e => Err e end in
  offers ← signal_offer_pattern robot_id; _ ← subscribe offers;
  answers ← signal_answer_pattern robot_id; _ ← subscribe answers;
  ice ← signal_ice_pattern robot_id; _ ← subscribe ice;
  mret [(offers, offer_task); (answers, answer_task); (ice, ice_task)].

(** The calls one sample causes at the tasks of a receiver. *)
Definition deliver_signal (tasks : list (Pattern * (string -> list Callback))) (s : Put)
    : list Callback :=
  concat (map (fun t : Pattern * (string -> list Callback) =>
    if key_matches (pattern_str t.1) (put_key s) then t.2 (put_bytes s) else []) tasks).

(** [subscribe_presence]: the pattern and what its task hands to the callback. *)
Definition presence_task (bytes : string) : option Presence :=
  match presence_from_slice bytes with inr p => Some p | inl _ => None end.
Definition subscribe_presence (sub : Pattern -> string + unit)
    : res string (Pattern * (string -> option Presence)) :=
  pattern ← signal_presence_pattern;
  match sub pattern with inr _ => Ok (pattern, presence_task) | inl e => Err e end.
End signaling.

(** ** Keys and patterns of plain identifiers *)
Definition mesh_id (id : string) : bool := plain_chunk id && negb (has_char slash id).

Lemma mesh_id_inv id :
  mesh_id id = true -> plain_chunk id = true /\ has_char slash id = false /\ id <> "".
Proof.
  unfold mesh_id. intros [Hp Hs]%andb_true_iff. apply negb_true_iff in Hs.
  split; [done|]. split; [done|]. by intros ->.
Qed.

(** A path of non-empty slash-free segments has no double slash. *)
Lemma slash_segment_no_double w s :
  has_char slash w = false -> contains_str "//" (String slash s) = false ->
  starts_with "/" s = false ->
  contains_str "//" (w +:+ String slash s) = false.
Proof.
  intros Hw Hs Hn. induction w as [|c w IH]; [done|].
  cbn [has_char] in Hw. apply orb_false_iff in Hw as [Hc Hw].
  change (String c w +:+ String slash s) with (String c (w +:+ String slash s)).
  cbn [contains_str]. rewrite IH, orb_false_r by done.
  rewrite starts_with_is_some. cbn [strip_prefix]. rewrite Ascii.eqb_sym in Hc. by rewrite Hc.
Qed.

Lemma path_no_double ws tl :
  forallb (fun w => negb (has_char slash w) && negb (w =? "")%string) (ws ++ [tl]) = true ->
  contains_str "//" (path ws tl) = false /\ starts_with "/" (path ws tl) = false.
Proof.
  assert (forall w s, has_char slash w = false -> w <> "" -> starts_with "/" (w +:+ s) = false)
    as Hst.
  { intros [|c w] s Hw Hne; [done|]. cbn [has_char] in Hw. apply orb_false_iff in Hw as [Hc _].
    rewrite starts_with_is_some. rewrite Ascii.eqb_sym in Hc.
    change (String c w +:+ s) with (String c (w +:+ s)). cbn [strip_prefix]. by rewrite Hc. }
  induction ws as [|w ws IH]; cbn [app forallb path foldr]; rewrite andb_true_iff;
    intros [[Hw Hne]%andb_true_iff Hr]; rewrite negb_true_iff in Hw, Hne;
    apply String.eqb_neq in Hne.
  - split; [by apply no_slash_no_double|]. rewrite <- (str_app_nil_r tl). by apply Hst.
  - destruct (IH Hr) as [Hd Hs]. fold (path ws tl). split; [|by apply Hst].
    apply slash_segment_no_double; [done| |done]. cbn [contains_str]. fold (contains_str "//" (path ws tl)).
    rewrite Hd, orb_false_r. rewrite starts_with_is_some in *.
    cbn [strip_prefix] in *. rewrite Ascii.eqb_refl. exact Hs.
Qed.

Definition signal_verb (v : string) : Prop := v = "offer" \/ v = "answer" \/ v = "ice".

Lemma signal_pattern_Ok id v :
  mesh_id id = true -> signal_verb v ->
  pattern_try_new (path ["robot"; "*"; "signal"; id] v)
  = Ok (mkPattern (path ["robot"; "*"; "signal"; id] v)).
Proof.
  intros (Hp & Hs & Hne)%mesh_id_inv Hv.
  assert (has_char slash v = false /\ v <> "") as [Hvs Hvn] by (by destruct Hv as [-> | [-> | ->]]).
  pose proof Hne as Hne'. apply String.eqb_neq in Hne, Hvn.
  unfold pattern_try_new.
  destruct (path_no_double ["robot"; "*"; "signal"; id] v) as [Hd _].
  { cbn [app forallb]. by rewrite Hs, Hvs, Hne, Hvn. }
  rewrite Hd, !andb_false_r.
  assert ((path ["robot"; "*"; "signal"; id] v =? "")%string = false) as -> by done.
  assert (canonicalize (path ["robot"; "*"; "signal"; id] v)
    = path ["robot"; "*"; "signal"; id] v) as -> by done.
  rewrite split_path by (cbn [forallb]; by rewrite Hs).
  rewrite split_on_single by done. unfold is_valid_pattern, pattern_table.
  cbn [app existsb segs_match seg_match]. rewrite ?andb_false_r. by destruct Hv as [-> | [-> | ->]].
Qed.

Lemma signal_patterns_Ok id :
  mesh_id id = true ->
  signal_offer_pattern (E := string) id = Ok (mkPattern (path ["robot"; "*"; "signal"; id] "offer")) /\
  signal_answer_pattern (E := string) id = Ok (mkPattern (path ["robot"; "*"; "signal"; id] "answer")) /\
  signal_ice_pattern (E := string) id = Ok (mkPattern (path ["robot"; "*"; "signal"; id] "ice")).
Proof.
  intros Hi. unfold signal_offer_pattern, signal_answer_pattern, signal_ice_pattern.
  pose proof (fun v => signal_pattern_Ok id v Hi) as H.
  repeat split;
    match goal with |- expect _ (pattern_try_new (_ +:+ id +:+ String slash ?v)) = _ =>
      change (pattern_try_new _) with (pattern_try_new (path ["robot"; "*"; "signal"; id] v)) end;
    rewrite H; unfold signal_verb; auto.
Qed.

(** ** Routing *)
Section routing.
Context `{JN : JsonNumber} {SW : SignalWire} {SL : SignalWireLaws SW} {K : KeyMatch} {KL : KeyMatchLaw K}.

Definition signal_key (a b v : string) : string := path ["robot"; a; "signal"; b] v.

Lemma split_signal_key a b v :
  has_char slash a = false -> has_char slash b = false -> signal_verb v ->
  split_on slash (signal_key a b v) = ["robot"; a; "signal"; b; v].
Proof.
  intros Ha Hb Hv. unfold signal_key. rewrite split_path by (cbn [forallb]; by rewrite Ha, Hb).
  by destruct Hv as [-> | [-> | ->]].
Qed.

(** A pattern of [c] matches a key from [a] to [b] exactly when the receiver
    and the verb agree. *)
Lemma signal_key_matches a b c v w :
  mesh_id a = true -> mesh_id b = true -> mesh_id c = true -> signal_verb v -> signal_verb w ->
  key_matches (signal_key "*" c v) (signal_key a b w) = ((c =? b) && (v =? w))%string.
Proof.
  intros (Hap & Has & _)%mesh_id_inv (Hbp & Hbs & _)%mesh_id_inv (Hcp & Hcs & _)%mesh_id_inv Hv Hw.
  rewrite key_matches_chunks; rewrite !split_signal_key by done.
  - cbn [chunks_match].
    assert ((c =? "*")%string = false) as ->.
    { apply String.eqb_neq. intros ->. done. }
    by destruct Hv as [-> | [-> | ->]], Hw as [-> | [-> | ->]]; rewrite ?andb_false_r, ?andb_true_r.
  - cbn [forallb]. rewrite Hcp. by destruct Hv as [-> | [-> | ->]].
  - cbn [forallb]. rewrite Hap, Hbp. by destruct Hw as [-> | [-> | ->]].
Qed.

(** The tasks of a receiver whose subscriptions all succeed. *)
Definition receiver_tasks (c : string) : list (Pattern * (string -> list Callback)) :=
  [ (mkPattern (signal_key "*" c "offer"), offer_task);
    (mkPattern (signal_key "*" c "answer"), answer_task);
    (mkPattern (signal_key "*" c "ice"), ice_task) ].

Lemma run_signal_receiver_Ok c :
  mesh_id c = true -> run_signal_receiver (fun _ => inr tt) c = Ok (receiver_tasks c).
Proof.
  intros (Ho & Ha & Hi)%signal_patterns_Ok. unfold run_signal_receiver. by rewrite Ho, Ha, Hi.
Qed.

Lemma deliver_signal_key a b c v bytes :
  mesh_id a = true -> mesh_id b = true -> mesh_id c = true -> signal_verb v ->
  deliver_signal (receiver_tasks c) (mkPut (signal_key a b v) bytes None) =
  if (c =? b)%string
  then (if (v =? "offer")%string then offer_task bytes
        else if (v =? "answer")%string then answer_task bytes else ice_task bytes)
  else [].
Proof.
  intros Ha Hb Hc Hv. unfold deliver_signal, receiver_tasks.
  cbn [map concat fst snd pattern_str put_key put_bytes].
  rewrite !signal_key_matches by (done || unfold signal_verb; auto).
  destruct (c =? b)%string; [|done].
  by destruct Hv as [-> | [-> | ->]]; cbn [andb String.eqb Ascii.eqb]; rewrite ?app_nil_r.
Qed.

(** The call a message causes on the subscription of a verb. *)
Definition calls_of (v : string) (m : SignalMessage) : list Callback :=
  if (v =? "offer")%string then [OnOffer (sig_from m) m]
  else if (v =? "answer")%string then [OnAnswer (sig_from m) m]
  else map (OnIce (sig_from m)) (sig_ice m).

(** A put of the message [m] on the key of [a], [b] and the verb: who sent it
    and for whom is read from the key by the network and from [m] by the
    receiver. *)
Lemma signal_delivered a b c v kind from to sdp ice :
  mesh_id a = true -> mesh_id b = true -> mesh_id c = true -> signal_verb v ->
  exists put, put_signal (mkTopic (signal_key a b v)) kind from to sdp ice = Ok put /\
    deliver_signal (receiver_tasks c) put =
    if (c =? b)%string then calls_of v (mkSignal sdp kind from to ice) else [].
Proof.
  intros Ha Hb Hc Hv.
  destruct (signal_reads_back (mkSignal sdp kind from to ice)) as (x & y & Hx & Hy & Hr).
  exists (mkPut (signal_key a b v) y None). split.
  { unfold put_signal, put_value. rewrite Hx. simpl. unfold serialize. by rewrite Hy. }
  rewrite deliver_signal_key by done.
  unfold offer_task, answer_task, ice_task, parse_signal. by rewrite Hr.
Qed.

(** The chunks of a presence key against the two kinds of patterns. *)
Lemma presence_matches a c v :
  mesh_id a = true -> mesh_id c = true -> signal_verb v ->
  key_matches (signal_key "*" c v) ("robot/" +:+ a +:+ "/signal/presence") = false /\
  key_matches SIGNAL_PRESENCE_PATTERN ("robot/" +:+ a +:+ "/signal/presence") = true.
Proof.
  intros (Hap & Has & _)%mesh_id_inv (Hcp & Hcs & _)%mesh_id_inv Hv.
  change ("robot/" +:+ a +:+ "/signal/presence") with (path ["robot"; a; "signal"] "presence").
  assert (split_on slash (path ["robot"; a; "signal"] "presence") = ["robot"; a; "signal"; "presence"])
    as Hk by (rewrite split_path by (cbn [forallb]; by rewrite Has); done).
  split; rewrite key_matches_chunks; rewrite ?Hk, ?split_signal_key by done.
  - cbn [chunks_match]. by rewrite !andb_false_r.
  - cbn [forallb]. rewrite Hcp. by destruct Hv as [-> | [-> | ->]].
  - cbn [forallb]. by rewrite Hap.
  - done.
  - done.
  - cbn [forallb]. by rewrite Hap.
Qed.

(** The signalling exchange is routed to its addressee.  Between plain robot
    identifiers, what [a] publishes for [b] - an offer, an answer or a
    candidate - reaches the handler of [b], as exactly that call with the
    sender [a], and causes no call at any other robot; [a]'s presence reaches
    every robot's presence callback and no signal handler. *)
Theorem signaling_routes (a b c sdp : string) (ice : list IceCandidate) (cand : IceCandidate)
    (ss : list string) :
  mesh_id a = true -> mesh_id b = true -> mesh_id c = true ->
  exists tasks, run_signal_receiver (fun _ => inr tt) c = Ok tasks /\
  (exists put, publish_offer a b sdp ice = Ok put /\
     deliver_signal tasks put = if (c =? b)%string then [OnOffer a (mkSignal sdp Offer a b ice)] else []) /\
  (exists put, publish_answer a b sdp ice = Ok put /\
     deliver_signal tasks put = if (c =? b)%string then [OnAnswer a (mkSignal sdp Answer a b ice)] else []) /\
  (exists put, publish_ice a b cand = Ok put /\
     deliver_signal tasks put = if (c =? b)%string then [OnIce a cand] else []) /\
  (exists put p, publish_presence a ss = Ok put /\ deliver_signal tasks put = [] /\
     subscribe_presence (fun _ => inr tt) = Ok (p, presence_task) /\
     key_matches (pattern_str p) (put_key put) = true /\
     presence_task (put_bytes put) = Some (mkPresence a ss)).
Proof.
  intros Ha Hb Hc. exists (receiver_tasks c). split; [by apply run_signal_receiver_Ok|].
  pose proof (mesh_id_inv a Ha) as (Hap & Has & _). pose proof (mesh_id_inv b Hb) as (_ & Hbs & _).
  destruct (signal_builders_Ok (E := string) a b Has Hbs) as (Ho & Han & Hic).
  unfold publish_offer, publish_answer, publish_ice. rewrite Ho, Han, Hic.
  split; [by apply (signal_delivered a b c "offer"); [..|left]|].
  split; [by apply (signal_delivered a b c "answer"); [..|right; left]|].
  split; [by apply (signal_delivered a b c "ice"); [..|right; right]|].
  destruct (presence_reads_back (mkPresence a ss)) as (x & y & Hx & Hy & Hr).
  exists (mkPut ("robot/" +:+ a +:+ "/signal/presence") y None), (mkPattern SIGNAL_PRESENCE_PATTERN).
  unfold publish_presence, put_value. rewrite Hx.
  destruct (robot_builders_Ok (E := string) a Has) as (_ & _ & ->).
  split; [simpl; unfold serialize; by rewrite Hy|].
  unfold deliver_signal, receiver_tasks. cbn [map concat fst snd pattern_str put_key put_bytes].
  pose proof (fun v => presence_matches a c v Ha Hc) as Hm.
  rewrite !(fun v H => proj1 (Hm v H)) by (unfold signal_verb; auto).
  split; [done|]. split; [done|].
  split; [exact (proj2 (Hm "offer" (or_introl eq_refl)))|].
  unfold presence_task. cbn [put_bytes]. by rewrite Hr.
Qed.

(** The sender is whoever the envelope says: a message that any robot [a]
    puts on its own key to [b] is handed to [b]'s handler under the name in
    the message, whatever that name, and whatever receiver it names. *)
Theorem envelope_sender_trusted (a b from to sdp : string) (kind : SignalKind)
    (ice : list IceCandidate) :
  mesh_id a = true -> mesh_id b = true ->
  exists put, put_signal (mkTopic (signal_key a b "offer")) kind from to sdp ice = Ok put /\
    deliver_signal (receiver_tasks b) put = [OnOffer from (mkSignal sdp kind from to ice)].
Proof.
  intros Ha Hb.
  destruct (signal_delivered a b b "offer" kind from to sdp ice) as (put & Hp & Hd);
    [done..|by left|]. exists put. split; [exact Hp|]. by rewrite Hd, String.eqb_refl.
Qed.
End routing.

(** ** A concrete wire and a concrete matcher, for evaluation *)
Module SignalEx.
Definition ice_code (c : IceCandidate) := (candidate c, sdp_mid c, uint_val <$> mline_index c).
Definition ice_of (x : string * option string * option N) : IceCandidate :=
  let '(a, b, c) := x in mkIce a b (uint_wrap 16 <$> c).
Definition signal_code (m : SignalMessage) :=
  (sig_sdp m, match sig_kind m with Offer => true | Answer => false end, sig_from m, sig_to m,
   map ice_code (sig_ice m)).
Definition signal_of (x : string * bool * string * string * list (string * option string * option N))
    : SignalMessage :=
  let '(a, b, c, d, e) := x in mkSignal a (if b : bool then Offer else Answer) c d (map ice_of e).
Lemma signal_of_code m : signal_of (signal_code m) = m.
Proof.
  destruct m as [s [] f t ice]; unfold signal_of, signal_code; simpl; f_equal;
    induction ice as [|[c d [i|]] ice IH]; simpl; rewrite ?IH, ?uint_wrap_val; done.
Qed.

#[global] Instance signal_wire : SignalWire (JN := model_number) := {|
  wire_to_vec v := match v with Str s => inr s | _ => inl "not a string" end;
  signal_to_value m := inr (Str (pos_bits (encode (signal_code m))));
  presence_to_value p := inr (Str (pos_bits (encode (pres_id p, streams p))));
  signal_from_slice s :=
    match decode (bits_pos s) with Some x => inr (signal_of x) | None => inl "bits" end;
  presence_from_slice s :=
    match decode (bits_pos s) with Some (i, l) => inr (mkPresence i l) | None => inl "bits" end
|}.
#[global] Instance signal_wire_laws : SignalWireLaws signal_wire.
Proof.
  split.
  - intros m. do 2 eexists. split; [done|]. split; [done|].
    cbn [signal_from_slice signal_wire].
    by rewrite bits_pos_bits, decode_encode, signal_of_code.
  - intros [i l]. do 2 eexists. split; [done|]. split; [done|].
    cbn [presence_from_slice signal_wire pres_id streams].
    by rewrite bits_pos_bits, decode_encode.
Qed.
#[global] Instance chunk_match : KeyMatch :=
  fun p k => chunks_match (split_on slash p) (split_on slash k).
#[global] Instance chunk_match_law : KeyMatchLaw chunk_match.
Proof. by intros p k _ _. Qed.
Definition cand : IceCandidate := mkIce "candidate:1" (Some "0") (Some (uint_wrap 16 0)).
End SignalEx.

Lemma signaling_routes_witness :
  exists tasks, run_signal_receiver (fun _ => inr tt) "9" = Ok tasks /\
  exists put, publish_ice "7" "9" SignalEx.cand = Ok put /\
    deliver_signal tasks put = [OnIce "7" SignalEx.cand].
Proof.
  destruct (signaling_routes "7" "9" "9" "v=0" [SignalEx.cand] SignalEx.cand []
    eq_refl eq_refl eq_refl) as (tasks & Ht & _ & _ & H & _).
  exists tasks. split; [exact Ht|exact H].
Defined.

Lemma envelope_sender_trusted_witness :
  exists put, put_signal (mkTopic "robot/7/signal/9/offer") Offer "8" "3" "v=0" [] = Ok put /\
    deliver_signal (receiver_tasks "9") put = [OnOffer "8" (mkSignal "v=0" Offer "8" "3" [])].
Proof.
  exact (envelope_sender_trusted "7" "9" "8" "3" "v=0" Offer [] eq_refl eq_refl).
Defined.
