(* ===== verification/Mesh.v ===== *)
(** * Mesh: the always-on signaling listener ([src/mesh.rs])

    [MeshSignalHandler]: the table of answering peer sessions behind a mutex,
    and the tasks its callbacks spawn, run in any order by the scheduler.  A
    peer connection is an identity; building one and starting a capture are
    WebRTC and GStreamer calls whose outcome a schedule chooses.  No code
    panics while it holds the mutex, so its poisoned branches never run.  Also
    [run_signaling], which sets the listener up. *)
From S2P Require Import Prelude Json Rules Topic Auth Registration Transport Signaling.

(** ** State *)
Record PeerSession := mkSession { s_peer : nat; s_capture : bool }.

(** What a spawned task still has to do.  [OfferBuilding] is an offer task
    suspended in [VideoPeer::answer], outside the lock. *)
Inductive MeshTask :=
  | OfferTask (from : string) (msg : SignalMessage)
  | OfferBuilding (from : string) (msg : SignalMessage)
  | AnswerTask (from : string) (msg : SignalMessage)
  | IceTask (from : string) (c : IceCandidate)
  | CaptureTask (from : string).

(** [applied] lists the calls forwarded to peer connections, [next_peer] the
    identity of the next connection built. *)
Record Mesh := mkMesh {
  peers : gmap string PeerSession; mesh_tasks : list MeshTask;
  next_peer : nat; applied : list (nat * Callback)
}.
Definition mesh_new : Mesh := mkMesh ∅ [] 0 [].

Definition find_peer (m : Mesh) (from : string) : option nat := s_peer <$> peers m !! from.

Definition forward (m : Mesh) (peer : nat) (cb : Callback) : Mesh :=
  mkMesh (peers m) (mesh_tasks m) (next_peer m) (applied m ++ [(peer, cb)]).
Definition spawn (m : Mesh) (t : MeshTask) : Mesh :=
  mkMesh (peers m) (mesh_tasks m ++ [t]) (next_peer m) (applied m).

(** ** The callbacks spawn *)
Definition on_callback (m : Mesh) (cb : Callback) : Mesh :=
  spawn m (match cb with
           | OnOffer from msg => OfferTask from msg
           | OnAnswer from msg => AnswerTask from msg
           | OnIce from c => IceTask from c
           end).

(** ** The tasks *)

(** The second half of [peer_for], after [VideoPeer::answer] returned a new
    connection: [entry(..).or_insert_with(..)], and the capture task when the
    entry is new and there is a source. *)
Definition insert_peer (source : bool) (m : Mesh) (from : string) : Mesh * nat :=
  let peer := next_peer m in
  match peers m !! from with
  | Some s => (mkMesh (peers m) (mesh_tasks m) (S peer) (applied m), s_peer s)
  | None =>
      let m' := mkMesh (<[from := mkSession peer false]> (peers m)) (mesh_tasks m) (S peer) (applied m) in
      (if source then spawn m' (CaptureTask from) else m', peer)
  end.

(** One turn of a task that has been taken off the queue; [ok] is the outcome
    of the external call it waits for. *)
Definition run_mesh_task (source ok : bool) (m : Mesh) (t : MeshTask) : Mesh :=
  match t with
  | OfferTask from msg =>
      match find_peer m from with
      | Some p => forward m p (OnOffer from msg)
      | None => spawn m (OfferBuilding from msg)
      end
  | OfferBuilding from msg =>
      if ok then let '(m', p) := insert_peer source m from in forward m' p (OnOffer from msg)
      else m
  | AnswerTask from msg =>
      match find_peer m from with Some p => forward m p (OnAnswer from msg) | None => m end
  | IceTask from c =>
      match find_peer m from with Some p => forward m p (OnIce from c) | None => m end
  | CaptureTask from =>
      if ok then
        match peers m !! from with
        | Some s => mkMesh (<[from := mkSession (s_peer s) true]> (peers m)) (mesh_tasks m)
                      (next_peer m) (applied m)
        | None => m
        end
      else m
  end.

(** ** Schedules: calls arrive, and the scheduler runs any task next *)
Inductive MeshAct := Call (cb : Callback) | Run (i : nat) (ok : bool).

Definition mesh_step (source : bool) (m : Mesh) (a : MeshAct) : Mesh :=
  match a with
  | Call cb => on_callback m cb
  | Run i ok =>
      match mesh_tasks m !! i with
      | Some t => run_mesh_task source ok
          (mkMesh (peers m) (delete i (mesh_tasks m)) (next_peer m) (applied m)) t
      | None => m
      end
  end.
Definition mesh_run (source : bool) (m : Mesh) (l : list MeshAct) : Mesh :=
  foldl (mesh_step source) m l.

Definition callback_from (cb : Callback) : string :=
  match cb with OnOffer f _ | OnAnswer f _ | OnIce f _ => f end.
Definition is_capture (from : string) (t : MeshTask) : bool :=
  match t with CaptureTask f => (f =? from)%string | _ => false end.
Definition captures (m : Mesh) (from : string) : nat :=
  length (List.filter (is_capture from) (mesh_tasks m)).

(** ** Set-up

    [run_signaling]: presence, discovery, then the receiver; every failure
    ends it, and so does success. *)
Section setup.
Context `{JN : JsonNumber} {SW : SignalWire}.

Definition run_signaling (put : Put -> string + unit) (sub : Pattern -> string + unit)
    (robot_id : string) : res string (list (Pattern * (string -> list Callback))) :=
  cam ← robot_local robot_id "cam0";
  p ← publish_presence robot_id [topic_str cam];
  _ ← (match put p with inr _ => Ok tt | inl e => Err e end);
  _ ← subscribe_presence sub;
  run_signal_receiver sub robot_id.
End setup.

(** ** The invariant *)
Record mesh_inv (source : bool) (m : Mesh) : Prop := {
  inv_applied : forall p cb, (p, cb) ∈ applied m -> find_peer m (callback_from cb) = Some p;
  inv_fresh : forall f s, peers m !! f = Some s -> s_peer s < next_peer m;
  inv_distinct : forall f g s s', peers m !! f = Some s -> peers m !! g = Some s' ->
    s_peer s = s_peer s' -> f = g;
  inv_capture : forall f,
    captures m f <= match peers m !! f with
                    | Some s => if s_capture s then 0 else if source then 1 else 0
                    | None => 0
                    end
}.

Lemma mesh_inv_new source : mesh_inv source mesh_new.
Proof.
  split; simpl.
  - intros p cb H. by apply elem_of_nil in H.
  - intros f s. by rewrite lookup_empty.
  - intros f g s s'. by rewrite lookup_empty.
  - intros f. by rewrite lookup_empty.
Qed.

Lemma captures_app f l1 l2 :
  length (List.filter (is_capture f) (l1 ++ l2))
  = length (List.filter (is_capture f) l1) + length (List.filter (is_capture f) l2).
Proof. by rewrite List.filter_app, length_app. Qed.

Lemma captures_spawn m t f :
  captures (spawn m t) f = captures m f + if is_capture f t then 1 else 0.
Proof.
  unfold captures, spawn. cbn [mesh_tasks]. rewrite captures_app. simpl.
  by destruct (is_capture f t).
Qed.

(** Taking a task off the queue. *)
Definition take_task (m : Mesh) (i : nat) : Mesh :=
  mkMesh (peers m) (delete i (mesh_tasks m)) (next_peer m) (applied m).

Lemma captures_take m i t f :
  mesh_tasks m !! i = Some t ->
  captures (take_task m i) f + (if is_capture f t then 1 else 0) = captures m f.
Proof.
  intros Ht. unfold captures, take_task. cbn [mesh_tasks].
  rewrite delete_take_drop, captures_app.
  rewrite <- (take_drop_middle _ _ _ Ht) at 3. rewrite captures_app. simpl.
  destruct (is_capture f t); simpl; lia.
Qed.

Lemma mesh_inv_take source m i t :
  mesh_inv source m -> mesh_tasks m !! i = Some t -> mesh_inv source (take_task m i).
Proof.
  intros [Ha Hf Hd Hc] Ht. split; try done. intros f. etrans; [|apply Hc].
  pose proof (captures_take m i t f Ht). lia.
Qed.

Lemma mesh_inv_spawn source m t :
  mesh_inv source m -> (forall f, is_capture f t = false) -> mesh_inv source (spawn m t).
Proof.
  intros [Ha Hf Hd Hc] Ht. split; try done. intros f. rewrite captures_spawn, Ht, Nat.add_0_r.
  apply Hc.
Qed.

Lemma mesh_inv_forward source m p cb :
  mesh_inv source m -> find_peer m (callback_from cb) = Some p -> mesh_inv source (forward m p cb).
Proof.
  intros [Ha Hf Hd Hc] Hp. split; try done. intros q cb'. unfold forward. cbn [applied].
  rewrite elem_of_app, list_elem_of_singleton. intros [H|[= -> ->]]; [|exact Hp]. by apply Ha.
Qed.

Lemma insert_peer_inv source m f :
  mesh_inv source m ->
  mesh_inv source (insert_peer source m f).1 /\
  find_peer (insert_peer source m f).1 f = Some (insert_peer source m f).2.
Proof.
  intros [Ha Hf Hd Hc]. unfold insert_peer, find_peer.
  destruct (peers m !! f) as [s|] eqn:Hs; cbn [fst snd peers]; [rewrite Hs|].
  { split; [|done]. split; cbn [applied peers next_peer mesh_tasks]; try done.
    intros g s' Hg%Hf. lia. }
  set (m' := mkMesh _ _ _ _).
  assert (mesh_inv true m' /\ captures m' f = 0) as [Hm' H0].
  { assert (captures m' f = 0) as H0.
    { specialize (Hc f). rewrite Hs in Hc. unfold captures in *. cbn [m' mesh_tasks]. lia. }
    split; [|done]. split; cbn [m' applied peers next_peer].
    - intros p cb H%Ha. unfold find_peer in *. cbn [m' peers].
      destruct (decide (callback_from cb = f)) as [He|Hne].
      + by rewrite He, Hs in H.
      + by rewrite lookup_insert_ne.
    - intros g s. destruct (decide (f = g)) as [<-|Hne].
      + rewrite lookup_insert_eq. intros [= <-]. simpl. lia.
      + rewrite lookup_insert_ne by done. intros H%Hf. lia.
    - intros g h s s'. destruct (decide (f = g)) as [<-|Hg], (decide (f = h)) as [<-|Hh];
        rewrite ?lookup_insert_eq, ?lookup_insert_ne by done.
      + done.
      + intros [= <-] H%Hf. simpl. lia.
      + intros H%Hf [= <-]. simpl. lia.
      + apply Hd.
    - intros g. destruct (decide (f = g)) as [<-|Hg].
      + rewrite H0, lookup_insert_eq. simpl. lia.
      + rewrite lookup_insert_ne by done. etrans; [apply (Hc g)|].
        destruct (peers m !! g) as [s|]; [|done]. destruct (s_capture s), source; lia. }
  split; [|destruct source; unfold spawn; cbn [peers m']; by rewrite lookup_insert_eq].
  destruct Hm' as [Ha' Hf' Hd' Hc']. destruct source.
  - split; try done. intros g. rewrite captures_spawn. cbn [is_capture spawn peers].
    destruct (String.eqb_spec f g) as [<-|Hne]; [|rewrite Nat.add_0_r; apply Hc'].
    rewrite H0. cbn [m' peers]. by rewrite lookup_insert_eq.
  - split; try done. intros g. cbn [m' peers]. destruct (decide (f = g)) as [<-|Hg].
    + rewrite H0. lia.
    + rewrite lookup_insert_ne by done. apply Hc.
Qed.

Lemma capture_done_inv source m f s :
  mesh_inv source m -> peers m !! f = Some s -> captures m f = 0 ->
  mesh_inv source (mkMesh (<[f := mkSession (s_peer s) true]> (peers m)) (mesh_tasks m)
                     (next_peer m) (applied m)).
Proof.
  intros [Ha Hf Hd Hc] Hs H0.
  assert (forall g s', <[f := mkSession (s_peer s) true]> (peers m) !! g = Some s' ->
    exists s0, peers m !! g = Some s0 /\ s_peer s0 = s_peer s') as Hsame.
  { intros g s'. destruct (decide (f = g)) as [<-|Hg].
    - rewrite lookup_insert_eq. intros [= <-]. eauto.
    - rewrite lookup_insert_ne by done. eauto. }
  split; cbn [applied peers next_peer].
  - intros p cb H%Ha. unfold find_peer in *. cbn [peers].
    destruct (decide (f = callback_from cb)) as [He|Hne].
    + rewrite <- He in *. rewrite lookup_insert_eq. by rewrite Hs in H.
    + by rewrite lookup_insert_ne.
  - intros g s' (s0 & H%Hf & <-)%Hsame. done.
  - intros g h s1 s2 (t1 & H1 & <-)%Hsame (t2 & H2 & <-)%Hsame. by apply Hd.
  - intros g. unfold captures in *. cbn [mesh_tasks]. destruct (decide (f = g)) as [<-|Hg].
    + rewrite H0. lia.
    + rewrite lookup_insert_ne by done. apply Hc.
Qed.

Lemma run_mesh_task_inv source ok m i t :
  mesh_inv source m -> mesh_tasks m !! i = Some t ->
  mesh_inv source (run_mesh_task source ok (take_task m i) t).
Proof.
  intros Hm Ht. pose proof (mesh_inv_take source m i t Hm Ht) as Hm'.
  destruct t as [f msg|f msg|f msg|f c|f]; cbn [run_mesh_task].
  - destruct (find_peer (take_task m i) f) eqn:E; [by apply mesh_inv_forward|].
    by apply mesh_inv_spawn.
  - destruct ok; [|done]. destruct (insert_peer_inv source (take_task m i) f Hm') as [Hi Hp].
    destruct (insert_peer source (take_task m i) f) as [m'' p]. by apply mesh_inv_forward.
  - destruct (find_peer (take_task m i) f) eqn:E; [by apply mesh_inv_forward|done].
  - destruct (find_peer (take_task m i) f) eqn:E; [by apply mesh_inv_forward|done].
  - destruct ok; [|done]. destruct (peers (take_task m i) !! f) as [s|] eqn:E; [|done].
    apply capture_done_inv; [done|done|].
    pose proof (captures_take m i _ f Ht) as H. cbn [is_capture] in H.
    rewrite String.eqb_refl in H. pose proof (inv_capture _ _ Hm f) as Hc.
    cbn [take_task peers] in E. rewrite E in Hc. destruct (s_capture s), source; lia.
Qed.

Lemma mesh_step_inv source m a : mesh_inv source m -> mesh_inv source (mesh_step source m a).
Proof.
  intros Hm. destruct a as [cb|i ok]; cbn [mesh_step].
  - apply mesh_inv_spawn; [done|]. by destruct cb.
  - destruct (mesh_tasks m !! i) eqn:E; [|done]. by apply run_mesh_task_inv.
Qed.

Lemma mesh_run_inv source l m : mesh_inv source m -> mesh_inv source (mesh_run source m l).
Proof. revert m. induction l as [|a l IH]; intros m Hm; [done|]. by apply IH, mesh_step_inv. Qed.

(** ** What was called and what was forwarded *)

(** The call a task still owes. *)
Definition pending (t : MeshTask) : list Callback :=
  match t with
  | OfferTask f m | OfferBuilding f m => [OnOffer f m]
  | AnswerTask f m => [OnAnswer f m]
  | IceTask f c => [OnIce f c]
  | CaptureTask _ => []
  end.
Definition ledger (m : Mesh) : list Callback :=
  map snd (applied m) ++ flat_map pending (mesh_tasks m).
Definition called (l : list MeshAct) : list Callback :=
  flat_map (fun a => match a with Call cb => [cb] | Run _ _ => [] end) l.

Lemma ledger_spawn m t : ledger (spawn m t) = ledger m ++ pending t.
Proof.
  unfold ledger, spawn. cbn [applied mesh_tasks].
  by rewrite flat_map_app, app_assoc; simpl; rewrite app_nil_r.
Qed.

Lemma ledger_forward m p cb : ledger (forward m p cb) ≡ₚ cb :: ledger m.
Proof.
  unfold ledger, forward. cbn [applied mesh_tasks]. rewrite map_app, <- app_assoc. simpl.
  by rewrite <- Permutation_middle.
Qed.

Lemma ledger_take m i t :
  mesh_tasks m !! i = Some t -> pending t ++ ledger (take_task m i) ≡ₚ ledger m.
Proof.
  intros Ht. unfold ledger, take_task. cbn [applied mesh_tasks].
  rewrite delete_take_drop. rewrite <- (take_drop_middle _ _ _ Ht) at 3.
  rewrite !flat_map_app. simpl. rewrite !app_assoc. apply Permutation_app_tail.
  rewrite (Permutation_app_comm _ (pending t)). by rewrite !app_assoc.
Qed.

Lemma insert_peer_ledger source m f : ledger (insert_peer source m f).1 = ledger m.
Proof.
  unfold insert_peer. destruct (peers m !! f); [done|].
  destruct source; [|done]. cbn [fst]. rewrite ledger_spawn. by rewrite app_nil_r.
Qed.

Lemma run_mesh_task_ledger source ok m t : ledger (run_mesh_task source ok m t) ⊆+ pending t ++ ledger m.
Proof.
  assert (forall cb, ledger m ⊆+ [cb] ++ ledger m) as Hdrop by (intros; by apply submseteq_inserts_l).
  destruct t as [f msg|f msg|f msg|f c|f]; cbn [run_mesh_task pending].
  1,3,4: destruct (find_peer m f); [by rewrite ledger_forward|]; try apply Hdrop.
  - by rewrite ledger_spawn, (Permutation_app_comm _ (pending _)).
  - destruct ok; [|apply Hdrop]. pose proof (insert_peer_ledger source m f) as Hl.
    destruct (insert_peer source m f) as [m' p]. cbn [fst] in Hl. by rewrite ledger_forward, Hl.
  - destruct ok; [|done]. by destruct (peers m !! f).
Qed.

Lemma mesh_step_ledger source m a :
  ledger (mesh_step source m a) ⊆+ ledger m ++ called [a].
Proof.
  destruct a as [cb|i ok]; cbn [mesh_step called flat_map]; rewrite ?app_nil_r.
  - unfold on_callback. rewrite ledger_spawn. by destruct cb.
  - destruct (mesh_tasks m !! i) as [t|] eqn:E; [|done].
    rewrite <- (ledger_take m i t E). apply run_mesh_task_ledger.
Qed.

Lemma mesh_run_ledger source l m : ledger (mesh_run source m l) ⊆+ ledger m ++ called l.
Proof.
  revert m. induction l as [|a l IH]; intros m; cbn [mesh_run foldl].
  { by rewrite app_nil_r. }
  fold (mesh_run source (mesh_step source m a) l). etrans; [apply IH|].
  change (a :: l) with ([a] ++ l). unfold called at 2. rewrite flat_map_app, app_assoc.
  apply submseteq_skips_r, mesh_step_ledger.
Qed.

(** Sessions are never replaced. *)
Lemma mesh_step_keeps source m a f p :
  find_peer m f = Some p -> find_peer (mesh_step source m a) f = Some p.
Proof.
  intros Hp. destruct a as [cb|i ok]; [done|]. cbn [mesh_step].
  destruct (mesh_tasks m !! i) as [t|]; [|done].
  fold (take_task m i). assert (find_peer (take_task m i) f = Some p) as Hp' by done.
  revert Hp'. generalize (take_task m i). clear m Hp. intros m Hp.
  destruct t as [g msg|g msg|g msg|g c|g]; cbn [run_mesh_task].
  1,3,4: by destruct (find_peer m g).
  - destruct ok; [|done]. unfold insert_peer. destruct (peers m !! g) as [s|] eqn:E; [done|].
    assert (f <> g) as Hne. { intros ->. unfold find_peer in Hp. by rewrite E in Hp. }
    destruct source; unfold find_peer in *; cbn; by rewrite lookup_insert_ne.
  - destruct ok; [|done]. destruct (peers m !! g) as [s|] eqn:E; [|done].
    unfold find_peer in *. cbn [peers]. destruct (decide (g = f)) as [->|Hne].
    + rewrite lookup_insert_eq. by rewrite E in Hp.
    + by rewrite lookup_insert_ne.
Qed.

Lemma mesh_run_keeps source l m f p :
  find_peer m f = Some p -> find_peer (mesh_run source m l) f = Some p.
Proof.
  revert m. induction l as [|a l IH]; intros m Hp; [done|]. by apply IH, mesh_step_keeps.
Qed.

(** ** Properties *)

(** One connection per remote peer.  Whatever the order in which calls
    arrive and tasks run, and whichever connections and captures fail to
    start: every call is forwarded at most once and only if it was made; all
    the calls of one remote robot go to one connection, which no other robot
    shares and which is never replaced; and each session starts its capture
    at most once. *)
Theorem mesh_sessions (source : bool) (l more : list MeshAct) :
  let m := mesh_run source mesh_new l in
  map snd (applied m) ⊆+ called l /\
  (forall p cb, (p, cb) ∈ applied m -> find_peer m (callback_from cb) = Some p) /\
  (forall f g p, find_peer m f = Some p -> find_peer m g = Some p -> f = g) /\
  (forall f p, find_peer m f = Some p -> find_peer (mesh_run source m more) f = Some p) /\
  (forall f, captures m f + match peers m !! f with
                            | Some s => if s_capture s then 1 else 0
                            | None => 0
                            end <= 1).
Proof.
  intros m. assert (mesh_inv source m) as [Ha Hf Hd Hc] by apply mesh_run_inv, mesh_inv_new.
  split; [|split; [|split; [|split]]].
  - etrans; [|exact (mesh_run_ledger source l mesh_new)]. apply submseteq_inserts_r. done.
  - exact Ha.
  - intros f g p (s & Hs & Hf')%fmap_Some (s' & Hs' & Hg)%fmap_Some.
    by apply (Hd f g s s'); [..|congruence].
  - intros f p. apply mesh_run_keeps.
  - intros f. specialize (Hc f). destruct (peers m !! f) as [s|]; [|lia].
    destruct (s_capture s), source; lia.
Qed.

(** A candidate that overtakes the offer is lost.  The same calls, an offer
    and then a candidate of the same robot, every external call succeeding:
    under one schedule both reach the connection; under another the candidate
    runs while the connection is being built, is dropped, and no task is left
    that would apply it. *)
Theorem early_candidate_lost (f : string) (msg : SignalMessage) (c : IceCandidate) :
  let calls := [Call (OnOffer f msg); Call (OnIce f c)] in
  let late := mesh_run false mesh_new (calls ++ [Run 0 true; Run 1 true; Run 0 true]) in
  let early := mesh_run false mesh_new (calls ++ [Run 0 true; Run 0 true; Run 0 true]) in
  (applied late = [(0, OnOffer f msg); (0, OnIce f c)] /\ mesh_tasks late = []) /\
  (applied early = [(0, OnOffer f msg)] /\ mesh_tasks early = []).
Proof.
  unfold mesh_run, find_peer.
  repeat (progress (simpl; unfold find_peer, insert_peer;
    rewrite ?lookup_insert_eq, ?lookup_empty)).
  done.
Qed.
