(* ===== verification/Serde.v ===== *)
(** * Serde: what the derived [Serialize] and [Deserialize] do

    The programs' messages and manifests are Rust structs and enums whose JSON
    form is generated by [#[derive(Serialize, Deserialize)]].  This file holds
    the documented meaning of the attributes the sources use, as combinators
    over the JSON tree: structs read from an object or positionally from an
    array, [default], [deny_unknown_fields], [rename_all], externally and
    internally tagged enums.  RuleFormat.v and Wire.v apply them to the types.
    The text of a tree is [serde_json]'s: the class [JsonText]. *)
From S2P Require Import Prelude Json.

Section serde.
Context `{JN : JsonNumber}.

Class Serde (A : Type) := { ser : A -> Value; de : Value -> option A }.
(** What is written is read back, for the values that fit the format. *)
Class SerdeLaw (A : Type) `{Serde A} (fits : A -> Prop) : Prop :=
  de_ser a : fits a -> de (ser a) = Some a.

(** ** Structs *)

(** What a field finds: a value, no member of its name, or an array that
    ended before it. *)
#[warnings="-register-all"]
Inductive Slot (X : Type) := SlotIs (x : X) | SlotAbsent | SlotShort.
#[global] Arguments SlotIs {X} x.
#[global] Arguments SlotAbsent {X}.
#[global] Arguments SlotShort {X}.

(** A member given twice is an error. *)
Definition slot_of {X} (m : list (string * X)) (n : string) : option (Slot X) :=
  match List.filter (fun kv => (kv.1 =? n)%string) m with
  | [] => Some SlotAbsent
  | [(_, x)] => Some (SlotIs x)
  | _ => None
  end.

Definition known (names : list string) (k : string) : bool :=
  existsb (fun n => (n =? k)%string) names.

(** From an object; [deny] is [deny_unknown_fields]. *)
Definition map_slots {X} (deny : bool) (names : list string) (m : list (string * X))
    : option (list (Slot X)) :=
  if deny && negb (forallb (fun kv => known names kv.1) m) then None
  else mapM (slot_of m) names.

(** From an array, by position; too long an array is an error. *)
Definition seq_slots {X} (names : list string) (l : list X) : option (list (Slot X)) :=
  if length names <? length l then None
  else Some (map SlotIs l ++ replicate (length names - length l) SlotShort).

Definition struct_slots (deny : bool) (names : list string) (v : Value)
    : option (list (Slot Value)) :=
  match v with
  | Object m => map_slots deny names m
  | Array l => seq_slots names l
  | _ => None
  end.

(** [Option]: [null] is [None]. *)
Definition de_option {A} (f : Value -> option A) (v : Value) : option (option A) :=
  match v with Null => Some None | _ => Some <$> f v end.
Definition ser_option {A} (f : A -> Value) (o : option A) : Value :=
  match o with Some a => f a | None => Null end.

(** A mandatory field, an [Option] field (absent reads as [None]), and a field
    with [#[serde(default)]]. *)
Definition field_req {X A} (f : X -> option A) (s : Slot X) : option A :=
  match s with SlotIs x => f x | _ => None end.
Definition field_opt {A} (f : Value -> option A) (s : Slot Value) : option (option A) :=
  match s with SlotIs v => de_option f v | SlotAbsent => Some None | SlotShort => None end.
Definition field_default {X A} (d : A) (f : X -> option A) (s : Slot X) : option A :=
  match s with SlotIs x => f x | _ => Some d end.

(** Members are written into a map ordered by key. *)
Definition ser_struct (fields : list (string * Value)) : Value := Object (sort_by fst fields).

(** ** Enums *)

(** Externally tagged: the variant's name, or an object with that name as its
    one member.  A unit variant's payload is [null] when present. *)
Inductive Payload := NoPayload | PayloadIs (v : Value).
Definition de_enum (v : Value) : option (string * Payload) :=
  match v with
  | Str k => Some (k, NoPayload)
  | Object [(k, x)] => Some (k, PayloadIs x)
  | _ => None
  end.
Definition unit_variant {A} (a : A) (p : Payload) : option A :=
  match p with NoPayload | PayloadIs Null => Some a | _ => None end.
Definition newtype_variant {A} (f : Value -> option A) (p : Payload) : option A :=
  match p with PayloadIs v => f v | NoPayload => None end.

(** An enum of unit variants, by its table of names. *)
Fixpoint de_unit_enum {A} (table : list (string * A)) (v : Value) : option A :=
  match table with
  | [] => None
  | (n, a) :: rest =>
      match de_enum v with
      | Some (k, p) => if (k =? n)%string then unit_variant a p else de_unit_enum rest v
      | None => None
      end
  end.

(** Internally tagged ([tag = "..."]): the tag is a member of the object,
    anywhere, once; in an array it comes first.  What remains is the variant's
    struct. *)
Definition de_tagged (tag : string) (v : Value) : option (string * Value) :=
  match v with
  | Object m =>
      match List.filter (fun kv => (kv.1 =? tag)%string) m with
      | [(_, Str k)] => Some (k, Object (List.filter (fun kv => negb (kv.1 =? tag)%string) m))
      | _ => None
      end
  | Array (Str k :: rest) => Some (k, Array rest)
  | _ => None
  end.

(** ** Leaves *)
#[export] Instance serde_string : Serde string := {|
  ser := Str; de v := match v with Str s => Some s | _ => None end |}.
#[export] Instance serde_bool : Serde bool := {|
  ser := Bool; de v := match v with Bool b => Some b | _ => None end |}.
(** A 64-bit number, and a narrower one that must fit. *)
#[export] Instance serde_u64 : Serde u64 := {|
  ser u := Number (from_u64 u); de v := match v with Number n => as_u64 n | _ => None end |}.
Definition u16_widen (u : u16) : u64 := uint_wrap 64 (uint_val u).
Lemma u16_widen_val (u : u16) : uint_val (u16_widen u) = uint_val u.
Proof.
  pose proof (uint_bound u) as Hu. unfold u16_widen, uint_wrap.
  change (uint_val u mod 2 ^ 64 = uint_val u)%N.
  apply N.mod_small. eapply N.lt_trans; [exact Hu|done].
Qed.
#[export] Instance serde_u16 : Serde u16 := {|
  ser u := Number (from_u64 (u16_widen u));
  de v := match v with Number n => as_u64 n ≫= fun u => uint_make 16 (uint_val u) | _ => None end |}.
(** Any number reads as a float; a float that is not finite is written [null]. *)
#[export] Instance serde_f64 : Serde f64 := {|
  ser := value_of_f64; de v := match v with Number n => as_f64 n | _ => None end |}.
(** An [i64]. *)
#[export] Instance serde_i64 : Serde Z := {|
  ser z := Number (from_i64 z); de v := match v with Number n => as_i64 n | _ => None end |}.
#[export] Instance serde_list {A} `{Serde A} : Serde (list A) := {|
  ser l := Array (map ser l); de v := match v with Array l => mapM de l | _ => None end |}.

(** [Vec<serde_json::Value>] and friends keep the tree, each object becoming a
    map ordered by key in which the last of equal keys stands. *)
Fixpoint insert_member (k : string) (v : Value) (m : list (string * Value)) : list (string * Value) :=
  match m with
  | [] => [(k, v)]
  | (k', v') :: m' =>
      if (k =? k')%string then (k, v) :: m'
      else if String.leb k k' then (k, v) :: m else (k', v') :: insert_member k v m'
  end.
Fixpoint normalize (v : Value) : Value :=
  match v with
  | Array l => Array (map normalize l)
  | Object m =>
      Object ((fix go acc m := match m with
                               | [] => acc
                               | (k, x) :: m' => go (insert_member k (normalize x) acc) m'
                               end) [] m)
  | v => v
  end.
Definition de_value (v : Value) : option Value := Some (normalize v).

(** ** Reading back *)
Lemma mapM_inverse {A B} (f : A -> B) (g : B -> option A) (l : list A) :
  (forall a, a ∈ l -> g (f a) = Some a) -> mapM g (map f l) = Some l.
Proof.
  induction l as [|a l IH]; intros H; [done|]. simpl.
  rewrite H by left. simpl. by rewrite IH by (intros; apply H; by right).
Qed.
Section laws.
Context {JL : JsonNumberLaws JN}.

#[export] Instance string_law : SerdeLaw string (fun _ => True).
Proof. by intros s _. Qed.
#[export] Instance bool_law : SerdeLaw bool (fun _ => True).
Proof. by intros s _. Qed.
#[export] Instance u64_law : SerdeLaw u64 (fun _ => True).
Proof. intros u _. simpl. apply as_u64_from_u64. Qed.
#[export] Instance u16_law : SerdeLaw u16 (fun _ => True).
Proof.
  intros u _. cbn [de ser serde_u16]. rewrite as_u64_from_u64. cbn [mbind option_bind].
  rewrite u16_widen_val. apply uint_make_val.
Qed.
#[export] Instance f64_law : SerdeLaw f64 (fun v => is_finite v = true).
Proof.
  intros v Hv. destruct (from_f64_finite v Hv) as (n & Hn & Ha). simpl.
  unfold value_of_f64. by rewrite Hn.
Qed.
#[export] Instance i64_law : SerdeLaw Z (fun z => (- 2 ^ 63 <= z < 2 ^ 63)%Z).
Proof. intros z Hz. simpl. by apply as_i64_from_i64. Qed.
#[export] Instance list_law {A} `{Serde A} (fits : A -> Prop) `{!SerdeLaw A fits} :
  SerdeLaw (list A) (Forall fits).
Proof.
  intros l Hl. cbn [ser de serde_list]. apply mapM_inverse. intros a Ha.
  apply de_ser. by eapply Forall_forall in Ha.
Qed.
End laws.

(** ** Facts about members *)

(** Members of other names do not disturb a field. *)
Lemma slot_of_other {X} (m : list (string * X)) k x n :
  k <> n -> slot_of ((k, x) :: m) n = slot_of m n.
Proof. intros Hk. unfold slot_of. simpl. by apply String.eqb_neq in Hk as ->. Qed.

(** An object none of whose keys is a field leaves every field absent,
    unless unknown members are denied. *)
Lemma map_slots_unknown {X} names (m : list (string * X)) :
  forallb (fun kv => negb (known names kv.1)) m = true ->
  map_slots false names m = Some (replicate (length names) SlotAbsent).
Proof.
  intros Hm. unfold map_slots. simpl.
  assert (forall n, n ∈ names -> slot_of m n = Some SlotAbsent) as Hs.
  { intros n Hn. unfold slot_of. replace (List.filter _ m) with (@nil (string * X)); [done|].
    symmetry. induction m as [|[k x] m IH]; [done|]. simpl in *.
    apply andb_true_iff in Hm as [Hk Hm]. apply negb_true_iff in Hk.
    destruct (String.eqb_spec k n) as [->|]; [|by apply IH].
    exfalso. revert Hk. unfold known. rewrite <- not_true_iff_false. intros H. apply H.
    apply existsb_exists. exists n. rewrite <- list_elem_of_In. by rewrite String.eqb_refl. }
  clear Hm. induction names as [|n names IH]; [done|]. simpl.
  rewrite Hs by left. simpl. rewrite IH by (intros; apply Hs; by right). done.
Qed.

Lemma map_slots_denied {X} names (m : list (string * X)) k x :
  (k, x) ∈ m -> known names k = false -> map_slots true names m = None.
Proof.
  intros Hin Hk. unfold map_slots. simpl.
  assert (forallb (fun kv => known names kv.1) m = false) as ->; [|done].
  apply not_true_iff_false. rewrite forallb_forall. intros H.
  apply list_elem_of_In in Hin. specialize (H _ Hin). simpl in H. congruence.
Qed.

Lemma mapM_None_elem {A B} (f : A -> option B) l x : x ∈ l -> f x = None -> mapM f l = None.
Proof.
  intros Hx Hf. induction l as [|y l IH]; [by apply elem_of_nil in Hx|]. simpl.
  apply elem_of_cons in Hx as [<-|Hx]; [by rewrite Hf|].
  destruct (f y); simpl; [|done]. by rewrite IH.
Qed.

(** *** A written struct, read back field by field *)
Fixpoint distinct (l : list string) : bool :=
  match l with [] => true | x :: l' => negb (known l' x) && distinct l' end.

Lemma known_elem_of l x : known l x = true <-> x ∈ l.
Proof.
  unfold known. rewrite existsb_exists. setoid_rewrite <- list_elem_of_In. split.
  - by intros (y & Hy & ->%String.eqb_eq).
  - intros Hx. exists x. by rewrite String.eqb_refl.
Qed.
Lemma distinct_NoDup l : distinct l = true -> NoDup l.
Proof.
  induction l as [|x l IH]; cbn [distinct]; [constructor|].
  intros [Hx Hl]%andb_true_iff. constructor; [|by apply IH].
  rewrite <- known_elem_of. by apply negb_true_iff in Hx as ->.
Qed.

Lemma filter_key_nodup {X} (m : list (string * X)) k x :
  NoDup (map fst m) -> (k, x) ∈ m -> List.filter (fun kv => (kv.1 =? k)%string) m = [(k, x)].
Proof.
  induction m as [|[k' x'] m IH]; intros Hn Hin; [by apply elem_of_nil in Hin|].
  inversion Hn as [|?? Hk Hm]; subst. cbn [List.filter fst].
  destruct (String.eqb_spec k' k) as [->|Hne].
  - assert (List.filter (fun kv => (kv.1 =? k)%string) m = []) as ->.
    { clear -Hk. induction m as [|[k' y] m IH]; [done|]. cbn [List.filter fst map] in *.
      apply not_elem_of_cons in Hk as [Hk Hm]. destruct (String.eqb_spec k' k); [done|by apply IH]. }
    apply elem_of_cons in Hin as [[= ->]|Hin]; [done|].
    destruct Hk. by apply (list_elem_of_fmap_2' fst m (k, x)).
  - apply elem_of_cons in Hin as [[= -> ->]|Hin]; [done|]. by apply IH.
Qed.
Lemma filter_key_none {X} (m : list (string * X)) k :
  k ∉ map fst m -> List.filter (fun kv => (kv.1 =? k)%string) m = [].
Proof.
  induction m as [|[k' x] m IH]; [done|]. cbn [map fst List.filter].
  intros [Hk Hm]%not_elem_of_cons. destruct (String.eqb_spec k' k); [done|by apply IH].
Qed.

Lemma assoc_get_Some k (m : list (string * Value)) v : assoc_get k m = Some v -> (k, v) ∈ m.
Proof.
  induction m as [|[k' x] m IH]; [done|]. cbn [assoc_get].
  destruct (String.eqb_spec k' k) as [->|]; [intros [= ->]; left|right; auto].
Qed.
Lemma assoc_get_None k (m : list (string * Value)) : assoc_get k m = None -> k ∉ map fst m.
Proof.
  induction m as [|[k' x] m IH]; intros H Hin; [by apply elem_of_nil in Hin|].
  cbn [assoc_get map fst] in *. destruct (String.eqb_spec k' k) as [->|]; [done|].
  apply elem_of_cons in Hin as [->|Hin]; [done|]. by apply IH.
Qed.

Definition present (fields : list (string * Value)) (n : string) : Slot Value :=
  match assoc_get n fields with Some x => SlotIs x | None => SlotAbsent end.

(** The members in any order. *)
Lemma slots_object deny names fields m :
  m ≡ₚ fields -> distinct (map fst fields) = true -> forallb (known names) (map fst fields) = true ->
  struct_slots deny names (Object m) = Some (map (present fields) names).
Proof.
  intros Hp Hd%distinct_NoDup Hk. unfold struct_slots, map_slots.
  assert (forallb (fun kv => known names kv.1) m = true) as ->.
  { rewrite forallb_forall in Hk |- *. intros [k x] Hx%list_elem_of_In. apply Hk, list_elem_of_In.
    rewrite Hp in Hx. by apply (list_elem_of_fmap_2' fst fields (k, x)). }
  rewrite andb_false_r. clear Hk.
  assert (forall n, slot_of m n = Some (present fields n)) as Hs.
  { intros n. unfold slot_of, present.
    assert (NoDup (map fst m)) as Hn by (by rewrite (Permutation_map fst Hp)).
    destruct (assoc_get n fields) as [x|] eqn:E.
    - apply assoc_get_Some in E. rewrite <- Hp in E. by rewrite (filter_key_nodup _ n x Hn E).
    - apply assoc_get_None in E. rewrite filter_key_none; [done|].
      by rewrite (Permutation_map fst Hp). }
  induction names as [|n names IH]; [done|]. cbn [mapM map]. rewrite Hs. simpl. by rewrite IH.
Qed.
Lemma slots_ser_struct deny names fields :
  distinct (map fst fields) = true -> forallb (known names) (map fst fields) = true ->
  struct_slots deny names (ser_struct fields) = Some (map (present fields) names).
Proof. intros Hd Hk. by apply slots_object; [apply sort_by_perm|..]. Qed.

(** ** Trees that survive the text

    Null, strings, booleans, 64-bit numbers, and containers nested at most [d]
    deep.  (Floats are left out: their text is rounded.) *)
Inductive plain_value : nat -> Value -> Prop :=
  | pv_null d : plain_value d Null
  | pv_bool d b : plain_value d (Bool b)
  | pv_u64 d u : plain_value d (Number (from_u64 u))
  | pv_str d s : plain_value d (Str s)
  | pv_array d l : Forall (plain_value d) l -> plain_value (S d) (Array l)
  | pv_object d m : Forall (fun kv => plain_value d kv.2) m -> NoDup (map fst m) ->
      plain_value (S d) (Object m).

Lemma plain_mono d d' v : plain_value d v -> d <= d' -> plain_value d' v.
Proof.
  revert d d'. induction v as [|b|n|s|l IH|m IH] using Value_nested_ind;
    intros d d' Hv Hd; inversion Hv; subst; try by constructor.
  - destruct d' as [|d']; [lia|]. constructor. rewrite Forall_forall in *. intros x Hx.
    eapply IH; [done|by eauto|lia].
  - destruct d' as [|d']; [lia|]. constructor; [|done]. rewrite Forall_forall in *. intros x Hx.
    eapply IH; [done|by eauto|lia].
Qed.

Lemma plain_array {A} (f : A -> Value) d (l : list A) :
  (forall a, plain_value d (f a)) -> plain_value (S d) (Array (map f l)).
Proof. intros Hf. constructor. apply Forall_forall. intros v (a & -> & _)%list_elem_of_fmap. apply Hf. Qed.

Lemma plain_option {A} (f : A -> Value) d (o : option A) :
  (forall a, plain_value d (f a)) -> plain_value d (ser_option f o).
Proof. intros Hf. destruct o; simpl; [apply Hf|constructor]. Qed.

(** A struct with distinct keys. *)
Lemma plain_struct d fields :
  Forall (fun kv => plain_value d kv.2) fields -> distinct (map fst fields) = true ->
  plain_value (S d) (ser_struct fields).
Proof.
  intros Hf Hn%distinct_NoDup. pose proof (sort_by_perm fst fields) as Hp. constructor.
  - by rewrite Hp.
  - by rewrite (Permutation_map fst Hp).
Qed.
End serde.

(** A written struct read back: its slots, then each field by its law. *)
Ltac fields :=
  rewrite slots_ser_struct by done;
  cbn [map present assoc_get String.eqb Ascii.eqb Bool.eqb field_req field_default].

#[export] Hint Constructors plain_value : serde.
#[export] Hint Resolve plain_array plain_option : serde.

(** ** JSON text

    [print_json] is [to_vec] of a [Value]; [parse_json] the reader, which
    accepts 127 nested containers; [data_error] the message about a tree that
    is not of the wanted type. *)
Class JsonText `{JN : JsonNumber} := {
  print_json : Value -> string;
  parse_json : string -> string + Value;
  data_error : Value -> string
}.
(** Documented: the reader reads what the writer wrote. *)
Class JsonTextLaw `{JN : JsonNumber} (JT : JsonText) : Prop :=
  parse_print v : plain_value 127 v -> parse_json (print_json v) = inr v.

(** [from_slice] and [from_str] at a type. *)
Definition from_text `{JN : JsonNumber} {JT : JsonText} {A} (f : Value -> option A) (text : string)
    : string + A :=
  match parse_json text with
  | inl e => inl e
  | inr v => match f v with Some a => inr a | None => inl (data_error v) end
  end.

Lemma from_text_print `{JN : JsonNumber} {JT : JsonText} {JTL : JsonTextLaw JT} {A}
    (f : Value -> option A) v a :
  plain_value 127 v -> f v = Some a -> from_text f (print_json v) = inr a.
Proof. intros Hv Hf. unfold from_text. by rewrite parse_print, Hf. Qed.

(** *** A concrete text, for evaluation: the bits of the tree's code *)
Module TextEx.
(** The leaves of the tree. *)
Definition leaf : Type := option (bool + (bool * Z) + string + (string + unit)).
Definition vtree := gen_tree leaf.
Fixpoint code (v : Value (JN := model_number)) : vtree :=
  match v with
  | Null => GenLeaf None
  | Bool b => GenLeaf (Some (inl (inl (inl b))))
  | Number (PosInt z) => GenLeaf (Some (inl (inl (inr (true, z)))))
  | Number (NegInt z) => GenLeaf (Some (inl (inl (inr (false, z)))))
  | Number (FloatNum _) => GenLeaf (Some (inr (inr tt)))
  | Str s => GenLeaf (Some (inl (inr s)))
  | Array l => GenNode 0 (map code l)
  | Object m => GenNode 1 (map (fun kv => GenNode 2 [GenLeaf (Some (inr (inl kv.1))); code kv.2]) m)
  end.
Fixpoint uncode (t : vtree) : Value (JN := model_number) :=
  match t with
  | GenLeaf None => Null
  | GenLeaf (Some (inl (inl (inl b)))) => Bool b
  | GenLeaf (Some (inl (inl (inr (true, z))))) => Number (JN := model_number) (PosInt z)
  | GenLeaf (Some (inl (inl (inr (false, z))))) => Number (JN := model_number) (NegInt z)
  | GenLeaf (Some (inl (inr s))) => Str s
  | GenLeaf (Some (inr _)) => Null
  | GenNode 0 l => Array (map uncode l)
  | GenNode _ l =>
      Object (map (fun t => match t with
                            | GenNode _ [GenLeaf (Some (inr (inl k))); x] => (k, uncode x)
                            | _ => ("", Null)
                            end) l)
  end.
Lemma uncode_code d v : plain_value d v -> uncode (code v) = v.
Proof.
  revert d. induction v as [|b|n|s|l IH|m IH] using Value_nested_ind; intros d Hv;
    inversion Hv; subst; simpl; try done.
  - f_equal. rewrite map_map. rewrite <- (map_id l) at 2. apply map_ext_Forall.
    rewrite Forall_forall in *. intros x Hx. eapply IH; [done|]. eauto.
  - f_equal. rewrite map_map. rewrite <- (map_id m) at 2. apply map_ext_Forall.
    rewrite Forall_forall in *. intros [k x] Hx. f_equal. eapply (IH (k, x)); [done|].
    match goal with H : forall x, _ -> plain_value _ _ |- _ => exact (H _ Hx) end.
Qed.

#[global] Instance bits_text : JsonText (JN := model_number) := {|
  print_json v := pos_bits (encode (code v));
  parse_json s := match decode (bits_pos s) with Some t => inr (uncode t) | None => inl "syntax" end;
  data_error _ := "data"
|}.
#[global] Instance bits_text_law : JsonTextLaw bits_text.
Proof.
  intros v Hv. cbn [parse_json print_json bits_text].
  by rewrite bits_pos_bits, decode_encode, (uncode_code _ _ Hv).
Qed.
End TextEx.
