(* ===== verification/Media.v ===== *)
(** * Media: codecs, capture devices and encode pipelines
      ([src/codec.rs], [src/device.rs], [src/media.rs])

    The selection and validation around the video path: the codec's names, the
    checks on a capture device, the text of the GStreamer pipeline, the start
    and stop of a pipeline, the sample callback, and what [--video-peer]
    starts.  The file system and GStreamer are outcomes of their calls. *)
From S2P Require Import Prelude Json Serde.

(** ** [codec.rs] *)
Module CodecSel.
Inductive Codec := H264.
Definition Codec_default : Codec := H264.

Definition codec_from_str (s : string) : res string Codec :=
  let other := to_ascii_lowercase s in
  if (other =? "h264")%string then Ok H264
  else Err ("unsupported --video-codec '" +:+ other +:+ "' (v1 supports: h264)").

Definition codec_name (c : Codec) : string := match c with H264 => "h264" end.
#[export] Instance serde_codec `{JN : JsonNumber} : Serde Codec := {|
  ser c := Str (codec_name c);
  de := de_unit_enum [("h264", H264)] |}.

(** [mime_h264] is the [rtc] crate's constant. *)
Record CodecParameters := mkCodecParameters {
  mime_type : string; clock_rate : u32; channels : u16; sdp_fmtp_line : string; payload_type : N
}.
Definition h264_codec_parameters (mime_h264 : string) : CodecParameters :=
  mkCodecParameters mime_h264 (uint_wrap 32 90000) (uint_wrap 16 0)
    "level-asymmetry-allowed=1;packetization-mode=1" 102.

(** The command line reads any case, the derived format lower case only. *)
Theorem codec_names `{JN : JsonNumber} (s : string) :
  (codec_from_str s = Ok H264 <-> to_ascii_lowercase s = "h264") /\
  (de (Str s) = Some H264 <-> s = "h264") /\
  (forall c, codec_from_str (codec_name c) = Ok c /\ de (ser c) = Some c).
Proof.
  split; [|split].
  - unfold codec_from_str. destruct (String.eqb_spec (to_ascii_lowercase s) "h264"); split; congruence.
  - simpl. destruct (String.eqb_spec s "h264"); split; congruence.
  - by intros [].
Qed.
End CodecSel.

(** ** [device.rs] *)
Module Device.
Record VideoDevice := mkDevice { dev_path : string }.
Inductive DeviceValidationError :=
  | DeviceNotFound (p : string)
  | DeviceIo (p : string) (e : string)
  | NotACharacterDevice (p : string).

(** [Error::source]: only the I/O variant wraps another error. *)
Definition error_source (e : DeviceValidationError) : option string :=
  match e with DeviceIo _ e => Some e | _ => None end.
Definition fmt_device_error (e : DeviceValidationError) : string :=
  match e with
  | DeviceNotFound p => "video device not found: " +:+ p
  | DeviceIo p e => "could not stat video device " +:+ p +:+ ": " +:+ e
  | NotACharacterDevice p =>
      p +:+ " is not a usable V4L2 video device (expected a /dev/videoN char device)"
  end.

(** [Path::file_name]: the last component, unless it is [..]; empty components
    and [.] do not count. *)
Definition path_components (p : string) : list string :=
  List.filter (fun w => negb (w =? "")%string && negb (w =? ".")%string) (split_on slash p).
Definition file_name (p : string) : option string :=
  match last (path_components p) with
  | Some w => if (w =? "..")%string then None else Some w
  | None => None
  end.

Section device.
(** [Path::exists], and [metadata] with [is_char_device] of its type. *)
Context (path_exists : string -> bool) (metadata : string -> string + bool).

Definition from_path (candidate : string) : res DeviceValidationError VideoDevice :=
  if negb (path_exists candidate) then Err (DeviceNotFound candidate)
  else match metadata candidate with
  | inl e => Err (DeviceIo candidate e)
  | inr is_char =>
      let name := default "" (file_name candidate) in
      let looks_like_video := starts_with "video" name && is_char in
      if negb looks_like_video then Err (NotACharacterDevice candidate)
      else Ok (mkDevice candidate)
  end.

Lemma from_path_device p d : from_path p = Ok d -> d = mkDevice p.
Proof.
  unfold from_path. destruct (path_exists p); [cbn [negb]|done].
  destruct (metadata p); [done|]. destruct (_ && _); [|done]. by intros [= <-].
Qed.
Lemma from_path_ok p :
  is_ok (from_path p) = true <->
  path_exists p = true /\ metadata p = inr true /\
  exists name, file_name p = Some name /\ starts_with "video" name = true.
Proof.
  unfold from_path. destruct (path_exists p); cbn [negb]; [|split; [done|by intros [? _]]].
  destruct (metadata p) as [msg|c]; [split; [done|by intros (_ & ? & _)]|].
  destruct (file_name p) as [name|]; cbn [default from_option id].
  - destruct (starts_with "video" name) eqn:Hs, c; cbn [andb negb]; split; try done; eauto;
      intros (_ & Hc & n & [= <-] & Hn); congruence.
  - change (starts_with "video" "") with false. split; [done|by intros (_ & _ & n & ? & _)].
Qed.

(** A capture device is accepted exactly when it exists, its metadata can be
    read, it is a character device and the last component of its path starts
    with [video] - wherever it lies; the device is the path as given.
    Otherwise the error names the first check that failed. *)
Theorem device_accepted_exactly (p : string) :
  (is_ok (from_path p) = true <->
     path_exists p = true /\ metadata p = inr true /\
     exists name, file_name p = Some name /\ starts_with "video" name = true) /\
  (forall d, from_path p = Ok d -> d = mkDevice p) /\
  (forall e, from_path p = Err e ->
     match e with
     | DeviceNotFound q => q = p /\ path_exists p = false
     | DeviceIo q msg => q = p /\ path_exists p = true /\ metadata p = inl msg
     | NotACharacterDevice q => q = p /\ path_exists p = true /\ exists c, metadata p = inr c
     end) /\
  is_panic (from_path p) = false.
Proof.
  split; [apply from_path_ok|]. split; [apply from_path_device|].
  unfold from_path. destruct (path_exists p) eqn:He; cbn [negb]; [|by split; [intros e [= <-]|]].
  destruct (metadata p) as [msg|c] eqn:Hm; [by split; [intros e [= <-]|]|].
  destruct (_ && _); cbn [negb]; split; try done. intros e [= <-]. eauto.
Qed.
End device.
End Device.
Import CodecSel Device.

(** ** [media.rs] *)
Inductive SourceSpec := Videotest | V4l2 (dev : string).

(** [VideoDevice::to_source_spec] *)
Definition to_source_spec (d : VideoDevice) : SourceSpec := V4l2 (dev_path d).

Definition encoder_element_name (has_nvenc : bool) : string :=
  if has_nvenc then "nvv4l2h264enc" else "x264enc".

Definition show_u32 (n : u32) : string := pretty (uint_val n).

Definition source_desc (source : SourceSpec) (width height fps : u32) : string :=
  match source with
  | Videotest => "videotestsrc is-live=true pattern=ball"
  | V4l2 dev => "v4l2src device=" +:+ dev
  end +:+ " ! video/x-raw,format=NV12,width=" +:+ show_u32 width +:+ ",height=" +:+ show_u32 height
  +:+ ",framerate=" +:+ show_u32 fps +:+ "/1".

Definition pipeline_desc (source : SourceSpec) (width height fps : u32) (has_nvenc : bool) : string :=
  source_desc source width height fps +:+ " ! videoconvert ! " +:+ encoder_element_name has_nvenc
  +:+ " ! h264parse ! appsink name=enc drop=true max-buffers=2".

(** The states of a pipeline that the code sets. *)
Inductive GstState := GstNull | GstPlaying.
Record MediaPipeline := mkPipeline { mp_desc : string; mp_state : GstState; mp_connected : bool }.

(** The outcomes of the GStreamer calls. *)
Record Gst := mkGst {
  gst_init : string + unit;
  gst_nvenc : bool;
  gst_launch : string -> string + bool;    (** [true]: the element is a [Pipeline] *)
  gst_appsink : option bool;               (** element [enc]; [true]: it is an [AppSink] *)
  gst_play : string + unit
}.

(** Errors carry the outermost [context]. *)
Definition build_pipeline (g : Gst) (source : SourceSpec) (width height fps : u32)
    : res string MediaPipeline :=
  match gst_init g with
  | inl _ => Err "gstreamer init"
  | inr _ =>
      let desc := pipeline_desc source width height fps (gst_nvenc g) in
      match gst_launch g desc with
      | inl _ => Err "parse_launch media pipeline"
      | inr false => Err "media pipeline is not a Pipeline"
      | inr true => Ok (mkPipeline desc GstNull false)
      end
  end.

Definition start_pipeline (g : Gst) (p : MediaPipeline) : res string MediaPipeline :=
  match gst_appsink g with
  | None => Err "appsink 'enc' missing"
  | Some false => Err "'enc' is not an AppSink"
  | Some true =>
      match gst_play g with
      | inl _ => Err "set pipeline to Playing"
      | inr _ => Ok (mkPipeline (mp_desc p) GstPlaying true)
      end
  end.

Definition stop_pipeline (p : MediaPipeline) : MediaPipeline :=
  mkPipeline (mp_desc p) GstNull (mp_connected p).

(** The [new_sample] callback: the frames it hands on.  [pull] is the pulled
    sample, with its buffer and the buffer's bytes when it maps. *)
Definition new_sample (pull : string + option (option string)) : list string :=
  match pull with
  | inl _ => []
  | inr (Some (Some bytes)) => [bytes]
  | inr _ => []
  end.

(** ** [spawn_video_peer]: what [--video-peer] starts

    [None]: nothing is spawned.  A device that fails validation is replaced by
    the test pattern. *)
Record VideoArgs := mkVideoArgs {
  va_peer : option string; va_device : option string; va_codec : Codec; va_self_test : bool
}.
Definition VideoArgs_default : VideoArgs := mkVideoArgs None None Codec_default false.

Section spawn.
Context (path_exists : string -> bool) (metadata : string -> string + bool).

Definition video_source (device : option string) : SourceSpec :=
  match device with
  | Some d =>
      match from_path path_exists metadata d with
      | Ok dev => to_source_spec dev
      | _ => Videotest
      end
  | None => Videotest
  end.

Definition spawn_video_peer (media : bool) (args : VideoArgs) : option (string * SourceSpec) :=
  match va_peer args with
  | None => None
  | Some peer => if media then Some (peer, video_source (va_device args)) else None
  end.

(** What the answering side streams back: nothing without a usable device. *)
Definition signaling_source (device : option string) : option SourceSpec :=
  match device with
  | Some d =>
      match from_path path_exists metadata d with Ok dev => Some (to_source_spec dev) | _ => None end
  | None => None
  end.

(** An unusable device never stops the call: it is made with the test
    pattern; the codec and the self-test flag change nothing.  The answering side of the
    same process streams only from a usable device. *)
Theorem video_call_source (args : VideoArgs) (peer : string) :
  va_peer args = Some peer ->
  spawn_video_peer true args =
    Some (peer, match va_device args with
                | Some d => if is_ok (from_path path_exists metadata d) then V4l2 d else Videotest
                | None => Videotest
                end) /\
  spawn_video_peer false args = None /\
  signaling_source (va_device args) =
    match va_device args with
    | Some d => if is_ok (from_path path_exists metadata d) then Some (V4l2 d) else None
    | None => None
    end.
Proof.
  intros Hp. unfold spawn_video_peer, video_source, signaling_source. rewrite Hp.
  destruct (va_device args) as [d|]; [|done].
  destruct (from_path path_exists metadata d) as [dev|e|w] eqn:E; [|done..].
  all: split; [|split]; try done; by apply from_path_device in E as ->.
Qed.
End spawn.
