(* ===== verification/Video.v ===== *)
(** * Video: the peer of one WebRTC call ([src/video.rs])

    [VideoPeer]: how a caller and a responder are built, the callbacks of the
    [SignalHandler] and the tasks they spawn, which suspend at every call of
    the peer connection and may run in any order; the relay of candidates; the
    capture pipeline of a call.  The peer connection is webrtc's: a class with
    the documented signalling states (the JSEP machine) as its laws. *)
From S2P Require Import Prelude Json Rules Topic Auth Registration Transport Signaling Media.
From Stdlib Require Import SpecFloat.
Import CodecSel.

(** ** Tracks and their source identifiers *)
Record Track := mkTrack {
  track_stream : string; track_id : string; track_label : string; track_ssrc : u32;
  track_codec : CodecParameters
}.

(** [NEXT_SSRC] and its [fetch_add(1)], which wraps. *)
Definition NEXT_SSRC : u32 := uint_wrap 32 0x51000000.
Definition fetch_add (n : u32) : u32 * u32 := (n, uint_wrap 32 (uint_val n + 1)).

(** The track and the counter after it. *)
Definition h264_track (mime_h264 : string) (counter : u32) (id stream_id : string) : Track * u32 :=
  let '(ssrc, counter') := fetch_add counter in
  (mkTrack stream_id id "flo-h264" ssrc (h264_codec_parameters mime_h264), counter').

(** ** The peer connection *)
Inductive SdpType := SdpOffer | SdpAnswer.
Record SessionDescription := mkDesc { sdp_type : SdpType; sdp_text : string }.
(** [RTCIceCandidateInit] with no user-name fragment and no URL. *)
Record IceInit := mkIceInit {
  init_candidate : string; init_sdp_mid : option string; init_mline : option u16
}.
Inductive SignalingState := Stable | HaveLocalOffer | HaveRemoteOffer.

(** The signalling machine of JSEP, without rollback and provisional answers. *)
Definition jsep (local : bool) (t : SdpType) (s : SignalingState) : option SignalingState :=
  match local, t, s with
  | true, SdpOffer, (Stable | HaveLocalOffer) => Some HaveLocalOffer
  | true, SdpAnswer, HaveRemoteOffer => Some Stable
  | false, SdpOffer, (Stable | HaveRemoteOffer) => Some HaveRemoteOffer
  | false, SdpAnswer, HaveLocalOffer => Some Stable
  | _, _, _ => None
  end.

Class PeerConn := {
  conn : Type;
  register_codec : CodecParameters -> string + unit;
  new_peer_connection : CodecParameters -> string + conn;
  add_track : conn -> Track -> string + conn;
  parse_sdp : SdpType -> string -> string + SessionDescription;
  create_offer : conn -> string + SessionDescription;
  create_answer : conn -> string + SessionDescription;
  set_local : conn -> SessionDescription -> string + conn;
  set_remote : conn -> SessionDescription -> string + conn;
  add_ice : conn -> IceInit -> string + conn;
  sig_state : conn -> SignalingState;
  remote_sdp : conn -> option string
}.
(** Documented: descriptions move the connection along the machine or fail;
    only a remote description sets the remote description. *)
Class PeerConnLaws (P : PeerConn) : Prop := {
  new_stable p c : new_peer_connection p = inr c -> sig_state c = Stable /\ remote_sdp c = None;
  add_track_keeps c t c' : add_track c t = inr c' ->
    sig_state c' = sig_state c /\ remote_sdp c' = remote_sdp c;
  add_ice_keeps c i c' : add_ice c i = inr c' ->
    sig_state c' = sig_state c /\ remote_sdp c' = remote_sdp c;
  parse_sdp_desc t s d : parse_sdp t s = inr d -> d = mkDesc t s;
  offer_type c d : create_offer c = inr d -> sdp_type d = SdpOffer;
  answer_type c d : create_answer c = inr d -> sdp_type d = SdpAnswer /\ sig_state c = HaveRemoteOffer;
  set_local_jsep c d c' : set_local c d = inr c' ->
    jsep true (sdp_type d) (sig_state c) = Some (sig_state c') /\ remote_sdp c' = remote_sdp c;
  set_remote_jsep c d c' : set_remote c d = inr c' ->
    jsep false (sdp_type d) (sig_state c) = Some (sig_state c') /\ remote_sdp c' = Some (sdp_text d)
}.
(** A connection and what remote candidates make of it. *)
Inductive after_ice {P : PeerConn} (c : conn) : conn -> Prop :=
  | after_none : after_ice c c
  | after_one i c1 c2 : after_ice c c1 -> add_ice c1 i = inr c2 -> after_ice c c2.

(** One offer/answer exchange between two connections, in the order the
    library documents, with candidates in between: a description a connection
    created parses; a connection without a remote description takes such an
    offer, then creates an answer to it, and takes that as its own; the
    connection that made the offer takes the answer to it.  Nothing is said
    of other texts and of calls out of that order. *)
Class PeerConnNegotiates (P : PeerConn) : Prop := {
  neg_parse_offer c d : create_offer c = inr d -> parse_sdp SdpOffer (sdp_text d) = inr d;
  neg_parse_answer c d : create_answer c = inr d -> parse_sdp SdpAnswer (sdp_text d) = inr d;
  neg_take_offer c0 d c : create_offer c0 = inr d -> sig_state c = Stable -> remote_sdp c = None ->
    exists c', set_remote c d = inr c';
  neg_answer c0 d c c1 c2 : create_offer c0 = inr d -> set_remote c d = inr c1 -> after_ice c1 c2 ->
    exists e, create_answer c2 = inr e;
  neg_own_answer c e c1 : create_answer c = inr e -> after_ice c c1 -> exists c2, set_local c1 e = inr c2;
  neg_take_answer c0 d c1 c2 c e : create_offer c0 = inr d -> set_local c0 d = inr c1 -> after_ice c1 c2 ->
    create_answer c = inr e -> remote_sdp c = Some (sdp_text d) -> exists c3, set_remote c2 e = inr c3
}.

Lemma after_ice_keeps {P : PeerConn} {PL : PeerConnLaws P} c c' :
  after_ice c c' -> sig_state c' = sig_state c /\ remote_sdp c' = remote_sdp c.
Proof.
  induction 1 as [|i c1 c2 _ [IH1 IH2] Ha]; [done|]. apply add_ice_keeps in Ha as [-> ->]. by split.
Qed.

Section video.
Context `{JN : JsonNumber} {SW : SignalWire} {P : PeerConn}.
(** The codec's name, and the transport's answer to a put. *)
Context (mime_h264 : string) (put : Put -> string + unit).

(** ** State

    [vp_tasks] are the spawned tasks, each suspended before its next call;
    [vp_sent] is what they have published. *)
Inductive VideoTask :=
  | SetAnswer (d : SessionDescription)
  | AddIce (i : IceInit)
  | SetOffer (from : string) (d : SessionDescription)
  | CreateAnswer (from : string)
  | SetLocalAnswer (from : string) (d : SessionDescription)
  | PublishAnswer (from : string) (d : SessionDescription).

Record VideoPeer := mkVideoPeer {
  vp_robot : string; vp_conn : conn; vp_track : Track; vp_tasks : list VideoTask; vp_sent : list Put
}.

Definition ctx {A} (msg : string) (r : string + A) : res string A :=
  match r with inr a => Ok a | inl _ => Err msg end.

(** ** Building a peer

    Errors carry the outermost [context]; the counter moves even when adding
    the track fails. *)
Definition build (counter : u32) (robot_id : string) : res string (conn * Track) * u32 :=
  let codec := h264_codec_parameters mime_h264 in
  match ctx "register h264 codec" (register_codec codec) with
  | Ok _ =>
      match ctx "new_peer_connection" (new_peer_connection codec) with
      | Ok c =>
          let '(track, counter') :=
            h264_track mime_h264 counter (robot_id +:+ "-cam0") (robot_id +:+ "-stream0") in
          (c' ← ctx "add_track" (add_track c track); Ok (c', track), counter')
      | Err e => (Err e, counter)
      | Panic w => (Panic w, counter)
      end
  | Err e => (Err e, counter)
  | Panic w => (Panic w, counter)
  end.

(** [publish(..).await.map_err(|e| anyhow!("publish_offer: {e}"))] *)
Definition send (what : string) (p : res string Put) : res string Put :=
  map_err (fun e => what +:+ e) (p ← p; match put p with inr _ => Ok p | inl e => Err e end).

Definition offer (counter : u32) (robot_id peer_id : string) : res string VideoPeer * u32 :=
  let '(b, counter') := build counter robot_id in
  (ct ← b;
   let '(c, track) := ct in
   d ← ctx "create_offer" (create_offer c);
   c ← ctx "set_local_description" (set_local c d);
   p ← send "publish_offer: " (publish_offer robot_id peer_id (sdp_text d) []);
   mret (mkVideoPeer robot_id c track [] [p]), counter').

Definition answer (counter : u32) (robot_id : string) : res string VideoPeer * u32 :=
  let '(b, counter') := build counter robot_id in
  (ct ← b; let '(c, track) := ct in mret (mkVideoPeer robot_id c track [] []), counter').

(** ** The callbacks: parse, then spawn *)
Definition with_conn (v : VideoPeer) (c : conn) : VideoPeer :=
  mkVideoPeer (vp_robot v) c (vp_track v) (vp_tasks v) (vp_sent v).
Definition spawn_task (v : VideoPeer) (t : VideoTask) : VideoPeer :=
  mkVideoPeer (vp_robot v) (vp_conn v) (vp_track v) (vp_tasks v ++ [t]) (vp_sent v).

Definition ice_init (c : IceCandidate) : IceInit := mkIceInit (candidate c) (sdp_mid c) (mline_index c).

Definition peer_callback (v : VideoPeer) (cb : Callback) : VideoPeer :=
  match cb with
  | OnAnswer _ msg =>
      match parse_sdp SdpAnswer (sig_sdp msg) with inr d => spawn_task v (SetAnswer d) | inl _ => v end
  | OnIce _ c => spawn_task v (AddIce (ice_init c))
  | OnOffer from msg =>
      match parse_sdp SdpOffer (sig_sdp msg) with inr d => spawn_task v (SetOffer from d) | inl _ => v end
  end.

(** ** The tasks: one call each, warnings end them *)
Definition run_video_task (v : VideoPeer) (t : VideoTask) : VideoPeer :=
  match t with
  | SetAnswer d => match set_remote (vp_conn v) d with inr c => with_conn v c | inl _ => v end
  | AddIce i => match add_ice (vp_conn v) i with inr c => with_conn v c | inl _ => v end
  | SetOffer from d =>
      match set_remote (vp_conn v) d with
      | inr c => spawn_task (with_conn v c) (CreateAnswer from)
      | inl _ => v
      end
  | CreateAnswer from =>
      match create_answer (vp_conn v) with inr d => spawn_task v (SetLocalAnswer from d) | inl _ => v end
  | SetLocalAnswer from d =>
      match set_local (vp_conn v) d with
      | inr c => spawn_task (with_conn v c) (PublishAnswer from d)
      | inl _ => v
      end
  | PublishAnswer from d =>
      match send "" (publish_answer (vp_robot v) from (sdp_text d) []) with
      | Ok p => mkVideoPeer (vp_robot v) (vp_conn v) (vp_track v) (vp_tasks v) (vp_sent v ++ [p])
      | _ => v
      end
  end.

Inductive VideoAct := VCall (cb : Callback) | VRun (i : nat).
Definition video_step (v : VideoPeer) (a : VideoAct) : VideoPeer :=
  match a with
  | VCall cb => peer_callback v cb
  | VRun i =>
      match vp_tasks v !! i with
      | Some t => run_video_task
          (mkVideoPeer (vp_robot v) (vp_conn v) (vp_track v) (delete i (vp_tasks v)) (vp_sent v)) t
      | None => v
      end
  end.
Definition video_run (v : VideoPeer) (l : list VideoAct) : VideoPeer := foldl video_step v l.

(** ** Relaying candidates: [VideoHandler::on_ice_candidate]

    [init] is [to_json] of the event's candidate. *)
Definition on_ice_candidate (robot_id peer_id : string) (init : string + IceInit) : option Put :=
  match init with
  | inl _ => None
  | inr i =>
      match publish_ice robot_id peer_id (mkIce (init_candidate i) (init_sdp_mid i) (init_mline i)) with
      | Ok p => match put p with inr _ => Some p | inl _ => None end
      | _ => None
      end
  end.
End video.
Arguments VideoPeer {P}.

(** ** Capture *)
Section capture.
Context `{JN : JsonNumber} {SW : SignalWire} {P : PeerConn}.
Context (mime_h264 : string) (put : Put -> string + unit).

(** [ch_duration]: the seconds one frame lasts. *)
Record CaptureHandle := mkCapture {
  ch_pipeline : MediaPipeline; ch_ssrc : u32; ch_payload : N; ch_duration : f64
}.

Definition frame_duration (fps : u32) : f64 :=
  SFdiv 53 1024 (f64_of_Z 1) (f64_of_Z (Z.max (Z.of_N (uint_val fps)) 1)).

(** [rt]: a runtime is current; [codecs]: the payload types of the sender's
    negotiated codecs. *)
Definition start_capture (rt : bool) (g : Gst) (codecs : string + list N) (peer : VideoPeer)
    (source : SourceSpec) (width height fps : u32) : res string CaptureHandle :=
  if negb rt then Err "start_capture requires a tokio runtime"
  else
    pipeline ← build_pipeline g source width height fps;
    match codecs with
    | inl e => Err e
    | inr l =>
        let payload := match l with t :: _ => t | [] => payload_type (h264_codec_parameters mime_h264) end in
        pipeline ← start_pipeline g pipeline;
        mret (mkCapture pipeline (track_ssrc (vp_track peer)) payload (frame_duration fps))
    end.

(** What becomes of the pipeline: [drop] stops it, [detach] forgets it. *)
Definition drop_capture (h : CaptureHandle) : MediaPipeline := stop_pipeline (ch_pipeline h).
Definition detach (h : CaptureHandle) : MediaPipeline := ch_pipeline h.

(** [start_video_with_source]: the peer and its receiver's tasks, and the
    pipeline left running; a capture that fails is only logged. *)
Definition start_video_with_source (counter : u32) (rt : bool) (g : Gst) (codecs : string + list N)
    (sub : Pattern -> string + unit) (robot_id peer_id : string) (source : SourceSpec)
    : res string (VideoPeer * option MediaPipeline * list (Pattern * (string -> list Callback))) :=
  peer ← (offer mime_h264 put counter robot_id peer_id).1;
  let running :=
    match start_capture rt g codecs peer source (uint_wrap 32 1280) (uint_wrap 32 720) (uint_wrap 32 30) with
    | Ok h => Some (detach h)
    | _ => None
    end in
  tasks ← map_err (fun e => "signal receiver: " +:+ e) (run_signal_receiver sub robot_id);
  mret (peer, running, tasks).

End capture.

(** ** Properties *)
Section properties.
Context `{JN : JsonNumber} {SW : SignalWire} {P : PeerConn} {PL : PeerConnLaws P}.
Context (mime_h264 : string) (put : Put -> string + unit).

(** The source identifier of the [i]-th track the process builds. *)
Definition ssrc_nth (i : N) : u32 := N.iter i (fun n => (fetch_add n).2) NEXT_SSRC.

Lemma fetch_add_val n : uint_val (fetch_add n).2 = ((uint_val n + 1) mod 2 ^ 32)%N.
Proof. done. Qed.
Lemma ssrc_nth_val i : uint_val (ssrc_nth i) = ((0x51000000 + i) mod 2 ^ 32)%N.
Proof.
  unfold ssrc_nth. induction i as [|i IH] using N.peano_ind; [done|].
  rewrite N.iter_succ, fetch_add_val, IH, N.Div0.add_mod_idemp_l. f_equal. lia.
Qed.

#[local] Ltac Zify.zify_post_hook ::= Z.to_euclidean_division_equations.

(** Source identifiers of one process: the [i]-th track's is
    [0x51000000 + i] modulo [2^32], so two tracks share one exactly when
    their numbers differ by a multiple of [2^32]; none repeats among any
    [2^32] consecutive tracks. *)
Theorem ssrc_distinct (i j : N) :
  uint_val (ssrc_nth i) = ((0x51000000 + i) mod 2 ^ 32)%N /\
  (ssrc_nth i = ssrc_nth j <-> (i mod 2 ^ 32 = j mod 2 ^ 32)%N) /\
  ((i < j)%N -> (j - i < 2 ^ 32)%N -> ssrc_nth i <> ssrc_nth j).
Proof.
  assert (forall a b, ssrc_nth a = ssrc_nth b <-> (a mod 2 ^ 32 = b mod 2 ^ 32)%N) as Hinj.
  { intros a b. transitivity ((0x51000000 + a) mod 2 ^ 32 = (0x51000000 + b) mod 2 ^ 32)%N.
    - rewrite <- !ssrc_nth_val. split; [congruence|apply uint_eq].
    - change (2 ^ 32)%N with 4294967296%N. split; intros; lia. }
  split; [apply ssrc_nth_val|]. split; [apply Hinj|].
  intros Hlt Hd H%Hinj. change (2 ^ 32)%N with 4294967296%N in *. nia.
Qed.

(** *** The caller *)
Definition ignorable (t : VideoTask) : bool :=
  match t with AddIce _ => true | SetOffer _ d => match sdp_type d with SdpOffer => true | _ => false end | _ => false end.
Definition waiting (v : VideoPeer) (sent : list Put) : Prop :=
  sig_state (vp_conn v) = HaveLocalOffer /\ vp_sent v = sent /\
  forallb ignorable (vp_tasks v) = true.

Lemma forallb_delete {A} (f : A -> bool) i l : forallb f l = true -> forallb f (delete i l) = true.
Proof.
  revert i. induction l as [|x l IH]; intros [|i]; simpl; try done; intros [Hx Hl]%andb_true_iff; [done|].
  by rewrite Hx, IH.
Qed.
Lemma forallb_pick {A} (f : A -> bool) i l x : forallb f l = true -> l !! i = Some x -> f x = true.
Proof. intros Hf Hx. rewrite forallb_forall in Hf. by apply Hf, list_elem_of_In, (list_elem_of_lookup_2 _ i). Qed.

Lemma waiting_step v sent a :
  match a with VCall (OnAnswer _ _) => False | _ => True end ->
  waiting v sent -> waiting (video_step put v a) sent.
Proof.
  intros Ha (Hs & Hp & Ht). destruct a as [[from msg|from msg|from c]|i]; cbn [video_step peer_callback].
  - destruct (parse_sdp SdpOffer (sig_sdp msg)) as [|d] eqn:E; [done|]. apply parse_sdp_desc in E as ->.
    split; [done|]. split; [done|]. cbn [spawn_task vp_tasks]. by rewrite forallb_app, Ht.
  - done.
  - split; [done|]. split; [done|]. cbn [spawn_task vp_tasks]. by rewrite forallb_app, Ht.
  - destruct (vp_tasks v !! i) as [t|] eqn:E; [|done].
    pose proof (forallb_pick _ _ _ _ Ht E) as Hi. pose proof (forallb_delete _ i _ Ht) as Hd.
    destruct t as [d|c|from d|from|from d|from d]; try done; cbn [run_video_task vp_conn].
    + destruct (add_ice (vp_conn v) c) as [|c'] eqn:Ea; [done|]. apply add_ice_keeps in Ea as [Ea _].
      split; [cbn; congruence|done].
    + destruct (set_remote (vp_conn v) d) as [|c'] eqn:Er; [done|].
      apply set_remote_jsep in Er as [Er _]. rewrite Hs in Er. cbn [ignorable] in Hi.
      by destruct (sdp_type d).
Qed.

Lemma build_ok counter id c t :
  (build mime_h264 counter id).1 = Ok (c, t) -> sig_state c = Stable /\ remote_sdp c = None.
Proof.
  unfold build. destruct (register_codec _); [done|]. cbn [ctx].
  destruct (new_peer_connection _) as [|c0] eqn:En; [done|]. cbn [ctx h264_track fetch_add fst].
  destruct (add_track _ _) as [|c1] eqn:Ea; [done|]. intros [= <- <-].
  apply add_track_keeps in Ea as [-> ->]. by apply new_stable in En.
Qed.

Lemma offer_ok counter id peer v :
  (offer mime_h264 put counter id peer).1 = Ok v ->
  vp_robot v = id /\ sig_state (vp_conn v) = HaveLocalOffer /\ remote_sdp (vp_conn v) = None /\
  vp_tasks v = [] /\
  exists c d p, create_offer c = inr d /\ set_local c d = inr (vp_conn v) /\
    publish_offer id peer (sdp_text d) [] = Ok p /\ put p = inr tt /\ vp_sent v = [p].
Proof.
  unfold offer. destruct (build mime_h264 counter id) as [[[c t]| |] k] eqn:Eb; [|done..].
  pose proof (build_ok counter id c t) as Hb. rewrite Eb in Hb. destruct (Hb eq_refl) as [Hs Hr].
  cbn [fst mbind res_bind]. destruct (create_offer c) as [|d] eqn:Eo; [done|]. cbn [ctx mbind res_bind].
  destruct (set_local c d) as [|c'] eqn:El; [done|]. cbn [ctx mbind res_bind].
  pose proof (set_local_jsep _ _ _ El) as [El' Hr']. rewrite (offer_type _ _ Eo), Hs in El'. injection El' as El'.
  unfold send. destruct (publish_offer id peer (sdp_text d) []) as [p| |] eqn:Ep; [|done..].
  cbn [mbind res_bind]. destruct (put p) as [|[]] eqn:Eput; [done|]. intros [= <-]. cbn.
  split; [done|]. split; [done|]. split; [congruence|]. split; [done|]. by exists c, d, p.
Qed.

(** A caller only ever waits for an answer: a peer built by [offer] has
    published its offer and nothing else, and until an answer arrives no
    schedule of offers and candidates makes it publish anything or leave the
    state [HaveLocalOffer].  Two robots that call each other at the same time
    therefore get no answer from one another's calling peer. *)
Theorem caller_never_answers (counter : u32) (robot_id peer_id : string) (v : VideoPeer)
    (acts : list VideoAct) :
  (offer mime_h264 put counter robot_id peer_id).1 = Ok v ->
  Forall (fun a => match a with VCall (OnAnswer _ _) => False | _ => True end) acts ->
  (exists p, vp_sent v = [p]) /\
  vp_sent (video_run put v acts) = vp_sent v /\
  sig_state (vp_conn (video_run put v acts)) = HaveLocalOffer.
Proof.
  intros (_ & Hs & _ & Ht & c & d & p & _ & _ & _ & _ & Hp)%offer_ok Ha. split; [by exists p|].
  assert (waiting (video_run put v acts) (vp_sent v)) as (H1 & H2 & _); [|done].
  assert (waiting v (vp_sent v)) as Hw by (split; [done|]; split; [done|]; by rewrite Ht).
  revert Hw. generalize (vp_sent v) as sent. clear -PL Ha. revert v.
  induction Ha as [|a acts Ha _ IH]; intros v sent Hw; [done|]. cbn [video_run foldl].
  by apply IH, waiting_step.
Qed.

(** A spawned task with nothing else to run. *)
Lemma run_spawned v t :
  vp_tasks v = [] -> video_step put (spawn_task v t) (VRun 0) = run_video_task put v t.
Proof. destruct v as [r c tr ts se]. cbn [vp_tasks]. by intros ->. Qed.

Lemma answer_run v from msg d :
  vp_tasks v = [] -> parse_sdp SdpAnswer (sig_sdp msg) = inr d ->
  video_run put v [VCall (OnAnswer from msg); VRun 0] =
  match set_remote (vp_conn v) d with inr c => with_conn v c | inl _ => v end.
Proof.
  intros Ht Hd. unfold video_run. cbn [foldl].
  assert (video_step put v (VCall (OnAnswer from msg)) = spawn_task v (SetAnswer d)) as ->
    by (cbn [video_step peer_callback]; by rewrite Hd).
  by rewrite run_spawned.
Qed.

(** The answer is taken from whoever sends it: a caller that waits applies
    an answer naming any sender, if its connection accepts the description,
    and connects to it; the answer of the robot it called, coming later, is
    refused. *)
Theorem answer_sender_ignored (counter : u32) (robot_id peer_id stranger : string)
    (v : VideoPeer) (forged genuine : SignalMessage) (d : SessionDescription) (c : conn) :
  (offer mime_h264 put counter robot_id peer_id).1 = Ok v ->
  parse_sdp SdpAnswer (sig_sdp forged) = inr d -> set_remote (vp_conn v) d = inr c ->
  let v' := video_run put v [VCall (OnAnswer stranger forged); VRun 0] in
  sig_state (vp_conn v') = Stable /\ remote_sdp (vp_conn v') = Some (sig_sdp forged) /\
  remote_sdp (vp_conn (video_run put v' [VCall (OnAnswer peer_id genuine); VRun 0]))
    = Some (sig_sdp forged).
Proof.
  intros (_ & Hs & _ & Ht & _)%offer_ok Hd Hc.
  pose proof (set_remote_jsep _ _ _ Hc) as [Hc1 Hc2]. apply parse_sdp_desc in Hd as Hdd. subst d.
  rewrite Hs in Hc1. injection Hc1 as Hc1. cbn zeta. rewrite (answer_run v stranger forged _ Ht Hd), Hc.
  split; [done|]. split; [done|]. destruct v as [r cn tr ts se]. cbn [vp_tasks] in Ht. subst ts.
  destruct (parse_sdp SdpAnswer (sig_sdp genuine)) as [|d] eqn:E.
  - unfold video_run. cbn [foldl video_step peer_callback]. by rewrite E.
  - rewrite (answer_run _ peer_id genuine d) by done. cbn [with_conn vp_conn].
    destruct (set_remote c d) as [|c'] eqn:E'; [done|]. apply set_remote_jsep in E' as [E' _].
    apply parse_sdp_desc in E as ->. by rewrite <- Hc1 in E'.
Qed.
End properties.

(** *** A call from end to end *)
Section call.
Context `{JN : JsonNumber} {SW : SignalWire} {SL : SignalWireLaws SW} {K : KeyMatch} {KL : KeyMatchLaw K}.
Context {P : PeerConn} {PL : PeerConnLaws P}.
Context (mime_h264 : string) (put : Put -> string + unit) (put_ok : forall p, put p = inr tt).

Lemma publish_delivered a b sdp :
  mesh_id a = true -> mesh_id b = true ->
  (exists p, publish_offer a b sdp [] = Ok p /\
     deliver_signal (receiver_tasks b) p = [OnOffer a (mkSignal sdp Offer a b [])]) /\
  (exists p, publish_answer a b sdp [] = Ok p /\
     deliver_signal (receiver_tasks b) p = [OnAnswer a (mkSignal sdp Answer a b [])]).
Proof.
  intros Ha Hb. pose proof (mesh_id_inv a Ha) as (_ & Has & _). pose proof (mesh_id_inv b Hb) as (_ & Hbs & _).
  destruct (signal_builders_Ok (E := string) a b Has Hbs) as (Ho & Han & _).
  unfold publish_offer, publish_answer. rewrite Ho, Han. cbn [mbind res_bind].
  destruct (signal_delivered a b b "offer" Offer a b sdp []) as (p & Hp & Hd); [done..|by left|].
  destruct (signal_delivered a b b "answer" Answer a b sdp []) as (q & Hq & He); [done..|by right; left|].
  rewrite String.eqb_refl in Hd, He. split; [by exists p|by exists q].
Qed.

(** The connection accepts an offer and answers it. *)
Definition answers_offer (c : conn) (text : string) (e : SessionDescription) (c2 : conn) : Prop :=
  exists d c1, parse_sdp SdpOffer text = inr d /\ set_remote c d = inr c1 /\
    create_answer c1 = inr e /\ set_local c1 e = inr c2.

(** A responder at rest answers an offer in one call and four turns. *)
Lemma offer_run v from msg e c2 :
  vp_tasks v = [] -> answers_offer (vp_conn v) (sig_sdp msg) e c2 ->
  mesh_id (vp_robot v) = true -> mesh_id from = true ->
  exists p, video_run put v (VCall (OnOffer from msg) :: replicate 4 (VRun 0)) =
      mkVideoPeer (vp_robot v) c2 (vp_track v) [] (vp_sent v ++ [p]) /\
    publish_answer (vp_robot v) from (sdp_text e) [] = Ok p /\
    sig_state c2 = Stable /\ remote_sdp c2 = Some (sig_sdp msg).
Proof.
  intros Ht (d & c1 & E0 & E1 & E2 & E3) Hr Hf. destruct v as [r c0 tr ts se].
  cbn [vp_tasks vp_conn vp_robot vp_track vp_sent] in *. subst ts. pose (v c := mkVideoPeer r c tr [] se).
  pose proof (parse_sdp_desc _ _ _ E0) as Hd. pose proof (set_remote_jsep _ _ _ E1) as [_ R1].
  pose proof (answer_type _ _ E2) as [Hty S1]. pose proof (set_local_jsep _ _ _ E3) as [S2 R2].
  rewrite Hty, S1 in S2. injection S2 as S2.
  destruct (proj2 (publish_delivered r from (sdp_text e) Hr Hf)) as (p & Hp & _).
  exists p. split; [|split; [exact Hp|split; [done|by rewrite R2, R1, Hd]]].
  unfold video_run. cbn [replicate foldl].
  assert (video_step put (v c0) (VCall (OnOffer from msg)) = spawn_task (v c0) (SetOffer from d)) as Ev
    by (cbn [video_step peer_callback]; by rewrite E0).
  unfold v in Ev at 1. rewrite Ev, run_spawned by done. cbn [run_video_task v vp_conn]. rewrite E1.
  change (with_conn (v c0) c1) with (v c1). rewrite run_spawned by done. cbn [run_video_task v vp_conn].
  rewrite E2. rewrite run_spawned by done. cbn [run_video_task v vp_conn]. rewrite E3.
  change (with_conn (v c1) c2) with (v c2). rewrite run_spawned by done.
  cbn [run_video_task v vp_robot]. unfold send. rewrite Hp. cbn [mbind res_bind map_err]. by rewrite put_ok.
Qed.

Lemma answer_ok k id v :
  (answer mime_h264 k id).1 = Ok v ->
  vp_robot v = id /\ vp_tasks v = [] /\ vp_sent v = [] /\ sig_state (vp_conn v) = Stable /\
  remote_sdp (vp_conn v) = None.
Proof.
  unfold answer. destruct (build mime_h264 k id) as [[[c t]| |] k'] eqn:Eb; [|done..].
  pose proof (build_ok mime_h264 k id c t) as Hb. rewrite Eb in Hb. destruct (Hb eq_refl) as [Hs Hn].
  cbn. by intros [= <-].
Qed.

End call.

(** ** A concrete connection: the machine itself *)
Module VideoEx.
#[global] Instance machine : PeerConn := {|
  conn := SignalingState * option string;
  register_codec _ := inr tt;
  new_peer_connection _ := inr (Stable, None);
  add_track c _ := inr c;
  parse_sdp t s := inr (mkDesc t s);
  create_offer _ := inr (mkDesc SdpOffer "v=0 offer");
  create_answer c := match c.1 with HaveRemoteOffer => inr (mkDesc SdpAnswer "v=0 answer") | _ => inl "state" end;
  set_local c d := match jsep true (sdp_type d) c.1 with Some s => inr (s, c.2) | None => inl "state" end;
  set_remote c d :=
    match jsep false (sdp_type d) c.1 with Some s => inr (s, Some (sdp_text d)) | None => inl "state" end;
  add_ice c _ := inr c;
  sig_state := fst;
  remote_sdp := snd
|}.
#[global] Instance machine_laws : PeerConnLaws machine.
Proof.
  split; cbn -[jsep]; try congruence.
  - by intros p c [= <-].
  - by intros c t c' [= <-].
  - by intros c i c' [= <-].
  - by intros c d [= <-].
  - intros [[] r] d; simpl; try done. by intros [= <-].
  - intros [s r] d c'; cbn [fst snd]. destruct (jsep true (sdp_type d) s); [|done]. by intros [= <-].
  - intros [s r] d c'; cbn [fst snd]. destruct (jsep false (sdp_type d) s); [|done]. by intros [= <-].
Qed.
#[global] Instance machine_negotiates : PeerConnNegotiates machine.
Proof.
  assert (forall c c', after_ice c c' -> c' = c) as Hice by (induction 1 as [|i c1 c2 _ IH [= <-]]; congruence).
  split; cbn -[jsep].
  - by intros c d [= <-].
  - intros [[] r] d; simpl; try done. by intros [= <-].
  - intros c0 d [s r] [= <-]; simpl. intros -> _. by eexists.
  - intros c0 d [s r] c1 c2 [= <-] H ->%Hice. by destruct s; simpl in *; try done; injection H as <-; eexists.
  - intros [[] r] e c1 H ->%Hice; simpl in *; try done. injection H as <-. by eexists.
  - intros [s0 r0] d c1 c2 [[] r] e [= <-] H ->%Hice He _; simpl in He; try done. injection He as <-.
    by destruct s0; simpl in *; try done; injection H as <-; eexists.
Qed.
Definition put_ok (p : Put) : string + unit := inr tt.
Definition caller (a b : string) : VideoPeer :=
  match (offer (P := machine) "video/H264" put_ok NEXT_SSRC a b).1 with
  | Ok v => v
  | _ => mkVideoPeer a (Stable, None) (h264_track "" NEXT_SSRC "" "").1 [] []
  end.
Definition responder (b : string) : VideoPeer :=
  match (answer (P := machine) "video/H264" NEXT_SSRC b).1 with
  | Ok v => v
  | _ => mkVideoPeer b (Stable, None) (h264_track "" NEXT_SSRC "" "").1 [] []
  end.
End VideoEx.

Lemma caller_never_answers_witness :
  sig_state (vp_conn (video_run VideoEx.put_ok (VideoEx.caller "7" "8")
    [VCall (OnOffer "8" (mkSignal "v=0 offer" Offer "8" "7" [])); VRun 0])) = HaveLocalOffer.
Proof.
  apply (caller_never_answers "video/H264" VideoEx.put_ok NEXT_SSRC "7" "8" (VideoEx.caller "7" "8")
    [VCall (OnOffer "8" (mkSignal "v=0 offer" Offer "8" "7" [])); VRun 0]); [reflexivity|].
  repeat constructor.
Defined.

Lemma answer_sender_ignored_witness :
  remote_sdp (vp_conn (video_run VideoEx.put_ok (VideoEx.caller "7" "8")
    [VCall (OnAnswer "9" (mkSignal "v=0 evil" Answer "9" "7" [])); VRun 0])) = Some "v=0 evil".
Proof.
  apply (answer_sender_ignored "video/H264" VideoEx.put_ok NEXT_SSRC "7" "8" "9"
    (VideoEx.caller "7" "8") (mkSignal "v=0 evil" Answer "9" "7" [])
    (mkSignal "v=0 answer" Answer "8" "7" []) (mkDesc SdpAnswer "v=0 evil") (Stable, Some "v=0 evil")); reflexivity.
Defined.
