(* ===== verification/Wire.v ===== *)
(** * Wire: the messages on the wire

    The derived JSON forms of the registration messages
    ([src/registration/transport.rs]), of the client configuration they carry
    ([src/config.rs]) and of the signalling messages ([src/signaling.rs]).
    From the reader and writer of JSON text ([JsonText]) they make the codecs
    that Registration.v and Signaling.v are proved against, and discharge the
    laws those files rely on. *)
From S2P Require Import Prelude Json Serde Topic ClientConfig Lease Registration Signaling.

(** The codec here is the one built below. *)
#[local] Remove Hints WireEx.wire SignalEx.signal_wire : typeclass_instances.

Section wire.
Context `{JN : JsonNumber}.

(** ** Client configuration *)
#[export] Instance serde_client_section : Serde ClientSection := {|
  ser c := ser_struct [("heartbeat_interval_ms", ser (heartbeat_interval_ms c))];
  de v := match struct_slots true ["heartbeat_interval_ms"] v with
          | Some [h] => h ← field_req de h; Some (mkClientSection h)
          | _ => None
          end |}.
#[export] Instance serde_server_section : Serde ServerSection := {|
  ser c := ser_struct [("endpoints", ser (endpoints c))];
  de v := match struct_slots true ["endpoints"] v with
          | Some [e] => e ← field_default [] de e; Some (mkServerSection e)
          | _ => None
          end |}.
#[export] Instance serde_location_subs : Serde LocationSubscriptions := {|
  ser c := ser_struct [("x", ser (ls_x c)); ("y", ser (ls_y c)); ("z", ser (ls_z c))];
  de v := match struct_slots true ["x"; "y"; "z"] v with
          | Some [x; y; z] =>
              x ← field_req de x; y ← field_req de y; z ← field_req de z; Some (mkLocSubs x y z)
          | _ => None
          end |}.
#[export] Instance serde_zone_subs : Serde ZoneSubscriptions := {|
  ser c := ser_struct [("site_id", ser (zs_site_id c)); ("zone_enter", ser (zone_enter c));
                       ("zone_exit", ser (zone_exit c))];
  de v := match struct_slots true ["site_id"; "zone_enter"; "zone_exit"] v with
          | Some [s; i; o] =>
              s ← field_req de s; i ← field_req de i; o ← field_req de o; Some (mkZoneSubs s i o)
          | _ => None
          end |}.
#[export] Instance serde_publisher : Serde PublisherConfig := {|
  ser c := ser_struct [("topic", ser (pc_topic c)); ("period_ms", ser (period_ms c))];
  de v := match struct_slots true ["topic"; "period_ms"] v with
          | Some [t; p] => t ← field_req de t; p ← field_req de p; Some (mkPublisher t p)
          | _ => None
          end |}.
#[export] Instance serde_subs : Serde DefaultSubscriptions := {|
  ser c := ser_struct [("location", ser_option ser (ds_location c)); ("zone", ser_option ser (ds_zone c))];
  de v := match struct_slots true ["location"; "zone"] v with
          | Some [l; z] => l ← field_opt de l; z ← field_opt de z; Some (mkSubs l z)
          | _ => None
          end |}.
#[export] Instance serde_pubs : Serde DefaultPublishers := {|
  ser c := ser_struct [("location", ser_option ser (dp_location c)); ("zone", ser_option ser (dp_zone c))];
  de v := match struct_slots true ["location"; "zone"] v with
          | Some [l; z] => l ← field_opt de l; z ← field_opt de z; Some (mkPubs l z)
          | _ => None
          end |}.
#[export] Instance serde_client_config : Serde ClientConfig := {|
  ser c := ser_struct [("client", ser (cc_client c)); ("server", ser_option ser (cc_server c));
                       ("default_subscriptions", ser_option ser (default_subscriptions c));
                       ("default_publishers", ser_option ser (default_publishers c))];
  de v := match struct_slots true
                  ["client"; "server"; "default_subscriptions"; "default_publishers"] v with
          | Some [c; s; ds; dp] =>
              c ← field_req de c; s ← field_default None (de_option de) s;
              ds ← field_default None (de_option de) ds; dp ← field_default None (de_option de) dp;
              Some (mkClientConfig c s ds dp)
          | _ => None
          end |}.

(** ** Server configuration: only read *)
Definition de_expected_client (v : Value) : option ExpectedClient :=
  match struct_slots true ["robot_id"] v with
  | Some [i] => i ← field_req de i; Some (mkExpected i)
  | _ => None
  end.
Definition de_server_config (v : Value) : option ServerConfig :=
  match struct_slots true ["expected_clients"] v with
  | Some [s] =>
      l ← field_default [] (fun v => match v with Array l => mapM de_expected_client l | _ => None end) s;
      Some (mkServerConfig l)
  | _ => None
  end.

(** ** Registration messages *)
#[export] Instance serde_request : Serde RegistrationRequest := {|
  ser r := match r with
           | Register id cfg =>
               ser_struct [("op", Str "register"); ("robot_id", ser id); ("config", ser cfg)]
           | Deregister id => ser_struct [("op", Str "deregister"); ("robot_id", ser id)]
           end;
  de v := match de_tagged "op" v with
          | Some ("register", v) =>
              match struct_slots false ["robot_id"; "config"] v with
              | Some [i; c] => i ← field_req de i; c ← field_req de c; Some (Register i c)
              | _ => None
              end
          | Some ("deregister", v) =>
              match struct_slots false ["robot_id"] v with
              | Some [i] => i ← field_req de i; Some (Deregister i)
              | _ => None
              end
          | _ => None
          end |}.

#[export] Instance serde_status : Serde RegistrationStatus := {|
  ser s := match s with
           | Ack => Str "ack"
           | RejectAlreadyRegistered => Str "reject_already_registered"
           | RejectPoisoned => Str "reject_poisoned"
           | RejectServerError msg => Object [("reject_server_error", ser msg)]
           | Ignore => Str "ignore"
           | MissingRobotId => Str "missing_robot_id"
           | StPoisoned => Str "poisoned"
           end;
  de v := match de_enum v with
          | Some ("ack", p) => unit_variant Ack p
          | Some ("reject_already_registered", p) => unit_variant RejectAlreadyRegistered p
          | Some ("reject_poisoned", p) => unit_variant RejectPoisoned p
          | Some ("reject_server_error", p) => RejectServerError <$> newtype_variant de p
          | Some ("ignore", p) => unit_variant Ignore p
          | Some ("missing_robot_id", p) => unit_variant MissingRobotId p
          | Some ("poisoned", p) => unit_variant StPoisoned p
          | _ => None
          end |}.

(** [RegistrationResponse]: a struct of one field. *)
Definition ser_response (s : RegistrationStatus) : Value := ser_struct [("status", ser s)].
Definition de_response (v : Value) : option RegistrationStatus :=
  match struct_slots false ["status"] v with Some [s] => field_req de s | _ => None end.

(** ** Signalling messages *)
#[export] Instance serde_kind : Serde SignalKind := {|
  ser k := Str (match k with Offer => "offer" | Answer => "answer" end);
  de := de_unit_enum [("offer", Offer); ("answer", Answer)] |}.

(** [skip_serializing_if = "Option::is_none"] *)
Definition skip_none {A} `{Serde A} (k : string) (o : option A) : list (string * Value) :=
  match o with Some a => [(k, ser a)] | None => [] end.
#[export] Instance serde_ice : Serde IceCandidate := {|
  ser c := ser_struct ([("candidate", ser (candidate c))] ++ skip_none "sdp_mid" (sdp_mid c)
                       ++ skip_none "mline_index" (mline_index c));
  de v := match struct_slots false ["candidate"; "sdp_mid"; "mline_index"] v with
          | Some [c; s; m] =>
              c ← field_req de c; s ← field_default None (de_option de) s;
              m ← field_default None (de_option de) m; Some (mkIce c s m)
          | _ => None
          end |}.
#[export] Instance serde_signal : Serde SignalMessage := {|
  ser m := ser_struct [("sdp", ser (sig_sdp m)); ("kind", ser (sig_kind m)); ("from", ser (sig_from m));
                       ("to", ser (sig_to m)); ("ice", ser (sig_ice m))];
  de v := match struct_slots false ["sdp"; "kind"; "from"; "to"; "ice"] v with
          | Some [s; k; f; t; i] =>
              s ← field_req de s; k ← field_req de k; f ← field_req de f; t ← field_req de t;
              i ← field_default [] de i; Some (mkSignal s k f t i)
          | _ => None
          end |}.
#[export] Instance serde_presence : Serde Presence := {|
  ser p := ser_struct [("id", ser (pres_id p)); ("streams", ser (streams p))];
  de v := match struct_slots false ["id"; "streams"] v with
          | Some [i; s] => i ← field_req de i; s ← field_default [] de s; Some (mkPresence i s)
          | _ => None
          end |}.

(** ** Reading back *)
Section laws.
Context {JL : JsonNumberLaws JN}.
Abbreviation Law A := (SerdeLaw A (fun _ => True)).

#[export] Instance strings_law : Law (list string).
Proof. intros l _. by rewrite (de_ser (fits := Forall (fun _ => True)) l) by (by apply Forall_true). Qed.

(** An optional struct: its form is never [null]. *)
Definition never_null (A : Type) `{Serde A} : Prop := forall a : A, ser a <> Null.
Lemma option_back {A} `{Serde A} `{!Law A} (o : option A) :
  never_null A -> de_option de (ser_option ser o) = Some o.
Proof.
  intros Hn. destruct o as [a|]; [|done]. simpl. pose proof (de_ser a I) as Hd.
  specialize (Hn a). unfold de_option. destruct (ser a); by rewrite ?Hd.
Qed.
Lemma present_back {A} `{Serde A} `{!Law A} (a : A) :
  never_null A -> de_option de (ser a) = Some (Some a).
Proof. intros Hn. by apply (option_back (Some a)). Qed.
Lemma struct_not_null fields : ser_struct fields <> Null.
Proof. done. Qed.

Ltac format i := cbn [ser de i]; fields; cbn [app skip_none].

#[export] Instance client_section_law : Law ClientSection.
Proof. intros [h] _. format serde_client_section. by rewrite (de_ser h I). Qed.
#[export] Instance server_section_law : Law ServerSection.
Proof. intros [e] _. format serde_server_section. by rewrite (de_ser e I). Qed.
#[export] Instance location_subs_law : Law LocationSubscriptions.
Proof. intros [x y z] _. format serde_location_subs. by rewrite (de_ser x I), (de_ser y I), (de_ser z I). Qed.
#[export] Instance zone_subs_law : Law ZoneSubscriptions.
Proof. intros [x y z] _. format serde_zone_subs. by rewrite (de_ser x I), (de_ser y I), (de_ser z I). Qed.
#[export] Instance publisher_law : Law PublisherConfig.
Proof. intros [t p] _. format serde_publisher. by rewrite (de_ser t I), (de_ser p I). Qed.
#[export] Instance subs_law : Law DefaultSubscriptions.
Proof.
  intros [l z] _. format serde_subs. cbn [ds_location ds_zone field_opt].
  by rewrite !option_back by done.
Qed.
#[export] Instance pubs_law : Law DefaultPublishers.
Proof.
  intros [l z] _. format serde_pubs. cbn [dp_location dp_zone field_opt].
  by rewrite !option_back by done.
Qed.
#[export] Instance client_config_law : Law ClientConfig.
Proof.
  intros [c s ds dp] _. format serde_client_config.
  cbn [cc_server default_subscriptions default_publishers].
  by rewrite (de_ser c I), !option_back by done.
Qed.

#[export] Instance request_law : Law RegistrationRequest.
Proof.
  intros [id cfg|id] _.
  - change (de (ser (Register id cfg))) with
      (match struct_slots false ["robot_id"; "config"]
         (ser_struct [("robot_id", ser id); ("config", ser cfg)]) with
       | Some [i; c] => i ← field_req de i; c ← field_req de c; Some (Register i c)
       | _ => None end).
    fields. by rewrite (de_ser id I), (de_ser cfg I).
  - change (de (ser (Deregister id))) with
      (match struct_slots false ["robot_id"] (ser_struct [("robot_id", ser id)]) with
       | Some [i] => i ← field_req de i; Some (Deregister i) | _ => None end).
    fields. by rewrite (de_ser id I).
Qed.
#[export] Instance status_law : Law RegistrationStatus.
Proof. by intros [] _. Qed.
Lemma response_back s : de_response (ser_response s) = Some s.
Proof. unfold de_response, ser_response. fields. apply (de_ser s I). Qed.

#[export] Instance kind_law : Law SignalKind.
Proof. by intros [] _. Qed.
#[export] Instance ice_law : Law IceCandidate.
Proof.
  intros [c s m] _. cbn [ser de serde_ice candidate sdp_mid mline_index].
  destruct s as [s|], m as [m|]; cbn [skip_none app]; fields;
    rewrite (de_ser c I), ?(present_back s), ?(present_back m); done.
Qed.
#[export] Instance ices_law : Law (list IceCandidate).
Proof. intros l _. by rewrite (de_ser (fits := Forall (fun _ => True)) l) by (by apply Forall_true). Qed.
#[export] Instance signal_law : Law SignalMessage.
Proof.
  intros [s k f t i] _. format serde_signal.
  by rewrite (de_ser s I), (de_ser k I), (de_ser f I), (de_ser t I), (de_ser i I).
Qed.
#[export] Instance presence_law : Law Presence.
Proof. intros [i s] _. format serde_presence. by rewrite (de_ser i I), (de_ser s I). Qed.
End laws.

(** ** The forms survive the text *)
Section plain.
Lemma plain_string d s : plain_value d (ser (A := string) s).
Proof. constructor. Qed.
Lemma plain_u64 d u : plain_value d (ser (A := u64) u).
Proof. constructor. Qed.
Lemma plain_strings d (l : list string) : plain_value (S d) (ser l).
Proof. apply plain_array. constructor. Qed.

(** A written struct is plain when its members are, one level down. *)
Ltac plain_fields :=
  apply plain_struct; [|done];
  repeat (first [apply Forall_nil_2 | apply Forall_cons_2; [cbn [snd]|]]).

Lemma plain_client_config (c : ClientConfig) : plain_value 4 (ser c).
Proof.
  destruct c as [[h] s ds dp]. cbn [ser serde_client_config]. plain_fields.
  - eapply plain_mono; [apply (plain_struct 0); [repeat constructor|done]|lia].
  - apply plain_option. intros [e]. eapply plain_mono; [|apply le_n]. plain_fields. apply plain_strings.
  - apply plain_option. intros [l z]. plain_fields; apply plain_option; intros []; plain_fields; constructor.
  - apply plain_option. intros [l z]. plain_fields; apply plain_option; intros []; plain_fields; constructor.
Qed.

Lemma plain_request (r : RegistrationRequest) : plain_value 127 (ser r).
Proof.
  apply (plain_mono 5); [|lia].
  destruct r; cbn [ser serde_request]; plain_fields; first [apply plain_client_config | constructor].
Qed.
Lemma plain_response s : plain_value 127 (ser_response s).
Proof.
  apply (plain_mono 2); [|lia]. unfold ser_response. plain_fields.
  destruct s; cbn [ser serde_status]; try by constructor.
  apply (plain_struct 0 [_]); [repeat constructor|done].
Qed.

Lemma plain_ice (c : IceCandidate) : plain_value 1 (ser c).
Proof.
  destruct c as [c [s|] [m|]]; cbn [ser serde_ice skip_none app candidate sdp_mid mline_index];
    plain_fields; constructor.
Qed.
Lemma plain_signal (m : SignalMessage) : plain_value 127 (ser m).
Proof.
  apply (plain_mono 3); [|lia]. destruct m as [s [] f t i]; cbn [ser serde_signal]; plain_fields;
    first [apply plain_array, plain_ice | constructor].
Qed.
Lemma plain_presence (p : Presence) : plain_value 127 (ser p).
Proof.
  apply (plain_mono 2); [|lia]. destruct p as [i s]; cbn [ser serde_presence]; plain_fields;
    [constructor|apply plain_strings].
Qed.
End plain.

(** ** The codecs *)
Context {JT : JsonText}.

#[export] Instance json_registration : RegistrationWire := {|
  encode_request r := print_json (ser r);
  decode_request s := match from_text de s with inr r => Some r | inl _ => None end;
  encode_response s := print_json (ser_response s);
  decode_response := from_text de_response
|}.
#[export] Instance json_signal : SignalWire := {|
  wire_to_vec v := inr (print_json v);
  signal_to_value m := inr (ser m);
  presence_to_value p := inr (ser p);
  signal_from_slice := from_text de;
  presence_from_slice := from_text de
|}.

Context {JL : JsonNumberLaws JN} {JTL : JsonTextLaw JT}.

#[export] Instance json_registration_laws : RegistrationWireLaws json_registration.
Proof.
  split.
  - intros r. cbn [decode_request encode_request json_registration].
    by rewrite (from_text_print de _ r (plain_request r) (de_ser r I)).
  - intros s. apply from_text_print; [apply plain_response|apply response_back].
Qed.
#[export] Instance json_signal_laws : SignalWireLaws json_signal.
Proof.
  split.
  - intros m. exists (ser m), (print_json (ser m)). split; [done|]. split; [done|].
    apply from_text_print; [apply plain_signal|apply (de_ser m I)].
  - intros p. exists (ser p), (print_json (ser p)). split; [done|]. split; [done|].
    apply from_text_print; [apply plain_presence|apply (de_ser p I)].
Qed.
End wire.

(** ** Properties *)
Section properties.
Context `{JN : JsonNumber} {JT : JsonText}.

(** C34. What one side writes the other reads: a registration request with any
    configuration, a registration status, a signalling message with any
    candidates and a presence announcement are read from their JSON text as
    the same value.  These are the laws the handshake and the signalling
    theorems rely on. *)
Theorem wire_roundtrip {JL : JsonNumberLaws JN} {JTL : JsonTextLaw JT} :
  (forall r, decode_request (encode_request r) = Some r) /\
  (forall s, decode_response (encode_response s) = inr s) /\
  (forall m : SignalMessage, signal_from_slice (print_json (ser m)) = inr m) /\
  (forall p : Presence, presence_from_slice (print_json (ser p)) = inr p).
Proof.
  split; [exact decode_encode_request|].
  split; [exact decode_encode_response|].
  split; [intros m|intros p].
  - by destruct (signal_reads_back m) as (v & b & [= <-] & [= <-] & Hr).
  - by destruct (presence_reads_back p) as (v & b & [= <-] & [= <-] & Hr).
Qed.

(** How an [sdp_mid] reads. *)
Definition mid_reads (s : Slot Value) (mid : option string) : Prop :=
  match mid with Some m => s = SlotIs (Str m) | None => s = SlotAbsent \/ s = SlotIs Null end.

(** A candidate from its slots. *)
Lemma candidate_reads v sc sm n :
  struct_slots false ["candidate"; "sdp_mid"; "mline_index"] v = Some [sc; sm; SlotIs (Number n)] ->
  de (A := IceCandidate) v =
    c ← field_req de sc; mid ← field_default None (de_option de) sm;
    (as_u64 n ≫= fun u => uint_make 16 (uint_val u)) ≫= fun i => Some (mkIce c mid (Some i)).
Proof.
  intros Hs. cbn [de serde_ice]. rewrite Hs. destruct (field_req _ sc); [|done].
  cbn [mbind option_bind]. destruct (field_default _ _ sm); [|done]. simpl.
  destruct (as_u64 n) as [u|]; simpl; [|done]. by destruct (uint_make 16 (uint_val u)).
Qed.

(** A message that reads has read each of its candidates. *)
Lemma signal_reads_candidates vm l bytes s k f t msg :
  parse_json bytes = inr vm ->
  struct_slots false ["sdp"; "kind"; "from"; "to"; "ice"] vm = Some [s; k; f; t; SlotIs (Array l)] ->
  parse_signal bytes = Some msg -> Forall2 (fun v c => de v = Some c) l (sig_ice msg).
Proof.
  intros Hp Hm. unfold parse_signal, signal_from_slice, json_signal, from_text. rewrite Hp.
  destruct (de (A := SignalMessage) vm) as [x|] eqn:E; [|done]. intros [= <-].
  cbn [de serde_signal] in E. rewrite Hm in E. apply mapM_Some.
  destruct (field_req _ s); [|done]. destruct (field_req _ k); [|done].
  destruct (field_req _ f); [|done]. destruct (field_req _ t); [|done].
  cbn [mbind option_bind field_default] in E.
  change (de (A := list IceCandidate) (Array l)) with (mapM (de (A := IceCandidate)) l) in E.
  destruct (mapM _ l) as [cs|]; [|done]. by injection E as <-.
Qed.

(** C35. The media line index is a 16-bit number.  Whatever else a candidate
    carries - any [candidate] text, an [sdp_mid] that is there, [null] or
    absent, written as an object or positionally: when its [mline_index] is a
    number that is negative, fractional or above 65535, the whole message it
    arrives in is dropped, its description and its other candidates with it;
    when it fits, the candidate reads with exactly that index and its own
    [sdp_mid], and is one of the candidates of the message if that reads. *)
Theorem mline_index_bounds (vm v : Value) (l : list Value) (bytes : string) (n : number)
    (s k f t sc sm : Slot Value) :
  parse_json bytes = inr vm ->
  struct_slots false ["sdp"; "kind"; "from"; "to"; "ice"] vm = Some [s; k; f; t; SlotIs (Array l)] ->
  v ∈ l ->
  struct_slots false ["candidate"; "sdp_mid"; "mline_index"] v = Some [sc; sm; SlotIs (Number n)] ->
  match as_u64 n with
  | Some u =>
      if decide (uint_val u < 65536)%N
      then forall c mid, sc = SlotIs (Str c) -> mid_reads sm mid ->
        exists i, uint_val i = uint_val u /\ de (A := IceCandidate) v = Some (mkIce c mid (Some i)) /\
          forall msg, parse_signal bytes = Some msg -> mkIce c mid (Some i) ∈ sig_ice msg
      else parse_signal bytes = None
  | None => parse_signal bytes = None
  end.
Proof.
  intros Hp Hm Hin Hv. pose proof (candidate_reads v sc sm n Hv) as Hde.
  assert (forall msg, parse_signal bytes = Some msg -> exists c, de (A := IceCandidate) v = Some c /\ c ∈ sig_ice msg) as Hmsg.
  { intros msg Hmsg. pose proof (signal_reads_candidates vm l bytes s k f t msg Hp Hm Hmsg) as HF.
    destruct (list_elem_of_lookup_1 _ _ Hin) as [i Hi].
    destruct (Forall2_lookup_l _ _ _ _ _ HF Hi) as (c & Hc & Hd). exists c.
    split; [done|by eapply list_elem_of_lookup_2]. }
  assert (as_u64 n ≫= (fun u => uint_make 16 (uint_val u)) = None -> parse_signal bytes = None) as Hnone.
  { intros Hu. destruct (parse_signal bytes) as [msg|]; [|done]. destruct (Hmsg msg eq_refl) as (c & Hc & _).
    rewrite Hde, Hu in Hc. destruct (field_req _ sc); [|done]. by destruct (field_default _ _ sm). }
  destruct (as_u64 n) as [u|]; [|by apply Hnone]. cbn [mbind option_bind] in *.
  unfold uint_make in *. change (2 ^ 16)%N with 65536%N in *. destruct (decide _) as [Hu|Hu]; [|by apply Hnone].
  intros c mid -> Hmid. eexists. split; [|split].
  2:{ rewrite Hde. destruct mid as [x|]; [by rewrite Hmid|by destruct Hmid as [-> | ->]]. }
  - done.
  - intros msg Hread. destruct (Hmsg msg Hread) as (c' & Hc & Hel). rewrite Hde in Hc.
    destruct mid as [x|]; [rewrite Hmid in Hc|destruct Hmid as [-> | ->]]; by injection Hc as <-.
Qed.

Lemma slot_of_filter {X} (m : list (string * X)) tag n :
  tag <> n -> slot_of (List.filter (fun kv => negb (kv.1 =? tag)%string) m) n = slot_of m n.
Proof.
  intros Hne. unfold slot_of.
  assert (List.filter (fun kv : string * X => (kv.1 =? n)%string)
            (List.filter (fun kv => negb (kv.1 =? tag)%string) m)
          = List.filter (fun kv => (kv.1 =? n)%string) m) as ->; [|done].
  induction m as [|[k x] m IH]; [done|]. cbn [List.filter fst].
  destruct (String.eqb_spec k tag) as [->|]; cbn [negb].
  - apply String.eqb_neq in Hne as ->. exact IH.
  - cbn [List.filter fst]. by rewrite IH.
Qed.

(** A registration whose configuration has a member the server does not know
    is dropped without an answer: the lease stays, nothing is published, and
    the client, which cannot tell this from a lost message, reports a
    timeout. *)
Theorem unknown_config_member_silent (dbg_e : RegistrationError -> string)
    (dbg_s : RegistrationStatus -> string) (l : Lease) (bytes id k : string)
    (m mc : list (string * Value)) (x : Value) :
  parse_json bytes = inr (Object m) -> slot_of m "op" = Some (SlotIs (Str "register")) ->
  slot_of m "config" = Some (SlotIs (Object mc)) -> (k, x) ∈ mc ->
  known ["client"; "server"; "default_subscriptions"; "default_publishers"] k = false ->
  plain_id id = true ->
  let '(l', r) := handle_registration dbg_e l bytes in
  l' = l /\ r = Ok None /\
  register_with_client dbg_s id (inr tt) (inr tt)
    (reply_on (registration_response id) r) = Err Timeout.
Proof.
  intros Hp Hop Hcfg Hin Hk Hid.
  assert (decode_request bytes = None) as Hd.
  { unfold decode_request, json_registration, from_text. rewrite Hp.
    assert (de (A := RegistrationRequest) (Object m) = None) as ->; [|done].
    cbn [de serde_request de_tagged].
    assert (exists key, List.filter (fun kv => (kv.1 =? "op")%string) m = [(key, Str "register")])
      as [key Hf].
    { unfold slot_of in Hop. destruct (List.filter _ m) as [|[key y] [|]]; try done.
      injection Hop as ->. by eexists. }
    rewrite Hf. unfold struct_slots, map_slots. cbn [andb mapM].
    rewrite !slot_of_filter by done. rewrite Hcfg.
    destruct (slot_of m "robot_id") as [i|]; [|done].
    cbn [mbind option_bind mret option_ret].
    assert (field_req (de (A := ClientConfig)) (SlotIs (Object mc)) = None) as ->.
    { cbn [field_req de serde_client_config]. unfold struct_slots. by rewrite (map_slots_denied _ mc k x). }
    by destruct (field_req _ i). }
  unfold handle_registration. rewrite Hd. split; [done|]. split; [done|].
  rewrite register_client_plain by done. unfold reply_on. by destruct (registration_response id).
Qed.
End properties.

Lemma wire_roundtrip_witness :
  decode_request (RegistrationWire := json_registration (JT := TextEx.bits_text))
    (encode_request (RegistrationWire := json_registration (JT := TextEx.bits_text))
       (Register "7" WireEx.cfg)) = Some (Register "7" WireEx.cfg).
Proof. exact (proj1 (wire_roundtrip (JT := TextEx.bits_text)) (Register "7" WireEx.cfg)). Defined.

(** Trees given as what a text reads to. *)
Module WireTreeEx.
Definition reads (v : Value (JN := model_number)) : JsonText (JN := model_number) :=
  {| print_json _ := ""; parse_json _ := inr v; data_error _ := "data" |}.
Definition cand (i : Z) : list (string * Value (JN := model_number)) :=
  [("candidate", Str "candidate:1"); ("sdp_mid", Str "0"); ("mline_index", Number (JN := model_number) (PosInt i))].
Definition offer (i : Z) : list (string * Value (JN := model_number)) :=
  [("sdp", Str "v=0"); ("kind", Str "offer"); ("from", Str "8"); ("to", Str "7");
   ("ice", Array [Object (cand i)])].
Definition newer_config : list (string * Value (JN := model_number)) :=
  [("client", Object [("heartbeat_interval_ms", Number (JN := model_number) (PosInt 1000))]);
   ("telemetry", Bool true)].
Definition newer_request : list (string * Value (JN := model_number)) :=
  [("op", Str "register"); ("robot_id", Str "7"); ("config", Object newer_config)].
End WireTreeEx.

Lemma mline_index_bounds_witness :
  parse_signal (SW := json_signal (JT := WireTreeEx.reads (Object (WireTreeEx.offer 65536)))) "" = None.
Proof.
  exact (mline_index_bounds (JT := WireTreeEx.reads (Object (WireTreeEx.offer 65536)))
    (Object (WireTreeEx.offer 65536)) (Object (WireTreeEx.cand 65536)) [Object (WireTreeEx.cand 65536)] ""
    (PosInt 65536) (SlotIs (Str "v=0")) (SlotIs (Str "offer")) (SlotIs (Str "8")) (SlotIs (Str "7"))
    (SlotIs (Str "candidate:1")) (SlotIs (Str "0")) eq_refl eq_refl (list_elem_of_here _ _) eq_refl).
Defined.

Lemma unknown_config_member_silent_witness :
  handle_registration (W := json_registration (JT := WireTreeEx.reads (Object WireTreeEx.newer_request)))
    WireEx.dbg_e WireEx.lease0 "" = (WireEx.lease0, Ok None).
Proof.
  destruct (unknown_config_member_silent (JT := WireTreeEx.reads (Object WireTreeEx.newer_request))
    WireEx.dbg_e WireEx.dbg_s WireEx.lease0 "" "7" "telemetry" WireTreeEx.newer_request
    WireTreeEx.newer_config (Bool true) eq_refl eq_refl eq_refl
    (list_elem_of_further _ _ _ (list_elem_of_here _ _)) eq_refl eq_refl) as (_ & _ & _).
  reflexivity.
Defined.
