(* ===== verification/Health.v ===== *)
(** * Health: readiness, supervision and the liveness probe ([src/health.rs])

    The readiness gate and its endpoints, the supervisor's verdict on the
    first task to end, the engine's readiness hand-off ([run_engine] of
    [src/engine.rs]) and the container probe byte by byte.  Sockets are
    parameters. *)
From S2P Require Import Prelude Json Rules Engine Channels Config Loop.

(** ** The gate *)
Record ReadyGate := mkGate { ready : bool; eval_total : N }.
Definition gate_new : ReadyGate := mkGate false 0.
Definition set_ready (g : ReadyGate) : ReadyGate := mkGate true (eval_total g).
Definition is_ready (g : ReadyGate) : bool := ready g.
Definition is_ready_public (g : ReadyGate) : bool := is_ready g.
Definition eval_counter (g : ReadyGate) : N := eval_total g.
(** [fetch_add] on an [AtomicU64] wraps. *)
Definition count_eval (g : ReadyGate) : ReadyGate := mkGate (ready g) ((eval_total g + 1) mod 2 ^ 64).

Definition healthz : N := 200.
Definition readyz (g : ReadyGate) : N := if ready g then 200 else 503.

(** [metrics_text]; [uptime] is the elapsed time with three decimals. *)
Definition newline : string := String "010"%char "".
Definition metrics_text (uptime : string) (g : ReadyGate) : string :=
  "# HELP flo_uptime_seconds seconds since the process started" +:+ newline +:+
  "# TYPE flo_uptime_seconds gauge" +:+ newline +:+
  "flo_uptime_seconds " +:+ uptime +:+ newline +:+
  "# HELP flo_process_ready 1 once flo has started and declared its subsystems (ready probe == 200)"
  +:+ newline +:+
  "# TYPE flo_process_ready gauge" +:+ newline +:+
  "flo_process_ready " +:+ (if ready g then "1" else "0") +:+ newline +:+
  "# HELP flo_rule_eval_total cumulative 50ms engine re-evaluation ticks" +:+ newline +:+
  "# TYPE flo_rule_eval_total counter" +:+ newline +:+
  "flo_rule_eval_total " +:+ pretty (eval_total g) +:+ newline.

(** The three GET routes; any other path is the framework's [404]. *)
Definition router (uptime : string) (g : ReadyGate) (path : string) : N * string :=
  if (path =? "/healthz")%string then (healthz, "")
  else if (path =? "/readyz")%string then (readyz g, "")
  else if (path =? "/metrics")%string then (200%N, metrics_text uptime g)
  else (404%N, "").

(** ** The hand-off from the engine

    The waiter task ignores how the oneshot ended: [let _ = rx.await]. *)
Inductive Oneshot := Sent | SenderDropped.
Definition ready_waiter (g : ReadyGate) (o : Oneshot) : ReadyGate :=
  match o with Sent | SenderDropped => set_ready g end.

(** [run_engine] up to the loop: a failed start drops the sender. *)
Definition engine_start {S : Type} (g : ReadyGate) (start : option S) : ReadyGate * option S :=
  (ready_waiter g (match start with Some _ => Sent | None => SenderDropped end), start).

(** ** The supervisor *)
Inductive TaskEnd := Finished | Panicked (why : string).

(** [completed] is the first supervised task to end; [debug] renders its
    result. *)
Definition fatal_exit (debug : TaskEnd -> string) (subsystem : string) (r : TaskEnd)
    : res string unit :=
  Err (subsystem +:+ " subsystem exited: " +:+ debug r).

(** [None] is a supervisor still waiting. *)
Definition await_shutdown (debug : TaskEnd -> string) (handles : list string)
    (completed : option (string * TaskEnd)) : option (res string unit) :=
  match handles with
  | [] => Some (Ok tt)
  | _ => match completed with
         | Some (name, r) => Some (fatal_exit debug name r)
         | None => None
         end
  end.

(** ** The probe *)

(** [rsplit_once(':')] *)
Fixpoint rsplit_once (c : ascii) (s : string) : option (string * string) :=
  match s with
  | EmptyString => None
  | String a s' =>
      match rsplit_once c s' with
      | Some (l, r) => Some (String a l, r)
      | None => if Ascii.eqb a c then Some ("", s') else None
      end
  end.

Definition digit_of (a : ascii) : option N :=
  if is_ascii_digit a then Some (N_of_ascii a - 48)%N else None.
Fixpoint parse_digits (acc : N) (s : string) : option N :=
  match s with
  | EmptyString => Some acc
  | String a s' =>
      match digit_of a with
      | Some d => let n := (acc * 10 + d)%N in
                  if (n <=? 65535)%N then parse_digits n s' else None
      | None => None
      end
  end.
(** [str::parse::<u16>]: an optional plus sign, at least one digit. *)
Definition parse_u16 (s : string) : option N :=
  let body := match s with String "+" s' => s' | _ => s end in
  if (body =? "")%string then None else parse_digits 0 body.

Definition probe_target (addr : string) : option (string * N) :=
  match rsplit_once ":" addr with
  | None => None
  | Some (host, port) =>
      match parse_u16 port with
      | None => None
      | Some p => Some (if (host =? "0.0.0.0")%string then "127.0.0.1" else host, p)
      end
  end.

Definition newline_char : ascii := "010"%char.

(** The read loop: a chunk per [read], [""] for an end or an error.  Stops at
    a newline, at 512 bytes or at the end. *)
Fixpoint read_head (received : string) (chunks : list string) : string :=
  match chunks with
  | [] => received
  | "" :: _ => received
  | c :: rest =>
      let received := received +:+ c in
      if has_char newline_char received then received
      else if 512 <=? String.length received then received
      else read_head received rest
  end.

(** [head.lines().next()]; [lossy] decoding leaves ASCII as it is. *)
Definition first_line (s : string) : option string :=
  if (s =? "")%string then None else head (split_on newline_char s).

Definition status_ok (received : string) : bool :=
  match first_line received with Some l => starts_with "HTTP/1.1 200" l | None => false end.

Section probe.
(** Connecting and sending the request: the chunks read back, if both work. *)
Context (exchange : string * N -> option (list string)).

Definition probe (addr : string) : bool :=
  match probe_target addr with
  | None => false
  | Some target =>
      match exchange target with
      | None => false
      | Some chunks => status_ok (read_head "" chunks)
      end
  end.
End probe.

(** A prefix without the separator does not see the separator. *)
Lemma strip_prefix_first_line p s :
  has_char newline_char p = false -> p <> "" ->
  is_some (strip_prefix p s)
  = match split_on newline_char s with w :: _ => is_some (strip_prefix p w) | [] => false end.
Proof.
  revert s. induction p as [|x p IH]; intros s Hp Hne; [done|]. cbn [has_char] in Hp.
  apply orb_false_iff in Hp as [Hx Hp]. destruct s as [|a s]; [done|]. cbn [split_on].
  destruct (Ascii.eqb_spec a newline_char) as [->|Ha].
  - cbn [strip_prefix]. by rewrite Hx.
  - pose proof (split_on_ne newline_char s) as Hs. cbn [strip_prefix].
    destruct (split_on newline_char s) as [|w ws] eqn:E; [done|]. cbn [strip_prefix].
    destruct (Ascii.eqb x a); [|done]. destruct (decide (p = "")) as [->|Hpne]; [done|].
    rewrite (IH s Hp Hpne), E. done.
Qed.

Definition OK_LINE : string := "HTTP/1.1 200".

Lemma status_ok_prefix r : status_ok r = starts_with OK_LINE r.
Proof.
  unfold status_ok, first_line. rewrite starts_with_is_some.
  destruct (String.eqb_spec r "") as [->|Hr]; [done|].
  rewrite (strip_prefix_first_line OK_LINE r) by done.
  pose proof (split_on_ne newline_char r). destruct (split_on newline_char r); [done|].
  simpl. by rewrite starts_with_is_some.
Qed.

Definition concat_chunks (l : list string) : string := foldr String.append "" l.

(** What the loop has read decides as well as the whole response would. *)
Lemma read_head_decides l : Forall (fun c => c <> "") l -> forall r,
  starts_with OK_LINE (read_head r l) = starts_with OK_LINE (r +:+ concat_chunks l).
Proof.
  induction 1 as [|c l Hc _ IH]; intros r.
  { simpl. by rewrite str_app_nil_r. }
  assert (read_head r (c :: l) =
    let received := r +:+ c in
    if has_char newline_char received then received
    else if 512 <=? String.length received then received else read_head received l) as ->
    by (by destruct c).
  cbv zeta. change (concat_chunks (c :: l)) with (c +:+ concat_chunks l).
  rewrite <- str_app_assoc. rewrite !starts_with_is_some.
  destruct (has_char newline_char (r +:+ c)) eqn:Hn.
  - destruct (find_char newline_char (r +:+ c)) as [n|] eqn:Hf;
      [|by apply find_char_None in Hf; congruence].
    apply find_char_split in Hf as [Hs _]. rewrite Hs at 1 2. rewrite str_app_assoc.
    change (String newline_char ?x +:+ ?y) with (String newline_char (x +:+ y)).
    by rewrite !strip_prefix_across.
  - destruct (Nat.leb_spec 512 (String.length (r +:+ c))) as [Hl|_].
    + rewrite (strip_prefix_long OK_LINE (r +:+ c) (concat_chunks l)); [done|].
      simpl (String.length OK_LINE). lia.
    + rewrite <- !starts_with_is_some. apply IH.
Qed.

(** ** Properties *)

(** The probe's verdict does not depend on how the network cuts the
    response: for an address that parses and a server that answers, the
    probe succeeds exactly when the whole response starts with the 200
    status, although the loop stops reading at a newline or at 512 bytes; on
    an address without a port, or with one that is not a 16-bit number, it
    fails. *)
Theorem probe_exact (exchange : string * N -> option (list string)) (addr : string) :
  (forall t l, exchange t = Some l -> Forall (fun c => c <> "") l) ->
  probe exchange addr =
  match probe_target addr ≫= exchange with
  | Some l => starts_with OK_LINE (concat_chunks l)
  | None => false
  end.
Proof.
  intros Hne. unfold probe. destruct (probe_target addr) as [t|]; [|done]. simpl.
  destruct (exchange t) as [l|] eqn:E; [|done].
  rewrite status_ok_prefix, read_head_decides by (by eapply Hne). done.
Qed.

Lemma probe_exact_witness :
  probe (fun _ => Some ["HTTP/1."; "1 200 OK"]) "0.0.0.0:8080" = true.
Proof.
  rewrite (probe_exact (fun _ => Some ["HTTP/1."; "1 200 OK"]) "0.0.0.0:8080"); [reflexivity|].
  intros t l [= <-]. repeat constructor; discriminate.
Defined.

(** A supervised task that ends, in any way, is an error; only a supervisor
    with nothing to watch returns [Ok]. *)
Theorem supervisor_fatal (debug : TaskEnd -> string) (handles : list string) (name : string) (r : TaskEnd) :
  handles <> [] ->
  exists e, await_shutdown debug handles (Some (name, r)) = Some (Err e).
Proof. destruct handles; [done|]. intros _. simpl. unfold fatal_exit. eauto. Qed.

(** Readiness does not mean the engine runs: an engine whose start fails, so
    that it never subscribes, still turns the gate ready. *)
Theorem ready_despite_failed_start (S : Type) (g : ReadyGate) :
  readyz (engine_start (S := S) g None).1 = 200%N /\ (engine_start (S := S) g None).2 = None.
Proof. done. Qed.
