(* ===== verification/Runtime.v ===== *)
(** * Runtime: a client's inputs and registration ([src/runtime.rs])

    The registration retry loop of [Runtime::bootstrap], composed with the
    handshake over a lossy network, and the fail-safe loading of the client
    configuration and the ruleset.  Files and the [toml] readers and writer
    are parameters. *)
From S2P Require Import Prelude Json Rules Topic Semantic SemanticSpec Engine EngineSpec ClientConfig Lease Registration Registry Channels Config.

Definition REGISTRATION_RETRIES : nat := 3.
Definition RETRY_BACKOFF_MS : N := 1000.

(** ** The retry loop

    [attempt] performs registration attempt [k] on the world [S]; the loop
    returns the world, the back-offs slept and the verdict. *)
Section retry.
Context {S : Type} (attempt : nat -> S -> S * res RegistrationError unit).

Fixpoint register_loop (remaining k : nat) (s : S) : S * list N * res string unit :=
  match remaining with
  | 0 => (s, [], Ok tt)
  | Datatypes.S remaining' =>
      let '(s', r) := attempt k s in
      match r with
      | Ok _ => (s', [], Ok tt)
      | Err Timeout =>
          if k <? REGISTRATION_RETRIES then
            let '(s'', sleeps, v) := register_loop remaining' (Datatypes.S k) s' in
            (s'', (RETRY_BACKOFF_MS * N.of_nat k)%N :: sleeps, v)
          else (s', [], Err "registration timed out after 3 retries")
      | Err AlreadyRegistered => (s', [], Err "client already registered with server")
      | Err ErrPoisoned => (s', [], Err "client is poisoned on server — cannot join")
      | Err NotRegistered => (s', [], Err "client not registered with server")
      | Err (ServerError e) => (s', [], Err ("registration rejected: " +:+ e))
      | Panic w => (s', [], Panic w)
      end
  end.

(** [for attempt in 1..=REGISTRATION_RETRIES] *)
Definition register_with_retry (s : S) : S * list N * res string unit :=
  register_loop REGISTRATION_RETRIES 1 s.
End retry.

(** What a failed attempt other than a timeout makes of the start. *)
Definition fatal_message (e : RegistrationError) : string :=
  match e with
  | AlreadyRegistered => "client already registered with server"
  | ErrPoisoned => "client is poisoned on server — cannot join"
  | NotRegistered => "client not registered with server"
  | Timeout => "registration timed out after 3 retries"
  | ServerError e => "registration rejected: " +:+ e
  end.

(** The verdict, given what each of the three attempts answers. *)
Definition retry_verdict (r1 r2 r3 : res RegistrationError unit) : res string unit :=
  let final r := match r with Ok _ => Ok tt | Err e => Err (fatal_message e) | Panic w => Panic w end in
  match r1 with
  | Err Timeout => match r2 with Err Timeout => final r3 | _ => final r2 end
  | _ => final r1
  end.
Definition retry_sleeps (r1 r2 : res RegistrationError unit) : list N :=
  match r1 with
  | Err Timeout => match r2 with Err Timeout => [1000; 2000]%N | _ => [1000]%N end
  | _ => []
  end.

Section bootstrap.
Context `{W : RegistrationWire} {WL : RegistrationWireLaws W}.
Context (debug_error : RegistrationError -> string) (debug_status : RegistrationStatus -> string).

(** Attempt [k] against a lease, over a network that delivers the request
    and the response of attempt [k] or not. *)
Definition network_attempt (net : nat -> bool * bool) (id : string) (cfg : ClientConfig)
    (k : nat) (l : Lease) : Lease * res RegistrationError unit :=
  exchange_register debug_error debug_status l id cfg (net k).1 (net k).2.

(** The retry loop is exact: at most three attempts are made, a timeout
    alone leads to another one after a back-off of one second per attempt
    made, any other failure ends the start at once with its message, and
    three timeouts end it as a timeout. *)
Theorem retry_exact (S : Type) (attempt : nat -> S -> S * res RegistrationError unit) (s : S) :
  let '(s1, r1) := attempt 1 s in
  let '(s2, r2) := attempt 2 s1 in
  let '(s3, r3) := attempt 3 s2 in
  let out := register_with_retry attempt s in
  out.2 = retry_verdict r1 r2 r3 /\ out.1.2 = retry_sleeps r1 r2 /\
  out.1.1 = match r1 with Err Timeout => match r2 with Err Timeout => s3 | _ => s2 end | _ => s1 end.
Proof.
  unfold register_with_retry. cbn [register_loop REGISTRATION_RETRIES].
  destruct (attempt 1 s) as [s1 r1] eqn:E1. destruct (attempt 2 s1) as [s2 r2] eqn:E2.
  destruct (attempt 3 s2) as [s3 r3] eqn:E3.
  destruct r1 as [[]|[]|]; try done; simpl.
  destruct r2 as [[]|[]|]; try done; simpl.
  by destruct r3 as [[]|[]|].
Qed.

(** A lost acknowledgement is fatal: when the server receives the first
    request but its response is lost, and the network then works, the retry
    finds the client registered by its own first attempt and the start fails
    as [already registered], leaving the robot registered on the server. *)
Theorem lost_ack_is_fatal (net : nat -> bool * bool) (l : Lease) (id : string) (cfg : ClientConfig) :
  plain_id id = true -> state l id = Unknown \/ state l id = Expected ->
  net 1 = (true, false) -> net 2 = (true, true) ->
  let out := register_with_retry (network_attempt net id cfg) l in
  out.2 = Err "client already registered with server" /\ state out.1.1 id = Registered.
Proof.
  intros Hi Hst N1 N2. cbv zeta. unfold register_with_retry, network_attempt.
  cbn [register_loop REGISTRATION_RETRIES]. rewrite N1, N2. cbn [fst snd].
  rewrite (register_exchange debug_error debug_status l id cfg true false Hi). simpl.
  assert (state (register l id cfg).1 id = Registered) as Hr.
  { pose proof (apply_op_transition l (OpRegister id cfg)) as Ht. cbn [apply_op op_id] in Ht.
    inversion Ht as [? ? ? Hs| | | | | |]; [done|]. destruct Hst; congruence. }
  rewrite (register_exchange debug_error debug_status _ id cfg true true Hi). simpl.
  rewrite Hr. simpl. split; [done|].
  pose proof (apply_op_transition (register l id cfg).1 (OpRegister id cfg)) as Ht.
  cbn [apply_op op_id] in Ht. rewrite Hr in Ht. by inversion Ht.
Qed.

(** Registration succeeds after lost requests: if the first attempts'
    requests are lost and a later one of the three is answered, a client
    that was unknown or expected ends registered and the start goes on. *)
Theorem late_attempt_registers (net : nat -> bool * bool) (l : Lease) (id : string)
    (cfg : ClientConfig) (k : nat) :
  plain_id id = true -> state l id = Unknown \/ state l id = Expected ->
  1 <= k <= 3 -> (forall j, 1 <= j < k -> (net j).1 = false) -> net k = (true, true) ->
  let out := register_with_retry (network_attempt net id cfg) l in
  out.2 = Ok tt /\ state out.1.1 id = Registered.
Proof.
  intros Hi Hst Hk Hlost Nk. cbv zeta. unfold register_with_retry, network_attempt.
  assert (state (register l id cfg).1 id = Registered) as Hr.
  { pose proof (apply_op_transition l (OpRegister id cfg)) as Ht. cbn [apply_op op_id] in Ht.
    inversion Ht as [? ? ? Hs| | | | | |]; [done|]. destruct Hst; congruence. }
  assert (exchange_register debug_error debug_status l id cfg true true
          = ((register l id cfg).1, Ok tt)) as Hwin.
  { rewrite (register_exchange debug_error debug_status l id cfg true true Hi). simpl.
    by destruct Hst as [-> | ->]. }
  assert (forall b, exchange_register debug_error debug_status l id cfg false b = (l, Err Timeout)) as Hl
    by (intros b; by rewrite (register_exchange debug_error debug_status l id cfg false b Hi)).
  cbn [register_loop REGISTRATION_RETRIES].
  destruct k as [|[|[|[|k]]]]; try lia.
  - rewrite Nk. cbn [fst snd]. by rewrite Hwin.
  - rewrite (Hlost 1), Hl by lia. simpl. rewrite Nk. cbn [fst snd]. by rewrite Hwin.
  - rewrite (Hlost 1), Hl by lia. simpl. rewrite (Hlost 2), Hl by lia. simpl. rewrite Nk.
    cbn [fst snd]. by rewrite Hwin.
Qed.
End bootstrap.

(** ** Loading the inputs *)
Definition EMPTY_RULES : string := "rules = []" +:+ newline.

Section inputs.
Context `{JN : JsonNumber}.
Context (read_file : string -> option string)
        (toml_client : string -> string + ClientConfig)
        (toml_manifest : string -> string + RulesManifest)
        (rules_from_toml : string -> string + Rules)
        (rules_to_toml : Rules -> string + string)
        (demo_toml : string) (replace_id : string -> string -> string)
        (fmt_f64 : f64 -> string) (fmt_value : Value -> string).

(** The rules a store is bootstrapped with, or the parse error. *)
Definition bootstrap_rules (text : string) : res string Rules :=
  match rules_from_toml text with inl e => Err e | inr r => Ok r end.

Definition fail_safe_store : res string Rules :=
  expect "empty ruleset always parses" (bootstrap_rules EMPTY_RULES).

Definition bootstrap_demo (robot_id : string) : res string Rules :=
  expect "built-in demo rules must parse" (bootstrap_rules (replace_id demo_toml robot_id)).

Definition raw_or_default (text : string) : res string Rules :=
  match bootstrap_rules text with
  | Ok r => Ok r
  | Err _ => fail_safe_store
  | Panic w => Panic w
  end.

Definition compile_rules_or_default (text robot_id : string) : res string Rules :=
  match parse_semantic toml_manifest text with
  | Ok doc =>
      match compile fmt_f64 fmt_value doc robot_id with
      | Ok rules =>
          t ← Rules_to_toml rules_to_toml rules;
          match bootstrap_rules t with
          | Ok s => Ok s
          | Err _ => raw_or_default text
          | Panic w => Panic w
          end
      | Err _ => raw_or_default text
      | Panic w => Panic w
      end
  | Err _ => raw_or_default text
  | Panic w => Panic w
  end.

Record Args := mkArgs { arg_config : option string; arg_ruleset : option string }.

Definition load_client_config (a : Args) : option ClientConfig :=
  match arg_config a with
  | Some p =>
      match read_file p with
      | Some text =>
          match client_config_from_toml toml_client text with Ok cfg => Some cfg | _ => None end
      | None => None
      end
  | None => None
  end.

(** The client configuration and the rules of the store. *)
Definition load_inputs (a : Args) (robot_id : string) : res string (option ClientConfig * Rules) :=
  let client_config := load_client_config a in
  store ← match arg_ruleset a with
          | Some p =>
              match read_file p with
              | Some text => compile_rules_or_default text robot_id
              | None => fail_safe_store
              end
          | None =>
              if is_some client_config then bootstrap_demo robot_id else fail_safe_store
          end;
  mret (client_config, store).

(** Documented: the two literals the program relies on parse, the empty rule
    list to the empty ruleset. *)
Context (Hempty : rules_from_toml EMPTY_RULES = inr Rules_default).

Lemma fail_safe_empty : fail_safe_store = Ok Rules_default.
Proof. unfold fail_safe_store, bootstrap_rules. by rewrite Hempty. Qed.

Lemma raw_or_default_Ok text :
  raw_or_default text = Ok match rules_from_toml text with inr r => r | inl _ => Rules_default end.
Proof.
  unfold raw_or_default, bootstrap_rules. destruct (rules_from_toml text); [apply fail_safe_empty|done].
Qed.

(** Loading a requested ruleset fails safe, but for one panic.  For a
    slash-free robot identifier the store holds the compiled rules if the text
    compiles and they read back, else the text's own rules if it parses as a
    raw ruleset, else the empty ruleset, under which no tick ever publishes
    anything; an unreadable file gives the empty ruleset; and the only way not
    to get a store is that the writer refuses what was compiled. *)
Theorem ruleset_load_fail_safe (a : Args) (p robot_id : string) :
  has_char slash robot_id = false -> arg_ruleset a = Some p ->
  load_inputs a robot_id =
    (match read_file p with
     | None => Ok (load_client_config a, Rules_default)
     | Some text =>
         let raw := match rules_from_toml text with inr r => r | inl _ => Rules_default end in
         match toml_manifest text with
         | inr doc =>
             match compile fmt_f64 fmt_value doc robot_id with
             | Ok rules =>
                 match rules_to_toml rules with
                 | inr t => Ok (load_client_config a,
                                match rules_from_toml t with inr r => r | inl _ => raw end)
                 | inl _ => Panic "Rules is serializable"
                 end
             | _ => Ok (load_client_config a, raw)
             end
         | inl _ => Ok (load_client_config a, raw)
         end
     end) /\
  (forall now st, (tick now st Rules_default).1 = []).
Proof.
  intros Hi Ha. split; [|done]. unfold load_inputs. rewrite Ha. cbv zeta.
  destruct (read_file p) as [text|]; [|by rewrite fail_safe_empty].
  unfold compile_rules_or_default, parse_semantic, parse_with. rewrite raw_or_default_Ok.
  destruct (toml_manifest text) as [e|doc]; [done|].
  pose proof (compile_no_panic fmt_f64 fmt_value doc robot_id Hi) as Hp.
  destruct (compile fmt_f64 fmt_value doc robot_id) as [rules|e|w]; [|done..].
  unfold Rules_to_toml. destruct (rules_to_toml rules) as [e|t]; [done|]. cbn [mbind res_bind].
  unfold bootstrap_rules. by destruct (rules_from_toml t).
Qed.

(** A broken client configuration does not put the client into the safe state
    its log announces: with a readable ruleset, the ruleset's own rules are
    loaded all the same. *)
Theorem invalid_config_still_loads_rules (a : Args) (p text robot_id : string) (r : Rules) :
  load_client_config a = None -> arg_ruleset a = Some p -> read_file p = Some text ->
  is_ok (parse_semantic toml_manifest text) = false -> is_panic (parse_semantic toml_manifest text) = false ->
  rules_from_toml text = inr r ->
  load_inputs a robot_id = Ok (None, r).
Proof.
  intros Hc Ha Hf Hs Hp Hr. unfold load_inputs. rewrite Hc, Ha, Hf.
  unfold compile_rules_or_default. destruct (parse_semantic toml_manifest text); [done| |done].
  rewrite raw_or_default_Ok, Hr. done.
Qed.
End inputs.

(** ** Concrete instances *)
Module RuntimeEx.
Definition net_lost_ack (k : nat) : bool * bool := match k with 1 => (true, false) | _ => (true, true) end.
Definition net_lost_request (k : nat) : bool * bool := match k with 1 => (false, false) | _ => (true, true) end.
Definition reader (t : string) : string + Rules (JN := model_number) :=
  if (t =? EMPTY_RULES)%string then inr Rules_default
  else if (t =? "sem")%string then inl "not raw" else inr (mkRules [RegEx.rule t]).
Definition sem_reader (t : string) : string + RulesManifest (JN := model_number) :=
  if (t =? "sem")%string then inr Ex.good else inl "not semantic".
Definition client_reader (_ : string) : string + ClientConfig := inl "no".
Definition file (p : string) : option string := Some p.
Definition args (p : string) : Args := mkArgs None (Some p).
End RuntimeEx.

Lemma lost_ack_is_fatal_witness :
  (register_with_retry (network_attempt WireEx.dbg_e WireEx.dbg_s RuntimeEx.net_lost_ack "7" WireEx.cfg)
     WireEx.lease0).2 = Err "client already registered with server".
Proof.
  apply (lost_ack_is_fatal WireEx.dbg_e WireEx.dbg_s RuntimeEx.net_lost_ack WireEx.lease0 "7" WireEx.cfg);
    [reflexivity|right; reflexivity|reflexivity|reflexivity].
Defined.

Lemma late_attempt_registers_witness :
  (register_with_retry (network_attempt WireEx.dbg_e WireEx.dbg_s RuntimeEx.net_lost_request "7" WireEx.cfg)
     WireEx.lease0).2 = Ok tt.
Proof.
  apply (late_attempt_registers WireEx.dbg_e WireEx.dbg_s RuntimeEx.net_lost_request WireEx.lease0 "7"
    WireEx.cfg 2); [reflexivity|right; reflexivity|lia| |reflexivity].
  intros j Hj. replace j with 1 by lia. reflexivity.
Defined.

Lemma ruleset_load_fail_safe_witness :
  match load_inputs RuntimeEx.file RuntimeEx.client_reader RuntimeEx.sem_reader RuntimeEx.reader
      (fun _ => inr "sem") "" (fun t _ => t) Ex.fmt Ex.fmtv (RuntimeEx.args "sem") "7" with
  | Ok (_, rs) => length (rules rs) = 0
  | _ => False
  end.
Proof.
  rewrite (proj1 (ruleset_load_fail_safe RuntimeEx.file RuntimeEx.client_reader RuntimeEx.sem_reader
    RuntimeEx.reader (fun _ => inr "sem") "" (fun t _ => t) Ex.fmt Ex.fmtv eq_refl
    (RuntimeEx.args "sem") "sem" "7" eq_refl eq_refl)).
  vm_cast_no_check (eq_refl 0).
Defined.
