(* ===== verification/Bootstrap.v ===== *)
(** * Bootstrap: starting a client and supervising it ([Runtime] of
      [src/runtime.rs], [run_server] of [src/server.rs])

    [Runtime::bootstrap] from the flags to the running session over the
    parts of the other files, the subsystems started next, and their
    supervision.  Opening a session and declaring a token are Zenoh's: oracles
    that succeed or fail. *)
From S2P Require Import Prelude Json Rules Topic Semantic SemanticSpec Engine ClientConfig Lease Registration Auth Transport Channels Config Loop Health Runtime Signaling Mesh.

(** ** Bootstrap *)
Record BootArgs := mkBoot {
  boot_robot_id : option string;
  boot_auth_mode : string; boot_allow_insecure : bool;
  boot_cert : option string; boot_key : option string; boot_trust : option string;
  boot_connect : list string; boot_inputs : Args
}.

(** What the start has done to the outside: the sessions opened, with their
    configurations, the liveliness tokens, and the server's lease. *)
Record World := mkWorld { sessions : list ZConfig; tokens : list string; server : Lease }.

Definition robot_id_of (env_id : option string) (a : BootArgs) : string :=
  match boot_robot_id a with Some id => id | None => default "7" env_id end.

Section bootstrap.
Context `{JN : JsonNumber}.
Context (path_exists : string -> bool) (read_file : string -> option string)
        (json_string : string -> string) (json_value : Value -> string)
        (json_strings : list string -> string + string).
(** The readers and writers [load_inputs] uses. *)
Context (toml_client : string -> string + ClientConfig)
        (toml_manifest : string -> string + RulesManifest)
        (rules_from_toml : string -> string + Rules) (rules_to_toml : Rules -> string + string)
        (demo_toml : string) (replace_id : string -> string -> string)
        (fmt_f64 : f64 -> string) (fmt_value : Value -> string).
(** [Transport::open_with], the token's declaration, and the network, which
    delivers the two messages of registration attempt [k] or not. *)
Context (open_session : ZConfig -> string + unit) (declare_token : string -> string + unit).
Context `{W : RegistrationWire} {WL : RegistrationWireLaws W}.
Context (debug_error : RegistrationError -> string) (debug_status : RegistrationStatus -> string)
        (net : nat -> bool * bool).

Definition inputs (a : BootArgs) (robot_id : string) : res string (option ClientConfig * Rules) :=
  load_inputs read_file toml_client toml_manifest rules_from_toml rules_to_toml demo_toml replace_id
    fmt_f64 fmt_value (boot_inputs a) robot_id.

(** The session's configuration: derived from the flags, then the peers. *)
Definition session_config (a : BootArgs) (robot_id : string) (auth : AuthConfig) : res string ZConfig :=
  config ← map_err (fun e => "auth config invalid: " +:+ fmt_auth_error e)
    (zenoh_config path_exists read_file json_string json_value auth robot_id);
  mret (match boot_connect a with
        | [] => config
        | endpoints => with_endpoints json_strings config endpoints
        end).

(** The steps before any contact with the outside. *)
Definition prepare (a : BootArgs) (robot_id : string)
    : res string (option ClientConfig * Rules * ZConfig) :=
  auth ← build_auth path_exists read_file (boot_auth_mode a) (boot_allow_insecure a)
    (boot_cert a) (boot_key a) (boot_trust a);
  ins ← inputs a robot_id;
  config ← session_config a robot_id auth;
  mret (ins, config).

Definition register_client (robot_id : string) (cfg : option ClientConfig) (l : Lease)
    : Lease * res string unit :=
  match cfg with
  | Some cfg =>
      let '(l', _, v) := register_with_retry
        (network_attempt debug_error debug_status net robot_id cfg) l in (l', v)
  | None => (l, Ok tt)
  end.

(** [Runtime::bootstrap]: the world it leaves and the rules of the store. *)
Definition bootstrap_client (env_id : option string) (a : BootArgs) (w : World)
    : World * res string Rules :=
  let robot_id := robot_id_of env_id a in
  match prepare a robot_id with
  | Ok (client_config, store, config) =>
      match open_session config with
      | inl e => (w, Err e)
      | inr _ =>
          let w1 := mkWorld (sessions w ++ [config]) (tokens w) (server w) in
          match liveliness_key (E := string) robot_id with
          | Ok key =>
              match declare_token (topic_str key) with
              | inl e => (w1, Err e)
              | inr _ =>
                  let '(l, v) := register_client robot_id client_config (server w) in
                  (mkWorld (sessions w ++ [config]) (tokens w ++ [topic_str key]) l,
                   (fun _ => store) <$> v)
              end
          | Err e => (w1, Err e)
          | Panic p => (w1, Panic p)
          end
      end
  | Err e => (w, Err e)
  | Panic p => (w, Panic p)
  end.

(** The value a key of a configuration ends up with: the last insertion. *)
Definition config_value (c : ZConfig) (k : string) : option string :=
  foldl (fun acc kv => if (kv.1 =? k)%string then Some kv.2 else acc) None c.

Lemma with_endpoints_keeps c l k :
  ("mode" =? k)%string = false -> ("connect/endpoints" =? k)%string = false ->
  ("scouting/multicast/enabled" =? k)%string = false ->
  config_value (with_endpoints json_strings c l) k = config_value c k.
Proof.
  intros H1 H2 H3. unfold with_endpoints, config_value. rewrite !foldl_app.
  destruct l; cbn [foldl fst snd]; by rewrite ?H1, ?H2, ?H3.
Qed.

(** What a session is opened with: TLS on three credential files, whatever
    the peers, or nothing when the operator accepted that. *)
Definition secured (a : BootArgs) (c : ZConfig) : Prop :=
  config_value c "transport/link/tls/enable_mtls" = Some "true" /\
  pem_ok path_exists read_file "cert" (boot_cert a) /\
  pem_ok path_exists read_file "key" (boot_key a) /\
  pem_ok path_exists read_file "trust" (boot_trust a).

Lemma prepare_Ok a id cfg store c :
  prepare a id = Ok (cfg, store, c) ->
  inputs a id = Ok (cfg, store) /\ (boot_allow_insecure a = true \/ secured a c).
Proof.
  intros (auth & Hb & H)%res_bind_Ok. apply res_bind_Ok in H as ([cfg' store'] & Hi & H).
  apply res_bind_Ok in H as (c' & Hc & [= -> -> ->]). split; [done|].
  apply res_bind_Ok in Hc as (c0 & Hz & [= Hc]). apply map_err_Ok in Hz.
  destruct (zenoh_config_cases _ _ _ _ _ _ _ _ _ _ _ _ Hb Hz)
    as [[_ Hins]|(_ & H1 & H2 & H3 & cp & kp & tp & acl & _ & ->)]; [by left|right].
  split; [|done]. rewrite <- Hc. destruct (boot_connect a); [done|]. by rewrite with_endpoints_keeps.
Qed.

(** A start whose registration succeeds leaves the robot registered. *)
Lemma register_client_Ok id cfg l l' :
  plain_id id = true -> register_client id cfg l = (l', Ok tt) ->
  (cfg = None /\ l' = l) \/ (is_some cfg = true /\ state l' id = Registered).
Proof.
  intros Hi. destruct cfg as [cfg|]; cbn [register_client]; [right; split; [done|]|left; by simplify_eq].
  set (at_ := network_attempt debug_error debug_status net id cfg) in *.
  assert (forall k l0 l1, at_ k l0 = (l1, Ok tt) -> state l1 id = Registered) as Hwin.
  { intros k l0 l1. unfold at_, network_attempt. rewrite register_exchange by done.
    destruct (net k).1, (net k).2; simpl; try done.
    pose proof (apply_op_transition l0 (OpRegister id cfg)) as Ht. cbn [apply_op op_id] in Ht.
    destruct (state l0 id) eqn:Hs; try done; intros [= <-]; by inversion Ht. }
  unfold register_with_retry in *. cbn [register_loop REGISTRATION_RETRIES] in *.
  destruct (at_ 1 l) as [l1 r1] eqn:E1; destruct r1 as [[]|[]|]; try (by intros; simplify_eq/=; eauto).
  destruct (at_ 2 l1) as [l2 r2] eqn:E2; destruct r2 as [[]|[]|]; try (by intros; simplify_eq/=; eauto).
  destruct (at_ 3 l2) as [l3 r3] eqn:E3; destruct r3 as [[]|[]|]; by intros; simplify_eq/=; eauto.
Qed.

(** ** Properties *)

(** C25. The start fails closed.  Whatever the flags, the files and the network:
    a session is opened only with TLS enabled on three valid credential
    files, the peers given on the command line notwithstanding, or when the
    operator accepted an insecure one; without a session nothing is declared
    or registered and the start fails; the server's lease changes only after
    the robot's liveliness token was declared and only for a client whose
    configuration is valid; and the start succeeds only with the token
    declared, the rules that were loaded, and the robot registered unless it
    has no client configuration. *)
Theorem bootstrap_fails_closed (env_id : option string) (a : BootArgs) (w : World) :
  let id := robot_id_of env_id a in
  let out := bootstrap_client env_id a w in
  let token := "robot/" +:+ id +:+ "/client/liveliness" in
  plain_id id = true ->
  (sessions out.1 = sessions w /\ tokens out.1 = tokens w /\ server out.1 = server w /\
     is_ok out.2 = false \/
   exists c, sessions out.1 = sessions w ++ [c] /\ (boot_allow_insecure a = true \/ secured a c)) /\
  (server out.1 <> server w ->
     tokens out.1 = tokens w ++ [token] /\
     exists cfg rs, inputs a id = Ok (Some cfg, rs)) /\
  (forall rs, out.2 = Ok rs ->
     tokens out.1 = tokens w ++ [token] /\
     exists cfg, inputs a id = Ok (cfg, rs) /\
       (cfg = None /\ server out.1 = server w \/
        is_some cfg = true /\ state (server out.1) id = Registered)).
Proof.
  intros id out token Hid. subst out token. unfold bootstrap_client. fold id.
  pose proof (plain_no_slash id Hid) as [Hs _].
  assert (forall r : res string Rules, is_ok r = false ->
    let out := (w, r) in
    (sessions out.1 = sessions w /\ tokens out.1 = tokens w /\ server out.1 = server w /\
       is_ok out.2 = false) /\
    (server out.1 <> server w -> False) /\ (forall rs, out.2 = Ok rs -> False)) as Hfail.
  { intros r Hr. simpl. split; [done|]. split; [done|]. by intros rs ->. }
  destruct (prepare a id) as [[[cfg store] c]|e|p] eqn:Hp; [|naive_solver..].
  apply prepare_Ok in Hp as [Hi Hc].
  destruct (open_session c); [naive_solver|].
  destruct (robot_builders_Ok (E := string) id Hs) as (_ & -> & _). cbn [topic_str].
  destruct (declare_token _); cbn [fst snd sessions tokens server].
  { split; [right; eauto|]. by split. }
  destruct (register_client id cfg (server w)) as [l v] eqn:Hr.
  cbn [fst snd sessions tokens server]. split; [right; eauto|]. split.
  - intros Hl. split; [done|]. destruct cfg as [cfg|]; [by eauto|]. simpl in Hr. congruence.
  - intros rs. destruct v as [[]| |]; [|done..]. intros [= ->]. split; [done|].
    exists cfg. split; [done|]. by apply register_client_Ok.
Qed.
(** *** Actions without a payload *)

(** A raw action that names a topic and leaves the optional payload out. *)
Definition bare_action (a : SemanticAction) : bool :=
  is_some (sa_topic a) && negb (is_some (sa_payload a)).
Definition null_payload (rs : Rules) : bool :=
  existsb (fun r => existsb (fun act => match a_payload act with Null => true | _ => false end)
                      (r_actions r)) (rules rs).

Lemma bare_action_null id a : bare_action a = true -> action_valid a = true ->
  a_payload (expand_action id a) = Null.
Proof.
  unfold bare_action, action_valid, verb_count, expand_action, verb_of. destruct a as [e sl r t p q].
  cbn. destruct t as [t|], p, e, sl, r; try done.
Qed.

Lemma compiled_null_payload doc id rs sr a :
  has_char slash id = false -> compile fmt_f64 fmt_value doc id = Ok rs ->
  sr ∈ m_rules doc -> a ∈ sr_actions sr -> bare_action a = true -> null_payload rs = true.
Proof.
  intros Hi Hc Hsr Ha Hb.
  pose proof (compile_validated _ _ _ _ _ Hc) as Hv. rewrite forallb_forall in Hv.
  specialize (Hv sr (proj1 (list_elem_of_In _ _) Hsr)).
  apply andb_prop in Hv as [Hv _]. rewrite forallb_forall in Hv.
  specialize (Hv a (proj1 (list_elem_of_In _ _) Ha)).
  apply compiled_refines in Hc; [|done]. apply list_elem_of_lookup_1 in Hsr as [i Hsr].
  destruct (Forall2_lookup_l _ _ _ _ _ Hc Hsr) as (r & Hr & _ & Hacts & _).
  apply existsb_exists. exists r. split; [by apply list_elem_of_In, (list_elem_of_lookup_2 _ i)|].
  apply existsb_exists. exists (expand_action id a). rewrite Hacts. split.
  - by apply in_map, list_elem_of_In.
  - by rewrite bare_action_null.
Qed.

(** C11. A ruleset file can crash a client.  A manifest's raw action may leave
    its payload out, and compiles to a null payload; TOML has no null, so the
    writer refuses the compiled ruleset (documented behaviour of the writer,
    [Hnull]), and the client panics while it loads its inputs, before it has
    opened a session - instead of the fail-safe store the loader falls back
    to for every other ruleset it cannot use. *)
Theorem missing_payload_crashes_client (env_id : option string) (a : BootArgs) (w : World)
    (auth : AuthConfig) (p text : string) (doc : RulesManifest) (rs : Rules)
    (sr : SemanticRule) (act : SemanticAction)
    (Hnull : forall rs, null_payload rs = true -> exists e, rules_to_toml rs = inl e) :
  let id := robot_id_of env_id a in
  has_char slash id = false ->
  build_auth path_exists read_file (boot_auth_mode a) (boot_allow_insecure a)
    (boot_cert a) (boot_key a) (boot_trust a) = Ok auth ->
  arg_ruleset (boot_inputs a) = Some p -> read_file p = Some text ->
  toml_manifest text = inr doc -> compile fmt_f64 fmt_value doc id = Ok rs ->
  sr ∈ m_rules doc -> act ∈ sr_actions sr -> bare_action act = true ->
  bootstrap_client env_id a w = (w, Panic "Rules is serializable").
Proof.
  intros id Hi Hauth Ha Hf Hm Hc Hsr Hact Hb. unfold bootstrap_client, prepare. fold id.
  rewrite Hauth. cbn [mbind res_bind]. unfold inputs, load_inputs. rewrite Ha, Hf.
  unfold compile_rules_or_default, parse_semantic, parse_with, Rules_to_toml. rewrite Hm, Hc.
  by destruct (Hnull rs (compiled_null_payload _ _ _ _ _ Hi Hc Hsr Hact Hb)) as [e ->].
Qed.
End bootstrap.

(** ** Supervision *)
Definition client_subsystems (media : bool) : list string :=
  ["health"; "hot-reload"; "rule engine"] ++ if media then ["signaling"] else [].
Definition server_subsystems : list string :=
  ["health"; "rule engine"; "hot-reload"; "registration"; "heartbeat"].

(** The body of every subsystem task: an error is logged, and the task ends
    either way. *)
Definition subsystem_end {E A} (r : res E A) : TaskEnd :=
  match r with Panic w => Panicked w | _ => Finished end.

(** [Runtime::supervise], over the first subsystem to end. *)
Definition supervise (debug : TaskEnd -> string) (media : bool) (completed : option (string * TaskEnd))
    : option (res string unit) :=
  await_shutdown debug (client_subsystems media) completed.
Definition supervise_server (debug : TaskEnd -> string) (completed : option (string * TaskEnd))
    : option (res string unit) :=
  await_shutdown debug server_subsystems completed.

Section media.
Context `{JN : JsonNumber} {SW : SignalWire} {SL : SignalWireLaws SW}.

Lemma put_value_not_panic key v : is_panic (put_value key v) = false.
Proof.
  destruct v as [e|v]; [done|]. simpl. unfold serialize. by destruct (wire_to_vec v).
Qed.

Lemma run_signaling_not_panic put sub id :
  mesh_id id = true -> is_panic (run_signaling put sub id) = false.
Proof.
  intros Hm. pose proof (mesh_id_inv id Hm) as (_ & Hs & _). unfold run_signaling.
  rewrite robot_local_Ok by done. cbn [mbind res_bind].
  destruct (robot_builders_Ok (E := string) id Hs) as (_ & _ & Hk).
  assert (is_panic (publish_presence id ["robot/" +:+ id +:+ "/local/cam0"]) = false) as Hp.
  { unfold publish_presence. rewrite Hk. apply put_value_not_panic. }
  cbn [topic_str]. destruct (publish_presence id _) as [q|e|p]; [|done|done].
  cbn [mbind res_bind]. destruct (put q); [done|]. cbn [mbind res_bind].
  unfold subscribe_presence.
  assert (signal_presence_pattern (E := string) = Ok (mkPattern SIGNAL_PRESENCE_PATTERN)) as -> by done.
  cbn [mbind res_bind]. destruct (sub _); simpl; [done|].
  unfold run_signal_receiver. destruct (signal_patterns_Ok id Hm) as (-> & -> & ->). simpl.
  by repeat match goal with |- context [sub ?p] => destruct (sub p) end.
Qed.

(** A healthy media client exits.  The supervised signaling task only sets
    the listener up: with every publication and subscription succeeding it
    leaves the three receiver tasks running and ends, and it ends in every
    other case too; the supervisor, for which the end of any subsystem is
    fatal, then fails the client. *)
Theorem media_client_exits (debug : TaskEnd -> string) (put : Put -> string + unit)
    (sub : Pattern -> string + unit) (id : string) :
  mesh_id id = true ->
  run_signaling (fun _ => inr tt) (fun _ => inr tt) id = Ok (receiver_tasks id) /\
  subsystem_end (run_signaling put sub id) = Finished /\
  supervise debug true (Some ("signaling", subsystem_end (run_signaling put sub id)))
  = Some (Err ("signaling subsystem exited: " +:+ debug Finished)).
Proof.
  intros Hm. pose proof (run_signaling_not_panic put sub id Hm) as Hp.
  assert (subsystem_end (run_signaling put sub id) = Finished) as He
    by (by destruct (run_signaling put sub id)).
  split; [|by rewrite He]. unfold run_signaling.
  pose proof (mesh_id_inv id Hm) as (_ & Hs & _). rewrite robot_local_Ok by done.
  destruct (robot_builders_Ok (E := string) id Hs) as (_ & _ & Hk).
  destruct (presence_reads_back (mkPresence id ["robot/" +:+ id +:+ "/local/cam0"]))
    as (x & y & Hx & Hy & _).
  assert (publish_presence id ["robot/" +:+ id +:+ "/local/cam0"]
    = Ok (mkPut ("robot/" +:+ id +:+ "/signal/presence") y None)) as Hpub.
  { unfold publish_presence. rewrite Hk. cbn [mbind res_bind]. rewrite Hx. simpl.
    unfold serialize. by rewrite Hy. }
  cbn [mbind res_bind].
  change (publish_presence id [_]) with (publish_presence id ["robot/" +:+ id +:+ "/local/cam0"]).
  rewrite Hpub. unfold subscribe_presence.
  assert (signal_presence_pattern (E := string) = Ok (mkPattern SIGNAL_PRESENCE_PATTERN)) as -> by done.
  cbn [mbind res_bind]. by apply run_signal_receiver_Ok.
Qed.
End media.

(** ** Concrete instances *)
Module BootEx.
Definition boot : BootArgs :=
  mkBoot (Some "7") "mtls" false (Some "c.pem") (Some "k.pem") (Some "t.pem") ["tcp/10.0.0.1:7447"]
    (mkArgs (Some "client.toml") (Some "sem")).
Definition cfg : ClientConfig :=
  mkClientConfig (mkClientSection (uint_wrap 64 1000)) None
    (Some (mkSubs (Some (mkLocSubs "x" "y" "z")) (Some (mkZoneSubs "site" "enter" "exit"))))
    (Some (mkPubs (Some (mkPublisher "loc" (uint_wrap 64 100))) (Some (mkPublisher "zone" (uint_wrap 64 100))))).
Definition client_reader (_ : string) : string + ClientConfig := inr cfg.
Definition files (p : string) : option string :=
  if (p =? "sem")%string then Some p else AuthEx.fs p.
Definition world : World := mkWorld [] [] WireEx.lease0.
Definition start : World * res string (Rules (JN := model_number)) :=
  bootstrap_client (fun _ => true) files AuthEx.quoted AuthEx.render (fun _ => inr "[]")
    client_reader RuntimeEx.sem_reader RuntimeEx.reader (fun _ => inr "compiled") "" (fun t _ => t)
    Ex.fmt Ex.fmtv (fun _ => inr tt) (fun _ => inr tt) WireEx.dbg_e WireEx.dbg_s
    RuntimeEx.net_lost_request None boot world.
End BootEx.

Lemma bootstrap_fails_closed_witness :
  is_ok BootEx.start.2 = true /\ tokens BootEx.start.1 = ["robot/7/client/liveliness"].
Proof.
  assert (is_ok BootEx.start.2 = true) as H by reflexivity. split; [exact H|].
  destruct BootEx.start.2 as [rs| |] eqn:E; [|discriminate H..].
  destruct (bootstrap_fails_closed (fun _ => true) BootEx.files AuthEx.quoted AuthEx.render
    (fun _ => inr "[]") BootEx.client_reader RuntimeEx.sem_reader RuntimeEx.reader
    (fun _ => inr "compiled") "" (fun t _ => t) Ex.fmt Ex.fmtv (fun _ => inr tt) (fun _ => inr tt)
    WireEx.dbg_e WireEx.dbg_s RuntimeEx.net_lost_request None BootEx.boot BootEx.world eq_refl)
    as (_ & _ & Hok).
  exact (proj1 (Hok rs E)).
Defined.

Lemma media_client_exits_witness :
  supervise (fun _ => "Ok(())") true
    (Some ("signaling", subsystem_end (run_signaling (JN := model_number)
             (fun _ => inr tt) (fun _ => inr tt) "7")))
  = Some (Err "signaling subsystem exited: Ok(())").
Proof.
  exact (proj2 (proj2 (media_client_exits (fun _ => "Ok(())") (fun _ => inr tt) (fun _ => inr tt) "7"
    eq_refl))).
Defined.

(** The manifest of a robot that greets, without saying what. *)
Module BareEx.
Definition bare : SemanticAction (JN := model_number) :=
  mkSemanticAction false None false (Some "robot/7/local/hello") None Reliable.
Definition rule : SemanticRule (JN := model_number) := mkSemanticRule "greet" Ex.cond_near [bare].
Definition doc : RulesManifest (JN := model_number) := mkManifest (site Ex.good) (Semantic.zones Ex.good) [rule].
Definition manifest_reader (t : string) : string + RulesManifest :=
  if (t =? "sem")%string then inr doc else inl "not semantic".
(** A writer without null. *)
Definition writer (rs : Rules (JN := model_number)) : string + string :=
  if null_payload rs then inl "unsupported unit type" else inr "compiled".
Definition start : World * res string (Rules (JN := model_number)) :=
  bootstrap_client (fun _ => true) BootEx.files AuthEx.quoted AuthEx.render (fun _ => inr "[]")
    BootEx.client_reader manifest_reader RuntimeEx.reader writer "" (fun t _ => t)
    Ex.fmt Ex.fmtv (fun _ => inr tt) (fun _ => inr tt) WireEx.dbg_e WireEx.dbg_s
    RuntimeEx.net_lost_request None BootEx.boot BootEx.world.
End BareEx.

Lemma missing_payload_crashes_client_witness :
  BareEx.start = (BootEx.world, Panic "Rules is serializable").
Proof.
  destruct (build_auth (fun _ => true) BootEx.files "mtls" false (Some "c.pem") (Some "k.pem") (Some "t.pem"))
    as [auth| |] eqn:E; [|discriminate E..].
  destruct (compile Ex.fmt Ex.fmtv BareEx.doc "7") as [rs| |] eqn:Hc; [|discriminate Hc..].
  refine (missing_payload_crashes_client (fun _ => true) BootEx.files AuthEx.quoted AuthEx.render
    (fun _ => inr "[]") BootEx.client_reader BareEx.manifest_reader RuntimeEx.reader BareEx.writer ""
    (fun t _ => t) Ex.fmt Ex.fmtv (fun _ => inr tt) (fun _ => inr tt) WireEx.dbg_e WireEx.dbg_s
    RuntimeEx.net_lost_request None BootEx.boot BootEx.world auth "sem" "sem" BareEx.doc rs BareEx.rule
    BareEx.bare _ eq_refl E eq_refl eq_refl eq_refl Hc _ _ eq_refl).
  - intros r Hr. unfold BareEx.writer. rewrite Hr. by eexists.
  - by left.
  - by left.
Defined.
