(* ===== verification/Tasks.v ===== *)
(** * Tasks: the subsystems of a running process, and when it ends
      ([src/runtime.rs], [src/server.rs], [HotReload] of [src/config.rs],
      [serve] of [src/health.rs], [run_engine] of [src/engine.rs])

    The tasks [Runtime::run] and [run_server] spawn, from their set-up to the
    supervisor that waits for the first of them to end.  A task whose set-up
    succeeds runs for as long as the session and its channels are open. *)
From S2P Require Import Prelude Json Rules Topic Engine EngineSpec EngineProps Registry ClientConfig Lease Registration Channels Config Loop Transport Signaling Mesh Health Media Bootstrap.

Inductive Task := Runs | Ended (e : TaskEnd).
Definition task_runs (t : Task) : bool := match t with Runs => true | Ended _ => false end.

(** The body of a subsystem task whose future, once set up, is pending: an
    error of the set-up is logged, and the task ends. *)
Definition spawn_subsystem {E A} (set_up : res E A) : Task :=
  match set_up with Ok _ => Runs | _ => Ended (subsystem_end set_up) end.

Section tasks.
Context `{JN : JsonNumber} {W : Watch (Arc Rules)} {Q : Mpsc (string * Value)} {SW : SignalWire}.
(** Zenoh: the answer to a subscription and to a publication, and whether a
    string is a key expression; [bind] opens the health listener. *)
Context (sub : Pattern -> string + unit) (put : Put -> string + unit) (key_expr : string -> bool)
        (bind : string -> string + unit).

Definition subscribe (p : Pattern) : res string unit :=
  match sub p with inr _ => Ok tt | inl e => Err e end.

(** ** Set-ups *)
Definition unwrap {A} (m : res TopicError A) : res string A :=
  expect "called `Result::unwrap()` on an `Err` value" m.

(** [crate::health::serve] at the address of the environment. *)
Definition serve_addr (env : option string) : string := default "0.0.0.0:0" env.
Definition serve (env : option string) : res string unit :=
  match bind (serve_addr env) with inr _ => Ok tt | inl e => Err e end.

(** [HotReload::new], then [run] up to its loop. *)
Definition hot_reload_run (topic : string) : res string Pattern :=
  if key_expr topic then
    pattern ← expect "hot-reload topic is valid pattern" (pattern_try_new topic);
    _ ← subscribe pattern;
    mret pattern
  else Panic "called `Result::unwrap()` on an `Err` value".
Definition run_hot_reload (robot_id : string) : res string Pattern :=
  key ← rules_key robot_id;
  hot_reload_run (topic_str key).
Definition run_hot_reload_with_registry : res string Pattern := hot_reload_run RULESET_PUB_PATTERN.

(** The two zone subscriptions, before the engine's own. *)
Definition zone_subscriptions : res string unit :=
  entered ← unwrap (pattern_try_new ZONE_ENTERED_PATTERN);
  _ ← subscribe entered;
  cleared ← unwrap (pattern_try_new ZONE_CLEARED_PATTERN);
  subscribe cleared.

(** [run_engine] up to its loop; [swapped] are the swaps made meanwhile.
    [loop_start] has the loop exactly when its subscriptions succeed. *)
Definition subscribe_str (s : string) : string + unit := sub (mkPattern s).
Definition run_engine (store : ActiveRules) (swapped : list (Arc Rules)) : res string (option LoopState) :=
  _ ← zone_subscriptions;
  _ ← (subscribe_to_topics subscribe_str (arc_val (store_current store)) [] [] []).2;
  mret (loop_start empty_state store subscribe_str swapped).

(** [run_registration_handler] and [run_heartbeat_monitor] up to the waits
    at their ends. *)
Definition run_registration_handler : res string unit :=
  requests ← unwrap (pattern_try_new REGISTRATION_KEY);
  _ ← subscribe requests;
  deregistrations ← unwrap (pattern_try_new DEREGISTRATION_KEY);
  subscribe deregistrations.
Definition run_heartbeat_monitor : res string unit :=
  pattern ← unwrap (pattern_try_new LIVELINESS_PATTERN);
  subscribe pattern.

(** What follows [run_registration_handler]'s set-up: [join!] of its two
    inner tasks - [None] for one that runs - and then [pending], which never
    completes. *)
Definition join_pending (inner : list (option TaskEnd)) : Task :=
  if forallb is_some inner then (* joined: pending *) Runs else (* joining *) Runs.

Definition registration_task (inner : list (option TaskEnd)) : Task :=
  match run_registration_handler with
  | Ok _ => join_pending inner
  | r => Ended (subsystem_end r)
  end.

(** ** The subsystems *)

(** [start_common_subsystems] *)
Definition client_tasks (media : bool) (env_health : option string) (robot_id : string)
    (store : ActiveRules) (swapped : list (Arc Rules)) : list (string * Task) :=
  [("health", spawn_subsystem (serve env_health));
   ("hot-reload", spawn_subsystem (run_hot_reload robot_id));
   ("rule engine", spawn_subsystem (run_engine store swapped))]
  ++ if media then [("signaling", Ended (subsystem_end (run_signaling put sub robot_id)))] else [].

(** The five tasks of [run_server]; [inner] is how the registration
    subsystem's inner tasks stand. *)
Definition server_tasks (env_health : option string) (store : ActiveRules) (swapped : list (Arc Rules))
    (inner : list (option TaskEnd)) : list (string * Task) :=
  [("health", spawn_subsystem (serve env_health));
   ("rule engine", spawn_subsystem (run_engine store swapped));
   ("hot-reload", spawn_subsystem run_hot_reload_with_registry);
   ("registration", registration_task inner);
   ("heartbeat", spawn_subsystem run_heartbeat_monitor)].

(** [Runtime::run]: the subsystems under the supervisor, and beside them the
    call of [--video-peer]. *)
Definition runtime_run (path_exists : string -> bool) (metadata : string -> string + bool)
    (media : bool) (env_id env_health : option string) (a : BootArgs) (video : VideoArgs)
    (store : ActiveRules) (swapped : list (Arc Rules))
    : list (string * Task) * option (string * SourceSpec) :=
  (client_tasks media env_health (robot_id_of env_id a) store swapped,
   spawn_video_peer path_exists metadata media video).
End tasks.

(** ** The supervisor over the tasks

    [JoinSet::join_next] yields some task that has ended, in no fixed order;
    it waits when there is none. *)
Inductive supervised (debug : TaskEnd -> string) (ts : list (string * Task))
    : option (res string unit) -> Prop :=
  | sup_waits :
      forallb (fun t => task_runs t.2) ts = true ->
      supervised debug ts (await_shutdown debug (map fst ts) None)
  | sup_ended name e :
      (name, Ended e) ∈ ts ->
      supervised debug ts (await_shutdown debug (map fst ts) (Some (name, e))).

(** ** Lemmas *)
Lemma task_runs_spawn {E A} (r : res E A) : task_runs (spawn_subsystem r) = is_ok r.
Proof. by destruct r. Qed.

Lemma await_fatal debug names name e : names <> [] ->
  await_shutdown debug names (Some (name, e)) =
    Some (Err (name +:+ " subsystem exited: " +:+ debug e)).
Proof. by destruct names. Qed.

Lemma not_all_run (ts : list (string * Task)) :
  forallb (fun t => task_runs t.2) ts = false -> exists name e, (name, Ended e) ∈ ts.
Proof.
  induction ts as [|[name [|e]] ts IH]; [done| |].
  - intros (n & e & H)%IH. exists n, e. by right.
  - intros _. exists name, e. left.
Qed.

(** The supervisor's verdict: it always has one, it waits exactly when every
    task runs, and otherwise it fails with the name of a task that ended. *)
Lemma supervised_verdict debug (ts : list (string * Task)) :
  ts <> [] ->
  (exists out, supervised debug ts out) /\
  forall out, supervised debug ts out ->
    (out = None <-> forallb (fun t => task_runs t.2) ts = true) /\
    (out <> None -> exists name e, (name, Ended e) ∈ ts /\
       out = Some (Err (name +:+ " subsystem exited: " +:+ debug e))).
Proof.
  intros Hne. assert (map fst ts <> []) as Hm by (by destruct ts). split.
  - destruct (forallb (fun t => task_runs t.2) ts) eqn:E; [by eexists; apply sup_waits|].
    apply not_all_run in E as (n & e & H). eexists. by apply (sup_ended _ _ n e).
  - intros out [Ha|n e Hin].
    + destruct (map fst ts); [done|]. simpl. by split.
    + rewrite await_fatal by done. split; [|by exists n, e]. split; [done|].
      intros Ha. rewrite forallb_forall in Ha. by specialize (Ha _ (proj1 (list_elem_of_In _ _) Hin)).
Qed.

(** Every topic of a robot's own namespace can be subscribed. *)
Lemma local_pattern id r : plain_id id = true -> plain_id r = true ->
  pattern_try_new ("robot/" +:+ id +:+ "/local/" +:+ r)
  = Ok (mkPattern ("robot/" +:+ id +:+ "/local/" +:+ r)).
Proof.
  intros Hp Hr. pose proof (plain_no_slash id Hp) as [Hs Hne]. pose proof (plain_no_slash r Hr) as [Hrs Hrne].
  unfold plain_id in Hp, Hr. apply andb_true_iff in Hp as [_ Hw], Hr as [_ Hrw].
  apply negb_true_iff in Hw, Hrw.
  change ("robot/" +:+ id +:+ "/local/" +:+ r) with (path ["robot"; id; "local"] r).
  unfold pattern_try_new.
  destruct (path_no_double ["robot"; id; "local"] r) as [Hd _].
  { cbn [app forallb]. by rewrite Hs, Hne, Hrs, Hrne. }
  rewrite Hd, !andb_false_r.
  assert ((path ["robot"; id; "local"] r =? "")%string = false) as -> by done.
  assert (canonicalize (path ["robot"; id; "local"] r) = path ["robot"; id; "local"] r) as -> by done.
  rewrite split_path by (cbn [forallb]; by rewrite Hs).
  rewrite split_on_single by done. rewrite wildcard_free_pattern; [done|..]; cbn [forallb app].
  - by rewrite Hw, Hrw.
  - unfold matches_one_of. simpl. by rewrite ?andb_false_r.
Qed.
Lemma rules_pattern id : plain_id id = true ->
  pattern_try_new ("robot/" +:+ id +:+ "/local/rules")
  = Ok (mkPattern ("robot/" +:+ id +:+ "/local/rules")).
Proof. intros Hp. by apply (local_pattern id "rules"). Qed.

Section properties.
Context `{JN : JsonNumber} {W : Watch (Arc Rules)} {Q : Mpsc (string * Value)} {SW : SignalWire}.
Context (sub : Pattern -> string + unit) (put : Put -> string + unit) (key_expr : string -> bool)
        (bind : string -> string + unit) (debug : TaskEnd -> string).

Definition accepts (s : string) : Prop := sub (mkPattern s) = inr tt.

Lemma subscribe_ok s : is_ok (subscribe sub (mkPattern s)) = true <-> accepts s.
Proof. unfold subscribe, accepts. by destruct (sub _) as [|[]]. Qed.

Lemma is_ok_bind {E A B} (m : res E A) (f : A -> res E B) :
  is_ok (m ≫= f) = true <-> exists a, m = Ok a /\ is_ok (f a) = true.
Proof. destruct m; simpl; [|by split; [|intros (? & ? & ?)]..]. split; [eauto|by intros (? & [= <-] & ?)]. Qed.

Lemma subscribe_both s s' :
  is_ok (_ ← subscribe sub (mkPattern s); subscribe sub (mkPattern s')) = true <-> accepts s /\ accepts s'.
Proof.
  rewrite is_ok_bind, <- (subscribe_ok s), <- (subscribe_ok s').
  destruct (subscribe sub (mkPattern s)) as [[]| |]; simpl; [|by split; [intros (? & ? & ?)|intros []]..].
  split; [by intros (? & _ & ?)|intros [_ ?]; eauto].
Qed.

Lemma serve_ok env : is_ok (serve bind env) = true <-> bind (serve_addr env) = inr tt.
Proof. unfold serve. by destruct (bind _) as [|[]]. Qed.

Lemma hot_reload_run_ok topic :
  pattern_try_new topic = Ok (mkPattern topic) ->
  is_ok (hot_reload_run sub key_expr topic) = true <-> key_expr topic = true /\ accepts topic.
Proof.
  intros Hp. unfold hot_reload_run. rewrite Hp. destruct (key_expr topic); [|by split; [|intros []]].
  cbn [expect mbind res_bind]. unfold subscribe, accepts. destruct (sub _) as [|[]]; simpl; by split; [|intros []].
Qed.

Lemma run_hot_reload_ok id : plain_id id = true ->
  is_ok (run_hot_reload sub key_expr id) = true <->
    key_expr ("robot/" +:+ id +:+ "/local/rules") = true /\ accepts ("robot/" +:+ id +:+ "/local/rules").
Proof.
  intros Hp. unfold run_hot_reload.
  destruct (robot_builders_Ok (E := string) id (proj1 (plain_no_slash id Hp))) as [-> _].
  by apply hot_reload_run_ok, rules_pattern.
Qed.

Lemma subscribe_each_iff topics :
  is_ok (subscribe_each (subscribe_str sub) topics).2 = true <->
  Forall (fun t => exists p, pattern_try_new t = Ok p /\ accepts (pattern_str p)) topics.
Proof.
  induction topics as [|t ts IH]; cbn [subscribe_each]; [by split|]. rewrite Forall_cons, <- IH.
  destruct (pattern_try_new t) as [p|e|w]; [|by split; [|intros [(? & ? & _) _]]..].
  unfold subscribe_str, accepts. destruct (sub _) as [e|[]] eqn:E.
  - split; [done|]. intros [(q & [= <-] & Hq) _]. by rewrite E in Hq.
  - destruct (subscribe_each _ ts) as [hs r]. split; [|by intros [_ ?]]. intros Hr. by split; [exists p|].
Qed.

(** The engine's subscriptions: the zone events, and every topic of the rules. *)
Definition engine_ready (rs : Rules) : Prop :=
  accepts ZONE_ENTERED_PATTERN /\ accepts ZONE_CLEARED_PATTERN /\
  Forall (fun t => exists p, pattern_try_new t = Ok p /\ accepts (pattern_str p)) (sorted_topics rs).

Lemma run_engine_ok store swapped :
  is_ok (run_engine sub store swapped) = true <-> engine_ready (arc_val (store_current store)).
Proof.
  unfold run_engine, engine_ready. rewrite <- subscribe_each_iff, is_ok_bind, <- Logic.and_assoc.
  assert (is_ok (zone_subscriptions sub) = true <->
    accepts ZONE_ENTERED_PATTERN /\ accepts ZONE_CLEARED_PATTERN) as <- by exact (subscribe_both _ _).
  unfold subscribe_to_topics. destruct (subscribe_each _ _) as [hs r]. cbn [snd].
  destruct (zone_subscriptions sub) as [[]| |]; cbn [is_ok]; [|by split; [intros (? & ? & ?)|intros []]..].
  split; [intros (_ & _ & Hr)|intros [_ Hr]; exists tt]; split; try done; by destruct r as [[]| |].
Qed.

Lemma run_engine_loop store swapped o : run_engine sub store swapped = Ok o -> is_some o = true.
Proof.
  unfold run_engine. intros (_ & _ & H)%res_bind_Ok. apply res_bind_Ok in H as ([] & Hr & [= <-]).
  unfold loop_start. destruct (subscribe_to_topics _ _ _ _ _) as [[[subs tks] topics] r]. cbn [snd] in Hr.
  subst r. by destruct (store_subscribe _).
Qed.

(** C19. A client stays up exactly when nothing in its set-up fails: with the media
    feature off, the health address bound, its rules topic subscribed, the
    zone events and every sensor topic of its rules subscribed.  Otherwise it
    fails, naming a subsystem that ended; one invalid or refused sensor topic
    in the ruleset is enough. *)
Theorem client_survives (path_exists : string -> bool) (metadata : string -> string + bool)
    (media : bool) (env_id env_health : option string) (a : BootArgs) (video : VideoArgs)
    (store : ActiveRules) (swapped : list (Arc Rules)) :
  let id := robot_id_of env_id a in
  let ts := (runtime_run sub put key_expr bind path_exists metadata media env_id env_health a video
               store swapped).1 in
  let rules_topic := "robot/" +:+ id +:+ "/local/rules" in
  plain_id id = true ->
  map fst ts = client_subsystems media /\
  (exists out, supervised debug ts out) /\
  forall out, supervised debug ts out ->
    (out = None <->
       media = false /\ bind (serve_addr env_health) = inr tt /\
       (key_expr rules_topic = true /\ accepts rules_topic) /\
       engine_ready (arc_val (store_current store))) /\
    (out <> None -> exists name e, (name, Ended e) ∈ ts /\
       out = Some (Err (name +:+ " subsystem exited: " +:+ debug e))).
Proof.
  intros id ts rules_topic Hid. split; [by destruct media|].
  destruct (supervised_verdict debug ts) as [He Hv]; [done|]. split; [done|].
  intros out Ho. destruct (Hv out Ho) as [Hn Hf]. split; [|done]. rewrite Hn. clear Hv Hf Hn Ho He.
  subst rules_topic.
  rewrite <- (run_engine_ok store swapped), <- serve_ok, <- (run_hot_reload_ok id Hid).
  subst ts. cbn [runtime_run client_tasks fst app forallb snd]. fold id.
  rewrite !task_runs_spawn, !andb_true_iff. destruct media; simpl; intuition done.
Qed.

(** The subsystems of the server, whatever became of the registration
    subsystem's inner tasks. *)
Lemma server_tasks_run env store swapped inner :
  forallb (fun t : string * Task => task_runs t.2) (server_tasks sub key_expr bind env store swapped inner) = true <->
    bind (serve_addr env) = inr tt /\ engine_ready (arc_val (store_current store)) /\
    (key_expr RULESET_PUB_PATTERN = true /\ accepts RULESET_PUB_PATTERN) /\
    (accepts REGISTRATION_KEY /\ accepts DEREGISTRATION_KEY) /\
    accepts LIVELINESS_PATTERN.
Proof.
  rewrite <- (run_engine_ok store swapped), <- serve_ok.
  assert (is_ok (run_hot_reload_with_registry sub key_expr) = true <->
    key_expr RULESET_PUB_PATTERN = true /\ accepts RULESET_PUB_PATTERN) as <-
    by (by apply hot_reload_run_ok).
  assert (is_ok (run_registration_handler sub) = true <->
    accepts REGISTRATION_KEY /\ accepts DEREGISTRATION_KEY) as <- by exact (subscribe_both _ _).
  assert (is_ok (run_heartbeat_monitor sub) = true <-> accepts LIVELINESS_PATTERN) as <-
    by exact (subscribe_ok _).
  assert (task_runs (registration_task sub inner) = is_ok (run_registration_handler sub)) as Hr.
  { unfold registration_task, join_pending. destruct (run_registration_handler sub); [|done..].
    by destruct (forallb _ inner). }
  unfold server_tasks. cbn [forallb snd]. rewrite Hr, !task_runs_spawn, !andb_true_iff. intuition done.
Qed.

Lemma slash_id_panics `{RW : RegistrationWire} {RL : RegistrationWireLaws RW} debug_error l id cfg :
  has_char slash id = true ->
  (handle_registration debug_error l (encode_request (Register id cfg))).2
  = Panic "registration_response invalid".
Proof.
  intros Hs. unfold handle_registration. rewrite decode_encode_request.
  assert ((id =? "")%string = false) as -> by (by destruct id).
  rewrite registration_response_eq, Hs. by destruct (register l id cfg).
Qed.

(** C20. The server outlives its registration service.  It stays up exactly when
    its set-ups succeed, however its registration subsystem's inner tasks
    fare.  So one registration of an identifier with a slash leaves a server
    that runs, supervised and with its health endpoint up, but whose
    registration task has panicked: the request is not answered, the robot is
    registered all the same, and no later request is handled. *)
Theorem server_outlives_registration `{RW : RegistrationWire} {RL : RegistrationWireLaws RW}
    (debug_error : RegistrationError -> string) (env_health : option string) (store : ActiveRules)
    (swapped : list (Arc Rules)) (l : Lease) (id : string) (cfg : ClientConfig) (later : list string) :
  let up := bind (serve_addr env_health) = inr tt /\ engine_ready (arc_val (store_current store)) /\
    (key_expr RULESET_PUB_PATTERN = true /\ accepts RULESET_PUB_PATTERN) /\
    (accepts REGISTRATION_KEY /\ accepts DEREGISTRATION_KEY) /\ accepts LIVELINESS_PATTERN in
  has_char slash id = true -> state l id = Unknown ->
  (forall inner out,
     supervised debug (server_tasks sub key_expr bind env_health store swapped inner) out ->
     (out = None <-> up)) /\
  exists l' why,
    run_task (handle_registration debug_error) l (encode_request (Register id cfg) :: later) = (l', [], false) /\
    (handle_registration debug_error l (encode_request (Register id cfg))).2 = Panic why /\
    state l' id = Registered /\
    (up -> forall deregistration,
       supervised debug (server_tasks sub key_expr bind env_health store swapped
         [Some (Panicked why); deregistration]) None).
Proof.
  intros up Hs Hu. split.
  - intros inner out Ho. unfold up. rewrite <- (server_tasks_run env_health store swapped inner).
    by apply (supervised_verdict debug).
  - destruct (slash_id_kills_registration debug_error l id cfg later Hs Hu) as (l' & Hl & Hr & _).
    exists l', "registration_response invalid". split; [done|].
    split; [by apply slash_id_panics|]. split; [done|].
    intros Hup dereg. apply (sup_waits debug), server_tasks_run, Hup.
Qed.
End properties.

(** ** Concrete processes *)
Module TasksEx.
Definition yes {A} (_ : A) : string + unit := inr tt.
Definition store : ActiveRules := active_new LoopEx.old.
End TasksEx.

Lemma client_survives_witness :
  supervised (fun _ => "Ok(())")
    (runtime_run TasksEx.yes TasksEx.yes (fun _ => true) TasksEx.yes (fun _ => false) (fun _ => inl "")
       false None None BootEx.boot VideoArgs_default TasksEx.store []).1 None.
Proof.
  destruct (client_survives TasksEx.yes TasksEx.yes (fun _ => true) TasksEx.yes (fun _ => "Ok(())")
    (fun _ => false) (fun _ => inl "") false None None BootEx.boot VideoArgs_default TasksEx.store []
    eq_refl) as (_ & [out Ho] & Hv).
  destruct (Hv out Ho) as [Hn _].
  assert (out = None) as ->; [|exact Ho]. apply Hn. do 5 (split; [done|]).
  vm_compute. repeat constructor. by eexists.
Defined.

Lemma server_outlives_registration_witness :
  exists l', state l' "a/b" = Registered /\
    supervised (fun _ => "Ok(())")
      (server_tasks TasksEx.yes (fun _ => true) TasksEx.yes None TasksEx.store []
         [Some (Panicked "registration_response invalid"); None]) None.
Proof.
  destruct (server_outlives_registration TasksEx.yes (fun _ => true) TasksEx.yes (fun _ => "Ok(())")
    WireEx.dbg_e None TasksEx.store [] WireEx.lease0 "a/b" WireEx.cfg [] eq_refl eq_refl)
    as (_ & l' & why & _ & Hw & Hr & Hs).
  exists l'. split; [exact Hr|].
  assert (why = "registration_response invalid") as <- by (vm_compute in Hw; congruence).
  apply Hs. repeat split; try done. vm_compute. repeat constructor. by eexists.
Defined.
