(* ===== verification/Robot.v ===== *)
(** * Robot: from a robot's files to its actuators

    The bootstrap of Bootstrap.v, the subsystems of Tasks.v and the node of
    Node.v as one: the ruleset file an operator names is compiled, printed,
    read back, put into the store, subscribed for and evaluated, until a text
    received on the rules topic replaces it. *)
From S2P Require Import Prelude Json Rules Topic Semantic SemanticSpec Engine EngineSpec EngineProps Registry ClientConfig Lease Registration Auth Transport Channels Config Loop Node Health Runtime Signaling Mesh Bootstrap Tasks.

Section robot.
Context `{JN : JsonNumber} {JL : JsonNumberLaws JN} {W : Watch (Arc Rules)} {WL : WatchLaws W} {Q : Mpsc (string * Value)}.
Context (path_exists : string -> bool) (read_file : string -> option string)
        (json_string : string -> string) (json_value : Value -> string)
        (json_strings : list string -> string + string).
Context (toml_client : string -> string + ClientConfig)
        (toml_manifest : string -> string + RulesManifest)
        (rules_from_toml : string -> string + Rules) (rules_to_toml : Rules -> string + string)
        (ruleset_from_toml : string -> string + Ruleset)
        (ruleset_to_toml : Ruleset -> string + string) (sha256 : string -> string)
        (demo_toml : string) (replace_id : string -> string -> string)
        (fmt_f64 : f64 -> string) (fmt_value : Value -> string).
Context (open_session : ZConfig -> string + unit) (declare_token : string -> string + unit).
Context `{RW : RegistrationWire} {RL : RegistrationWireLaws RW}.
Context (debug_error : RegistrationError -> string) (debug_status : RegistrationStatus -> string)
        (net : nat -> bool * bool).

Definition boot (env_id : option string) (a : BootArgs) (w : World) : World * res string Rules :=
  bootstrap_client path_exists read_file json_string json_value json_strings toml_client toml_manifest
    rules_from_toml rules_to_toml demo_toml replace_id fmt_f64 fmt_value open_session declare_token
    debug_error debug_status net env_id a w.

(** What the engine publishes for a list of actions. *)
Definition published (acts : list Action) : list (Topic * Action) :=
  map (fun a => (mkTopic (a_topic a), a)) acts.

(** The manifest's conditions are the distance keys. *)
Definition level_manifest (doc : RulesManifest) : bool :=
  forallb (fun sr => forallb (fun c => negb (edge_cond c)) (all_conditions (sr_when sr))) (m_rules doc).

(** ** Lemmas *)
Lemma fire_valid (acts : list Action) :
  Forall (fun a => valid_topic (a_topic a) = true) acts -> omap fire_action acts = published acts.
Proof.
  induction 1 as [|a acts Ha _ IH]; [done|]. csimpl. rewrite IH.
  unfold fire_action. unfold valid_topic in Ha.
  destruct (topic_try_new (a_topic a)) as [t| |] eqn:E; [|done..].
  apply String.eqb_eq in Ha. destruct t as [s]. cbn [topic_str] in Ha. by subst s.
Qed.

Lemma on_tick_fired now (l : LoopState) :
  fired (on_tick now l) = fired l ++ omap fire_action
    (tick_with_arc now (ev l) (rx_borrow (watch_tx (lp_store l)) (store_rx l))).1.
Proof. unfold on_tick, tick_with_arc. by destruct (tick_inner _ _ _). Qed.

(** The loop's tick, under compiled rules. *)
Lemma compiled_tick_fires doc id (rs : Arc Rules) now st :
  has_char slash id = false -> compile fmt_f64 fmt_value doc id = Ok (arc_val rs) ->
  level_manifest doc = true ->
  omap fire_action (tick_with_arc now st rs).1 =
    published (source_output id (cond_true id (snapshot now st)) (m_rules doc)).
Proof.
  intros Hi Hc Hl.
  assert ((tick_with_arc now st rs).1 = (tick now (refresh_baseline st rs) (arc_val rs)).1) as -> by done.
  pose proof (compiled_topics fmt_f64 fmt_value doc id (arc_val rs) Hi Hc) as Hv.
  rewrite fire_valid.
  - by rewrite (compiled_level_tick fmt_f64 fmt_value doc id _ now _ Hi Hc Hl), snapshot_refresh.
  - apply Forall_forall. intros a (r & Hr & Ha)%tick_inner_actions.
    rewrite Forall_forall in Hv. destruct (Hv r Hr) as [_ Hact]. rewrite Forall_forall in Hact. by apply Hact.
Qed.

(** A manifest's rules listen in the robot's own namespace, on topics any
    session can be asked for. *)
Lemma compiled_topics_subscribable doc id rs t :
  plain_id id = true -> compile fmt_f64 fmt_value doc id = Ok rs -> t ∈ sorted_topics rs ->
  pattern_try_new t = Ok (mkPattern t).
Proof.
  intros Hp Hc (r & tr & Hr & Htr & <-)%sensor_topics_exact.
  apply compiled_refines in Hc; [|by apply plain_no_slash].
  apply list_elem_of_lookup_1 in Hr as [i Hi].
  destruct (Forall2_lookup_r _ _ _ _ _ Hc Hi) as (sr & _ & _ & _ & _ & Hperm & _).
  assert (tr ∈ map (cond_trigger id) (all_conditions (sr_when sr))) as (c & -> & _)%list_elem_of_fmap
    by (by rewrite <- Hperm).
  destruct c; by apply local_pattern.
Qed.

Lemma boot_loads env_id a w rs :
  (boot env_id a w).2 = Ok rs ->
  exists cfg, inputs read_file toml_client toml_manifest rules_from_toml rules_to_toml demo_toml replace_id
    fmt_f64 fmt_value a (robot_id_of env_id a) = Ok (cfg, rs).
Proof.
  unfold boot, bootstrap_client. set (id := robot_id_of env_id a).
  match goal with |- context [match ?p with Ok _ => _ | Err _ => _ | Panic _ => _ end] =>
    destruct p as [[[cfg store] c]| |] eqn:Hp; [|done..] end.
  destruct (open_session c); [done|]. destruct (liveliness_key id); [|done..].
  destruct (declare_token _); [done|].
  destruct (register_client _ _ _ _ _ _) as [l v]. destruct v as [[]| |]; [|done..].
  intros [= <-]. apply prepare_Ok in Hp as [Hi _]. by exists cfg.
Qed.

(** A ruleset file whose manifest compiles is what the store holds, when the
    compiled rules print to a text that reads back. *)
Lemma boot_manifest env_id a w rs p text doc r t :
  (boot env_id a w).2 = Ok rs -> arg_ruleset (boot_inputs a) = Some p -> read_file p = Some text ->
  toml_manifest text = inr doc -> compile fmt_f64 fmt_value doc (robot_id_of env_id a) = Ok r ->
  rules_to_toml r = inr t -> rules_from_toml t = inr r -> rs = r.
Proof.
  intros (cfg & Hi)%boot_loads Ha Hf Hm Hc Ht Hr. unfold inputs, load_inputs in Hi. rewrite Ha, Hf in Hi.
  unfold compile_rules_or_default, parse_semantic, parse_with in Hi. rewrite Hm, Hc in Hi.
  unfold Rules_to_toml, bootstrap_rules in Hi. rewrite Ht in Hi. cbn [mbind res_bind] in Hi. rewrite Hr in Hi. cbn in Hi. by injection Hi as _ <-.
Qed.

(** ** Properties *)

(** C1. A robot does what its manifest says.  Let a client start with a ruleset
    file whose manifest of level conditions compiles.  Its engine can
    subscribe to every sensor topic of the compiled rules; and at every state
    its node reaches before a text arrives on its rules topic, by whatever
    interleaving, the next tick publishes exactly the expansions of the
    actions of the manifest's rules whose nested condition holds of the
    latest samples, in the manifest's order, on their topics.  The same holds
    for another manifest's rules from when they are the last text received
    that parsed. *)
Theorem manifest_to_actuators (env_id : option string) (a : BootArgs) (w : World) (rs : Rules)
    (p text t : string) (doc : RulesManifest) (r : Rules)
    (sub : string -> string + unit) (early : list (Arc Rules)) (n n' : Node) (now : N) :
  let id := robot_id_of env_id a in
  let samples := snapshot now (ev (nd_loop n')) in
  plain_id id = true ->
  arg_ruleset (boot_inputs a) = Some p -> read_file p = Some text -> toml_manifest text = inr doc ->
  compile fmt_f64 fmt_value doc id = Ok r -> rules_to_toml r = inr t -> rules_from_toml t = inr r ->
  (boot env_id a w).2 = Ok rs ->
  node_start empty_state (mkArc 0 rs) sub early None = Some n ->
  rtc (node_step rules_from_toml ruleset_from_toml ruleset_to_toml sha256) n n' ->
  (forall t, t ∈ sorted_topics rs -> pattern_try_new t = Ok (mkPattern t)) /\
  (nd_received n' = [] -> level_manifest doc = true ->
     fired (on_tick now (nd_loop n')) =
       fired (nd_loop n') ++ published (source_output id (cond_true id samples) (m_rules doc))) /\
  (forall doc' r', compile fmt_f64 fmt_value doc' id = Ok r' -> level_manifest doc' = true ->
     last_good rules_from_toml rs (nd_received n') = r' ->
     fired (on_tick now (nd_loop n')) =
       fired (nd_loop n') ++ published (source_output id (cond_true id samples) (m_rules doc'))).
Proof.
  intros id samples Hid Ha Hf Hm Hc Ht Hr Hb Hs Hrun. fold id in Hc.
  assert (rs = r) as -> by exact (boot_manifest env_id a w rs p text doc r t Hb Ha Hf Hm Hc Ht Hr).
  destruct (node_inv_run _ _ _ _ _ _ _ _ _ _ _ Hs Hrun) as [_ _ _ Hl _]. specialize (Hl eq_refl).
  pose proof (proj1 (plain_no_slash id Hid)) as Hns.
  assert (forall doc' r', compile fmt_f64 fmt_value doc' id = Ok r' -> level_manifest doc' = true ->
     last_good rules_from_toml r (nd_received n') = r' ->
     fired (on_tick now (nd_loop n')) =
       fired (nd_loop n') ++ published (source_output id (cond_true id samples) (m_rules doc'))) as Hall.
  { intros doc' r' Hc' Hl' Hlast. rewrite on_tick_fired. f_equal.
    apply compiled_tick_fires; [done| |done]. cbn [arc_val] in Hl. unfold evaluated_rules in Hl.
    by rewrite Hl, Hlast. }
  split; [|split; [|done]].
  - intros tp Htp. by apply (compiled_topics_subscribable doc id r).
  - intros Hnone Hlev. apply (Hall doc r Hc Hlev). by rewrite Hnone.
Qed.
End robot.

(** ** A concrete robot *)
Module RobotEx.
Definition doc : RulesManifest (JN := model_number) := RunEx.doc Ex.cond_near.
Definition compiled : Rules := RunEx.compiled Ex.cond_near.
Definition manifest_reader (t : string) : string + RulesManifest :=
  if (t =? "sem")%string then inr doc else inl "not semantic".
Definition reader (t : string) : string + Rules :=
  if (t =? EMPTY_RULES)%string then inr Rules_default
  else if (t =? "compiled")%string then inr compiled else inl "parse error".
Definition start : World * res string Rules :=
  boot (fun _ => true) BootEx.files AuthEx.quoted AuthEx.render (fun _ => inr "[]") BootEx.client_reader
    manifest_reader reader (fun _ => inr "compiled") "" (fun t _ => t) Ex.fmt Ex.fmtv (fun _ => inr tt)
    (fun _ => inr tt) WireEx.dbg_e WireEx.dbg_s RuntimeEx.net_lost_request None BootEx.boot BootEx.world.
Definition node : Node :=
  match node_start empty_state (mkArc 0 compiled) LoopEx.sub_all [] None with
  | Some n => n
  | None => NodeEx.started []
  end.
(** A human comes near. *)
Definition near_node : Node :=
  let n := with_loop node (deliver (nd_loop node) "robot/7/local/human_present" (RunEx.human 0)) in
  with_loop n (on_sample 8 (nd_loop n)).
End RobotEx.

Lemma manifest_to_actuators_witness :
  map (fun ta => topic_str ta.1) (fired (on_tick 9 (nd_loop RobotEx.near_node))) = ["stop/fleet/cmd"].
Proof.
  destruct (manifest_to_actuators (fun _ => true) BootEx.files AuthEx.quoted AuthEx.render (fun _ => inr "[]")
    BootEx.client_reader RobotEx.manifest_reader RobotEx.reader (fun _ => inr "compiled") ConfigEx.rs_reader
    RegEx.writer RegEx.sha "" (fun t _ => t) Ex.fmt Ex.fmtv (fun _ => inr tt) (fun _ => inr tt)
    WireEx.dbg_e WireEx.dbg_s RuntimeEx.net_lost_request None BootEx.boot BootEx.world RobotEx.compiled
    "sem" "sem" "compiled" RobotEx.doc RobotEx.compiled LoopEx.sub_all [] RobotEx.node RobotEx.near_node 9
    eq_refl eq_refl eq_refl eq_refl eq_refl eq_refl eq_refl) as (_ & Hfired & _).
  - vm_cast_no_check (@eq_refl (res string (Rules (JN := model_number))) (Ok RobotEx.compiled)).
  - vm_cast_no_check (eq_refl (Some RobotEx.node)).
  - eapply rtc_l; [apply ns_deliver; left; vm_compute; left|].
    eapply rtc_l; [apply (ns_sample _ _ _ _ 8)|]. apply rtc_refl.
  - rewrite (Hfired eq_refl eq_refl). vm_compute. reflexivity.
Defined.
