(* ===== verification/Demo.v ===== *)
(** * Demo: the built-in demonstration rules ([bootstrap_demo] of
      [src/config.rs]) on the engine

    The ruleset compiled into the program ([examples/rules/hrc-demo.toml],
    with the robot's identifier in place of [{id}]) as data, what the engine
    publishes under it, and when a client runs it at all. *)
From Stdlib Require Import SpecFloat.
From S2P Require Import Prelude Json Rules Topic Semantic SemanticSpec Engine EngineSpec EngineProps ClientConfig Runtime Robot.

Section demo.
Context `{JN : JsonNumber}.

(** ** The rules *)
Definition field_is (op : Op) (field : string) (rhs : Operand) : Predicate := Comparison op (Field field) rhs.

Definition stop_action : Action := mkAction "stop/fleet/cmd" Reliable (Object [("stop", Bool true)]).
Definition slow_action (id : string) : Action :=
  mkAction ("robot/" +:+ id +:+ "/local/drive") BestEffort (Object [("speed_mps", value_of_f64 (f64_dec 1 1))]).

Definition e_stop_on_bumper (id : string) : Rule :=
  mkRule "e-stop-on-bumper"
    (mkWhen [mkTrigger ("robot/" +:+ id +:+ "/local/bumper") (Some (field_is OpEq "pressed" (OBool true))) Level;
             mkTrigger ("robot/" +:+ id +:+ "/local/imu") (Some (field_is OpGt "speed_mps" (OFloat (f64_dec 2 1)))) Level] [])
    [stop_action].
Definition lidar_block_slowdown (id : string) : Rule :=
  mkRule "lidar-block-slowdown"
    (mkWhen [] [mkTrigger "lidar/fleet/scan" (Some (field_is OpLt "min_range_m" (OFloat (f64_dec 5 1)))) Level])
    [slow_action id].
Definition demo_rules (id : string) : Rules := mkRules [e_stop_on_bumper id; lidar_block_slowdown id].

(** ** What they mean *)
Definition field (snap : gmap string Value) (topic name : string) : option Value :=
  snap !! topic ≫= fun v => value_get v name.
Definition number_field (snap : gmap string Value) (topic name : string) (f : f64 -> bool) : bool :=
  match field snap topic name with
  | Some (Number n) => match as_f64 n with Some x => f x | None => false end
  | _ => false
  end.
Definition pressed (id : string) (snap : gmap string Value) : bool :=
  match field snap ("robot/" +:+ id +:+ "/local/bumper") "pressed" with Some (Bool b) => b | _ => false end.
Definition moving (id : string) (snap : gmap string Value) : bool :=
  number_field snap ("robot/" +:+ id +:+ "/local/imu") "speed_mps" (fun x => SFltb (f64_dec 2 1) x).
Definition blocked (snap : gmap string Value) : bool :=
  number_field snap "lidar/fleet/scan" "min_range_m" (fun x => SFltb x (f64_dec 5 1)).

Context {JL : JsonNumberLaws JN}.

Lemma current_field snap zs topic op name rhs :
  (forall v, resolve_operand rhs v = resolve_operand rhs Null) ->
  current snap zs (mkTrigger topic (Some (field_is op name rhs)) Level) =
  match field snap topic name, resolve_operand rhs Null with
  | Some l, Some r => eval_comparison op l r zs
  | _, _ => false
  end.
Proof.
  intros Hr. unfold current, field, trigger_matches. cbn [t_topic t_pred].
  destruct (snap !! topic) as [v|]; [|done].
  rewrite String.eqb_refl. cbn [andb eval_predicate eval_tree field_is mbind option_bind].
  rewrite Hr. by change (resolve_operand (Field name) v) with (value_get v name).
Qed.

Lemma SFgt_swap x d : ord_is is_gt (SFcompare x d) = SFltb d x.
Proof.
  unfold SFltb, SFcompare. destruct x as [[]|[]| |[] mx ex], d as [[]|[]| |[] md ed]; try done.
  all: rewrite Z.compare_antisym; destruct (ed ?= ex)%Z; simpl; try done.
  all: match goal with |- context [?f Eq ?a ?b] =>
         assert (f Eq b a = CompOpp (f Eq a b)) as -> by apply Pos.compare_antisym;
         by destruct (f Eq a b)
       end.
Qed.

Lemma current_number snap zs topic op name d (f : f64 -> bool) :
  is_finite d = true ->
  (forall x, eval_comparison op Null Null zs = false /\
     match op with OpGt => ord_is is_gt (SFcompare x d) | _ => ord_is is_lt (SFcompare x d) end = f x) ->
  op = OpGt \/ op = OpLt ->
  current snap zs (mkTrigger topic (Some (field_is op name (OFloat d))) Level) = number_field snap topic name f.
Proof.
  intros Hd Hf Hop. rewrite current_field by done. unfold number_field.
  destruct (resolve_float d Null) as [[_ (n & -> & Hn)]|[Hd' _]]; [|congruence].
  destruct (field snap topic name) as [[| |m| | |]|]; try (by destruct Hop as [-> | ->]); [].
  destruct Hop as [-> | ->]; cbn [eval_comparison json_cmp]; rewrite Hn;
    (destruct (as_f64 m) as [x|]; [|done]); by rewrite <- (proj2 (Hf x)).
Qed.

(** *** The two rules on one set of samples *)
Lemma e_stop_holds id snap zs :
  guard_holds (current snap zs) (r_when (e_stop_on_bumper id)) = pressed id snap && moving id snap.
Proof.
  unfold guard_holds. cbn [e_stop_on_bumper r_when guard_empty w_all w_any forallb or_group negb].
  rewrite !andb_true_r, andb_true_l. f_equal.
  - rewrite current_field by done. unfold pressed. cbn [resolve_operand].
    destruct (field _ _ _) as [[|[]| | | |]|]; done.
  - unfold moving. apply current_number; [done| |by left]. intros x. split; [done|apply SFgt_swap].
Qed.
Lemma slowdown_holds id snap zs :
  guard_holds (current snap zs) (r_when (lidar_block_slowdown id)) = blocked snap.
Proof.
  unfold guard_holds. cbn [lidar_block_slowdown r_when guard_empty w_all w_any forallb or_group existsb negb].
  rewrite orb_false_r, andb_true_l. unfold blocked. apply current_number; [done| |by right].
  intros x. split; [done|]. unfold SFltb. by destruct (SFcompare x _) as [[]|].
Qed.

(** ** Properties *)

(** C28. The built-in demonstration.  Whatever the engine remembers, a tick under
    the demo rules publishes the stop exactly when the robot's bumper reads
    pressed and its speed is above 0.2 m/s, and then the slow-down exactly
    when the lidar's range is below half a metre; a missing, mistyped or
    non-numeric field triggers nothing; and the state the engine keeps for
    edges does not change. *)
Theorem demo_rules_exact (id : string) (now : N) (st : EvalState) :
  let snap := snapshot now st in
  (tick now st (demo_rules id)).1 =
    (if pressed id snap && moving id snap then [stop_action] else []) ++
    (if blocked snap then [slow_action id] else []) /\
  prev (tick now st (demo_rules id)).2 = prev st.
Proof.
  intros snap. unfold tick, tick_inner.
  pose proof (tick_rules_output snap (zones st) (rules (demo_rules id)) 0 (prev st)) as H.
  pose proof (level_only_prev snap (zones st) (rules (demo_rules id)) (prev st) eq_refl) as Hp. fold snap.
  destruct (tick_rules _ _ _ _ _) as [out pv]. cbn [fst snd] in H, Hp |- *. subst out pv. split; [|done].
  rewrite (tick_output_valuation snap (zones st) (prev st) (current snap (zones st))).
  - cbn [demo_rules rules map concat]. rewrite e_stop_holds, slowdown_holds, app_nil_r. done.
  - intros r ri Hr. apply level_only_fires. apply elem_of_cons in Hr as [->|Hr]; [done|].
    by apply list_elem_of_singleton in Hr as ->.
Qed.
End demo.

(** ** When a client runs them *)
Section when.
Context `{JN : JsonNumber}.
Context (read_file : string -> option string) (toml_client : string -> string + ClientConfig)
        (toml_manifest : string -> string + RulesManifest) (rules_from_toml : string -> string + Rules)
        (rules_to_toml : Rules -> string + string) (demo_toml : string) (replace_id : string -> string -> string)
        (fmt_f64 : f64 -> string) (fmt_value : Value -> string).

(** A client started without a ruleset runs the demo rules only if it was
    given a configuration that loads.  Started with no arguments at all it
    holds the empty ruleset, under which nothing is ever published. *)
Theorem demo_needs_config (a : Args) (id : string) :
  rules_from_toml EMPTY_RULES = inr Rules_default ->
  rules_from_toml (replace_id demo_toml id) = inr (demo_rules id) ->
  arg_ruleset a = None ->
  let cfg := load_client_config read_file toml_client a in
  load_inputs read_file toml_client toml_manifest rules_from_toml rules_to_toml demo_toml replace_id fmt_f64 fmt_value a id
    = Ok (cfg, if is_some cfg then demo_rules id else Rules_default) /\
  (arg_config a = None -> cfg = None) /\
  forall now st, (tick now st Rules_default).1 = [].
Proof.
  intros Hempty Hdemo Ha. cbn zeta. unfold load_inputs. rewrite Ha. split; [|split; [|done]].
  - destruct (is_some (load_client_config read_file toml_client a)); cbn [mbind res_bind].
    + unfold bootstrap_demo, bootstrap_rules. by rewrite Hdemo.
    + by rewrite (fail_safe_empty rules_from_toml Hempty).
  - unfold load_client_config. by intros ->.
Qed.
End when.

Module DemoEx.
Definition bumped : EvalState (JN := model_number) :=
  ingest 0 (ingest 0 empty_state "robot/7/local/bumper" (Object [("pressed", Bool true)]))
    "robot/7/local/imu" (Object [("speed_mps", Number (JN := model_number) (FloatNum (f64_dec 5 1)))]).
End DemoEx.

Lemma demo_rules_exact_witness : (tick 1 DemoEx.bumped (demo_rules "7")).1 = [stop_action].
Proof.
  etransitivity; [exact (proj1 (demo_rules_exact "7" 1 DemoEx.bumped))|].
  vm_cast_no_check (eq_refl [stop_action (JN := model_number)]).
Defined.
