(* ===== verification/TestsEngine.v ===== *)
(** * TestsEngine: the unit tests of [src/engine.rs], evaluated on the model

    Each test of the crate's [mod tests] that needs no runtime as a boolean:
    the conjunction of its assertions, in order, over the state it threads.
    They validate the translation of Engine.v against the authors' own
    expectations. *)
From Stdlib Require Import SpecFloat.
From S2P Require Import Prelude Json Rules Engine Demo.

Module EngineTests.
#[local] Existing Instance model_number.
Abbreviation V := (Value (JN := model_number)).

(** [json!] on what the tests write. *)
Definition int (z : Z) : V := Number (JN := model_number) (from_i64 z).
Definition float (n : Z) (k : nat) : V := value_of_f64 (f64_dec n k).
Definition all (l : list bool) : bool := forallb id l.

Definition zone_eq (z : string) : Predicate := Comparison OpEq (Prim PZone) (OStr z).
Definition sep_lt (d : f64) : Predicate := Comparison OpLt (Prim HumanPresence) (OFloat d).
Definition empty_zones : ZoneMap := ∅.
Definition metres (n : Z) : f64 := f64_dec n 1.

Definition none_predicate_always_true : bool :=
  all [eval_predicate None (Object [] : V) empty_zones;
       eval_predicate None (Object [("anything", int 1)]) empty_zones].

Definition comparison_eq_zone_resolves_payload : bool :=
  let p := zone_eq "zone_1" in
  all [eval_tree p (Object [("zone_id", Str "zone_1")] : V) empty_zones;
       negb (eval_tree p (Object [("zone_id", Str "zone_2")] : V) empty_zones)].

Definition comparison_lt_separation_distance : bool :=
  let p := sep_lt (metres 12) in
  let at_ n := eval_tree p (Object [("separation_distance", float n 1)]) empty_zones in
  all [at_ 10%Z; negb (at_ 12%Z); negb (at_ 20%Z)].

Definition proximity_uses_separation_distance_field : bool :=
  let p := Comparison OpLt (Prim (Proximity "human")) (OFloat (metres 12)) in
  let at_ peer n := eval_tree p (Object [("peer_id", Str peer); ("separation_distance", float n 1)]) empty_zones in
  all [at_ "human" 5%Z; negb (at_ "human" 15%Z); negb (at_ "other" 5%Z);
       negb (eval_tree p (Object [("separation_distance", float 5 1)]) empty_zones)].

Definition and_all_true_or_any_true_not_negates : bool :=
  let both := And [zone_eq "zone_1"; sep_lt (metres 12)] in
  let either := Or [zone_eq "zone_1"; sep_lt (metres 12)] in
  let at_ p z n := eval_tree p (Object [("separation_distance", float n 1); ("zone_id", Str z)]) empty_zones in
  let zone p z := eval_tree p (Object [("zone_id", Str z)] : V) empty_zones in
  all [at_ both "zone_1" 10%Z; negb (at_ both "zone_1" 20%Z);
       at_ either "zone_2" 5%Z; negb (at_ either "zone_2" 20%Z);
       negb (zone (Not (zone_eq "zone_1")) "zone_1"); zone (Not (zone_eq "zone_1")) "zone_2"].

Definition absent_field_fails_closed : bool :=
  let both := And [zone_eq "zone_1"; sep_lt (metres 12)] in
  all [negb (eval_tree (zone_eq "zone_1") (Object [("other", int 1)]) empty_zones);
       negb (eval_tree (sep_lt (metres 12)) (Object [] : V) empty_zones);
       negb (eval_tree both (Object [("zone_id", Str "zone_1")] : V) empty_zones)].

Definition float_equality_uses_epsilon : bool :=
  let p := Comparison OpEq (Prim HumanPresence) (OFloat (metres 12)) in
  all [eval_tree p (Object [("separation_distance", float 12000000005 10)]) empty_zones;
       negb (eval_tree p (Object [("separation_distance", float 13 1)]) empty_zones)].

Definition same_zone_check_uses_tracker : bool :=
  let p := Comparison SameZoneAs (OStr "robot7") (OStr "robot8") in
  let same st := eval_tree p (Object [] : V) (zones_map st) in
  let s0 := empty_state in
  let s1 := enter_zone (enter_zone s0 "robot7" "zone_a") "robot8" "zone_a" in
  let s2 := clear_zone s1 "robot8" "zone_a" in
  let s3 := enter_zone s2 "robot8" "zone_b" in
  let s4 := enter_zone (enter_zone s3 "robot7" "zone_c") "robot8" "zone_c" in
  all [negb (same s0); same s1; negb (same s2); negb (same s3); same s4].

Definition same_zone_non_string_fails_closed : bool :=
  all [negb (eval_tree (Comparison SameZoneAs (OInt 1) (OInt 2)) (Object [] : V) empty_zones)].

Definition zone_tracker_enter_clear_share : bool :=
  let s0 := empty_state in
  let s1 := enter_zone s0 "a" "z1" in
  let s2 := enter_zone s1 "b" "z1" in
  let s3 := clear_zone s2 "b" "z1" in
  let s4 := clear_zone s3 "a" "z1" in
  all [negb (state_share_zone s0 "a" "b");
       negb (state_share_zone s1 "a" "b"); negb (state_share_zone s1 "b" "a");
       state_share_zone s2 "a" "b"; state_share_zone s2 "b" "a";
       negb (state_share_zone s3 "a" "b"); negb (state_share_zone s4 "a" "b");
       negb (state_share_zone s4 "a" "c")].

(** Ticks of one guard as rule 0: the verdicts, [prev] threaded. *)
Fixpoint verdicts (w : When) (latests : list (gmap string V)) (pv : PrevMap) : list bool :=
  match latests with
  | [] => []
  | latest :: rest =>
      let '(b, pv') := when_satisfied_with_prev w latest pv 0 empty_zones in b :: verdicts w rest pv'
  end.
Definition ticks (w : When) (latests : list (gmap string V)) (expected : list bool) : bool :=
  bool_decide (verdicts w latests ∅ = expected).
Definition near (peer : string) (n : Z) : V := Object [("peer_id", Str peer); ("separation_distance", float n 1)].
Definition proximity_trigger : Trigger :=
  mkTrigger "robot/7/proximity" (Some (Comparison OpLt (Prim (Proximity "7")) (OFloat (metres 12)))) Level.

Definition level_trigger_fires_each_tick_while_true : bool :=
  ticks (mkWhen [proximity_trigger] []) (replicate 3 {["robot/7/proximity" := near "7" 5]}) [true; true; true].

Definition edge_fires_only_on_transition : bool :=
  let zone z : gmap string V := {["robot/7/zone" := Object [("zone_id", Str z)]]} in
  let outside := zone "zone_2" in let inside := zone "zone_1" in
  ticks (mkWhen [mkTrigger "robot/7/zone" (Some (zone_eq "zone_1")) Edge] [])
    [outside; inside; inside; outside; outside] [false; true; false; true; false].

Definition field_operand_reads_named_payload_field : bool :=
  let w := mkWhen [mkTrigger "robot/7/bumper" (Some (Comparison OpEq (Field "pressed") (OBool true))) Edge] [] in
  let bumper k b : gmap string V := {["robot/7/bumper" := Object [(k, Bool b)]]} in
  all [ticks w [bumper "pressed" false; bumper "pressed" true; bumper "pressed" true] [false; true; false];
       ticks w [bumper "prssed" true; bumper "prssed" true] [false; false]].

Definition empty_when_never_fires : bool := ticks (mkWhen [] []) [∅] [false].

Definition proximity_ignores_other_peer : bool :=
  ticks (mkWhen [proximity_trigger] []) [{["robot/7/proximity" := near "8" 1]}] [false].

(** On the demo rules as Demo.v has them. *)
Definition demo_rule_fires_on_bumper_pressed : bool :=
  match List.find (fun r => (r_name r =? "e-stop-on-bumper")%string) (rules (demo_rules (JN := model_number) "7")) with
  | Some e_stop =>
      let latest k : gmap string V :=
        <["robot/7/local/bumper" := Object [(k, Bool true)]]>
          {["robot/7/local/imu" := Object [("speed_mps", float 5 1)]]} in
      all [ticks (r_when e_stop) [latest "pressed"; latest "pressed"] [true; true];
           ticks (r_when e_stop) [latest "pressd"] [false]]
  | None => false
  end.

Definition one_rule (name topic : string) (p : option Predicate) (m : EvalMode) (out : string) (payload : V) : Rules :=
  mkRules [mkRule name (mkWhen [mkTrigger topic p m] []) [mkAction out Reliable payload]].
Definition fired_by (r : list (Action (JN := model_number)) * EvalState (JN := model_number)) : nat := length r.1.
Definition fired_true : V := Object [("fired", Bool true)].

Definition eval_state_ingest_and_tick_level : bool :=
  let rs := one_rule "level-test" "sensor/a" None Level "actuator/out" fired_true in
  let st := ingest_sample 0 empty_state "sensor/a" (Object [("v", int 1)]) in
  let r1 := tick 0 st rs in
  all [fired_by r1 =? 1; fired_by (tick 0 r1.2 rs) =? 1].

Definition eval_state_edge_via_tick : bool :=
  let rs := one_rule "edge-test" "sensor/b" (Some (Comparison OpEq (Field "pressed") (OBool true))) Edge
              "actuator/out" fired_true in
  let press st b := ingest_sample 0 st "sensor/b" (Object [("pressed", Bool b)]) in
  let r1 := tick 0 (press empty_state false) rs in
  let r2 := tick 0 (press r1.2 true) rs in
  let r3 := tick 0 r2.2 rs in
  let r4 := tick 0 (press r3.2 false) rs in
  all [fired_by r1 =? 0; fired_by r2 =? 1; fired_by r3 =? 0; fired_by r4 =? 1].

Definition eval_state_zone_via_ingest : bool :=
  let robot r : V := Object [("robot_id", Str r)] in
  let s := ingest 0 (ingest 0 empty_state "zone/cell-1/entered" (robot "r1")) "zone/cell-1/entered" (robot "r2") in
  all [state_share_zone s "r1" "r2";
       negb (state_share_zone (ingest 0 s "zone/cell-1/cleared" (robot "r2")) "r1" "r2")].

Definition json_cmp_type_mismatch_is_none_explicit : bool :=
  all [bool_decide (json_cmp (int 1) (Str "a") = None);
       bool_decide (json_cmp (int 1) (int 2) = Some Lt);
       bool_decide (json_cmp (Str "a" : V) (Str "b") = Some Lt);
       negb (eval_tree (Comparison OpLt (OInt 1) (OStr "a")) (Object [] : V) empty_zones)].

Definition eval_state_hot_swap_clears_prev : bool :=
  let r1 := mkArc 1 (one_rule "r" "sensor/x" (Some (Comparison OpEq (Field "v") (OInt 1))) Edge "act" (Object [])) in
  let r2 := mkArc 2 (one_rule "r2" "sensor/y" None Level "act2" (Object [])) in
  let x st n := ingest_sample 0 st "sensor/x" (Object [("v", int n)]) in
  let t1 := tick_with_arc 0 (x empty_state 0%Z) r1 in
  let t2 := tick_with_arc 0 (x t1.2 1%Z) r1 in
  let t3 := tick_with_arc 0 (ingest_sample 0 t2.2 "sensor/y" (Object [("any", int 1)])) r2 in
  let t4 := tick_with_arc 0 (x t3.2 1%Z) r1 in
  all [fired_by t1 =? 0; fired_by t2 =? 1; fired_by t3 =? 1; fired_by t4 =? 0].

Definition tests : list (string * bool) :=
  [("none_predicate_always_true", none_predicate_always_true);
   ("comparison_eq_zone_resolves_payload", comparison_eq_zone_resolves_payload);
   ("comparison_lt_separation_distance", comparison_lt_separation_distance);
   ("proximity_uses_separation_distance_field", proximity_uses_separation_distance_field);
   ("and_all_true_or_any_true_not_negates", and_all_true_or_any_true_not_negates);
   ("absent_field_fails_closed", absent_field_fails_closed);
   ("float_equality_uses_epsilon", float_equality_uses_epsilon);
   ("same_zone_check_uses_tracker", same_zone_check_uses_tracker);
   ("same_zone_non_string_fails_closed", same_zone_non_string_fails_closed);
   ("zone_tracker_enter_clear_share", zone_tracker_enter_clear_share);
   ("level_trigger_fires_each_tick_while_true", level_trigger_fires_each_tick_while_true);
   ("edge_fires_only_on_transition", edge_fires_only_on_transition);
   ("field_operand_reads_named_payload_field", field_operand_reads_named_payload_field);
   ("empty_when_never_fires", empty_when_never_fires);
   ("proximity_ignores_other_peer", proximity_ignores_other_peer);
   ("demo_rule_fires_on_bumper_pressed", demo_rule_fires_on_bumper_pressed);
   ("eval_state_ingest_and_tick_level", eval_state_ingest_and_tick_level);
   ("eval_state_edge_via_tick", eval_state_edge_via_tick);
   ("eval_state_zone_via_ingest", eval_state_zone_via_ingest);
   ("json_cmp_type_mismatch_is_none_explicit", json_cmp_type_mismatch_is_none_explicit);
   ("eval_state_hot_swap_clears_prev", eval_state_hot_swap_clears_prev)].

(** Every test passes on the model. *)
Example engine_tests_pass : map fst (List.filter (fun t => negb t.2) tests) = [].
Proof. vm_compute. reflexivity. Qed.
End EngineTests.
