(* ===== verification/Calls.v ===== *)
(** * Calls: the answering listener with its connections
      ([src/mesh.rs] over [src/video.rs])

    Mesh.v models the listener's table with connections as identities; here
    every identity is the [VideoPeer] it stands for, so that the callbacks the
    table forwards reach a connection, whose tasks the scheduler runs too. *)
From S2P Require Import Prelude Json Rules Topic Auth Registration Transport Signaling Mesh Media Video.

Section calls.
Context `{JN : JsonNumber} {SW : SignalWire} {P : PeerConn}.
Context (mime_h264 : string) (put : Put -> string + unit) (source : bool).

(** ** The listener *)

(** [ls_counter] is the process's [NEXT_SSRC]. *)
Record Listener := mkListener {
  ls_id : string; ls_mesh : Mesh; ls_conns : gmap nat VideoPeer; ls_counter : u32
}.
Definition listener_new (id : string) (counter : u32) : Listener := mkListener id mesh_new ∅ counter.

Inductive ListenerAct :=
  | LCall (cb : Callback)               (* the receiver dispatches *)
  | LRun (i : nat) (capture_ok : bool)  (* a task of the handler *)
  | LPeer (p i : nat).                  (* a task of one of its peers *)

Definition apply_calls (calls : list (nat * Callback)) (conns : gmap nat VideoPeer) : gmap nat VideoPeer :=
  foldl (fun cs pc => alter (fun v => peer_callback v pc.2) pc.1 cs) conns calls.

(** What [VideoPeer::answer] adds when a building task completes. *)
Definition build_peer (l : Listener) (t : MeshTask) (capture_ok : bool)
    : gmap nat VideoPeer * u32 * bool :=
  match t with
  | OfferBuilding _ _ =>
      let '(r, counter) := answer mime_h264 (ls_counter l) (ls_id l) in
      match r with
      | Ok v => (<[next_peer (ls_mesh l) := v]> (ls_conns l), counter, true)
      | _ => (ls_conns l, counter, false)
      end
  | _ => (ls_conns l, ls_counter l, capture_ok)
  end.

Definition listener_step (l : Listener) (a : ListenerAct) : Listener :=
  let m := ls_mesh l in
  match a with
  | LCall cb => mkListener (ls_id l) (on_callback m cb) (ls_conns l) (ls_counter l)
  | LRun i capture_ok =>
      match mesh_tasks m !! i with
      | Some t =>
          let '(conns, counter, ok) := build_peer l t capture_ok in
          let m' := mesh_step source m (Run i ok) in
          mkListener (ls_id l) m' (apply_calls (drop (length (applied m)) (applied m')) conns) counter
      | None => l
      end
  | LPeer p i =>
      mkListener (ls_id l) m (alter (fun v => video_step put v (VRun i)) p (ls_conns l)) (ls_counter l)
  end.
Definition listener_run (l : Listener) (acts : list ListenerAct) : Listener := foldl listener_step l acts.

(** ** The listener refines its table

    The calls a run makes, and those the table forwarded to one connection. *)
Definition calls_made (acts : list VideoAct) : list Callback :=
  omap (fun a => match a with VCall cb => Some cb | VRun _ => None end) acts.
Definition forwarded (m : Mesh) (p : nat) : list Callback :=
  omap (fun pc : nat * Callback => if decide (pc.1 = p) then Some pc.2 else None) (applied m).

(** [v] is what a fresh answering peer becomes under the calls forwarded to
    [p], between which its tasks run. *)
Definition is_peer (l : Listener) (p : nat) (v : VideoPeer) : Prop :=
  exists k v0 acts, (answer mime_h264 k (ls_id l)).1 = Ok v0 /\ v = video_run put v0 acts /\
    calls_made acts = forwarded (ls_mesh l) p.

Record listener_inv (l : Listener) : Prop := {
  li_mesh : exists macts, ls_mesh l = mesh_run source mesh_new macts;
  li_built : forall p, is_some (ls_conns l !! p) = true -> p < next_peer (ls_mesh l);
  li_session : forall f s, peers (ls_mesh l) !! f = Some s -> is_some (ls_conns l !! s_peer s) = true;
  li_applied : forall p cb, (p, cb) ∈ applied (ls_mesh l) -> is_some (ls_conns l !! p) = true;
  li_peer : forall p v, ls_conns l !! p = Some v -> is_peer l p v
}.

(** ** Lemmas *)
Definition builds (t : MeshTask) (ok : bool) : bool :=
  match t with OfferBuilding _ _ => ok | _ => false end.

(** Calls are forwarded to connections of the table. *)
Definition forwards (m m' : Mesh) : Prop :=
  exists new, applied m' = applied m ++ new /\
    forall p cb, (p, cb) ∈ new -> exists f s, peers m' !! f = Some s /\ s_peer s = p.

Lemma forwards_none m m' : applied m' = applied m -> forwards m m'.
Proof.
  intros H. exists []. rewrite app_nil_r. split; [done|]. intros p cb Hin. by apply elem_of_nil in Hin.
Qed.
Lemma forwards_one m m' f s cb :
  applied m' = applied m ++ [(s_peer s, cb)] -> peers m' !! f = Some s -> forwards m m'.
Proof.
  intros H Hs. eexists. split; [done|]. intros p c [= -> _]%list_elem_of_singleton. by eauto.
Qed.
Lemma find_peer_Some m f p : find_peer m f = Some p -> exists s, peers m !! f = Some s /\ s_peer s = p.
Proof. unfold find_peer. destruct (peers m !! f) as [s|]; [|done]. intros [= <-]. by exists s. Qed.

(** One turn of a task: what it forwards, and that a new entry of the table
    is the connection just built. *)
Lemma run_task_effect ok m t :
  let m' := run_mesh_task source ok m t in
  forwards m m' /\
  next_peer m' = (if builds t ok then S (next_peer m) else next_peer m) /\
  forall f s, peers m' !! f = Some s ->
    (exists s0, peers m !! f = Some s0 /\ s_peer s0 = s_peer s) \/
    (builds t ok = true /\ s_peer s = next_peer m).
Proof.
  destruct t as [f msg|f msg|f msg|f c|f]; cbn [run_mesh_task builds].
  1,3,4: destruct (find_peer m f) as [q|] eqn:E;
    [apply find_peer_Some in E as (s & Hs & <-); split; [by eapply forwards_one|]
    |split; [by apply forwards_none|]]; (split; [done|by eauto]).
  - destruct ok; [|split; [by apply forwards_none|]; split; [done|by eauto]].
    unfold insert_peer. destruct (peers m !! f) as [s|] eqn:E.
    + split; [by apply (forwards_one _ _ f s (OnOffer f msg))|]. split; [done|by eauto].
    + destruct source; (split;
        [apply (forwards_one _ _ f (mkSession (next_peer m) false) (OnOffer f msg)); [done|]; cbn; by rewrite lookup_insert_eq|]);
        (split; [done|]); cbn; intros g s;
        (destruct (decide (f = g)) as [->|Hne]; [rewrite lookup_insert_eq; intros [= <-]; by right|]);
        rewrite lookup_insert_ne by done; by eauto.
  - destruct ok; [|split; [by apply forwards_none|split; [done|by eauto]]].
    destruct (peers m !! f) as [s|] eqn:E; [|split; [by apply forwards_none|split; [done|by eauto]]].
    split; [by apply forwards_none|]. split; [done|]. cbn [peers]. intros g s'.
    destruct (decide (f = g)) as [->|Hne]; [rewrite lookup_insert_eq; intros [= <-]; left; by eauto|].
    rewrite lookup_insert_ne by done. by eauto.
Qed.

(** Each connection gets its own calls, in order. *)
Definition own (p : nat) (calls : list (nat * Callback)) : list Callback :=
  omap (fun pc : nat * Callback => if decide (pc.1 = p) then Some pc.2 else None) calls.
Definition feed (p : nat) (v : VideoPeer) (calls : list (nat * Callback)) : VideoPeer :=
  video_run put v (map VCall (own p calls)).

Lemma apply_calls_lookup calls conns p :
  apply_calls calls conns !! p = (fun v => feed p v calls) <$> conns !! p.
Proof.
  revert conns. induction calls as [|[q cb] calls IH]; intros conns; [symmetry; by apply option_fmap_id|].
  cbn [apply_calls foldl fst snd]. change (foldl _ ?m calls) with (apply_calls calls m). rewrite IH.
  unfold feed, own. csimpl. destruct (decide (q = p)) as [->|Hne].
  - rewrite lookup_alter_eq. by destruct (conns !! p).
  - by rewrite lookup_alter_ne.
Qed.

Lemma calls_made_calls l : calls_made (map VCall l) = l.
Proof. induction l as [|x l IH]; [done|]. csimpl. by rewrite IH. Qed.

Lemma is_peer_grow l l' p v new :
  ls_id l' = ls_id l -> applied (ls_mesh l') = applied (ls_mesh l) ++ new ->
  is_peer l p v -> is_peer l' p (feed p v new).
Proof.
  intros Hid Ha (k & v0 & acts & Hv0 & -> & Hc). exists k, v0, (acts ++ map VCall (own p new)).
  rewrite Hid. split; [done|]. split; [by unfold feed, video_run; rewrite foldl_app|].
  unfold calls_made, forwarded in *. rewrite Ha, !omap_app, Hc. f_equal. apply calls_made_calls.
Qed.

Lemma listener_inv_new id counter : listener_inv (listener_new id counter).
Proof.
  split; cbn.
  - by exists [].
  - intros p. by rewrite lookup_empty.
  - intros f s. by rewrite lookup_empty.
  - intros p cb H. by apply elem_of_nil in H.
  - intros p v. by rewrite lookup_empty.
Qed.

Lemma build_peer_effect l t ok conns counter ok' :
  build_peer l t ok = (conns, counter, ok') ->
  (builds t ok' = false /\ conns = ls_conns l) \/
  (builds t ok' = true /\ exists k v, (answer mime_h264 k (ls_id l)).1 = Ok v /\
     conns = <[next_peer (ls_mesh l) := v]> (ls_conns l)).
Proof.
  destruct t as [f m|f m|f m|f c|f]; cbn [build_peer builds]; try (intros [= <- _ _]; by left).
  destruct (answer mime_h264 (ls_counter l) (ls_id l)) as [[v|e|w] k] eqn:E; intros [= <- _ <-]; [|by left..].
  right. split; [done|]. exists (ls_counter l), v. by rewrite E.
Qed.

Lemma is_peer_same l l' p v :
  ls_id l' = ls_id l -> applied (ls_mesh l') = applied (ls_mesh l) -> is_peer l p v -> is_peer l' p v.
Proof. unfold is_peer, forwarded. by intros -> ->. Qed.

Lemma forwarded_none m p : (forall cb, (p, cb) ∉ applied m) -> forwarded m p = [].
Proof.
  unfold forwarded. induction (applied m) as [|[q cb] l IH]; intros H; [done|]. csimpl.
  rewrite decide_False by (intros ->; apply (H cb); by left). apply IH. intros c Hc. apply (H c). by right.
Qed.

(** A turn of one of the handler's tasks. *)
Lemma listener_inv_task l i t ok :
  mesh_tasks (ls_mesh l) !! i = Some t -> listener_inv l -> listener_inv (listener_step l (LRun i ok)).
Proof.
  intros Et [[macts Hm] Hb Hs Ha Hp]. cbn [listener_step]. rewrite Et.
  destruct (build_peer l t ok) as [[conns counter] ok'] eqn:Eb. apply build_peer_effect in Eb.
  assert (exists macts, mesh_step source (ls_mesh l) (Run i ok') = mesh_run source mesh_new macts) as Hrun
    by (exists (macts ++ [Run i ok']); unfold mesh_run; by rewrite foldl_app, Hm).
  cbn [mesh_step] in *. rewrite Et in *.
  pose proof (run_task_effect ok' (take_task (ls_mesh l) i) t) as ((new & Hnew & Hin) & Hnext & Hpeers).
  change (mkMesh _ _ _ _) with (take_task (ls_mesh l) i) in *.
  set (m' := run_mesh_task source ok' (take_task (ls_mesh l) i) t) in *.
  cbn [take_task applied next_peer peers] in Hnew, Hnext, Hpeers.
  assert (drop (length (applied (ls_mesh l))) (applied m') = new) as -> by (by rewrite Hnew, drop_app_length).
  assert (forall p, is_some (ls_conns l !! p) = true -> is_some (conns !! p) = true) as Hmono.
  { intros p. destruct Eb as [[_ ->]|[_ (k & v & _ & ->)]]; [done|].
    destruct (decide (next_peer (ls_mesh l) = p)) as [->|]; [by rewrite lookup_insert_eq|by rewrite lookup_insert_ne]. }
  assert (forall p, is_some (apply_calls new conns !! p) = is_some (conns !! p)) as Hcalls
    by (intros p; rewrite apply_calls_lookup; by destruct (conns !! p)).
  assert (forall f s, peers m' !! f = Some s -> is_some (conns !! s_peer s) = true) as Hs'.
  { intros f s [(s0 & H0 & <-)|[Ht ->]]%Hpeers; [by eapply Hmono, Hs|].
    destruct Eb as [[Ht' _]|[_ (k & v & _ & ->)]]; [congruence|by rewrite lookup_insert_eq]. }
  split; cbn [ls_mesh ls_conns ls_id].
  - exact Hrun.
  - intros p. rewrite Hcalls, Hnext.
    destruct Eb as [[-> ->]|[-> (k & v & _ & ->)]]; [apply Hb|].
    destruct (decide (next_peer (ls_mesh l) = p)) as [->|]; [lia|rewrite lookup_insert_ne by done].
    intros H%Hb. lia.
  - intros f s. rewrite Hcalls. apply Hs'.
  - intros p cb. rewrite Hnew, elem_of_app, Hcalls. intros [H|H]; [by eapply Hmono, Ha|].
    destruct (Hin p cb H) as (f & s & Hf & <-). by eapply Hs'.
  - intros p v'. rewrite apply_calls_lookup. intros Hv'.
    destruct (conns !! p) as [v|] eqn:Ev; [|done]. injection Hv' as <-.
    apply (is_peer_grow l); [done|exact Hnew|].
    destruct Eb as [[_ ->]|[_ (k & v0 & Hv0 & ->)]]; [by apply Hp|].
    destruct (decide (next_peer (ls_mesh l) = p)) as [<-|Hne]; [|rewrite lookup_insert_ne in Ev by done; by apply Hp].
    rewrite lookup_insert_eq in Ev. injection Ev as <-. exists k, v0, []. split; [done|]. split; [done|].
    rewrite forwarded_none; [done|]. intros cb H%Ha%Hb. lia.
Qed.

Lemma listener_inv_step l a : listener_inv l -> listener_inv (listener_step l a).
Proof.
  intros H. destruct a as [cb|i ok|p i].
  - destruct H as [[macts Hm] Hb Hs Ha Hp]. split; cbn [listener_step ls_mesh ls_conns]; [|done..|].
    + exists (macts ++ [Call cb]). unfold mesh_run. by rewrite foldl_app, Hm.
    + intros p v Hv. by apply (is_peer_same l), Hp.
  - destruct (mesh_tasks (ls_mesh l) !! i) as [t|] eqn:Et; [by apply listener_inv_task with t|].
    cbn [listener_step]. by rewrite Et.
  - destruct H as [Hm Hb Hs Ha Hp].
    assert (forall q, is_some (alter (fun v => video_step put v (VRun i)) p (ls_conns l) !! q)
      = is_some (ls_conns l !! q)) as Hq.
    { intros q. destruct (decide (p = q)) as [->|]; [rewrite lookup_alter_eq|by rewrite lookup_alter_ne].
      by destruct (ls_conns l !! q). }
    split; cbn [listener_step ls_mesh ls_conns]; [done|..].
    + intros q. rewrite Hq. apply Hb.
    + intros f s Hf. rewrite Hq. by apply (Hs f s).
    + intros q cb Hc. rewrite Hq. by apply (Ha q cb).
    + intros q v. destruct (decide (p = q)) as [->|]; [rewrite lookup_alter_eq|rewrite lookup_alter_ne by done; apply Hp].
      destruct (ls_conns l !! q) as [v0|] eqn:Ev; [|done]. intros [= <-].
      destruct (Hp q v0 Ev) as (k & w & acts & Hw & -> & Hc). exists k, w, (acts ++ [VRun i]).
      split; [done|]. split; [by unfold video_run; rewrite foldl_app|].
      unfold calls_made in *. rewrite omap_app, Hc. csimpl. apply app_nil_r.
Qed.

Lemma listener_inv_run l acts : listener_inv l -> listener_inv (listener_run l acts).
Proof. revert l. induction acts as [|a acts IH]; intros l H; [done|]. by apply IH, listener_inv_step. Qed.

(** C24. The listener implements its table.  Whatever schedule of calls, handler
    tasks and peer tasks runs, its table is a run of the mesh handler's; every
    session's connection exists, and every connection is exactly what a fresh
    answering peer of this robot becomes when it is given, in order and with
    nothing lost or added, the calls the handler forwarded to it - which all
    come from the one robot whose session it is. *)
Theorem listener_sessions_are_peers (id : string) (counter : u32) (acts : list ListenerAct) :
  let l := listener_run (listener_new id counter) acts in
  (exists macts, ls_mesh l = mesh_run source mesh_new macts) /\
  (forall f s, peers (ls_mesh l) !! f = Some s ->
     exists v k v0 vacts, ls_conns l !! s_peer s = Some v /\ (answer mime_h264 k id).1 = Ok v0 /\
       v = video_run put v0 vacts /\ calls_made vacts = forwarded (ls_mesh l) (s_peer s)) /\
  (forall p cb, (p, cb) ∈ applied (ls_mesh l) ->
     is_some (ls_conns l !! p) = true /\ find_peer (ls_mesh l) (callback_from cb) = Some p).
Proof.
  intros l. destruct (listener_inv_run (listener_new id counter) acts (listener_inv_new id counter))
    as [[macts Hm] Hb Hs Ha Hp]. fold l in Hm, Hb, Hs, Ha, Hp.
  assert (ls_id l = id) as Hid.
  { clear. unfold l. generalize (listener_new id counter), (eq_refl : ls_id (listener_new id counter) = id).
    induction acts as [|a acts IH]; intros l0 H; [done|]. apply IH. destruct a as [cb|i ok|p i]; [done| |done].
    cbn [listener_step]. destruct (mesh_tasks _ !! i); [|done]. by destruct (build_peer _ _ _) as [[??]?]. }
  split; [by exists macts|]. split.
  - intros f s Hf. pose proof (Hs f s Hf) as Hv. destruct (ls_conns l !! s_peer s) as [v|] eqn:Ev; [|done].
    destruct (Hp _ v Ev) as (k & v0 & vacts & H0 & H1 & H2). rewrite Hid in H0. by exists v, k, v0, vacts.
  - intros p cb H. split; [by apply (Ha p cb)|]. pose proof (mesh_run_inv source macts mesh_new (mesh_inv_new source)) as Hi.
    rewrite <- Hm in Hi. by apply (inv_applied _ _ Hi).
Qed.
End calls.
