(* ===== verification/Connect.v ===== *)
(** * Connect: two robots on a call, from the published offer to the end
      ([src/video.rs], [src/mesh.rs], [src/signaling.rs] together)

    Robot [a] has called robot [b].  [a] has its calling peer, whose signal
    receiver [start_video_with_source] subscribes after the offer is out, and
    its listener; [b] has its listener.  The network carries what they publish,
    in any order, to the subscriptions there are when it arrives; the
    receivers dispatch, and the tasks of all three run, in any order; and at
    any time a connection finds a candidate, which its event handler publishes
    to the other side. *)
From S2P Require Import Prelude Json Rules Topic Auth Registration Transport Signaling Mesh Media Video Calls.

Section connect.
Context `{JN : JsonNumber} {SW : SignalWire} {K : KeyMatch} {P : PeerConn}.
Context (mime_h264 : string) (put : Put -> string + unit) (source : bool) (a b : string).

(** ** The system

    [cs_net] is what is in flight; the channels hold, decoded, what waits in
    a receiver's subscriptions. *)
Record CallSys := mkCallSys {
  cs_caller : VideoPeer; cs_listening : bool; cs_caller_chan : list Callback;
  cs_a : Listener; cs_a_chan : list Callback;
  cs_b : Listener; cs_b_chan : list Callback;
  cs_net : list Put
}.

Inductive CallAct :=
  | Route (i : nat)                       (* the network delivers *)
  | Subscribe                             (* the caller's receiver starts *)
  | DispatchCaller (i : nat) | DispatchA (i : nat) | DispatchB (i : nat)
  | TaskOfCaller (i : nat)
  | TaskOfA (act : ListenerAct) | TaskOfB (act : ListenerAct)
  (* a connection finds a candidate; [from] is the robot the session is with *)
  | CandidateOfCaller (init : string + IceInit)
  | CandidateOfA (from : string) (init : string + IceInit)
  | CandidateOfB (from : string) (init : string + IceInit).
Definition is_candidate (act : CallAct) : bool :=
  match act with CandidateOfCaller _ | CandidateOfA _ _ | CandidateOfB _ _ => true | _ => false end.

(** What a turn of a peer's task publishes. *)
Definition newly_sent (v v' : VideoPeer) : list Put := drop (length (vp_sent v)) (vp_sent v').

(** A turn of a listener's task, when there is one to run; what it publishes. *)
Definition listener_turn (l : Listener) (act : ListenerAct) : option (Listener * list Put) :=
  let l' := listener_step mime_h264 put source l act in
  match act with
  | LCall _ => None
  | LRun i _ => if mesh_tasks (ls_mesh l) !! i then Some (l', []) else None
  | LPeer p i =>
      match ls_conns l !! p, ls_conns l' !! p with
      | Some v, Some v' => if vp_tasks v !! i then Some (l', newly_sent v v') else None
      | _, _ => None
      end
  end.

(** The event handler of a session's connection. *)
Definition session_candidate (l : Listener) (from : string) (init : string + IceInit) : option (list Put) :=
  _ ← peers (ls_mesh l) !! from; Some (option_list (on_ice_candidate put (ls_id l) from init)).

(** One step; [None] when the act has nothing to act on. *)
Definition call_step (s : CallSys) (act : CallAct) : option CallSys :=
  let '(mkCallSys v on vc la ac lb bc net) := s in
  match act with
  | Route i =>
      p ← net !! i;
      let to_a := deliver_signal (receiver_tasks a) p in
      let to_b := deliver_signal (receiver_tasks b) p in
      Some (mkCallSys v on (vc ++ (if on then to_a else [])) la (ac ++ to_a) lb (bc ++ to_b) (delete i net))
  | Subscribe => if on then None else Some (mkCallSys v true vc la ac lb bc net)
  | DispatchCaller i => cb ← vc !! i; Some (mkCallSys (peer_callback v cb) on (delete i vc) la ac lb bc net)
  | DispatchA i =>
      cb ← ac !! i;
      Some (mkCallSys v on vc (listener_step mime_h264 put source la (LCall cb)) (delete i ac) lb bc net)
  | DispatchB i =>
      cb ← bc !! i;
      Some (mkCallSys v on vc la ac (listener_step mime_h264 put source lb (LCall cb)) (delete i bc) net)
  | TaskOfCaller i =>
      _ ← vp_tasks v !! i;
      let v' := video_step put v (VRun i) in
      Some (mkCallSys v' on vc la ac lb bc (net ++ newly_sent v v'))
  | TaskOfA act => '(la', out) ← listener_turn la act; Some (mkCallSys v on vc la' ac lb bc (net ++ out))
  | TaskOfB act => '(lb', out) ← listener_turn lb act; Some (mkCallSys v on vc la ac lb' bc (net ++ out))
  | CandidateOfCaller init =>
      Some (mkCallSys v on vc la ac lb bc (net ++ option_list (on_ice_candidate put (vp_robot v) b init)))
  | CandidateOfA from init =>
      out ← session_candidate la from init; Some (mkCallSys v on vc la ac lb bc (net ++ out))
  | CandidateOfB from init =>
      out ← session_candidate lb from init; Some (mkCallSys v on vc la ac lb bc (net ++ out))
  end.
Fixpoint call_run (s : CallSys) (acts : list CallAct) : option CallSys :=
  match acts with
  | [] => Some s
  | act :: acts => s' ← call_step s act; call_run s' acts
  end.
Definition candidates (acts : list CallAct) : nat := length (List.filter is_candidate acts).
(** Nothing is left to do, or to carry, until a connection finds a candidate. *)
Definition at_rest (s : CallSys) : Prop := forall act, is_candidate act = false -> call_step s act = None.

(** The call after [VideoPeer::offer] returned [v] and before its receiver is
    subscribed. *)
Definition call_start (v : VideoPeer) (ka kb : u32) : CallSys :=
  mkCallSys v false [] (listener_new a ka) [] (listener_new b kb) [] (vp_sent v).
Definition call_subscribed (v : VideoPeer) (ka kb : u32) : CallSys :=
  mkCallSys v true [] (listener_new a ka) [] (listener_new b kb) [] (vp_sent v).

(** Both ends are [Stable], each with the other's description: [b]'s session
    for [a] with the offer [so], and [a]'s calling peer with the one answer
    [b] published. *)
Definition answered (s : CallSys) (so sa : string) : Prop :=
  exists p v pa, s_peer <$> peers (ls_mesh (cs_b s)) !! a = Some p /\ ls_conns (cs_b s) !! p = Some v /\
    publish_answer b a sa [] = Ok pa /\ vp_sent v = [pa] /\
    sig_state (vp_conn v) = Stable /\ remote_sdp (vp_conn v) = Some so.
Definition connected (s : CallSys) (so : string) : Prop :=
  exists sa, answered s so sa /\
    sig_state (vp_conn (cs_caller s)) = Stable /\ remote_sdp (vp_conn (cs_caller s)) = Some sa.
(** [b] answered, and the caller waits for the answer with nothing to come. *)
Definition answer_lost (s : CallSys) (so : string) : Prop :=
  (exists sa, answered s so sa) /\ sig_state (vp_conn (cs_caller s)) = HaveLocalOffer /\
  remote_sdp (vp_conn (cs_caller s)) = None.
End connect.

(** ** Candidates aside

    What candidates leave in flight, told apart from the exchange itself: a
    call without them, and a weight that bounds the steps they still cost. *)
Section lists.
Context {A : Type} (f : A -> bool) (w : A -> nat).

Lemma filter_drop l i x :
  l !! i = Some x -> f x = false -> List.filter f (delete i l) = List.filter f l.
Proof.
  revert i. induction l as [|y l IH]; intros [|i] Hl Hx; [done..| |].
  - injection Hl as ->. simpl. by rewrite Hx.
  - change (delete (S i) (y :: l)) with (y :: delete i l). cbn [List.filter]. by rewrite (IH i Hl Hx).
Qed.
Lemma filter_pick l i x :
  l !! i = Some x -> f x = true ->
  exists j, List.filter f l !! j = Some x /\ List.filter f (delete i l) = delete j (List.filter f l).
Proof.
  revert i. induction l as [|y l IH]; intros [|i] Hl Hx; [done..| |].
  - injection Hl as ->. simpl. rewrite Hx. by exists 0.
  - change (delete (S i) (y :: l)) with (y :: delete i l). cbn [List.filter].
    destruct (IH i Hl Hx) as (j & Hj & Hd). rewrite Hd. destruct (f y); [by exists (S j)|by exists j].
Qed.
Lemma filter_origin l j x : List.filter f l !! j = Some x -> exists i, l !! i = Some x.
Proof.
  intros Hj%list_elem_of_lookup_2%list_elem_of_In%filter_In. apply list_elem_of_lookup_1, list_elem_of_In, Hj.
Qed.
Lemma filter_twice l : List.filter f (List.filter f l) = List.filter f l.
Proof.
  induction l as [|x l IH]; [done|]. cbn [List.filter]. destruct (f x) eqn:E; [|done].
  cbn [List.filter]. by rewrite E, IH.
Qed.
Lemma sum_pick l i x : l !! i = Some x -> sum_list_with w l = w x + sum_list_with w (delete i l).
Proof.
  revert i. induction l as [|y l IH]; intros [|i] Hl; [done..| |].
  - by injection Hl as ->.
  - change (delete (S i) (y :: l)) with (y :: delete i l). cbn [sum_list_with]. rewrite (IH i Hl). lia.
Qed.
End lists.

Section candidates.
Context `{JN : JsonNumber} {SW : SignalWire} {K : KeyMatch} {P : PeerConn}.
Context (mime_h264 : string) (put : Put -> string + unit) (source : bool) (a b : string).
Notation call_step := (call_step mime_h264 put source a b).
Notation listener_step := (listener_step mime_h264 put source).
Notation listener_turn := (listener_turn mime_h264 put source).

Definition keeps_cb (cb : Callback) : bool := match cb with OnIce _ _ => false | _ => true end.
Definition keeps_task (t : VideoTask) : bool := match t with AddIce _ => false | _ => true end.
Definition keeps_mesh (t : MeshTask) : bool := match t with IceTask _ _ => false | _ => true end.
Definition to_a (p : Put) : list Callback := deliver_signal (receiver_tasks a) p.
Definition to_b (p : Put) : list Callback := deliver_signal (receiver_tasks b) p.
Definition keeps_put (p : Put) : bool := existsb keeps_cb (to_a p ++ to_b p).

Definition quiet_peer (v : VideoPeer) : VideoPeer :=
  mkVideoPeer (vp_robot v) (vp_conn v) (vp_track v) (List.filter keeps_task (vp_tasks v)) (vp_sent v).
Definition quiet_calls (l : list (nat * Callback)) : list (nat * Callback) :=
  List.filter (fun pc : nat * Callback => keeps_cb pc.2) l.
Definition quiet_mesh (m : Mesh) : Mesh :=
  mkMesh (peers m) (List.filter keeps_mesh (mesh_tasks m)) (next_peer m) (quiet_calls (applied m)).
Definition quiet_listener (l : Listener) : Listener :=
  mkListener (ls_id l) (quiet_mesh (ls_mesh l)) (quiet_peer <$> ls_conns l) (ls_counter l).
Definition quiet (s : CallSys) : CallSys :=
  mkCallSys (quiet_peer (cs_caller s)) (cs_listening s) (List.filter keeps_cb (cs_caller_chan s))
    (quiet_listener (cs_a s)) (List.filter keeps_cb (cs_a_chan s))
    (quiet_listener (cs_b s)) (List.filter keeps_cb (cs_b_chan s)) (List.filter keeps_put (cs_net s)).

Definition cb_weight (k : nat) (cb : Callback) : nat := if keeps_cb cb then 0 else k.
Definition task_weight (t : VideoTask) : nat := if keeps_task t then 0 else 1.
Definition mesh_weight (t : MeshTask) : nat := if keeps_mesh t then 0 else 2.
Definition peer_weight (v : VideoPeer) : nat := sum_list_with task_weight (vp_tasks v).
Definition conns_weight (m : gmap nat VideoPeer) : nat := map_fold (fun _ v n => peer_weight v + n) 0 m.
Definition listener_weight (l : Listener) : nat :=
  sum_list_with mesh_weight (mesh_tasks (ls_mesh l)) + conns_weight (ls_conns l).
Definition put_weight (p : Put) : nat :=
  (if keeps_put p then 0 else 1) + sum_list_with (cb_weight 5) (to_a p) + sum_list_with (cb_weight 3) (to_b p).
Definition weight (s : CallSys) : nat :=
  peer_weight (cs_caller s) + sum_list_with (cb_weight 2) (cs_caller_chan s)
  + listener_weight (cs_a s) + sum_list_with (cb_weight 3) (cs_a_chan s)
  + listener_weight (cs_b s) + sum_list_with (cb_weight 3) (cs_b_chan s)
  + sum_list_with put_weight (cs_net s).

(** *** A connection *)
Lemma quiet_callback v cb :
  quiet_peer (peer_callback v cb) = (if keeps_cb cb then peer_callback (quiet_peer v) cb else quiet_peer v) /\
  peer_weight (peer_callback v cb) = peer_weight v + cb_weight 1 cb.
Proof.
  destruct cb as [from msg|from msg|from c]; cbn [peer_callback keeps_cb cb_weight]; unfold cb_weight; cbn [keeps_cb].
  1,2: destruct (parse_sdp _ _); [by rewrite Nat.add_0_r|];
    unfold quiet_peer, spawn_task, peer_weight; cbn [vp_robot vp_conn vp_track vp_tasks vp_sent];
    by rewrite List.filter_app, sum_list_with_app.
  unfold quiet_peer, spawn_task, peer_weight; cbn [vp_robot vp_conn vp_track vp_tasks vp_sent].
  rewrite List.filter_app, sum_list_with_app. cbn. by rewrite app_nil_r.
Qed.

Lemma quiet_task v t : keeps_task t = true ->
  quiet_peer (run_video_task put v t) = run_video_task put (quiet_peer v) t /\
  peer_weight (run_video_task put v t) = peer_weight v /\ 
  newly_sent v (run_video_task put v t) = newly_sent (quiet_peer v) (run_video_task put (quiet_peer v) t).
Proof.
  assert (forall v t, keeps_task t = true -> quiet_peer (spawn_task v t) = spawn_task (quiet_peer v) t /\
    peer_weight (spawn_task v t) = peer_weight v) as Hsp.
  { intros v0 t0 Ht. unfold quiet_peer, spawn_task, peer_weight. cbn [vp_robot vp_conn vp_track vp_tasks vp_sent].
    rewrite List.filter_app, sum_list_with_app. cbn [List.filter sum_list_with]. unfold task_weight. rewrite Ht.
    split; [done|lia]. }
  destruct t as [d|i|from d|from|from d|from d]; intros Ht; [|done|..]; cbn [run_video_task]; clear Ht;
    change (vp_conn (quiet_peer v)) with (vp_conn v); change (vp_robot (quiet_peer v)) with (vp_robot v).
  - by destruct (set_remote _ _).
  - destruct (set_remote _ _) as [|c]; [done|]. by destruct (Hsp (with_conn v c) (CreateAnswer from)) as [-> ->].
  - destruct (create_answer _) as [|d]; [done|]. by destruct (Hsp v (SetLocalAnswer from d)) as [-> ->].
  - destruct (set_local _ _) as [|c]; [done|]. by destruct (Hsp (with_conn v c) (PublishAnswer from d)) as [-> ->].
  - by destruct (send _ _ _).
Qed.

(** A turn of a connection's task: one of the exchange, or a candidate. *)
Definition took_ice (v v' : VideoPeer) : Prop :=
  v' = v \/ exists i c, add_ice (vp_conn v) i = inr c /\ v' = with_conn v c.
Lemma quiet_turn v i t : vp_tasks v !! i = Some t ->
  let v' := video_step put v (VRun i) in
  (newly_sent v v' = [] /\ took_ice (quiet_peer v) (quiet_peer v') /\ peer_weight v = S (peer_weight v')) \/
  (exists j, vp_tasks (quiet_peer v) !! j = Some t /\ let w' := video_step put (quiet_peer v) (VRun j) in
     quiet_peer v' = w' /\ peer_weight v' = peer_weight v /\ newly_sent v v' = newly_sent (quiet_peer v) w').
Proof.
  intros Hi. cbn zeta. cbn [video_step]. rewrite Hi.
  pose proof (sum_pick task_weight _ _ _ Hi) as Hw. unfold task_weight at 2 in Hw.
  set (v0 := mkVideoPeer (vp_robot v) (vp_conn v) (vp_track v) (delete i (vp_tasks v)) (vp_sent v)).
  destruct (keeps_task t) eqn:Ht.
  - right. destruct (filter_pick keeps_task _ _ _ Hi Ht) as (j & Hj & Hd). exists j.
    split; [exact Hj|]. cbn [vp_tasks quiet_peer]. rewrite Hj, <- Hd.
    change (mkVideoPeer (vp_robot (quiet_peer v)) (vp_conn (quiet_peer v)) (vp_track (quiet_peer v))
      (List.filter keeps_task (delete i (vp_tasks v))) (vp_sent (quiet_peer v))) with (quiet_peer v0).
    destruct (quiet_task v0 t Ht) as (H1 & H2 & H3).
    split; [exact H1|]. split; [rewrite H2; unfold peer_weight; cbn [vp_tasks v0]; lia|exact H3].
  - left. destruct t as [|ini| | | |]; try done. cbn [run_video_task].
    assert (quiet_peer v0 = quiet_peer v) as Hq
      by (unfold quiet_peer; cbn [v0 vp_tasks vp_robot vp_conn vp_track vp_sent]; by rewrite (filter_drop _ _ _ _ Hi)).
    change (vp_conn v0) with (vp_conn v). destruct (add_ice (vp_conn v) ini) as [|c] eqn:E.
    + split; [apply drop_all|]. split; [left; exact Hq|]. unfold peer_weight. cbn [vp_tasks v0]. lia.
    + split; [apply drop_all|]. split; [|unfold peer_weight; cbn [vp_tasks v0 with_conn]; lia].
      right. exists ini, c. split; [exact E|].
      change (quiet_peer (with_conn v0 c)) with (with_conn (quiet_peer v0) c). by rewrite Hq.
Qed.

(** *** A listener's connections *)
Lemma conns_weight_fresh p v m : m !! p = None -> conns_weight (<[p := v]> m) = peer_weight v + conns_weight m.
Proof. intros H. unfold conns_weight. apply (map_fold_insert_L (fun _ v n => peer_weight v + n) 0 p v m); [intros; lia|done]. Qed.
Lemma conns_weight_pick p v m : m !! p = Some v -> conns_weight m = peer_weight v + conns_weight (delete p m).
Proof.
  intros H. rewrite <- (insert_delete_id m p v H) at 1. apply conns_weight_fresh, lookup_delete_eq.
Qed.
Lemma conns_weight_insert p v m : conns_weight (<[p := v]> m) <= peer_weight v + conns_weight m.
Proof.
  rewrite <- insert_delete_eq, conns_weight_fresh by apply lookup_delete_eq.
  destruct (m !! p) as [v0|] eqn:E; [rewrite (conns_weight_pick p v0 m E); lia|by rewrite delete_id].
Qed.
Lemma conns_weight_alter g p v m :
  m !! p = Some v -> conns_weight (alter g p m) + peer_weight v = conns_weight m + peer_weight (g v).
Proof.
  intros H. rewrite (conns_weight_pick p v m H). rewrite (conns_weight_pick p (g v)) by by rewrite lookup_alter_eq, H.
  rewrite delete_alter_eq. lia.
Qed.

Lemma quiet_alter g h p (m : gmap nat VideoPeer) :
  (forall v, m !! p = Some v -> quiet_peer (g v) = h (quiet_peer v)) ->
  quiet_peer <$> alter g p m = alter h p (quiet_peer <$> m).
Proof.
  intros H. apply map_eq. intros q. rewrite lookup_fmap. destruct (decide (p = q)) as [<-|Hq].
  - rewrite !lookup_alter_eq, lookup_fmap. destruct (m !! p) as [v|]; [|done]. simpl. by rewrite H.
  - by rewrite !lookup_alter_ne, lookup_fmap.
Qed.

Lemma quiet_apply calls : forall conns,
  quiet_peer <$> apply_calls calls conns = apply_calls (quiet_calls calls) (quiet_peer <$> conns) /\
  conns_weight (apply_calls calls conns) <= conns_weight conns + sum_list_with (fun pc => cb_weight 1 pc.2) calls.
Proof.
  induction calls as [|[p cb] calls IH]; intros conns; [split; cbn; [done|lia]|].
  cbn [apply_calls foldl quiet_calls List.filter fst snd sum_list_with].
  fold (quiet_calls calls). destruct (IH (alter (fun v => peer_callback v cb) p conns)) as [H1 H2]. split.
  - etrans; [exact H1|]. destruct (keeps_cb cb) eqn:Hk.
    + rewrite (quiet_alter _ (fun v => peer_callback v cb)); [done|].
      intros v _. destruct (quiet_callback v cb) as [-> _]. by rewrite Hk.
    + rewrite (quiet_alter _ id); [by rewrite alter_id|].
      intros v _. destruct (quiet_callback v cb) as [-> _]. by rewrite Hk.
  - etrans; [exact H2|]. destruct (conns !! p) as [v|] eqn:E.
    + pose proof (conns_weight_alter (fun v => peer_callback v cb) p v conns E) as Hw. cbn beta in Hw.
      destruct (quiet_callback v cb) as [_ Hc]. rewrite Hc in Hw. lia.
    + rewrite alter_id; [lia|by intros v Hv; rewrite E in Hv].
Qed.

(** *** A listener's tasks *)

(** What a turn of a task forwards. *)
Definition new_calls (ok : bool) (m : Mesh) (t : MeshTask) : list (nat * Callback) :=
  match t with
  | OfferTask from msg => match find_peer m from with Some p => [(p, OnOffer from msg)] | None => [] end
  | OfferBuilding from msg =>
      if ok then [(match peers m !! from with Some s => s_peer s | None => next_peer m end, OnOffer from msg)] else []
  | AnswerTask from msg => match find_peer m from with Some p => [(p, OnAnswer from msg)] | None => [] end
  | IceTask from c => match find_peer m from with Some p => [(p, OnIce from c)] | None => [] end
  | CaptureTask _ => []
  end.
Lemma run_task_applied ok m t :
  applied (run_mesh_task source ok m t) = applied m ++ new_calls ok m t.
Proof.
  destruct t as [f msg|f msg|f msg|f c|f]; cbn [run_mesh_task new_calls].
  1,3,4: destruct (find_peer m f); by rewrite ?app_nil_r.
  - destruct ok; [|by rewrite app_nil_r]. unfold insert_peer. by destruct (peers m !! f), source.
  - destruct ok; [|by rewrite app_nil_r]. destruct (peers m !! f); by rewrite app_nil_r.
Qed.

Lemma quiet_mesh_task ok m t : keeps_mesh t = true ->
  quiet_mesh (run_mesh_task source ok m t) = run_mesh_task source ok (quiet_mesh m) t /\
  sum_list_with mesh_weight (mesh_tasks (run_mesh_task source ok m t)) = sum_list_with mesh_weight (mesh_tasks m) /\
  quiet_calls (new_calls ok m t) = new_calls ok (quiet_mesh m) t /\
  sum_list_with (fun pc => cb_weight 1 pc.2) (new_calls ok m t) = 0.
Proof.
  intros Ht.
  assert (quiet_calls (new_calls ok m t) = new_calls ok (quiet_mesh m) t /\
    sum_list_with (fun pc => cb_weight 1 pc.2) (new_calls ok m t) = 0) as [-> ->].
  { destruct t as [f msg|f msg|f msg|f c|f]; try done; cbn [new_calls];
      unfold find_peer; cbn [quiet_mesh peers next_peer]; [by destruct (peers m !! f)|by destruct ok|by destruct (peers m !! f)]. }
  assert (forall m p cb, keeps_cb cb = true -> quiet_mesh (forward m p cb) = forward (quiet_mesh m) p cb) as Hf.
  { intros m0 p cb Hcb. unfold quiet_mesh, forward, quiet_calls. cbn [peers mesh_tasks next_peer applied].
    rewrite List.filter_app. cbn [List.filter snd]. by rewrite Hcb. }
  assert (forall m t, keeps_mesh t = true -> quiet_mesh (spawn m t) = spawn (quiet_mesh m) t /\
    sum_list_with mesh_weight (mesh_tasks (spawn m t)) = sum_list_with mesh_weight (mesh_tasks m)) as Hs.
  { intros m0 t0 Ht0. unfold quiet_mesh, spawn. cbn [peers mesh_tasks next_peer applied].
    rewrite List.filter_app, sum_list_with_app. cbn [List.filter sum_list_with]. unfold mesh_weight at 2. rewrite Ht0.
    split; [done|lia]. }
  split; [|split; [|done]].
  - destruct t as [f msg|f msg|f msg|f c|f]; try done; cbn [run_mesh_task]; unfold find_peer, insert_peer;
      cbn [quiet_mesh peers next_peer]; destruct (peers m !! f) as [s|]; try destruct ok; try done;
      cbn [fmap option_fmap option_map]; rewrite ?Hf by done; try done.
    1,2: by apply Hs.
    destruct source; [|done]. rewrite (proj1 (Hs _ (CaptureTask f) eq_refl)). done.
  - destruct t as [f msg|f msg|f msg|f c|f]; try done; cbn [run_mesh_task]; unfold find_peer, insert_peer;
      destruct (peers m !! f) as [s|]; try destruct ok; try done.
    1,2: by apply Hs.
    destruct source; [|done].
    exact (proj2 (Hs (mkMesh (<[f := mkSession (next_peer m) false]> (peers m)) (mesh_tasks m) (S (next_peer m)) (applied m))
      (CaptureTask f) eq_refl)).
Qed.

(** A new connection has nothing to do. *)
Lemma quiet_build l t ok conns k ok' :
  keeps_mesh t = true -> build_peer mime_h264 l t ok = (conns, k, ok') ->
  build_peer mime_h264 (quiet_listener l) t ok = (quiet_peer <$> conns, k, ok') /\
  conns_weight conns <= conns_weight (ls_conns l).
Proof.
  intros Ht. destruct t as [f msg|f msg|f msg|f c|f]; try done; cbn [build_peer quiet_listener ls_conns ls_counter ls_id];
    try (by intros [= <- <- <-]).
  destruct (answer mime_h264 (ls_counter l) (ls_id l)) as [[v|e|w] k'] eqn:E; intros [= <- <- <-]; [|done..].
  assert (vp_tasks v = []) as Hv.
  { unfold answer in E. destruct (build mime_h264 _ _) as [[[c t]| |] k2]; try done; cbn in E; by injection E as <- <-. }
  destruct v as [r c tr ts se]. cbn [vp_tasks] in Hv. subst ts. split.
  - by rewrite fmap_insert.
  - etrans; [apply conns_weight_insert|]. cbn. lia.
Qed.

Lemma mesh_turn l i ok t : mesh_tasks (ls_mesh l) !! i = Some t ->
  let l' := listener_step l (LRun i ok) in
  (quiet_listener l' = quiet_listener l /\ listener_weight l' < listener_weight l) \/
  (exists j, mesh_tasks (ls_mesh (quiet_listener l)) !! j = Some t /\
     quiet_listener l' = listener_step (quiet_listener l) (LRun j ok) /\ listener_weight l' <= listener_weight l).
Proof.
  intros Hi. cbn zeta. pose proof (sum_pick mesh_weight _ _ _ Hi) as Hw.
  cbn [Calls.listener_step mesh_step]. rewrite Hi.
  destruct (build_peer mime_h264 l t ok) as [[conns k] ok'] eqn:Eb.
  set (m0 := mkMesh (peers (ls_mesh l)) (delete i (mesh_tasks (ls_mesh l))) (next_peer (ls_mesh l)) (applied (ls_mesh l))).
  rewrite run_task_applied. change (applied m0) with (applied (ls_mesh l)). rewrite drop_app_length.
  destruct (quiet_apply (new_calls ok' m0 t) conns) as [Hq Hc].
  unfold mesh_weight at 2 in Hw. destruct (keeps_mesh t) eqn:Ht.
  - right. destruct (filter_pick keeps_mesh _ _ _ Hi Ht) as (j & Hj & Hd). exists j. split; [exact Hj|].
    destruct (quiet_mesh_task ok' m0 t Ht) as (H1 & H2 & H3 & H4). destruct (quiet_build l t ok conns k ok' Ht Eb) as [Hb Hcw].
    split; [|unfold listener_weight; cbn [ls_mesh ls_conns]; rewrite H2; cbn [m0 mesh_tasks]; lia].
    change (mesh_tasks (ls_mesh (quiet_listener l))) with (List.filter keeps_mesh (mesh_tasks (ls_mesh l))).
    rewrite Hj, Hb.
    assert (mkMesh (peers (ls_mesh (quiet_listener l))) (delete j (List.filter keeps_mesh (mesh_tasks (ls_mesh l))))
      (next_peer (ls_mesh (quiet_listener l))) (applied (ls_mesh (quiet_listener l))) = quiet_mesh m0) as ->
      by (unfold quiet_mesh; cbn [m0 peers mesh_tasks next_peer applied]; by rewrite Hd).
    rewrite run_task_applied. change (applied (ls_mesh (quiet_listener l))) with (applied (quiet_mesh m0)).
    rewrite drop_app_length. unfold quiet_listener at 1. cbn [ls_id ls_mesh ls_conns ls_counter].
    by rewrite H1, Hq, H3.
  - left. destruct t as [| | |f c|]; try done. cbn [build_peer] in Eb. injection Eb as <- <- <-.
    assert (quiet_calls (new_calls ok m0 (IceTask f c)) = [] /\
      sum_list_with (fun pc => cb_weight 1 pc.2) (new_calls ok m0 (IceTask f c)) <= 1) as [Hn Hs]
      by (cbn [new_calls]; destruct (find_peer m0 f); split; cbn; [done|lia|done|lia]).
    rewrite Hn in Hq. split.
    + unfold quiet_listener. cbn [ls_id ls_mesh ls_conns ls_counter]. f_equal; [|exact Hq].
      unfold quiet_mesh. f_equal.
      * cbn [run_mesh_task]. by destruct (find_peer m0 f).
      * cbn [run_mesh_task]. destruct (find_peer m0 f); by apply (filter_drop _ _ _ _ Hi).
      * cbn [run_mesh_task]. by destruct (find_peer m0 f).
      * rewrite run_task_applied. unfold quiet_calls. rewrite List.filter_app. fold (quiet_calls (new_calls ok m0 (IceTask f c))).
        by rewrite Hn, app_nil_r.
    + unfold listener_weight. cbn [ls_mesh ls_conns].
      assert (mesh_tasks (run_mesh_task source ok m0 (IceTask f c)) = delete i (mesh_tasks (ls_mesh l))) as ->
        by (cbn [run_mesh_task]; by destruct (find_peer m0 f)).
      lia.
Qed.

Definition listener_took_ice (l l' : Listener) : Prop :=
  l' = l \/ exists p v i c, ls_conns l !! p = Some v /\ add_ice (vp_conn v) i = inr c /\
    l' = mkListener (ls_id l) (ls_mesh l) (<[p := with_conn v c]> (ls_conns l)) (ls_counter l).

Lemma quiet_lookup (m : gmap nat VideoPeer) p v : m !! p = Some v -> (quiet_peer <$> m) !! p = Some (quiet_peer v).
Proof. intros H. by rewrite lookup_fmap, H. Qed.

Lemma peer_turn_sim l p i l' out : listener_turn l (LPeer p i) = Some (l', out) ->
  (out = [] /\ listener_took_ice (quiet_listener l) (quiet_listener l') /\ listener_weight l' < listener_weight l) \/
  (exists j, listener_turn (quiet_listener l) (LPeer p j) = Some (quiet_listener l', out) /\
     listener_weight l' <= listener_weight l).
Proof.
  cbn [Connect.listener_turn].
  change (listener_step l (LPeer p i)) with
    (mkListener (ls_id l) (ls_mesh l) (alter (fun v => video_step put v (VRun i)) p (ls_conns l)) (ls_counter l)).
  set (l0 := mkListener _ _ (alter _ p (ls_conns l)) _). cbn [ls_conns]. destruct (ls_conns l !! p) as [v|] eqn:Hv; [|done].
  change (ls_conns l0) with (alter (fun v => video_step put v (VRun i)) p (ls_conns l)).
  rewrite lookup_alter_eq, Hv. cbn [fmap option_fmap option_map].
  destruct (vp_tasks v !! i) as [t|] eqn:Hi; [|done]. intros [= <- <-].
  pose proof (conns_weight_alter (fun v => video_step put v (VRun i)) p v (ls_conns l) Hv) as Hw. cbn beta in Hw.
  destruct (quiet_turn v i t Hi) as [(Ho & Hc & Hp)|(j & Hj & Hq & Hp & Ho)].
  - left. split; [exact Ho|]. split; [|unfold listener_weight; cbn [l0 ls_mesh ls_conns]; lia].
    destruct Hc as [Heq|(ini & c & Ha & Heq)].
    + left. unfold l0, quiet_listener. cbn [ls_id ls_mesh ls_conns ls_counter]. f_equal.
      rewrite (quiet_alter _ id); [by rewrite alter_id|]. intros w Hw'. rewrite Hv in Hw'. by injection Hw' as <-.
    + right. exists p, (quiet_peer v), ini, c. split; [by apply quiet_lookup|]. split; [exact Ha|].
      unfold l0, quiet_listener. cbn [ls_id ls_mesh ls_conns ls_counter]. f_equal.
      rewrite (quiet_alter _ (fun _ => with_conn (quiet_peer v) c));
        [|intros w Hw'; rewrite Hv in Hw'; by injection Hw' as <-].
      apply map_eq. intros q. destruct (decide (p = q)) as [<-|Hne].
      * by rewrite lookup_alter_eq, lookup_insert_eq, (quiet_lookup _ _ _ Hv).
      * by rewrite lookup_alter_ne, lookup_insert_ne.
  - right. exists j. cbn [Connect.listener_turn].
    change (listener_step (quiet_listener l) (LPeer p j)) with (mkListener (ls_id l) (quiet_mesh (ls_mesh l))
      (alter (fun v => video_step put v (VRun j)) p (quiet_peer <$> ls_conns l)) (ls_counter l)).
    cbn [quiet_listener ls_conns]. rewrite lookup_alter_eq, (quiet_lookup _ _ _ Hv).
    cbn [fmap option_fmap option_map]. rewrite Hj. split; [|unfold listener_weight; cbn [l0 ls_mesh ls_conns]; lia].
    rewrite <- Ho. do 2 f_equal. unfold l0, quiet_listener. cbn [ls_id ls_mesh ls_conns ls_counter]. f_equal. symmetry.
    apply quiet_alter. intros w Hw'. rewrite Hv in Hw'. by injection Hw' as <-.
Qed.

Lemma turn_sim l act l' out : listener_turn l act = Some (l', out) ->
  (out = [] /\ listener_took_ice (quiet_listener l) (quiet_listener l') /\ listener_weight l' < listener_weight l) \/
  (exists act0, listener_turn (quiet_listener l) act0 = Some (quiet_listener l', out) /\
     listener_weight l' <= listener_weight l).
Proof.
  destruct act as [cb|i ok|p i]; [done| |].
  - cbn [Connect.listener_turn]. destruct (mesh_tasks (ls_mesh l) !! i) as [t|] eqn:Hi; [|done]. intros [= <- <-].
    destruct (mesh_turn l i ok t Hi) as [[Hq Hw]|(j & Hj & Hq & Hw)].
    + left. split; [done|]. split; [by left|done].
    + right. exists (LRun j ok). cbn [Connect.listener_turn]. rewrite Hj. split; [|exact Hw].
      rewrite <- Hq. reflexivity.
  - intros H. destruct (peer_turn_sim l p i l' out H) as [?|(j & ?)]; [by left|right; by exists (LPeer p j)].
Qed.

Lemma quiet_call l cb :
  quiet_listener (listener_step l (LCall cb))
    = (if keeps_cb cb then listener_step (quiet_listener l) (LCall cb) else quiet_listener l) /\
  listener_weight (listener_step l (LCall cb)) = listener_weight l + cb_weight 2 cb.
Proof.
  unfold listener_weight, quiet_listener. cbn [Calls.listener_step ls_id ls_mesh ls_conns ls_counter]. unfold on_callback, spawn, quiet_mesh.
  cbn [peers mesh_tasks next_peer applied]. rewrite List.filter_app, sum_list_with_app.
  destruct cb; cbn; rewrite ?app_nil_r; (split; [done|unfold mesh_weight, cb_weight; cbn; lia]).
Qed.

Lemma quiet_peer_twice v : quiet_peer (quiet_peer v) = quiet_peer v.
Proof. unfold quiet_peer. cbn [vp_robot vp_conn vp_track vp_tasks vp_sent]. by rewrite filter_twice. Qed.
Lemma quiet_listener_twice l : quiet_listener (quiet_listener l) = quiet_listener l.
Proof.
  unfold quiet_listener. cbn [ls_id ls_mesh ls_conns ls_counter]. f_equal.
  - unfold quiet_mesh, quiet_calls. cbn [peers mesh_tasks next_peer applied]. by rewrite !filter_twice.
  - rewrite <- map_fmap_compose. apply map_fmap_ext. intros p v _. apply quiet_peer_twice.
Qed.

(** *** The whole call *)
Inductive took_candidate : CallSys -> CallSys -> Prop :=
  | TookCaller v v' on vc la ac lb bc net : took_ice v v' ->
      took_candidate (mkCallSys v on vc la ac lb bc net) (mkCallSys v' on vc la ac lb bc net)
  | TookA v on vc la la' ac lb bc net : listener_took_ice la la' ->
      took_candidate (mkCallSys v on vc la ac lb bc net) (mkCallSys v on vc la' ac lb bc net)
  | TookB v on vc la ac lb lb' bc net : listener_took_ice lb lb' ->
      took_candidate (mkCallSys v on vc la ac lb bc net) (mkCallSys v on vc la ac lb' bc net).
Lemma took_none s : took_candidate s s.
Proof. destruct s. constructor. by left. Qed.

Lemma drop_keeps_none {A} (f : A -> bool) (l : list A) :
  existsb f l = false -> List.filter f l = [].
Proof. induction l as [|x l IH]; [done|]. simpl. by destruct (f x). Qed.
Lemma cb_weight_split l :
  sum_list_with (cb_weight 5) l = sum_list_with (cb_weight 2) l + sum_list_with (cb_weight 3) l.
Proof. induction l as [|cb l IH]; [done|]. cbn. unfold cb_weight at 1 3 5. destruct (keeps_cb cb); lia. Qed.

Lemma route_sim v on vc la ac lb bc net i p : net !! i = Some p ->
  let s := mkCallSys v on vc la ac lb bc net in
  let s' := mkCallSys v on (vc ++ (if on then to_a p else [])) la (ac ++ to_a p) lb (bc ++ to_b p) (delete i net) in
  (quiet s' = quiet s /\ weight s' < weight s) \/
  (exists j s1, call_step (quiet s) (Route j) = Some s1 /\ quiet s' = quiet s1 /\ weight s' <= weight s).
Proof.
  intros Hi. cbn zeta.
  assert (weight (mkCallSys v on (vc ++ (if on then to_a p else [])) la (ac ++ to_a p) lb (bc ++ to_b p) (delete i net))
    + (if keeps_put p then 0 else 1) <= weight (mkCallSys v on vc la ac lb bc net)) as Hw.
  { unfold weight. cbn [cs_caller cs_caller_chan cs_a cs_a_chan cs_b cs_b_chan cs_net].
    rewrite (sum_pick put_weight net i p Hi), !sum_list_with_app. unfold put_weight at 2.
    pose proof (cb_weight_split (to_a p)). destruct on; cbn [sum_list_with]; lia. }
  unfold quiet at 1 3. cbn [cs_caller cs_listening cs_caller_chan cs_a cs_a_chan cs_b cs_b_chan cs_net].
  rewrite !List.filter_app. destruct (keeps_put p) eqn:Hk.
  - right. destruct (filter_pick keeps_put net i p Hi Hk) as (j & Hj & Hd). exists j.
    unfold quiet at 1. cbn [Connect.call_step cs_caller cs_listening cs_caller_chan cs_a cs_a_chan cs_b cs_b_chan cs_net].
    rewrite Hj. cbn [mbind option_bind]. eexists. split; [done|]. split; [|lia].
    unfold quiet. cbn [cs_caller cs_listening cs_caller_chan cs_a cs_a_chan cs_b cs_b_chan cs_net].
    by rewrite !List.filter_app, !filter_twice, <- Hd, filter_twice, quiet_peer_twice, !quiet_listener_twice.
  - left. split; [|lia]. unfold keeps_put in Hk. rewrite existsb_app in Hk. apply orb_false_iff in Hk as [Ha Hb].
    rewrite (filter_drop keeps_put net i p Hi) by (unfold keeps_put; by rewrite existsb_app, Ha, Hb).
    assert (List.filter keeps_cb (if on then to_a p else []) = []) as -> by (destruct on; [by apply drop_keeps_none|done]).
    by rewrite (drop_keeps_none _ _ Ha), (drop_keeps_none _ _ Hb), !app_nil_r.
Qed.

(** Every step is a step of the call without candidates, or one that a
    candidate costs. *)
Definition simulated (s s' : CallSys) : Prop :=
  (took_candidate (quiet s) (quiet s') /\ weight s' < weight s) \/
  (exists act0 s1, is_candidate act0 = false /\ call_step (quiet s) act0 = Some s1 /\ quiet s' = quiet s1 /\
     weight s' <= weight s + sum_list_with put_weight (cs_net s1)).

Ltac sys := cbn [cs_caller cs_listening cs_caller_chan cs_a cs_a_chan cs_b cs_b_chan cs_net].
Ltac quiet_sys :=
  unfold quiet; sys;
  rewrite ?List.filter_app, ?filter_twice, ?quiet_peer_twice, ?quiet_listener_twice; try done.

Lemma caller_dispatch_sim v on vc la ac lb bc net i cb : vc !! i = Some cb ->
  simulated (mkCallSys v on vc la ac lb bc net) (mkCallSys (peer_callback v cb) on (delete i vc) la ac lb bc net).
Proof.
  intros Hi. destruct (quiet_callback v cb) as [Hq Hw]. pose proof (sum_pick (cb_weight 2) _ _ _ Hi) as Hs.
  unfold cb_weight at 2 in Hs. unfold cb_weight in Hw. destruct (keeps_cb cb) eqn:Hk.
  - right. destruct (filter_pick keeps_cb _ _ _ Hi Hk) as (j & Hj & Hd). exists (DispatchCaller j). eexists. split; [done|].
    split; [unfold quiet, Connect.call_step; sys; cbv beta iota; by rewrite Hj|].
    split; [|unfold weight; sys; lia]. quiet_sys. by rewrite Hd, Hq, <- Hd, filter_twice, <- Hq, quiet_peer_twice.
  - left. split; [|unfold weight; sys; lia]. unfold quiet. sys. rewrite Hq, (filter_drop _ _ _ _ Hi Hk). apply took_none.
Qed.
Lemma listener_dispatch_sim l cb i (lc : list Callback) : lc !! i = Some cb ->
  let l' := listener_step l (LCall cb) in
  (keeps_cb cb = false /\ quiet_listener l' = quiet_listener l /\
     List.filter keeps_cb (delete i lc) = List.filter keeps_cb lc /\
     listener_weight l' + sum_list_with (cb_weight 3) (delete i lc)
       < listener_weight l + sum_list_with (cb_weight 3) lc) \/
  (exists j, List.filter keeps_cb lc !! j = Some cb /\ quiet_listener l' = listener_step (quiet_listener l) (LCall cb) /\
     List.filter keeps_cb (delete i lc) = delete j (List.filter keeps_cb lc) /\
     listener_weight l' + sum_list_with (cb_weight 3) (delete i lc)
       <= listener_weight l + sum_list_with (cb_weight 3) lc).
Proof.
  intros Hi. destruct (quiet_call l cb) as [Hq Hw]. pose proof (sum_pick (cb_weight 3) _ _ _ Hi) as Hs. cbn zeta.
  unfold cb_weight at 2 in Hs. unfold cb_weight in Hw. destruct (keeps_cb cb) eqn:Hk.
  - right. destruct (filter_pick keeps_cb _ _ _ Hi Hk) as (j & Hj & Hd). exists j. split; [done|]. split; [done|]. split; [done|]. lia.
  - left. split; [done|]. split; [done|]. split; [by apply (filter_drop _ _ _ _ Hi)|lia].
Qed.

Lemma call_sim s act s' : is_candidate act = false -> call_step s act = Some s' -> simulated s s'.
Proof.
  intros Hcand H. destruct s as [v on vc la ac lb bc net].
  destruct act as [i| |i|i|i|i|act|act|init|from init|from init]; try done; clear Hcand;
    unfold Connect.call_step in H; cbv beta iota in H.
  - destruct (net !! i) as [p|] eqn:Hi; [|done]. cbn [mbind option_bind] in H; apply (inj Some) in H; subst s'.
    destruct (route_sim v on vc la ac lb bc net i p Hi) as [[Hq Hw]|(j & s1 & H1 & Hq & Hw)].
    + left. split; [|exact Hw]. unfold to_a, to_b in Hq. rewrite Hq. apply took_none.
    + right. exists (Route j), s1. split; [done|]. split; [exact H1|]. split; [exact Hq|]. unfold to_a, to_b in Hw. lia.
  - destruct on; [done|]. cbn [mbind option_bind] in H; apply (inj Some) in H; subst s'. right. exists Subscribe. eexists. split; [done|]. split; [done|].
    split; [quiet_sys|unfold weight; sys; lia].
  - destruct (vc !! i) as [cb|] eqn:Hi; [|done]. cbn [mbind option_bind] in H; apply (inj Some) in H; subst s'. by apply caller_dispatch_sim.
  - destruct (ac !! i) as [cb|] eqn:Hi; [|done]. cbn [mbind option_bind] in H; apply (inj Some) in H; subst s'.
    destruct (listener_dispatch_sim la cb i ac Hi) as [(_ & Hq & Hf & Hw)|(j & Hj & Hq & Hf & Hw)].
    + left. split; [|unfold weight; sys; lia]. unfold quiet. sys. rewrite Hq, Hf. apply took_none.
    + right. exists (DispatchA j). eexists. split; [done|]. split; [unfold quiet, Connect.call_step; sys; cbv beta iota; by rewrite Hj|].
      split; [|unfold weight; sys; lia]. quiet_sys. by rewrite <- Hf, filter_twice, <- Hq, quiet_listener_twice.
  - destruct (bc !! i) as [cb|] eqn:Hi; [|done]. cbn [mbind option_bind] in H; apply (inj Some) in H; subst s'.
    destruct (listener_dispatch_sim lb cb i bc Hi) as [(_ & Hq & Hf & Hw)|(j & Hj & Hq & Hf & Hw)].
    + left. split; [|unfold weight; sys; lia]. unfold quiet. sys. rewrite Hq, Hf. apply took_none.
    + right. exists (DispatchB j). eexists. split; [done|]. split; [unfold quiet, Connect.call_step; sys; cbv beta iota; by rewrite Hj|].
      split; [|unfold weight; sys; lia]. quiet_sys. by rewrite <- Hf, filter_twice, <- Hq, quiet_listener_twice.
  - destruct (vp_tasks v !! i) as [t|] eqn:Hi; [|done]. cbn [mbind option_bind] in H; apply (inj Some) in H; subst s'.
    destruct (quiet_turn v i t Hi) as [(Ho & Hc & Hp)|(j & Hj & Hq & Hp & Ho)].
    + left. rewrite Ho, app_nil_r. split; [|unfold weight; sys; lia]. by apply TookCaller.
    + right. exists (TaskOfCaller j). eexists. split; [done|].
      split; [unfold quiet, Connect.call_step; sys; cbv beta iota; by rewrite Hj|].
      split; [|unfold weight; sys; rewrite !sum_list_with_app, Ho; lia].
      rewrite Ho, <- Hq. quiet_sys.
  - destruct (listener_turn la act) as [[la' out]|] eqn:Ht; [|done]. cbn [mbind option_bind] in H; apply (inj Some) in H; subst s'.
    destruct (turn_sim la act la' out Ht) as [(-> & Hc & Hp)|(act0 & H0 & Hp)].
    + left. rewrite app_nil_r. split; [|unfold weight; sys; lia]. by apply TookA.
    + right. exists (TaskOfA act0). eexists. split; [done|].
      split; [unfold quiet, Connect.call_step; sys; cbv beta iota; by rewrite H0|].
      split; [quiet_sys|unfold weight; sys; rewrite !sum_list_with_app; lia].
  - destruct (listener_turn lb act) as [[lb' out]|] eqn:Ht; [|done]. cbn [mbind option_bind] in H; apply (inj Some) in H; subst s'.
    destruct (turn_sim lb act lb' out Ht) as [(-> & Hc & Hp)|(act0 & H0 & Hp)].
    + left. rewrite app_nil_r. split; [|unfold weight; sys; lia]. by apply TookB.
    + right. exists (TaskOfB act0). eexists. split; [done|].
      split; [unfold quiet, Connect.call_step; sys; cbv beta iota; by rewrite H0|].
      split; [quiet_sys|unfold weight; sys; rewrite !sum_list_with_app; lia].
Qed.

(** *** What there is to do *)
Definition enabled (s : CallSys) (act : CallAct) : Prop :=
  is_candidate act = false /\ is_some (call_step s act) = true.

Lemma turn_enabled l p i v t :
  ls_conns l !! p = Some v -> vp_tasks v !! i = Some t -> is_some (listener_turn l (LPeer p i)) = true.
Proof.
  intros Hv Ht. cbn [Connect.listener_turn Calls.listener_step ls_conns].
  by rewrite Hv, lookup_alter_eq, Hv, Ht.
Qed.
Lemma turn_back l act : is_some (listener_turn (quiet_listener l) act) = true ->
  exists act', is_some (listener_turn l act') = true.
Proof.
  destruct act as [cb|i ok|p i]; [done| |].
  - cbn [Connect.listener_turn]. destruct (mesh_tasks (ls_mesh (quiet_listener l)) !! i) as [t|] eqn:E; [|done].
    intros _. apply filter_origin in E as [j E]. exists (LRun j ok). cbn [Connect.listener_turn]. by rewrite E.
  - cbn [Connect.listener_turn]. destruct (ls_conns (quiet_listener l) !! p) as [w|] eqn:E; [|done].
    cbn [quiet_listener ls_conns] in E. rewrite lookup_fmap in E. destruct (ls_conns l !! p) as [v|] eqn:Hv; [|done].
    injection E as <-. destruct (ls_conns (listener_step _ _) !! p); [|done].
    destruct (vp_tasks (quiet_peer v) !! i) as [t|] eqn:Ht; [|done]. intros _.
    apply filter_origin in Ht as [j Ht]. exists (LPeer p j). by apply turn_enabled with v t.
Qed.

Lemma some_bind {A B} (f : A -> option B) x : is_some (x ≫= f) = true -> exists y, x = Some y /\ is_some (f y) = true.
Proof. destruct x as [y|]; [by exists y|done]. Qed.

Lemma enabled_back s act : enabled (quiet s) act -> exists act', enabled s act'.
Proof.
  destruct s as [v on vc la ac lb bc net]. intros [Hc H]. unfold enabled, quiet in *. sys.
  destruct act as [i| |i|i|i|i|act|act|init|from init|from init]; try done; cbn [Connect.call_step] in H; revert H; sys.
  - intros (p & [j E]%filter_origin & _)%some_bind. exists (Route j). cbn [Connect.call_step]. by rewrite E.
  - exists Subscribe. by destruct on.
  - intros (p & [j E]%filter_origin & _)%some_bind. exists (DispatchCaller j). cbn [Connect.call_step]. by rewrite E.
  - intros (p & [j E]%filter_origin & _)%some_bind. exists (DispatchA j). cbn [Connect.call_step]. by rewrite E.
  - intros (p & [j E]%filter_origin & _)%some_bind. exists (DispatchB j). cbn [Connect.call_step]. by rewrite E.
  - intros (p & [j E]%filter_origin & _)%some_bind. exists (TaskOfCaller j). cbn [Connect.call_step]. by rewrite E.
  - intros H. destruct (turn_back la act) as [act' E]; [by destruct (listener_turn (quiet_listener la) act)|].
    exists (TaskOfA act'). split; [done|]. cbn [Connect.call_step]. by destruct (listener_turn la act') as [[]|].
  - intros H. destruct (turn_back lb act) as [act' E]; [by destruct (listener_turn (quiet_listener lb) act)|].
    exists (TaskOfB act'). split; [done|]. cbn [Connect.call_step]. by destruct (listener_turn lb act') as [[]|].
Qed.

Lemma lookup_nonempty {A} (l : list A) i x : l !! i = Some x -> exists y, l !! 0 = Some y.
Proof. destruct l as [|y l]; [done|]. by exists y. Qed.

(** A listener has a turn to take, or none. *)
Lemma turn_dec l : (exists act, is_some (listener_turn l act) = true) \/ forall act, listener_turn l act = None.
Proof.
  destruct (mesh_tasks (ls_mesh l)) as [|t ts] eqn:Em.
  2:{ left. exists (LRun 0 true). cbn [Connect.listener_turn]. by rewrite Em. }
  destruct (decide (map_Exists (fun _ v => vp_tasks v <> []) (ls_conns l))) as [(p & v & Hv & Ht)|Hn].
  - left. destruct (vp_tasks v) as [|t ts] eqn:E; [done|]. exists (LPeer p 0).
    apply turn_enabled with v t; [done|by rewrite E].
  - right. intros [cb|i ok|p i]; [done|cbn [Connect.listener_turn]; by rewrite Em|].
    cbn [Connect.listener_turn]. destruct (ls_conns l !! p) as [v|] eqn:Hv; [|done].
    destruct (ls_conns (listener_step _ _) !! p); [|done].
    destruct (vp_tasks v !! i) as [t|] eqn:Ht; [|done]. destruct Hn. exists p, v. split; [done|]. by intros Hv'; rewrite Hv' in Ht.
Qed.

Lemma rest_dec s : (exists act, enabled s act) \/ at_rest mime_h264 put source a b s.
Proof.
  destruct s as [v on vc la ac lb bc net].
  destruct net as [|p net]; [|left; by exists (Route 0)]. destruct on; [|left; by exists Subscribe].
  destruct vc as [|cb vc]; [|left; by exists (DispatchCaller 0)]. destruct ac as [|cb ac]; [|left; by exists (DispatchA 0)].
  destruct bc as [|cb bc]; [|left; by exists (DispatchB 0)].
  destruct (vp_tasks v) as [|t ts] eqn:Ev; [|left; exists (TaskOfCaller 0); split; [done|]; cbn [Connect.call_step]; by rewrite Ev].
  destruct (turn_dec la) as [[act Ha]|Ha];
    [left; exists (TaskOfA act); split; [done|]; cbn [Connect.call_step]; by destruct (listener_turn la act) as [[]|]|].
  destruct (turn_dec lb) as [[act Hb]|Hb];
    [left; exists (TaskOfB act); split; [done|]; cbn [Connect.call_step]; by destruct (listener_turn lb act) as [[]|]|].
  right. intros act Hc. destruct act as [i| |i|i|i|i|act|act|init|from init|from init]; try done; cbn [Connect.call_step].
  - by rewrite Ev.
  - by rewrite Ha.
  - by rewrite Hb.
Qed.
End candidates.
