(* ===== verification/Outcome.v ===== *)
(** * Outcome: how a call between two robots ends

    The phases of the exchange of Connect.v when no candidate is under way;
    that every step of a call is a step of a phase or one a candidate costs;
    and from these that a call ends, how, and within how many steps. *)
From S2P Require Import Prelude Json Rules Topic Auth Registration Transport Signaling Mesh Media Video Calls Connect.

(** ** The phases of a call

    [n] bounds the steps left; [ok] records that the caller's receiver is
    subscribed before the answer is on its way. *)
Section phases.
Context `{JN : JsonNumber} {SW : SignalWire} {SL : SignalWireLaws SW} {K : KeyMatch} {KL : KeyMatchLaw K}.
Context {P : PeerConn} {PL : PeerConnLaws P} {PN : PeerConnNegotiates P}.
Context (mime_h264 : string) (put : Put -> string + unit) (source : bool) (a b : string).
Hypothesis put_ok : forall p, put p = inr tt.
Hypothesis plain_a : mesh_id a = true.
Hypothesis plain_b : mesh_id b = true.
Hypothesis two : a <> b.
Hypothesis builds_answer : forall k, exists v k', answer mime_h264 k b = (Ok v, k').
(** The offer [a]'s connection created and set. *)
Context (c0 c1 : conn) (d0 : SessionDescription).
Hypothesis offered : create_offer c0 = inr d0.
Hypothesis offer_set : set_local c0 d0 = inr c1.
Hypothesis c1_state : sig_state c1 = HaveLocalOffer.
Hypothesis c1_remote : remote_sdp c1 = None.
Notation so := (sdp_text d0).

Notation call_step := (call_step mime_h264 put source a b).
Notation listener_turn := (listener_turn mime_h264 put source).
Notation enabled := (enabled mime_h264 put source a b).
Definition offer_msg : SignalMessage := mkSignal so Offer a b [].
Definition answer_msg (sa : string) : SignalMessage := mkSignal sa Answer b a [].

(** [e] is an answer to the offer. *)
Definition answers_it (e : SessionDescription) : Prop :=
  exists c, create_answer c = inr e /\ remote_sdp c = Some so.

(** The responder's connection, [j] of its turns before the end. *)
Inductive peer_phase : nat -> VideoPeer -> Prop :=
  | PSetOffer c tr : sig_state c = Stable -> remote_sdp c = None ->
      peer_phase 4 (mkVideoPeer b c tr [SetOffer a d0] [])
  | PCreateAnswer c tr c' c'' : set_remote c' d0 = inr c'' -> after_ice c'' c ->
      peer_phase 3 (mkVideoPeer b c tr [CreateAnswer a] [])
  | PSetLocal c tr e c' : create_answer c' = inr e -> remote_sdp c' = Some so -> after_ice c' c ->
      peer_phase 2 (mkVideoPeer b c tr [SetLocalAnswer a e] [])
  | PPublish c tr e : answers_it e -> sig_state c = Stable -> remote_sdp c = Some so ->
      peer_phase 1 (mkVideoPeer b c tr [PublishAnswer a e] []).
Inductive peer_done (e : SessionDescription) (pa : Put) : VideoPeer -> Prop :=
  | PDone c tr : answers_it e -> sig_state c = Stable -> remote_sdp c = Some so ->
      publish_answer b a (sdp_text e) [] = Ok pa -> peer_done e pa (mkVideoPeer b c tr [] [pa]).

(** [b]'s listener with its session; [cap]: the capture task is still to run. *)
Definition with_session (cap sc : bool) (v : VideoPeer) (k : u32) : Listener :=
  mkListener b (mkMesh (<[a := mkSession 0 sc]> ∅) (if cap then [CaptureTask a] else []) 1
    [(0, OnOffer a offer_msg)]) (<[0 := v]> ∅) k.
Definition cap_rank (cap : bool) : nat := if cap then 1 else 0.

Inductive b_phase : nat -> Listener -> list Callback -> Prop :=
  | BChan k : b_phase 8 (listener_new b k) [OnOffer a offer_msg]
  | BTask k : b_phase 7 (mkListener b (mkMesh ∅ [OfferTask a offer_msg] 0 []) ∅ k) []
  | BBuild k : b_phase 6 (mkListener b (mkMesh ∅ [OfferBuilding a offer_msg] 0 []) ∅ k) []
  | BPeer cap sc v k j : peer_phase j v -> b_phase (j + cap_rank cap) (with_session cap sc v k) [].

Definition idle_caller (v : VideoPeer) : Prop := vp_robot v = a /\ after_ice c1 (vp_conn v) /\ vp_tasks v = [].

(** The caller, and [a]'s listener, after the answer has been routed. *)
Inductive caller_phase (e : SessionDescription) : nat -> VideoPeer -> list Callback -> Prop :=
  | CChan v : vp_robot v = a -> answers_it e -> after_ice c1 (vp_conn v) -> vp_tasks v = [] ->
      caller_phase e 2 v [OnAnswer b (answer_msg (sdp_text e))]
  | CTask v : vp_robot v = a -> answers_it e -> after_ice c1 (vp_conn v) -> vp_tasks v = [SetAnswer e] ->
      caller_phase e 1 v []
  | CDone v : vp_robot v = a -> sig_state (vp_conn v) = Stable -> remote_sdp (vp_conn v) = Some (sdp_text e) ->
      vp_tasks v = [] -> caller_phase e 0 v [].
Inductive bystander (sa : string) : nat -> Listener -> list Callback -> Prop :=
  | AChan k : bystander sa 2 (listener_new a k) [OnAnswer b (answer_msg sa)]
  | ATask k : bystander sa 1 (mkListener a (mkMesh ∅ [AnswerTask b (answer_msg sa)] 0 []) ∅ k) []
  | ADone k : bystander sa 0 (listener_new a k) [].

Definition sub_rank (on : bool) : nat := if on then 0 else 1.

Inductive phase (ok : bool) : nat -> CallSys -> Prop :=
  | PhOffer v on po ka kb : idle_caller v -> (ok = true -> on = true) -> publish_offer a b so [] = Ok po ->
      phase ok (14 + sub_rank on) (mkCallSys v on [] (listener_new a ka) [] (listener_new b kb) [] [po])
  | PhB v on ka m lb bc : idle_caller v -> (ok = true -> on = true) -> b_phase m lb bc ->
      phase ok (m + 5 + sub_rank on) (mkCallSys v on [] (listener_new a ka) [] lb bc [])
  | PhAnswer v on ka cap sc w k e pa : idle_caller v -> (ok = true -> on = true) -> peer_done e pa w ->
      phase ok (5 + cap_rank cap + sub_rank on)
        (mkCallSys v on [] (listener_new a ka) [] (with_session cap sc w k) [] [pa])
  | PhEnd v la vc ac cap sc w k e pa i j : caller_phase e i v vc -> bystander (sdp_text e) j la ac -> peer_done e pa w ->
      phase ok (i + j + cap_rank cap) (mkCallSys v true vc la ac (with_session cap sc w k) [] [])
  | PhLost v on la ac cap sc w k e pa j : idle_caller v -> ok = false -> bystander (sdp_text e) j la ac -> peer_done e pa w ->
      phase ok (j + cap_rank cap + sub_rank on) (mkCallSys v on [] la ac (with_session cap sc w k) [] []).

(** *** One turn of each part *)
Lemma offer_routed po : publish_offer a b so [] = Ok po ->
  deliver_signal (receiver_tasks a) po = [] /\ deliver_signal (receiver_tasks b) po = [OnOffer a offer_msg].
Proof.
  pose proof (mesh_id_inv a plain_a) as (_ & Has & _). pose proof (mesh_id_inv b plain_b) as (_ & Hbs & _).
  destruct (signal_builders_Ok (E := string) a b Has Hbs) as (Ho & _). unfold publish_offer. rewrite Ho. cbn [mbind res_bind].
  intros Hp. split.
  - destruct (signal_delivered a b a "offer" Offer a b so [] plain_a plain_b plain_a) as (p & Hp' & Hd); [by left|].
    injection (eq_trans (eq_sym Hp) Hp') as <-. rewrite Hd. by destruct (String.eqb_spec a b).
  - destruct (signal_delivered a b b "offer" Offer a b so [] plain_a plain_b plain_b) as (p & Hp' & Hd); [by left|].
    injection (eq_trans (eq_sym Hp) Hp') as <-. by rewrite Hd, String.eqb_refl.
Qed.
Lemma answer_routed sa pa : publish_answer b a sa [] = Ok pa ->
  deliver_signal (receiver_tasks a) pa = [OnAnswer b (answer_msg sa)] /\ deliver_signal (receiver_tasks b) pa = [].
Proof.
  pose proof (mesh_id_inv a plain_a) as (_ & Has & _). pose proof (mesh_id_inv b plain_b) as (_ & Hbs & _).
  destruct (signal_builders_Ok (E := string) b a Hbs Has) as (_ & Hn & _). unfold publish_answer. rewrite Hn. cbn [mbind res_bind].
  intros Hp. split.
  - destruct (signal_delivered b a a "answer" Answer b a sa [] plain_b plain_a plain_a) as (p & Hp' & Hd); [by right; left|].
    injection (eq_trans (eq_sym Hp) Hp') as <-. by rewrite Hd, String.eqb_refl.
  - destruct (signal_delivered b a b "answer" Answer b a sa [] plain_b plain_a plain_b) as (p & Hp' & Hd); [by right; left|].
    injection (eq_trans (eq_sym Hp) Hp') as <-. rewrite Hd. by destruct (String.eqb_spec b a).
Qed.

Lemma peer_turn j v : peer_phase j v -> exists v', video_step put v (VRun 0) = v' /\
  ((exists j', j = S j' /\ peer_phase j' v' /\ newly_sent v v' = []) \/
   (j = 1 /\ exists e pa, peer_done e pa v' /\ newly_sent v v' = [pa])).
Proof.
  intros [c tr Hs Hn|c tr c' c'' Hr Hi|c tr e c' He Hr Hi|c tr e He Hs Hr]; cbn [video_step vp_tasks lookup list_lookup];
    cbn [run_video_task vp_conn vp_robot vp_track vp_sent delete list_delete].
  - destruct (neg_take_offer c0 d0 c offered Hs Hn) as [c' E]. rewrite E.
    eexists. split; [done|]. left. exists 3. split; [done|]. split; [|done].
    by apply (PCreateAnswer _ _ c c'); [|constructor].
  - destruct (neg_answer c0 d0 c' c'' c offered Hr Hi) as [e E]. rewrite E.
    eexists. split; [done|]. left. exists 2. split; [done|]. split; [|done].
    apply (PSetLocal _ _ e c); [done| |constructor]. destruct (after_ice_keeps _ _ Hi) as [_ ->].
    by apply set_remote_jsep in Hr as [_ Hr].
  - destruct (neg_own_answer c' e c He Hi) as [c2 E]. rewrite E.
    pose proof (set_local_jsep _ _ _ E) as [S2 R2]. pose proof (answer_type _ _ He) as [Ht _].
    destruct (after_ice_keeps _ _ Hi) as [_ Hk]. rewrite Ht in S2.
    eexists. split; [done|]. left. exists 1. split; [done|]. split; [|done].
    apply PPublish; [by exists c'|by destruct (sig_state c); try done; injection S2|cbn; congruence].
  - destruct (proj2 (publish_delivered b a (sdp_text e) plain_b plain_a)) as (pa & Hp & _).
    unfold send. rewrite Hp. cbn [mbind res_bind map_err]. rewrite put_ok.
    eexists. split; [done|]. right. split; [done|]. exists e, pa. split; [by constructor|done].
Qed.

(** The callback that starts the responder's first task. *)
Lemma fresh_answers k v k' :
  answer mime_h264 k b = (Ok v, k') ->
  exists w, peer_callback v (OnOffer a offer_msg) = w /\ peer_phase 4 w.
Proof.
  intros H. pose proof (answer_ok mime_h264 k b v) as Hv. rewrite H in Hv.
  destruct (Hv eq_refl) as (Hr & Ht & Hs & Hst & Hrem). destruct v as [r c tr ts se]. cbn in Hr, Ht, Hs, Hst, Hrem. subst.
  eexists. split; [done|]. cbn [peer_callback offer_msg sig_sdp]. rewrite (neg_parse_offer _ _ offered). by constructor.
Qed.

Lemma b_dispatch m lb bc i cb :
  b_phase m lb bc -> bc !! i = Some cb ->
  exists m', m = S m' /\ b_phase m' (listener_step mime_h264 put source lb (LCall cb)) (delete i bc).
Proof.
  intros [k|k|k|cap sc v k j Hj] H; try done. apply list_lookup_singleton_Some in H as [-> <-].
  exists 7. split; [done|]. apply BTask.
Qed.

Lemma newly_sent_nil v v' : vp_sent v' = vp_sent v -> newly_sent v v' = [].
Proof. unfold newly_sent. intros ->. by rewrite drop_all. Qed.

(** The capture task of a session only updates its entry. *)
Lemma capture_turn i ok sc w k l' out :
  listener_turn (with_session true sc w k) (LRun i ok) = Some (l', out) ->
  out = [] /\ exists sc', l' = with_session false sc' w k.
Proof.
  cbn [listener_turn]. destruct i as [|i]; [|done]. intros [= <- <-]. split; [done|].
  cbn [listener_step with_session ls_mesh mesh_tasks lookup list_lookup build_peer mesh_step delete list_delete run_mesh_task peers ls_conns].
  destruct ok; [|by exists sc]. rewrite lookup_insert_eq. exists true. unfold with_session. cbn. by rewrite insert_insert_eq.
Qed.

(** A turn of the session's connection is a turn of its peer. *)
Lemma peer_turn_listener cap sc w k p i l' out :
  listener_turn (with_session cap sc w k) (LPeer p i) = Some (l', out) ->
  is_some (vp_tasks w !! i) = true /\
  let w' := video_step put w (VRun i) in l' = with_session cap sc w' k /\ out = newly_sent w w'.
Proof.
  cbn [listener_turn listener_step with_session ls_conns ls_mesh ls_id ls_counter].
  destruct (decide (0 = p)) as [<-|Hp]; [|by rewrite lookup_insert_ne, lookup_empty].
  rewrite lookup_alter_eq, lookup_insert_eq. cbn [fmap option_fmap option_map].
  destruct (vp_tasks w !! i); [|done]. intros [= <- <-]. split; [done|]. split; [|done].
  unfold with_session. by rewrite alter_insert_eq.
Qed.

Lemma b_turn m lb bc act lb' out :
  b_phase m lb bc -> listener_turn lb act = Some (lb', out) ->
  (out = [] /\ exists m', m' < m /\ b_phase m' lb' bc) \/
  (bc = [] /\ exists cap sc w k e pa, m = S (cap_rank cap) /\ out = [pa] /\
     lb' = with_session cap sc w k /\ peer_done e pa w).
Proof.
  intros [k|k|k|cap sc v k j Hj] H.
  - destruct act as [cb|i ok|p i]; [done..|]. cbn in H. by rewrite lookup_empty in H.
  - left. destruct act as [cb|i ok|p i]; [done| |cbn in H; by rewrite lookup_empty in H].
    cbn [listener_turn ls_mesh mesh_tasks] in H. destruct i as [|i]; [|done]. injection H as <- <-.
    split; [done|]. exists 6. split; [lia|]. apply BBuild.
  - left. destruct act as [cb|i ok|p i]; [done| |cbn in H; by rewrite lookup_empty in H].
    cbn [listener_turn ls_mesh mesh_tasks] in H. destruct i as [|i]; [|done]. injection H as <- <-.
    split; [done|]. destruct (builds_answer k) as (v & k' & Hv).
    destruct (fresh_answers k v k' Hv) as (w & Hw & Hp). exists (4 + cap_rank source).
    split; [by destruct source; cbn; lia|].
    cbn [listener_step ls_mesh mesh_tasks lookup list_lookup build_peer ls_counter ls_id]. rewrite Hv.
    cbn [mesh_step mesh_tasks lookup list_lookup delete list_delete run_mesh_task peers next_peer applied insert_peer ls_conns ls_mesh].
    unfold insert_peer. cbn [peers mesh_tasks next_peer applied]. rewrite lookup_empty.
    replace (mkListener _ _ _ _) with (with_session source false w k'); [by apply BPeer|].
    unfold with_session. rewrite <- Hw. destruct source; cbn; by rewrite alter_insert_eq.
  - destruct act as [cb|i ok|p i]; [done|..].
    + destruct cap; [|by destruct i]. apply capture_turn in H as [-> [sc' ->]]. left. split; [done|].
      exists (j + cap_rank false). split; [cbn; lia|by apply BPeer].
    + apply peer_turn_listener in H as (Hi & -> & ->).
      assert (i = 0) as -> by (destruct Hj; by destruct i).
      destruct (peer_turn j v Hj) as (v' & -> & [(j' & -> & Hj' & ->)|(-> & e & pa & Hd & ->)]).
      * left. split; [done|]. exists (j' + cap_rank cap). split; [lia|by apply BPeer].
      * right. split; [done|]. exists cap, sc, v', k, e, pa. by split.
Qed.

(** A session that has answered only has its capture left. *)
Lemma done_turn cap sc w k e pa act l' out :
  peer_done e pa w -> listener_turn (with_session cap sc w k) act = Some (l', out) ->
  cap = true /\ out = [] /\ exists sc', l' = with_session false sc' w k.
Proof.
  intros Hw H. destruct act as [cb|i ok|p i]; [done|..].
  - destruct cap; [|by destruct i]. apply capture_turn in H. by split.
  - apply peer_turn_listener in H as [Hi _]. by destruct Hw.
Qed.

Lemma idle_turn id k act : listener_turn (listener_new id k) act = None.
Proof. destruct act as [cb|i ok|p i]; [done..|]. cbn. by rewrite lookup_empty. Qed.

Lemma bystander_turn sa j la ac act la' out :
  bystander sa j la ac -> listener_turn la act = Some (la', out) ->
  out = [] /\ exists j', j = S j' /\ bystander sa j' la' ac.
Proof.
  intros [k|k|k] H; [by rewrite idle_turn in H| |by rewrite idle_turn in H].
  destruct act as [cb|i ok|p i]; [done| |cbn in H; by rewrite lookup_empty in H].
  cbn [listener_turn ls_mesh mesh_tasks] in H. destruct i as [|i]; [|done]. injection H as <- <-.
  split; [done|]. exists 0. split; [done|]. apply ADone.
Qed.
Lemma bystander_dispatch sa j la ac i cb :
  bystander sa j la ac -> ac !! i = Some cb ->
  exists j', j = S j' /\ bystander sa j' (listener_step mime_h264 put source la (LCall cb)) (delete i ac).
Proof.
  intros [k|k|k] H; [|done..]. apply list_lookup_singleton_Some in H as [-> <-]. exists 1. split; [done|]. apply ATask.
Qed.

Lemma caller_turn e i v vc t n :
  caller_phase e n v vc -> vp_tasks v !! i = Some t ->
  newly_sent v (video_step put v (VRun i)) = [] /\
  exists n', n = S n' /\ caller_phase e n' (video_step put v (VRun i)) vc.
Proof.
  intros [v0 Ha He Hi Ht|v0 Ha (c & He & Hr) Hi Ht|v0 Ha Hs Hr Ht] H; rewrite Ht in H; try done. destruct i as [|i]; [|done].
  destruct v0 as [r c2 tr ts se]. cbn in Ht, Hi, Ha. subst ts. cbn.
  destruct (neg_take_answer c0 d0 c1 c2 c e offered offer_set Hi He Hr) as [c' E]. rewrite E.
  apply set_remote_jsep in E as [E R]. destruct (after_ice_keeps _ _ Hi) as [Hs _].
  apply answer_type in He as [Ht _]. rewrite Hs, c1_state, Ht in E. injection E as E.
  split; [apply drop_all|]. exists 0. split; [done|]. by apply CDone.
Qed.
Lemma caller_dispatch e i v vc cb n :
  caller_phase e n v vc -> vc !! i = Some cb ->
  exists n', n = S n' /\ caller_phase e n' (peer_callback v cb) (delete i vc).
Proof.
  intros [v0 Ha He Hi Ht|v0 Ha He Hi Ht|v0 Ha Hs Hr Ht] H; [|done..]. apply list_lookup_singleton_Some in H as [-> <-].
  exists 1. split; [done|]. cbn. destruct He as (c & He & Hr). rewrite (neg_parse_answer _ _ He).
  apply CTask; [done|by exists c|done|]. cbn. by rewrite Ht.
Qed.

(** *** Every step of a call is a step of its phases *)
Lemma bind_Some {A B} (f : A -> option B) (x : option A) y :
  x ≫= f = Some y -> exists z, x = Some z /\ f z = Some y.
Proof. destruct x as [z|]; [|done]. by exists z. Qed.

(** The acts an idle caller leaves: the network, its subscription, the two
    listeners. *)
Ltac call_act act H :=
  destruct act as [i| |i|i|i|i|act|act|init|from init|from init]; try done;
  cbn [call_step Connect.call_step] in H;
  try (apply bind_Some in H as (? & Hget & H)); try done.

Definition smaller (ok : bool) (n : nat) (s : CallSys) : Prop :=
  forall act s', is_candidate act = false -> call_step s act = Some s' -> exists n', n' < n /\ phase ok n' s'.

Lemma offer_step ok v on po ka kb : idle_caller v -> (ok = true -> on = true) -> publish_offer a b so [] = Ok po ->
  smaller ok (14 + sub_rank on) (mkCallSys v on [] (listener_new a ka) [] (listener_new b kb) [] [po]).
Proof.
  intros Hv Hok Hpo act s' Hc H. pose proof (offer_routed po Hpo) as [Ra Rb]. call_act act H.
  - apply list_lookup_singleton_Some in Hget as [-> <-]. rewrite Ra, Rb in H. injection H as <-.
    exists (8 + 5 + sub_rank on). split; [lia|]. destruct on; by apply PhB, BChan.
  - destruct on; [done|]. injection H as <-. exists (14 + sub_rank true). split; [cbn; lia|]. by apply PhOffer.
  - destruct Hv as (_ & _ & Ht). by rewrite Ht in Hget.
  - by rewrite idle_turn in Hget.
  - by rewrite idle_turn in Hget.
Qed.
Lemma b_step ok v on ka m lb bc : idle_caller v -> (ok = true -> on = true) -> b_phase m lb bc ->
  smaller ok (m + 5 + sub_rank on) (mkCallSys v on [] (listener_new a ka) [] lb bc []).
Proof.
  intros Hv Hok Hb act s' Hc H. call_act act H.
  - destruct on; [done|]. injection H as <-. exists (m + 5 + sub_rank true). split; [cbn; lia|]. by apply PhB.
  - destruct (b_dispatch _ _ _ _ _ Hb Hget) as (m' & -> & Hb'). injection H as <-.
    exists (m' + 5 + sub_rank on). split; [lia|]. by apply PhB.
  - destruct Hv as (_ & _ & Ht). by rewrite Ht in Hget.
  - by rewrite idle_turn in Hget.
  - destruct x as [lb' out]. injection H as <-.
    destruct (b_turn _ _ _ _ _ _ Hb Hget) as [(-> & m' & Hm & Hb')|(-> & cap & sc & w & k & e & pa & -> & -> & -> & Hw)].
    + exists (m' + 5 + sub_rank on). split; [lia|]. by apply PhB.
    + exists (5 + cap_rank cap + sub_rank on). split; [lia|]. by apply PhAnswer with e.
Qed.
Lemma answer_step ok v on ka cap sc w k e pa : idle_caller v -> (ok = true -> on = true) -> peer_done e pa w ->
  smaller ok (5 + cap_rank cap + sub_rank on)
    (mkCallSys v on [] (listener_new a ka) [] (with_session cap sc w k) [] [pa]).
Proof.
  intros Hv Hok Hw act s' Hcand H. assert (publish_answer b a (sdp_text e) [] = Ok pa) as Hpa by by destruct Hw.
  pose proof (answer_routed (sdp_text e) pa Hpa) as [Ra Rb]. call_act act H.
  - apply list_lookup_singleton_Some in Hget as [-> <-]. rewrite Ra, Rb in H. injection H as <-.
    destruct on.
    + exists (2 + 2 + cap_rank cap). split; [lia|]. destruct Hv as (H1 & H2 & H3).
      apply (PhEnd _ _ _ _ _ _ _ _ _ e pa); [apply CChan; try done; by destruct Hw|apply AChan|done].
    + exists (2 + cap_rank cap + sub_rank false). split; [lia|].
      apply (PhLost _ _ _ _ _ _ _ _ _ e pa); [done|destruct ok; [by discriminate (Hok eq_refl)|done]|apply AChan|done].
  - destruct on; [done|]. injection H as <-. exists (5 + cap_rank cap + sub_rank true). split; [cbn; lia|]. by apply PhAnswer with e.
  - destruct Hv as (_ & _ & Ht). by rewrite Ht in Hget.
  - by rewrite idle_turn in Hget.
  - destruct x as [lb' out]. injection H as <-.
    destruct (done_turn _ _ _ _ _ _ _ _ _ Hw Hget) as (-> & -> & sc' & ->).
    exists (5 + cap_rank false + sub_rank on). split; [cbn; lia|]. by apply PhAnswer with e.
Qed.
Lemma end_step ok v la vc ac cap sc w k e pa p q : caller_phase e p v vc -> bystander (sdp_text e) q la ac -> peer_done e pa w ->
  smaller ok (p + q + cap_rank cap) (mkCallSys v true vc la ac (with_session cap sc w k) [] []).
Proof.
  intros Hc Ha Hw act s' Hcand H. call_act act H.
  - destruct (caller_dispatch _ _ _ _ _ _ Hc Hget) as (p' & -> & Hc'). injection H as <-.
    exists (p' + q + cap_rank cap). split; [lia|]. by apply PhEnd with e pa.
  - destruct (bystander_dispatch _ _ _ _ _ _ Ha Hget) as (q' & -> & Ha'). injection H as <-.
    exists (p + q' + cap_rank cap). split; [lia|]. by apply PhEnd with e pa.
  - destruct (caller_turn _ _ _ _ _ _ Hc Hget) as [Hn (p' & -> & Hc')]. rewrite Hn in H. injection H as <-.
    exists (p' + q + cap_rank cap). split; [lia|]. by apply PhEnd with e pa.
  - destruct x as [la' out]. injection H as <-. destruct (bystander_turn _ _ _ _ _ _ _ Ha Hget) as [-> (q' & -> & Ha')].
    exists (p + q' + cap_rank cap). split; [lia|]. by apply PhEnd with e pa.
  - destruct x as [lb' out]. injection H as <-.
    destruct (done_turn _ _ _ _ _ _ _ _ _ Hw Hget) as (-> & -> & sc' & ->).
    exists (p + q + cap_rank false). split; [cbn; lia|]. by apply PhEnd with e pa.
Qed.
Lemma lost_step ok v on la ac cap sc w k e pa q : idle_caller v -> ok = false -> bystander (sdp_text e) q la ac -> peer_done e pa w ->
  smaller ok (q + cap_rank cap + sub_rank on) (mkCallSys v on [] la ac (with_session cap sc w k) [] []).
Proof.
  intros Hv Hok Ha Hw act s' Hcand H. call_act act H.
  - destruct on; [done|]. injection H as <-. exists (q + cap_rank cap + sub_rank true). split; [cbn; lia|]. by apply PhLost with e pa.
  - destruct (bystander_dispatch _ _ _ _ _ _ Ha Hget) as (q' & -> & Ha'). injection H as <-.
    exists (q' + cap_rank cap + sub_rank on). split; [lia|]. by apply PhLost with e pa.
  - destruct Hv as (_ & _ & Ht). by rewrite Ht in Hget.
  - destruct x as [la' out]. injection H as <-. destruct (bystander_turn _ _ _ _ _ _ _ Ha Hget) as [-> (q' & -> & Ha')].
    exists (q' + cap_rank cap + sub_rank on). split; [lia|]. by apply PhLost with e pa.
  - destruct x as [lb' out]. injection H as <-.
    destruct (done_turn _ _ _ _ _ _ _ _ _ Hw Hget) as (-> & -> & sc' & ->).
    exists (q + cap_rank false + sub_rank on). split; [cbn; lia|]. by apply PhLost with e pa.
Qed.

Lemma phase_step ok n s : phase ok n s -> smaller ok n s.
Proof.
  intros [v on po ka kb Hv Hok Hpo|v on ka m lb bc Hv Hok Hb|v on ka cap sc w k e pa Hv Hok Hw
         |v la vc ac cap sc w k e pa p q Hc Ha Hw|v on la ac cap sc w k e pa q Hv Hok Ha Hw].
  - by apply offer_step.
  - by apply b_step.
  - by apply answer_step with e.
  - by apply end_step with e pa.
  - by apply lost_step with e pa.
Qed.

(** ** A call that is not over has a step to take *)
Lemma b_progress m lb bc v on vc la ac net :
  b_phase m lb bc -> exists act, act <> Subscribe /\ enabled (mkCallSys v on vc la ac lb bc net) act.
Proof.
  intros [k|k|k|cap sc w k j Hj].
  - by exists (DispatchB 0).
  - by exists (TaskOfB (LRun 0 true)).
  - by exists (TaskOfB (LRun 0 true)).
  - exists (TaskOfB (LPeer 0 0)). split; [done|]. split; [done|].
    cbn [Connect.call_step Connect.listener_turn with_session ls_conns listener_step ls_mesh ls_id ls_counter].
    rewrite lookup_alter_eq, lookup_insert_eq. by destruct Hj.
Qed.

Lemma done_progress sc w k v on vc la ac net :
  exists act, act <> Subscribe /\ enabled (mkCallSys v on vc la ac (with_session true sc w k) [] net) act.
Proof. by exists (TaskOfB (LRun 0 true)). Qed.

Lemma bystander_progress sa q la ac v on vc lb bc net :
  bystander sa (S q) la ac -> exists act, act <> Subscribe /\ enabled (mkCallSys v on vc la ac lb bc net) act.
Proof. intros H. inversion H; subst; [by exists (DispatchA 0)|by exists (TaskOfA (LRun 0 true))]. Qed.

Lemma phase_progress ok n s :
  phase ok (S n) s ->
  exists act, enabled s act /\ (cs_listening s = false -> act = Subscribe -> n = 0).
Proof.
  assert (forall s n, (exists act, act <> Subscribe /\ enabled s act) ->
    exists act, enabled s act /\ (cs_listening s = false -> act = Subscribe -> n = 0)) as Hother
    by (intros s0 n0 (act & Hne & Ha); by exists act).
  intros H. inversion H as [v on po ka kb _ _ _|v on ka m lb bc _ _ Hb|v on ka cap sc w k e pa _ _ _
    |v la vc ac cap sc w k e pa p q Hc Ha _ Hn|v on la ac cap sc w k e pa q _ _ Ha _ Hn]; subst; [apply Hother..|].
  - by exists (Route 0).
  - by apply b_progress with m.
  - by exists (Route 0).
  - destruct cap; [apply done_progress|]. destruct q as [|q]; [|by apply bystander_progress with (sdp_text e) q].
    destruct Hc as [v _ _ _ Ht|v _ _ _ Ht|v _ Hs Hr Ht]; [by exists (DispatchCaller 0)| |done].
    exists (TaskOfCaller 0). split; [done|]. split; [done|]. cbn [Connect.call_step]. by rewrite Ht.
  - destruct cap; [apply Hother, done_progress|].
    destruct q as [|q]; [|by apply Hother, bystander_progress with (sdp_text e) q].
    destruct on; [done|]. exists Subscribe. split; [done|]. intros _ _. by injection Hn.
Qed.

Lemma session_answered v on vc la ac cap sc w k bc net e pa :
  peer_done e pa w -> answered a b (mkCallSys v on vc la ac (with_session cap sc w k) bc net) so (sdp_text e).
Proof.
  intros [c tr _ Hs Hr Hp]. exists 0, (mkVideoPeer b c tr [] [pa]), pa.
  cbn [cs_b with_session ls_mesh peers ls_conns]. by rewrite !lookup_insert_eq.
Qed.

Lemma idle_lost v : idle_caller v -> sig_state (vp_conn v) = HaveLocalOffer /\ remote_sdp (vp_conn v) = None.
Proof. intros (_ & Hi & _). destruct (after_ice_keeps _ _ Hi) as [-> ->]. by split. Qed.

(** A call with no step left is over, one way or the other. *)
Lemma phase_over ok n s :
  phase ok n s -> (forall act, ~ enabled s act) -> connected a b s so \/ (ok = false /\ answer_lost a b s so).
Proof.
  intros H Hrest. destruct n as [|n].
  2:{ destruct (phase_progress ok n s H) as (act & Hact & _). by destruct (Hrest act). }
  inversion H as [v on po ka kb|v on ka m lb bc _ _ Hb|v on ka cap sc w k e pa
    |v la vc ac cap sc w k e pa p q Hc Ha Hw Hn|v on la ac cap sc w k e pa q Hi Hok Ha Hw Hn]; subst.
  - lia.
  - left. exists (sdp_text e). split; [by eapply session_answered|]. assert (p = 0) as -> by lia. by inversion Hc.
  - right. split; [done|]. split; [|by apply idle_lost]. exists (sdp_text e). by eapply session_answered.
Qed.

Lemma listening_kept s act s' :
  is_candidate act = false -> act <> Subscribe -> call_step s act = Some s' -> cs_listening s' = cs_listening s.
Proof.
  intros Hc Hne H. destruct s as [v on vc la ac lb bc net]. call_act act H; try by injection H as <-.
  all: destruct x as [l out]; by injection H as <-.
Qed.

(** A run without candidates that loses the answer. *)
Lemma rest_lost ok n s :
  phase ok n s -> cs_listening s = false -> n <= 1 ->
  exists s', call_run mime_h264 put source a b s [Subscribe] = Some s' /\
    at_rest mime_h264 put source a b s' /\ answer_lost a b s' so.
Proof.
  intros H Hon Hn. inversion H as [v on po ka kb|v on ka m lb bc _ _ Hb|v on ka cap sc w k e pa
    |v la vc ac cap sc w k e pa p q Hc Ha Hw Hr|v on la ac cap sc w k e pa q Hi Hok Ha Hw Hr]; subst;
    cbn in Hon; [lia..|done|]. subst on. cbn in Hn. assert (q = 0 /\ cap = false) as [-> ->] by (destruct cap; cbn in Hn; lia).
  eexists. split; [done|].
  assert (phase false (0 + cap_rank false + sub_rank true)
    (mkCallSys v true [] la ac (with_session false sc w k) [] [])) as Hp by by apply PhLost with e pa.
  split.
  - intros act Hcand. destruct (call_step _ act) as [s'|] eqn:E; [|done].
    destruct (phase_step _ _ _ Hp _ _ Hcand E) as (n' & Hn' & _). cbn in Hn'. lia.
  - split; [|by apply idle_lost]. exists (sdp_text e). by eapply session_answered.
Qed.

Lemma lost_run ok n : forall s,
  phase ok n s -> cs_listening s = false ->
  exists acts s', call_run mime_h264 put source a b s acts = Some s' /\
    at_rest mime_h264 put source a b s' /\ answer_lost a b s' so.
Proof.
  induction n as [n IH] using lt_wf_ind. intros s Hp Hon.
  destruct (decide (n <= 1)) as [Hle|Hgt]; [exists [Subscribe]; by apply rest_lost with ok n|].
  destruct n as [|n]; [lia|]. destruct (phase_progress _ _ _ Hp) as (act & [Hcand Hact] & Hsub).
  destruct (call_step s act) as [s1|] eqn:E; [|done].
  assert (act <> Subscribe) as Hne by (intros He; specialize (Hsub Hon He); lia).
  destruct (phase_step _ _ _ Hp _ _ Hcand E) as (n1 & Hn & Hp1).
  destruct (IH n1 Hn s1 Hp1) as (acts & s' & H1 & H2); [by rewrite (listening_kept _ _ _ Hcand Hne E)|].
  exists (act :: acts), s'. cbn [call_run]. by rewrite E.
Qed.
(** ** The phases with candidates under way *)
Lemma after_took v v' : took_ice v v' -> after_ice c1 (vp_conn v) -> after_ice c1 (vp_conn v').
Proof. intros [->|(i & c & Ha & ->)] Hi; [done|]. by apply (after_one _ i _ c Hi Ha). Qed.
Lemma took_frame v v' : took_ice v v' -> vp_robot v' = vp_robot v /\ vp_tasks v' = vp_tasks v /\
  sig_state (vp_conn v') = sig_state (vp_conn v) /\ remote_sdp (vp_conn v') = remote_sdp (vp_conn v).
Proof. intros [->|(i & c & Ha & ->)]; [done|]. cbn. by apply add_ice_keeps in Ha as [-> ->]. Qed.
Lemma idle_took v v' : took_ice v v' -> idle_caller v -> idle_caller v'.
Proof.
  intros Ht (Hr & Hi & Hk). destruct (took_frame _ _ Ht) as (Hr' & Hk' & _).
  split; [congruence|]. split; [by eapply after_took|congruence].
Qed.
Lemma caller_took e n v v' vc : took_ice v v' -> caller_phase e n v vc -> caller_phase e n v' vc.
Proof.
  intros Ht H. pose proof (after_took _ _ Ht) as Hi. destruct (took_frame _ _ Ht) as (Hr & Hk & Hs & Hd).
  destruct H; [apply CChan|apply CTask|apply CDone]; try congruence; auto.
Qed.
Lemma peer_took j v i c : peer_phase j v -> add_ice (vp_conn v) i = inr c -> peer_phase j (with_conn v c).
Proof.
  intros [cv tr Hs Hn|cv tr c' c'' Hr Hi|cv tr e c' He Hr Hi|cv tr e He Hs Hr] Ha; cbn [vp_conn] in Ha;
    destruct (add_ice_keeps _ _ _ Ha) as [Hk1 Hk2].
  - apply PSetOffer; congruence.
  - apply (PCreateAnswer _ _ c' c''); [done|]. by apply (after_one _ i cv).
  - apply (PSetLocal _ _ e c'); [done|done|]. by apply (after_one _ i cv).
  - apply PPublish; [done|congruence|congruence].
Qed.
Lemma done_took e pa v i c : peer_done e pa v -> add_ice (vp_conn v) i = inr c -> peer_done e pa (with_conn v c).
Proof.
  intros [cv tr He Hs Hr Hp] Ha. cbn [vp_conn] in Ha. destruct (add_ice_keeps _ _ _ Ha) as [Hk1 Hk2].
  apply PDone; [done|congruence|congruence|done].
Qed.
(** A candidate can only reach the connection of the one session. *)
Lemma session_took cap sc w k l' :
  listener_took_ice (with_session cap sc w k) l' ->
  l' = with_session cap sc w k \/
  exists i c, add_ice (vp_conn w) i = inr c /\ l' = with_session cap sc (with_conn w c) k.
Proof.
  intros [->|(p & v & i & c & Hp & Ha & ->)]; [by left|right]. cbn [with_session ls_conns] in Hp.
  apply lookup_insert_Some in Hp as [[<- <-]|[_ Hp]]; [|by rewrite lookup_empty in Hp].
  exists i, c. split; [done|]. unfold with_session. cbn. by rewrite insert_insert_eq.
Qed.
Lemma empty_took l l' : listener_took_ice l l' -> ls_conns l = ∅ -> l' = l.
Proof. intros [->|(p & v & i & c & Hp & _)] He; [done|]. by rewrite He, lookup_empty in Hp. Qed.
Lemma b_took m lb bc lb' : listener_took_ice lb lb' -> b_phase m lb bc -> b_phase m lb' bc.
Proof.
  intros Ht H. revert Ht. destruct H as [k|k|k|cap sc v k j Hj]; intros Ht;
    try (rewrite (empty_took _ _ Ht eq_refl); by constructor).
  apply session_took in Ht as [->|(i & c & Ha & ->)]; [by constructor|]. by apply BPeer, peer_took with i.
Qed.
Lemma bystander_took sa q la la' ac : listener_took_ice la la' -> bystander sa q la ac -> bystander sa q la' ac.
Proof.
  intros Ht H. revert Ht. destruct H as [k|k|k]; intros Ht; rewrite (empty_took _ _ Ht eq_refl); constructor.
Qed.

Lemma phase_took ok n s s' : phase ok n s -> took_candidate s s' -> phase ok n s'.
Proof.
  intros H Ht. inversion Ht as [v v' ? ? ? ? ? ? ? Hv|? ? ? la la' ? ? ? ? Hv|? ? ? ? ? lb lb' ? ? Hv]; subst; clear Ht;
    inversion H; subst.
  - apply PhOffer; [by eapply idle_took|done|done].
  - apply PhB; [by eapply idle_took|done|done].
  - eapply PhAnswer; [by eapply idle_took|done|done].
  - eapply PhEnd; [by eapply caller_took|done|done].
  - eapply PhLost; [by eapply idle_took|done|done|done].
  - rewrite (empty_took _ _ Hv eq_refl). by apply PhOffer.
  - rewrite (empty_took _ _ Hv eq_refl). by apply PhB.
  - rewrite (empty_took _ _ Hv eq_refl). by eapply PhAnswer.
  - eapply PhEnd; [done|by eapply bystander_took|done].
  - eapply PhLost; [done|done|by eapply bystander_took|done].
  - rewrite (empty_took _ _ Hv eq_refl). by apply PhOffer.
  - apply PhB; [done|done|by eapply b_took].
  - apply session_took in Hv as [->|(ini & c & Ha & ->)]; [by eapply PhAnswer|]. eapply PhAnswer; [done..|by eapply done_took].
  - apply session_took in Hv as [->|(ini & c & Ha & ->)]; [by eapply PhEnd|]. eapply PhEnd; [done..|by eapply done_took].
  - apply session_took in Hv as [->|(ini & c & Ha & ->)]; [by eapply PhLost|]. eapply PhLost; [done..|by eapply done_took].
Qed.

(** No phase has a candidate in it. *)
Lemma quiet_no_tasks v : vp_tasks v = [] -> quiet_peer v = v.
Proof. destruct v. cbn. by intros ->. Qed.
Lemma quiet_session cap sc w k : quiet_peer w = w -> quiet_listener (with_session cap sc w k) = with_session cap sc w k.
Proof.
  intros Hw. unfold quiet_listener, with_session, quiet_mesh. cbn. rewrite fmap_insert, Hw, fmap_empty. by destruct cap.
Qed.
Lemma quiet_b m lb bc : b_phase m lb bc -> quiet_listener lb = lb /\ List.filter keeps_cb bc = bc.
Proof.
  intros [k|k|k|cap sc v k j Hj]; try (split; [|done]; unfold quiet_listener; cbn; by rewrite fmap_empty).
  split; [|done]. apply quiet_session. by destruct Hj.
Qed.
Lemma quiet_bystander sa q la ac : bystander sa q la ac -> quiet_listener la = la /\ List.filter keeps_cb ac = ac.
Proof. intros [k|k|k]; (split; [|done]); unfold quiet_listener; cbn; by rewrite fmap_empty. Qed.
Lemma quiet_new id k : quiet_listener (listener_new id k) = listener_new id k.
Proof. unfold quiet_listener, listener_new. cbn. by rewrite fmap_empty. Qed.
Lemma quiet_done e pa w : peer_done e pa w -> quiet_peer w = w.
Proof. by intros []. Qed.
Lemma quiet_caller e n v vc : caller_phase e n v vc -> quiet_peer v = v /\ List.filter keeps_cb vc = vc.
Proof. intros [v0 _ _ _ Ht|v0 _ _ _ Ht|v0 _ _ _ Ht]; (split; [|done]); destruct v0; cbn in Ht; by subst. Qed.

Lemma offer_kept po : publish_offer a b so [] = Ok po -> keeps_put a b po = true /\ put_weight a b po = 0.
Proof.
  intros [Ra Rb]%offer_routed. unfold put_weight, keeps_put, to_a, to_b. rewrite Ra, Rb. by split.
Qed.
Lemma answer_kept e pa : publish_answer b a (sdp_text e) [] = Ok pa -> keeps_put a b pa = true /\ put_weight a b pa = 0.
Proof.
  intros [Ra Rb]%answer_routed. unfold put_weight, keeps_put, to_a, to_b. rewrite Ra, Rb. by split.
Qed.

Lemma phase_quiet ok n s : phase ok n s -> quiet a b s = s /\ sum_list_with (put_weight a b) (cs_net s) = 0.
Proof.
  intros [v on po ka kb (_ & _ & Hv) Hok Hpo|v on ka m lb bc (_ & _ & Hv) Hok Hb|v on ka cap sc w k e pa (_ & _ & Hv) Hok Hw
         |v la vc ac cap sc w k e pa p q Hc Ha Hw|v on la ac cap sc w k e pa q (_ & _ & Hv) Hok Ha Hw];
    unfold quiet; cbn [cs_caller cs_listening cs_caller_chan cs_a cs_a_chan cs_b cs_b_chan cs_net List.filter sum_list_with].
  - destruct (offer_kept po Hpo) as [-> ->]. by rewrite (quiet_no_tasks v Hv), !quiet_new.
  - destruct (quiet_b _ _ _ Hb) as [-> ->]. by rewrite (quiet_no_tasks v Hv), !quiet_new.
  - assert (publish_answer b a (sdp_text e) [] = Ok pa) as Hpa by by destruct Hw.
    destruct (answer_kept e pa Hpa) as [-> ->].
    by rewrite (quiet_no_tasks v Hv), quiet_new, (quiet_session _ _ _ _ (quiet_done _ _ _ Hw)).
  - destruct (quiet_caller _ _ _ _ Hc) as [-> ->], (quiet_bystander _ _ _ _ Ha) as [-> ->].
    by rewrite (quiet_session _ _ _ _ (quiet_done _ _ _ Hw)).
  - destruct (quiet_bystander _ _ _ _ Ha) as [-> ->].
    by rewrite (quiet_no_tasks v Hv), (quiet_session _ _ _ _ (quiet_done _ _ _ Hw)).
Qed.
(** *** Steps, with candidates *)
Notation quiet := (quiet a b).
Notation weight := (weight a b).

(** A candidate is published to the other side, and costs at most six steps. *)
Lemma published_candidate x y z init : mesh_id x = true -> mesh_id y = true -> mesh_id z = true ->
  match on_ice_candidate put x y init with
  | Some p => exists c, deliver_signal (receiver_tasks z) p = if (z =? y)%string then [OnIce x c] else []
  | None => True
  end.
Proof.
  intros Hx Hy Hz. unfold on_ice_candidate. destruct init as [|ini]; [done|].
  set (c := mkIce _ _ _). unfold publish_ice.
  destruct (signal_builders_Ok (E := string) x y) as (_ & _ & ->);
    [by apply mesh_id_inv in Hx as (_ & ? & _)|by apply mesh_id_inv in Hy as (_ & ? & _)|].
  destruct (signal_delivered x y z "ice" Offer x y "" [c] Hx Hy Hz) as (p & Hp & Hd); [by right; right|].
  cbn [mbind res_bind].
  match goal with |- context [put_signal ?k Offer _ _ _ _] => change k with (mkTopic (signal_key x y "ice")) end.
  rewrite Hp, put_ok. by exists c.
Qed.
Lemma candidate_noise x y init : (x = a /\ y = b) \/ (x = b /\ y = a) ->
  List.filter (keeps_put a b) (option_list (on_ice_candidate put x y init)) = [] /\
  sum_list_with (put_weight a b) (option_list (on_ice_candidate put x y init)) <= 6.
Proof.
  intros Hxy. assert (mesh_id x = true /\ mesh_id y = true) as [Hx Hy] by by destruct Hxy as [[-> ->]|[-> ->]].
  pose proof (published_candidate x y a init Hx Hy plain_a) as Ha.
  pose proof (published_candidate x y b init Hx Hy plain_b) as Hb.
  destruct (on_ice_candidate put x y init) as [p|]; [|by split; cbn; [|lia]].
  destruct Ha as [ca Ha], Hb as [cb Hb]. change (option_list (Some p)) with [p]. cbn [List.filter sum_list_with].
  unfold put_weight, keeps_put, to_a, to_b. rewrite Ha, Hb.
  destruct Hxy as [[-> ->]|[-> ->]]; rewrite String.eqb_refl;
    [destruct (String.eqb_spec a b); [done|]|destruct (String.eqb_spec b a); [congruence|]]; (split; [done|cbn; lia]).
Qed.

Lemma phase_parties ok n s : phase ok n s ->
  vp_robot (cs_caller s) = a /\ peers (ls_mesh (cs_a s)) = ∅ /\ ls_id (cs_b s) = b /\
  forall from, is_some (peers (ls_mesh (cs_b s)) !! from) = true -> from = a.
Proof.
  assert (forall cap sc w k from, is_some (peers (ls_mesh (with_session cap sc w k)) !! from) = true -> from = a) as Hses.
  { intros cap sc w k from. cbn [with_session ls_mesh peers]. destruct (decide (a = from)) as [<-|]; [done|].
    by rewrite lookup_insert_ne, lookup_empty. }
  assert (forall from, is_some ((∅ : gmap string PeerSession) !! from) = true -> from = a) as Hemp
    by (intros from; by rewrite lookup_empty).
  intros [v on po ka kb (Hv & _) _ _|v on ka m lb bc (Hv & _) _ Hb|v on ka cap sc w k e pa (Hv & _) _ _
         |v la vc ac cap sc w k e pa p q Hc Ha _|v on la ac cap sc w k e pa q (Hv & _) _ Ha _];
    cbn [cs_caller cs_a cs_b].
  - done.
  - split; [done|]. split; [done|]. destruct Hb; (split; [done|]); first [exact Hemp|apply Hses].
  - split; [done|]. split; [done|]. split; [done|]. apply Hses.
  - split; [by destruct Hc|]. split; [by destruct Ha|]. split; [done|]. apply Hses.
  - split; [done|]. split; [by destruct Ha|]. split; [done|]. apply Hses.
Qed.

Lemma candidate_step ok n s act s' : phase ok n (quiet s) -> is_candidate act = true -> call_step s act = Some s' ->
  quiet s' = quiet s /\ weight s' <= weight s + 6.
Proof.
  intros (Hv & Ha & Hb & Hf)%phase_parties Hc H. destruct s as [v on vc la ac lb bc net].
  cbn [cs_caller cs_a cs_b Connect.quiet quiet_peer vp_robot quiet_listener ls_mesh quiet_mesh peers ls_id] in Hv, Ha, Hb, Hf.
  assert (forall x y init, (x = a /\ y = b) \/ (x = b /\ y = a) ->
    let s' := mkCallSys v on vc la ac lb bc (net ++ option_list (on_ice_candidate put x y init)) in
    quiet s' = quiet (mkCallSys v on vc la ac lb bc net) /\
    weight s' <= weight (mkCallSys v on vc la ac lb bc net) + 6) as Hput.
  { intros x y init Hxy. destruct (candidate_noise x y init Hxy) as [Hn Hw]. cbn zeta. split.
    - unfold Connect.quiet. cbn [cs_caller cs_listening cs_caller_chan cs_a cs_a_chan cs_b cs_b_chan cs_net].
      by rewrite List.filter_app, Hn, app_nil_r.
    - unfold Connect.weight. cbn [cs_caller cs_caller_chan cs_a cs_a_chan cs_b cs_b_chan cs_net].
      rewrite sum_list_with_app. lia. }
  destruct act as [i| |i|i|i|i|act|act|init|from init|from init]; try done; unfold Connect.call_step in H; cbv beta iota in H.
  - apply (inj Some) in H. subst s'. apply Hput. by left.
  - unfold session_candidate in H. by rewrite Ha, lookup_empty in H.
  - unfold session_candidate in H. specialize (Hf from). destruct (peers (ls_mesh lb) !! from); [|done].
    specialize (Hf eq_refl). subst from. cbn [mbind option_bind] in H. apply (inj Some) in H. subst s'.
    rewrite Hb. apply Hput. by right.
Qed.

Lemma noisy_step ok n s act s' : phase ok n (quiet s) -> is_candidate act = false -> call_step s act = Some s' ->
  exists n', phase ok n' (quiet s') /\ n' + weight s' < n + weight s.
Proof.
  intros Hp Hc H. destruct (call_sim mime_h264 put source a b s act s' Hc H) as [[Ht Hw]|(act0 & s1 & H0 & H1 & Hq & Hw)].
  - exists n. split; [by eapply phase_took|lia].
  - destruct (phase_step _ _ _ Hp _ _ H0 H1) as (n' & Hn & Hp1). destruct (phase_quiet _ _ _ Hp1) as [Hq1 Hz].
    exists n'. rewrite Hq, Hq1. split; [done|lia].
Qed.

(** Runs are bounded, and each can be run on to rest without candidates. *)
Lemma noisy_run ok acts : forall n s s',
  phase ok n (quiet s) -> call_run mime_h264 put source a b s acts = Some s' ->
  exists n', phase ok n' (quiet s') /\ length acts + n' + weight s' <= n + weight s + 7 * candidates acts.
Proof.
  induction acts as [|act acts IH]; intros n s s' Hp H; [injection H as <-; exists n; split; [done|cbn; lia]|].
  cbn [call_run] in H. apply bind_Some in H as (s1 & H1 & H). unfold candidates. cbn [List.filter].
  fold (candidates acts). destruct (is_candidate act) eqn:Hc.
  - destruct (candidate_step _ _ _ _ _ Hp Hc H1) as [Hq Hw]. rewrite <- Hq in Hp.
    destruct (IH n s1 s' Hp H) as (n' & Hp' & Hb). exists n'. split; [done|]. cbn [length]. unfold candidates in Hb. lia.
  - destruct (noisy_step _ _ _ _ _ Hp Hc H1) as (n1 & Hp1 & Hw).
    destruct (IH n1 s1 s' Hp1 H) as (n' & Hp' & Hb). exists n'. split; [done|]. cbn [length]. unfold candidates in Hb. lia.
Qed.
Lemma noisy_ends ok m : forall n s, n + weight s <= m -> phase ok n (quiet s) ->
  exists acts s', candidates acts = 0 /\ call_run mime_h264 put source a b s acts = Some s' /\
    at_rest mime_h264 put source a b s'.
Proof.
  induction m as [m IH] using lt_wf_ind. intros n s Hm Hp.
  destruct (rest_dec mime_h264 put source a b s) as [(act & Hc & He)|Hrest]; [|by exists [], s].
  destruct (call_step s act) as [s1|] eqn:E; [|done]. destruct (noisy_step _ _ _ _ _ Hp Hc E) as (n1 & Hp1 & Hw).
  destruct (IH (n1 + weight s1)) with (n := n1) (s := s1) as (acts & s' & H0 & H1 & H2); [lia|lia|done|].
  exists (act :: acts), s'. split; [unfold candidates; cbn [List.filter]; by rewrite Hc|]. cbn [call_run]. by rewrite E.
Qed.

(** What holds of the exchange holds of the call. *)
Lemma quiet_answered s sa : answered a b (quiet s) so sa -> answered a b s so sa.
Proof.
  intros (p & w & pa & Hs & Hw & H). unfold Connect.quiet in Hs, Hw.
  cbn [cs_b quiet_listener ls_mesh quiet_mesh peers ls_conns] in Hs, Hw. rewrite lookup_fmap in Hw.
  destruct (ls_conns (cs_b s) !! p) as [v|] eqn:Hv; [|done]. injection Hw as <-. by exists p, v, pa.
Qed.
Lemma noisy_over ok n s : phase ok n (quiet s) -> at_rest mime_h264 put source a b s ->
  connected a b s so \/ (ok = false /\ answer_lost a b s so).
Proof.
  intros Hp Hrest. destruct (phase_over ok n (quiet s) Hp) as [(sa & Ha & Hc)|(Hok & (sa & Ha) & Hc)].
  - intros act [act' [Hc He]]%enabled_back. by rewrite (Hrest act' Hc) in He.
  - left. exists sa. split; [by apply quiet_answered|exact Hc].
  - right. split; [done|]. split; [|exact Hc]. exists sa. by apply quiet_answered.
Qed.
End phases.

Lemma start_light `{JN : JsonNumber} {SW : SignalWire} {K : KeyMatch} {P : PeerConn} a b v on ka kb :
  vp_tasks v = [] -> sum_list_with (put_weight a b) (vp_sent v) = 0 ->
  weight a b (mkCallSys v on [] (listener_new a ka) [] (listener_new b kb) [] (vp_sent v)) = 0.
Proof.
  intros Ht Hz. unfold weight, peer_weight, listener_weight, conns_weight.
  cbn [cs_caller cs_caller_chan cs_a cs_a_chan cs_b cs_b_chan cs_net listener_new ls_mesh mesh_new mesh_tasks ls_conns].
  by rewrite Ht, Hz, map_fold_empty.
Qed.

(** ** A call always ends *)
Section outcome.
Context `{JN : JsonNumber} {SW : SignalWire} {SL : SignalWireLaws SW} {K : KeyMatch} {KL : KeyMatchLaw K}.
Context {P : PeerConn} {PL : PeerConnLaws P}.
Context (mime_h264 : string) (put : Put -> string + unit) (source : bool) (a b : string).

(** C22. A call connects under every schedule.  Robot [a] has called robot [b] and
    its receiver is subscribed; publishing succeeds, [b] can build a
    connection, and the calls of the one offer/answer exchange succeed
    ([PeerConnNegotiates]: descriptions the connections themselves create
    parse, and are taken in the documented order).  However the network and
    the tasks of the two robots - [a]'s calling peer, both listeners, [b]'s
    new connection and its capture - interleave, and whenever and however
    many candidates the connections publish meanwhile: a run has at most
    fourteen steps, and seven for each candidate; wherever it stands it can
    be run on until nothing is left to do; and whenever nothing is left to
    do, [b] has published exactly one answer and both ends are [Stable], each
    with the other's description. *)
Theorem call_always_connects {PN : PeerConnNegotiates P} (counter ka kb : u32) (v : VideoPeer) :
  (forall p, put p = inr tt) -> mesh_id a = true -> mesh_id b = true -> a <> b ->
  (forall k, exists w k', answer mime_h264 k b = (Ok w, k')) ->
  (offer mime_h264 put counter a b).1 = Ok v ->
  exists so po, publish_offer a b so [] = Ok po /\ vp_sent v = [po] /\
  forall acts s, call_run mime_h264 put source a b (call_subscribed a b v ka kb) acts = Some s ->
    length acts <= 14 + 7 * candidates acts /\
    (at_rest mime_h264 put source a b s -> connected a b s so) /\
    exists more s', candidates more = 0 /\ call_run mime_h264 put source a b s more = Some s' /\
      at_rest mime_h264 put source a b s' /\ connected a b s' so.
Proof.
  intros Hput Ha Hb Hab Hans Hoff. pose proof Hoff as (Hr & Hs & Hn & Ht & c0 & d & po & Hc & Hl & Hpo & _ & Hsent)%offer_ok.
  exists (sdp_text d), po. split; [done|]. split; [done|]. intros acts s Hrun.
  set (ph := phase a b (vp_conn v) d true).
  assert (ph (14 + sub_rank true) (call_subscribed a b v ka kb)) as Hp
    by (unfold call_subscribed; rewrite Hsent; apply PhOffer; [split; [done|]; split; [constructor|done]|done|done]).
  destruct (phase_quiet a b Ha Hb Hab _ _ _ _ _ Hp) as [Hq Hz].
  pose proof (noisy_run mime_h264 put source a b Hput Ha Hb Hab Hans c0 (vp_conn v) d Hc Hl Hs) as Hruns.
  assert (weight a b (call_subscribed a b v ka kb) = 0) as Hw0 by by by apply start_light.
  destruct (Hruns true acts (14 + sub_rank true) (call_subscribed a b v ka kb) s) as (n & Hpn & Hlen); [by rewrite Hq|done|].
  assert (forall m t, ph m (quiet a b t) -> at_rest mime_h264 put source a b t -> connected a b t (sdp_text d)) as Hover.
  { intros m t Hpt Hrest. by destruct (noisy_over mime_h264 put source a b (vp_conn v) d Hs Hn true m t Hpt Hrest) as [|[? _]]. }
  split; [cbn in Hlen; lia|]. split; [by apply (Hover n)|].
  destruct (noisy_ends mime_h264 put source a b Hput Ha Hb Hab Hans c0 (vp_conn v) d Hc Hl Hs true _ n s (le_n _) Hpn)
    as (more & s' & H0 & H1 & H2).
  destruct (Hruns true more n s s' Hpn H1) as (m & Hm & _).
  exists more, s'. split; [done|]. split; [done|]. split; [done|]. by apply (Hover m).
Qed.

(** C23. [start_video_with_source] publishes the offer before its receiver is
    subscribed: from there, under the same conditions, every run still ends,
    within fifteen steps and seven for each candidate; but there is a run in
    which the answer arrives first.  It is dropped, [b]'s end is connected
    and the caller waits for ever; nothing publishes the offer again. *)
Theorem answer_can_be_lost {PN : PeerConnNegotiates P} (counter ka kb : u32) (v : VideoPeer) :
  (forall p, put p = inr tt) -> mesh_id a = true -> mesh_id b = true -> a <> b ->
  (forall k, exists w k', answer mime_h264 k b = (Ok w, k')) ->
  (offer mime_h264 put counter a b).1 = Ok v ->
  exists so,
  (forall acts s, call_run mime_h264 put source a b (call_start a b v ka kb) acts = Some s ->
     length acts <= 15 + 7 * candidates acts /\
     (at_rest mime_h264 put source a b s -> connected a b s so \/ answer_lost a b s so)) /\
  exists acts s, call_run mime_h264 put source a b (call_start a b v ka kb) acts = Some s /\
    at_rest mime_h264 put source a b s /\ answer_lost a b s so.
Proof.
  intros Hput Ha Hb Hab Hans Hoff. pose proof Hoff as (Hr & Hs & Hn & Ht & c0 & d & po & Hc & Hl & Hpo & _ & Hsent)%offer_ok.
  exists (sdp_text d). set (ph := phase a b (vp_conn v) d false).
  assert (ph (14 + sub_rank false) (call_start a b v ka kb)) as Hp
    by (unfold call_start; rewrite Hsent; apply PhOffer; [split; [done|]; split; [constructor|done]|done|done]).
  split; [|by apply (lost_run mime_h264 put source a b Hput Ha Hb Hab Hans c0 (vp_conn v) d Hc Hl Hs Hn false _ _ Hp)].
  intros acts s Hrun. destruct (phase_quiet a b Ha Hb Hab _ _ _ _ _ Hp) as [Hq Hz].
  assert (weight a b (call_start a b v ka kb) = 0) as Hw0 by by by apply start_light.
  destruct (noisy_run mime_h264 put source a b Hput Ha Hb Hab Hans c0 (vp_conn v) d Hc Hl Hs false acts
    (14 + sub_rank false) (call_start a b v ka kb) s) as (n & Hpn & Hlen); [by rewrite Hq|done|].
  split; [cbn in Hlen; lia|]. intros Hrest.
  destruct (noisy_over mime_h264 put source a b (vp_conn v) d Hs Hn false n s Hpn Hrest) as [|[_ ?]]; [by left|by right].
Qed.

(** A connected call does not keep strangers out.  The calling peer of [a]
    and [a]'s listener subscribe to the same keys, so an offer that any robot
    [c] makes to [a] reaches both as the same callback.  Where both
    connections accept it and answer, the calling peer applies it to the
    connection of the call it made - whose remote description becomes [c]'s -
    and answers [c] from it; the listener's new peer answers [c] as well: one
    offer, two answers, and the call to [b] is gone. *)
Theorem stranger_takes_over_call (counter k : u32) (c sa so : string) (v w : VideoPeer)
    (da e1 e2 : SessionDescription) (cn c1 c2 : conn) :
  (forall p, put p = inr tt) -> mesh_id a = true -> mesh_id c = true ->
  (offer mime_h264 put counter a b).1 = Ok v -> (answer mime_h264 k a).1 = Ok w ->
  parse_sdp SdpAnswer sa = inr da -> set_remote (vp_conn v) da = inr cn ->
  answers_offer cn so e1 c1 -> answers_offer (vp_conn w) so e2 c2 ->
  let v1 := video_run put v [VCall (OnAnswer b (mkSignal sa Answer b a [])); VRun 0] in
  sig_state (vp_conn v1) = Stable /\ remote_sdp (vp_conn v1) = Some sa /\
  exists po co p q,
    publish_offer c a so [] = Ok po /\ deliver_signal (receiver_tasks a) po = [co] /\
    let run u := video_run put u (VCall co :: replicate 4 (VRun 0)) in
    remote_sdp (vp_conn (run v1)) = Some so /\ vp_sent (run v1) = vp_sent v ++ [p] /\
    vp_sent (run w) = [q] /\
    publish_answer a c (sdp_text e1) [] = Ok p /\ publish_answer a c (sdp_text e2) [] = Ok q.
Proof.
  intros Hput Ha Hc (Hr & Hs & _ & Ht & _)%offer_ok (Hrw & Htw & Hsw & _)%answer_ok Hda Hcn H1 H2. cbn zeta.
  rewrite (answer_run put v b (mkSignal sa Answer b a []) da Ht Hda), Hcn.
  apply parse_sdp_desc in Hda as ->. apply set_remote_jsep in Hcn as [E R]. rewrite Hs in E. injection E as E.
  split; [done|]. split; [done|].
  destruct (proj1 (publish_delivered c a so Hc Ha)) as (po & Hpo & Hdel).
  destruct (offer_run put Hput (with_conn v cn) c (mkSignal so Offer c a []) e1 c1) as (p & R1 & P1 & _ & Q1);
    [done|done|by cbn; rewrite Hr|done|].
  destruct (offer_run put Hput w c (mkSignal so Offer c a []) e2 c2) as (q & R2 & P2 & _ & _);
    [done|done|by rewrite Hrw|done|].
  exists po, (OnOffer c (mkSignal so Offer c a [])), p, q.
  cbn [with_conn vp_robot] in P1. rewrite Hr in P1. rewrite Hrw in P2.
  rewrite R1, R2. cbn [vp_conn vp_sent with_conn]. by rewrite Hsw.
Qed.
End outcome.

(** ** Witnesses, on the machine that is a connection *)
Lemma call_always_connects_witness :
  exists so, forall acts s, call_run "video/H264" VideoEx.put_ok true "7" "8"
      (call_subscribed "7" "8" (VideoEx.caller "7" "8") NEXT_SSRC NEXT_SSRC) acts = Some s ->
    length acts <= 14 + 7 * candidates acts /\
    exists more s', call_run "video/H264" VideoEx.put_ok true "7" "8" s more = Some s' /\
      connected "7" "8" s' so.
Proof.
  destruct (call_always_connects "video/H264" VideoEx.put_ok true "7" "8" NEXT_SSRC NEXT_SSRC NEXT_SSRC
    (VideoEx.caller "7" "8")) as (so & po & _ & _ & H); [done|done|done|done| |done|].
  - intros k. by do 2 eexists.
  - exists so. intros acts s Hr. destruct (H acts s Hr) as (Hl & _ & more & s' & _ & H1 & _ & H2).
    split; [exact Hl|]. by exists more, s'.
Defined.

Lemma answer_can_be_lost_witness :
  exists acts s so, call_run "video/H264" VideoEx.put_ok true "7" "8"
      (call_start "7" "8" (VideoEx.caller "7" "8") NEXT_SSRC NEXT_SSRC) acts = Some s /\
    answer_lost "7" "8" s so.
Proof.
  destruct (answer_can_be_lost "video/H264" VideoEx.put_ok true "7" "8" NEXT_SSRC NEXT_SSRC NEXT_SSRC
    (VideoEx.caller "7" "8")) as (so & _ & acts & s & H1 & _ & H2); [done|done|done|done| |done|].
  - intros k. by do 2 eexists.
  - by exists acts, s, so.
Defined.

Lemma stranger_takes_over_call_witness :
  exists co, remote_sdp (vp_conn (video_run VideoEx.put_ok (video_run VideoEx.put_ok (VideoEx.caller "7" "8")
      [VCall (OnAnswer "8" (mkSignal "v=0 answer" Answer "8" "7" [])); VRun 0])
    (VCall co :: replicate 4 (VRun 0)))) = Some "v=0 stranger".
Proof.
  destruct (stranger_takes_over_call "video/H264" VideoEx.put_ok "7" "8" NEXT_SSRC NEXT_SSRC "9" "v=0 answer" "v=0 stranger"
    (VideoEx.caller "7" "8") (VideoEx.responder "7") (mkDesc SdpAnswer "v=0 answer")
    (mkDesc SdpAnswer "v=0 answer") (mkDesc SdpAnswer "v=0 answer")
    (Stable, Some "v=0 answer") (Stable, Some "v=0 stranger") (Stable, Some "v=0 stranger"))
    as (_ & _ & po & co & p & q & _ & _ & H & _); [done|done|done|done|done|done|done| | |].
  1,2: by do 2 eexists.
  exists co. exact H.
Defined.
