(* ===== verification/Programs.v ===== *)
(** * Programs: the library's handles on a session, and the programs under
      [examples/] that use it ([src/transport.rs], [examples/*.rs])

    [Transport] as a handle that shares a session and owns liveliness tokens,
    with its constructors; and the four demonstration programs as what they
    print, open, declare and spawn, in order, up to the wait that ends them. *)
From S2P Require Import Prelude Json Rules Topic Semantic SemanticSpec Engine Lease Auth Registration Channels Config Loop Transport Signaling Mesh Runtime Bootstrap Media Video Tasks Robot.

(** ** The handle *)
Section transport.
Context {session : Type} (zenoh_open : ZConfig -> string + session) (zenoh_locators : session -> list string)
        (json_strings : list string -> string + string).

Record Transport := mkTransport { tr_session : session; tr_tokens : list string }.

Definition from_session (s : session) : Transport := mkTransport s [].
(** The session is shared; the tokens stay with the other handle. *)
Definition from_arc_session (s : session) : Transport := mkTransport s [].
Definition session_arc (t : Transport) : session := tr_session t.

Definition open_with (config : ZConfig) : res string Transport :=
  match zenoh_open config with inl e => Err e | inr s => Ok (from_session s) end.
Definition open_router : res string Transport := open_with router_config.
Definition connect_to (endpoints : list string) : res string Transport :=
  open_with (client_config json_strings endpoints).
Definition loopback_config : ZConfig := router_config.
Definition connect_config (endpoints : list string) : ZConfig := client_config json_strings endpoints.
Definition open_test_router (port : u16) : res string Transport := open_with (test_router_config port).
Definition open_test_client (port : u16) : res string Transport := open_with (test_client_config port).
Definition locators (t : Transport) : list string := zenoh_locators (tr_session t).

(** [declare_liveliness] on the handle. *)
Definition declare (t : Transport) (robot_id : string) : res string Transport :=
  tokens ← declare_liveliness (tr_tokens t) robot_id;
  mret (mkTransport (tr_session t) tokens).

(** What [HotReload] keeps: a second handle on the session. *)
Definition reload_handle (t : Transport) : Transport := from_arc_session (session_arc t).

(** The tokens still declared when the handles in [dropped] are gone. *)
Definition declared_after (handles dropped : list Transport) : list string :=
  List.filter (fun k => negb (existsb (fun t => bool_decide (k ∈ tr_tokens t)) dropped))
    (concat (map tr_tokens handles)).
End transport.

(** ** The programs

    A program's actions so far and its result: a small writer monad over
    [res].  A program that reaches its wait has the result [Ok tt]. *)
Inductive Act :=
  | Printed (line : string)
  | Opened (config : ZConfig)
  | Declared (key : string)
  | Spawned (name : string) (t : Task).
Definition Prog (A : Type) : Type := list Act * res string A.
#[export] Instance prog_ret : MRet Prog := fun A a => ([], Ok a).
#[export] Instance prog_bind : MBind Prog := fun A B f m =>
  match m.2 with
  | Ok a => (m.1 ++ (f a).1, (f a).2)
  | Err e => (m.1, Err e)
  | Panic w => (m.1, Panic w)
  end.
Definition act (a : Act) : Prog unit := ([a], Ok tt).
Definition lift {A} (r : res string A) : Prog A := ([], r).

Section programs.
Context `{JN : JsonNumber} {W : Watch (Arc Rules)} {Q : Mpsc (string * Value)} {SW : SignalWire} {P : PeerConn}.
Context (read_to_string : string -> string + string)
        (toml_manifest : string -> string + RulesManifest)
        (rules_from_toml : string -> string + Rules) (rules_to_toml : Rules -> string + string)
        (demo_toml : string) (replace_id : string -> string -> string)
        (fmt_f64 : f64 -> string) (fmt_value : Value -> string).
Context (open_session : ZConfig -> string + unit) (declare_token : string -> string + unit)
        (sub : Pattern -> string + unit) (put : Put -> string + unit) (key_expr : string -> bool).

Definition print (line : string) : Prog unit := act (Printed line).
Definition read (path : string) : Prog string :=
  lift (match read_to_string path with
        | inl e => Err ("read " +:+ path +:+ ": " +:+ e)
        | inr t => Ok t
        end).

(** The session and the token with which every program begins; [context] is
    what precedes an error's message. *)
Definition join (open_context token_context robot_id : string) : Prog unit :=
  match open_session loopback_config with
  | inl e => lift (Err (open_context +:+ e))
  | inr _ =>
      _ ← act (Opened loopback_config);
      key ← lift (liveliness_key (E := string) robot_id);
      match declare_token (topic_str key) with
      | inl e => lift (Err (token_context +:+ e))
      | inr _ => act (Declared (topic_str key))
      end
  end.

Definition store_of (id : nat) (text : string) : res string ActiveRules := bootstrap rules_from_toml id text.
Definition spawn_engine (store : ActiveRules) : Prog unit :=
  act (Spawned "rule engine" (spawn_subsystem (run_engine sub store []))).

(** Each program's part before the session, then the rest. *)
Definition custom_rules_load (arg : option string) : Prog ActiveRules :=
  let path := default "examples/rules/sample.toml" arg in
  text ← read path;
  store ← lift (store_of 0 text);
  _ ← print ("custom_rules: loaded " +:+ path);
  mret store.
Definition custom_rules (arg : option string) : Prog unit :=
  store ← custom_rules_load arg;
  _ ← join "" "" "7";
  _ ← act (Spawned "hot-reload" (spawn_subsystem (run_hot_reload sub key_expr "7")));
  _ ← spawn_engine store;
  key ← lift (rules_key "7");
  print ("custom_rules: publishing on " +:+ topic_str key +:+ " hot-reloads the ruleset").

(** [run_engine] is awaited, not spawned. *)
Definition semantic_rules_load (arg : option string) : Prog Rules :=
  let path := default "examples/rules/hrc-cell.toml" arg in
  text ← read path;
  doc ← lift (map_err (fun e => "parse: " +:+ fmt_semantic_error e) (parse_semantic toml_manifest text));
  rs ← lift (map_err (fun e => "compile: " +:+ fmt_semantic_error e) (compile fmt_f64 fmt_value doc "7"));
  _ ← print ("semantic_rules: compiled " +:+ show_nat (length (rules rs)) +:+ " rule(s) from " +:+ path);
  mret rs.
Definition semantic_rules (arg : option string) : Prog (option LoopState) :=
  rs ← semantic_rules_load arg;
  _ ← join "open transport: " "declare liveliness: " "7";
  t ← lift (Rules_to_toml rules_to_toml rs);
  store ← lift (map_err (fun e => "bootstrap: " +:+ e) (store_of 0 t));
  lift (map_err (fun e => "run_engine: " +:+ e) (run_engine sub store [])).

(** The first [--robot-id] that has a value. *)
Fixpoint robot_arg (args : list string) : option string :=
  match args with
  | [] => None
  | arg :: rest =>
      if (arg =? "--robot-id")%string then
        match rest with value :: _ => Some value | [] => None end
      else robot_arg rest
  end.
Definition demo_robot_id (env : option string) (args : list string) : string :=
  default "7" (match env with Some id => Some id | None => robot_arg args end).

Definition mesh_demo (env : option string) (args : list string) : Prog unit :=
  robot_id ← mret (demo_robot_id env args);
  _ ← join "" "" robot_id;
  _ ← print ("mesh_demo: robot " +:+ robot_id +:+ " on loopback zenoh");
  rs ← lift (bootstrap_demo rules_from_toml demo_toml replace_id robot_id);
  spawn_engine (active_new (mkArc 0 rs)).

(** With the media feature; without it the program prints a line and exits. *)
Definition video_peer (mime_h264 : string) (counter : u32) (g : Gst) (codecs : string + list N)
    (arg : option string) : Prog VideoPeer :=
  peer ← lift (match arg with Some p => Ok p | None => Err "usage: video_peer <peer-id>" end);
  _ ← join "" "" "7";
  r ← lift (map_err (fun e => "video failed: " +:+ e)
        (start_video_with_source mime_h264 put counter true g codecs sub "7" peer Videotest));
  mret r.1.1.
Definition video_peer_without_media : list string * N :=
  (["video_peer requires the `media` feature: cargo run --features media --example video_peer -- <peer-id>"], 1%N).

(** ** What a program has opened, declared and spawned *)
Definition opened (p : list Act) : list ZConfig := omap (fun a => match a with Opened c => Some c | _ => None end) p.
Definition declared (p : list Act) : list string := omap (fun a => match a with Declared k => Some k | _ => None end) p.
Definition spawned (p : list Act) : list (string * Task) :=
  omap (fun a => match a with Spawned n t => Some (n, t) | _ => None end) p.

(** [join] opens and declares at most once, and in that order; the other acts
    neither open nor declare. *)
Lemma join_cases oc tc id :
  (opened (join oc tc id).1 = [] /\ declared (join oc tc id).1 = [] /\ is_ok (join oc tc id).2 = false) \/
  (opened (join oc tc id).1 = [loopback_config] /\
   (is_ok (join oc tc id).2 = true <-> declared (join oc tc id).1 <> []) /\
   (declared (join oc tc id).1 = [] \/
    exists key, liveliness_key (E := string) id = Ok key /\ declared (join oc tc id).1 = [topic_str key])).
Proof.
  unfold join. destruct (open_session loopback_config); [by left|]. right.
  unfold mbind, prog_bind, lift, act. cbn [fst snd app].
  destruct (liveliness_key id) as [key|e|w]; cbn [fst snd app]; [|split; [done|]; split; [done|by left]..].
  destruct (declare_token (topic_str key)); cbn [fst snd app]; (split; [done|]; split; [done|]); [by left|].
  right. by exists key.
Qed.

Definition quiet (a : Act) : bool := match a with Printed _ | Spawned _ _ => true | _ => false end.
Lemma quiet_opens l : forallb quiet l = true -> opened l = [] /\ declared l = [].
Proof. induction l as [|[] l IH]; [done|..]; intros H; try done; by apply IH. Qed.

(** A program that joins between quiet parts. *)
Lemma around_join {A B} (pre : Prog A) oc tc id (post : A -> Prog B) :
  forallb quiet pre.1 = true -> (forall a, forallb quiet (post a).1 = true) ->
  let p := a ← pre; _ ← join oc tc id; post a in
  (opened p.1 = [] \/ opened p.1 = [loopback_config]) /\
  (is_ok p.2 = true -> opened p.1 = [loopback_config] /\
     exists key, liveliness_key (E := string) id = Ok key /\ declared p.1 = [topic_str key]) /\
  (is_ok pre.2 = false -> opened p.1 = [] /\ declared p.1 = [] /\ spawned p.1 = spawned pre.1).
Proof.
  intros Hpre Hpost. unfold mbind, prog_bind. destruct pre as [acts [a|e|w]]; cbn [fst snd] in *;
    [|by destruct (quiet_opens acts Hpre) as [-> ->]; split; [left|]..].
  pose proof (join_cases oc tc id) as Hj. destruct (join oc tc id) as [jacts [[]|e|w]]; cbn [fst snd] in *;
    unfold opened, declared in *; rewrite !omap_app; destruct (quiet_opens acts Hpre) as [Ho Hd]; unfold opened, declared in Ho, Hd;
    rewrite Ho, Hd; cbn [app].
  - specialize (Hpost a). destruct (quiet_opens _ Hpost) as [Ho' Hd']. unfold opened, declared in Ho', Hd'.
    rewrite Ho', Hd', !app_nil_r. destruct Hj as [(_ & _ & Hf)|(-> & Hok & Hk)]; [done|].
    split; [by right|]. split; [|done]. intros _. split; [done|].
    destruct Hk as [Hk|Hk]; [|done]. by apply Hok in Hk.
  - destruct Hj as [(-> & _)|(-> & _)]; (split; [by auto|]; split; done).
  - destruct Hj as [(-> & _)|(-> & _)]; (split; [by auto|]; split; done).
Qed.

Lemma lift_quiet {A} (r : res string A) : forallb quiet (lift r).1 = true.
Proof. done. Qed.
Lemma bind_quiet {A B} (m : Prog A) (f : A -> Prog B) :
  forallb quiet m.1 = true -> (forall a, forallb quiet (f a).1 = true) -> forallb quiet (m ≫= f).1 = true.
Proof.
  intros Hm Hf. unfold mbind, prog_bind. destruct m as [l [a|e|w]]; cbn [fst snd] in *; [|done..].
  rewrite forallb_app, Hm. apply Hf.
Qed.
Ltac quiet_tac := intros; repeat first [done | apply bind_quiet; [|intros ?] | apply lift_quiet].

(** The demonstration programs stay on the loopback.  Each opens at most one
    session, the router that listens on 127.0.0.1; one that reaches its end
    has declared exactly its robot's token on it; and a program whose file is
    unreadable or no ruleset, or that lacks its argument, has opened, declared
    and spawned nothing. *)
Theorem programs_on_loopback (mime : string) (counter : u32) (g : Gst) (codecs : string + list N)
    (arg env : option string) (args : list string) :
  let joins {A B} (p : Prog A) (pre : Prog B) id :=
    (opened p.1 = [] \/ opened p.1 = [loopback_config]) /\
    (is_ok p.2 = true -> opened p.1 = [loopback_config] /\
       exists key, liveliness_key (E := string) id = Ok key /\ declared p.1 = [topic_str key]) /\
    (is_ok pre.2 = false -> opened p.1 = [] /\ declared p.1 = [] /\ spawned p.1 = spawned pre.1) in
  joins (custom_rules arg) (custom_rules_load arg) "7" /\
  joins (semantic_rules arg) (semantic_rules_load arg) "7" /\
  joins (mesh_demo env args) (mret tt : Prog unit) (demo_robot_id env args) /\
  joins (video_peer mime counter g codecs arg) (lift (match arg with Some p => Ok p | None => Err "usage: video_peer <peer-id>" end)) "7" /\
  config_value loopback_config "listen/endpoints" = Some ("[" +:+ quote "tcp/127.0.0.1:0" +:+ "]").
Proof.
  intros joins. unfold joins.
  split; [apply around_join; quiet_tac|]. split; [apply around_join; quiet_tac|].
  split; [|split; [apply around_join; quiet_tac|done]].
  assert (mesh_demo env args = (_ ← (mret tt : Prog unit); _ ← join "" "" (demo_robot_id env args);
    _ ← print ("mesh_demo: robot " +:+ demo_robot_id env args +:+ " on loopback zenoh");
    rs ← lift (bootstrap_demo rules_from_toml demo_toml replace_id (demo_robot_id env args));
    spawn_engine (active_new (mkArc 0 rs)))) as -> by reflexivity.
  apply around_join; quiet_tac.
Qed.

Lemma prog_bind_Ok {A B} (m : Prog A) (f : A -> Prog B) b :
  (m ≫= f).2 = Ok b -> exists a, m.2 = Ok a /\ (f a).2 = Ok b.
Proof. unfold mbind, prog_bind. destruct m as [l [a|e|w]]; [|done..]. intros H. by exists a. Qed.

(** [semantic_rules] runs what it compiled: when it reaches its engine, the
    file it was given parses as a manifest and compiles for robot 7, and the
    engine's store holds the rules that their own TOML text reads back as. *)
Theorem semantic_rules_runs_compiled (arg : option string) (l : option LoopState) :
  (semantic_rules arg).2 = Ok l ->
  exists text doc rs t rs',
    read_to_string (default "examples/rules/hrc-cell.toml" arg) = inr text /\
    parse_semantic toml_manifest text = Ok doc /\ compile fmt_f64 fmt_value doc "7" = Ok rs /\
    rules_to_toml rs = inr t /\ rules_from_toml t = inr rs' /\
    l = loop_start empty_state (active_new (mkArc 0 rs')) (subscribe_str sub) [].
Proof.
  intros (rs & Hl & H)%prog_bind_Ok. apply prog_bind_Ok in Hl as (text & Ht & Hl).
  apply prog_bind_Ok in Hl as (doc & Hd%map_err_Ok & Hl). apply prog_bind_Ok in Hl as (rs0 & Hc%map_err_Ok & Hl).
  apply prog_bind_Ok in Hl as (_ & _ & [= ->]).
  apply prog_bind_Ok in H as (_ & _ & H). apply prog_bind_Ok in H as (tt' & Htt%Rules_to_toml_Ok & H).
  apply prog_bind_Ok in H as (store & Hs%map_err_Ok & H%map_err_Ok).
  exists text, doc, rs, tt'. unfold read in Ht. cbn [lift snd] in Ht.
  destruct (read_to_string _) as [e|t]; [done|]. injection Ht as ->.
  unfold store_of, bootstrap in Hs. destruct (rules_from_toml tt') as [e|rs']; [done|]. injection Hs as <-.
  exists rs'. split; [done|]. split; [done|]. split; [done|]. split; [done|]. split; [done|].
  unfold run_engine in H. apply res_bind_Ok in H as (_ & _ & H). by apply res_bind_Ok in H as (_ & _ & [= <-]).
Qed.
End programs.

(** The hot reload's handle on the session owns no token: dropping it leaves
    every token of the process declared. *)
Theorem reload_handle_keeps_tokens {session : Type} (t : Transport (session := session)) (id : string)
    (key : Topic) :
  liveliness_key (E := string) id = Ok key ->
  exists t', declare t id = Ok t' /\ tr_session (reload_handle t') = tr_session t /\
    topic_str key ∈ declared_after [t'; reload_handle t'] [reload_handle t'].
Proof.
  intros Hk. unfold declare, declare_liveliness. rewrite Hk. cbn [mbind res_bind].
  eexists. split; [done|]. split; [done|]. unfold declared_after. cbn [map concat existsb reload_handle from_arc_session tr_tokens].
  rewrite app_nil_r. cbn [app]. apply list_elem_of_In, filter_In. split; [apply list_elem_of_In; set_solver|].
  rewrite bool_decide_false; [done|]. by intros ?%elem_of_nil.
Qed.
