(* ===== verification/Cli.v ===== *)
(** * Cli: the [rule check] and [rule compile] commands ([src/cli.rs])

    [run_rule_command] as a verdict on the text of the file; what it prints
    and the exit code follow from the verdict.  Argument parsing is clap's;
    the readers are the [toml] and [serde_json] crates'. *)
From S2P Require Import Prelude Json Rules Topic Semantic SemanticSpec Engine EngineSpec.

Section cli.
Context `{JN : JsonNumber}.
Context (toml_manifest json_manifest : string -> string + RulesManifest)
        (rules_from_toml : string -> string + Rules)
        (fmt_f64 : f64 -> string) (fmt_value : Value -> string).

Inductive CheckVerdict :=
  | ValidSemantic
  | ValidRaw
  | Invalid (e : SemanticError)
  | ParseError (e : SemanticError)
  | CheckPanic (why : string).

(** Exit status 0 on an accepted file; [process::exit(1)] on a rejected one. *)
Definition check_accepts (v : CheckVerdict) : bool :=
  match v with ValidSemantic | ValidRaw => true | _ => false end.

(** The raw fallback both branches try: it parses, has rules, and no rule has
    an empty guard. *)
Definition raw_rules (text : string) : option Rules :=
  match rules_from_toml text with
  | inr rs =>
      match rules rs with
      | [] => None
      | l => if forallb (fun r => negb (match w_all (r_when r) with [] => true | _ => false end)
                                  || negb (match w_any (r_when r) with [] => true | _ => false end)) l
             then Some rs else None
      end
  | inl _ => None
  end.

(** The first trigger with an invalid topic. *)
Definition bad_topic (rs : Rules) : option Trigger :=
  List.find (fun t => is_err (topic_try_new (t_topic t)))
    (concat (map (fun r => w_all (r_when r) ++ w_any (r_when r)) (rules rs))).

Definition rule_check (text : string) : CheckVerdict :=
  match parse_semantic_auto toml_manifest json_manifest text with
  | Ok doc =>
      match validate fmt_f64 fmt_value doc with
      | Ok _ => ValidSemantic
      | Err e => match raw_rules text with Some _ => ValidRaw | None => Invalid e end
      | Panic w => CheckPanic w
      end
  | Err e =>
      match raw_rules text with
      | Some rs => match bad_topic rs with None => ValidRaw | Some _ => ParseError e end
      | None => ParseError e
      end
  | Panic w => CheckPanic w
  end.

Definition rule_compile (text : string) (robot_id : option string) : res SemanticError Rules :=
  doc ← parse_semantic_auto toml_manifest json_manifest text;
  compile fmt_f64 fmt_value doc (default "7" robot_id).

Lemma raw_rules_guards text rs :
  raw_rules text = Some rs ->
  rules_from_toml text = inr rs /\ rules rs <> [] /\
  Forall (fun r => guard_empty (r_when r) = false) (rules rs).
Proof.
  unfold raw_rules. destruct (rules_from_toml text) as [|rs']; [done|].
  destruct (rules rs') as [|r l] eqn:E; [done|].
  destruct (forallb _ _) eqn:Hf; [|done]. intros [= <-]. rewrite E. split; [done|]. split; [done|].
  rewrite forallb_forall in Hf. apply Forall_forall. intros r' Hr%list_elem_of_In.
  specialize (Hf r' Hr). by destruct (r_when r') as [[] []].
Qed.

Lemma parse_auto_not_panic text :
  is_panic (parse_semantic_auto toml_manifest json_manifest text) = false.
Proof.
  unfold parse_semantic_auto, parse_semantic, parse_semantic_json, parse_with.
  destruct (guess_format text); [destruct (json_manifest text)|destruct (toml_manifest text)]; done.
Qed.

Lemma bad_topic_None rs :
  bad_topic rs = None ->
  Forall (fun r => Forall (fun t => is_ok (topic_try_new (t_topic t)) = true)
    (guard_triggers (r_when r))) (rules rs).
Proof.
  unfold bad_topic, guard_triggers. intros H. apply Forall_forall. intros r Hr.
  apply Forall_forall. intros t Ht.
  pose proof (find_none _ _ H t) as Hn. cbv beta in Hn.
  pose proof (topic_try_new_not_panic (t_topic t)) as Hp.
  destruct (topic_try_new (t_topic t)); [done| |done]. exfalso.
  assert (true = false); [|done]. apply Hn. rewrite in_concat.
  exists (w_all (r_when r) ++ w_any (r_when r)).
  split; [|by apply list_elem_of_In].
  apply (in_map (fun r => w_all (r_when r) ++ w_any (r_when r))). by apply list_elem_of_In.
Qed.

Lemma rule_check_no_panic text w : rule_check text <> CheckPanic w.
Proof.
  unfold rule_check. pose proof (parse_auto_not_panic text) as Hp.
  destruct (parse_semantic_auto toml_manifest json_manifest text) as [doc|e|w']; [| |done].
  - destruct (validate_cases fmt_f64 fmt_value doc) as [Hc _].
    destruct (validate fmt_f64 fmt_value doc) as [[]|e|w']; [done| |done]. by destruct (raw_rules text).
  - destruct (raw_rules text) as [rs|]; [by destruct (bad_topic rs)|done].
Qed.

(** What an accepted check means: the command never panics, and a file it
    accepts either parses as a semantic manifest all of whose rules are
    valid, or parses as a raw ruleset that has rules, none with an empty
    guard; in the latter case the topics of the triggers are valid if the
    text did not parse as a manifest, and are not checked at all if it parsed
    but failed validation. *)
Theorem rule_check_sound (text : string) :
  (forall w, rule_check text <> CheckPanic w) /\
  (rule_check text = ValidSemantic ->
     exists doc, parse_semantic_auto toml_manifest json_manifest text = Ok doc /\
       forallb (rule_valid (Semantic.zones doc)) (m_rules doc) = true) /\
  (rule_check text = ValidRaw ->
     exists rs, rules_from_toml text = inr rs /\ rules rs <> [] /\
       Forall (fun r => guard_empty (r_when r) = false) (rules rs) /\
       (is_ok (parse_semantic_auto toml_manifest json_manifest text) = false ->
        Forall (fun r => Forall (fun t => is_ok (topic_try_new (t_topic t)) = true)
          (guard_triggers (r_when r))) (rules rs))).
Proof.
  unfold rule_check. pose proof (parse_auto_not_panic text) as Hp.
  destruct (parse_semantic_auto toml_manifest json_manifest text) as [doc|e|w]; [| |done].
  - destruct (validate_cases fmt_f64 fmt_value doc) as [Hc Hv].
    destruct (validate fmt_f64 fmt_value doc) as [[]|e|w]; [| |done].
    + split; [done|]. split; [|done]. intros _. by exists doc.
    + destruct (raw_rules text) as [rs|] eqn:Hr; [|done]. apply raw_rules_guards in Hr as (H1&H2&H3).
      split; [done|]. split; [done|]. intros _. exists rs. done.
  - destruct (raw_rules text) as [rs|] eqn:Hr; [|done]. apply raw_rules_guards in Hr as (H1&H2&H3).
    destruct (bad_topic rs) eqn:Hb; [done|].
    split; [done|]. split; [done|]. intros _. exists rs. split_and!; try done.
    intros _. by apply bad_topic_None.
Qed.
End cli.
