(* ===== verification/RuleFormat.v ===== *)
(** * RuleFormat: the derived formats of rules and manifests

    The JSON forms of the types of [src/rules.rs] and [src/semantic.rs], over
    the combinators of Serde.v: what [to_value] builds and what [from_value]
    and [from_str] accept.  Rule data is written and read; a manifest is only
    read.  Where the types recurse ([Predicate], [SemanticWhen]) so do the
    readers, on the tree. *)
From S2P Require Import Prelude Json Serde Rules Semantic Cli.

Section formats.
Context `{JN : JsonNumber}.

(** ** [src/rules.rs] *)
Definition qos_names : list (string * Qos) := [("reliable", Reliable); ("best_effort", BestEffort)].
#[export] Instance serde_qos : Serde Qos := {|
  ser q := Str (match q with Reliable => "reliable" | BestEffort => "best_effort" end);
  de := de_unit_enum qos_names |}.

Definition op_names : list (string * Op) :=
  [("Eq", OpEq); ("Ne", OpNe); ("Lt", OpLt); ("Gt", OpGt); ("Le", OpLe); ("Ge", OpGe);
   ("SameZoneAs", SameZoneAs)].
#[export] Instance serde_op : Serde Op := {|
  ser o := Str (match o with
                | OpEq => "Eq" | OpNe => "Ne" | OpLt => "Lt" | OpGt => "Gt" | OpLe => "Le"
                | OpGe => "Ge" | SameZoneAs => "SameZoneAs"
                end);
  de := de_unit_enum op_names |}.

Definition mode_names : list (string * EvalMode) := [("Edge", Edge); ("Level", Level)].
#[export] Instance serde_mode : Serde EvalMode := {|
  ser m := Str (match m with Edge => "Edge" | Level => "Level" end);
  de := de_unit_enum mode_names |}.

(** A newtype variant's object. *)
Definition variant (k : string) (v : Value) : Value := Object [(k, v)].

#[export] Instance serde_prim : Serde PrimitiveRef := {|
  ser p := match p with
           | PSite => Str "Site" | PZone => Str "Zone" | PRobot => Str "Robot"
           | HumanPresence => Str "HumanPresence"
           | Proximity e => variant "Proximity" (ser e)
           end;
  de v := match de_enum v with
          | Some ("Site", p) => unit_variant PSite p
          | Some ("Zone", p) => unit_variant PZone p
          | Some ("Robot", p) => unit_variant PRobot p
          | Some ("HumanPresence", p) => unit_variant HumanPresence p
          | Some ("Proximity", p) => Proximity <$> newtype_variant de p
          | _ => None
          end |}.

#[export] Instance serde_operand : Serde Operand := {|
  ser o := match o with
           | OBool b => variant "Bool" (ser b)
           | OInt z => variant "Int" (ser z)
           | OFloat f => variant "Float" (ser f)
           | OStr s => variant "Str" (ser s)
           | Field n => variant "Field" (ser n)
           | Prim p => variant "Prim" (ser p)
           end;
  de v := match de_enum v with
          | Some ("Bool", p) => OBool <$> newtype_variant de p
          | Some ("Int", p) => OInt <$> newtype_variant de p
          | Some ("Float", p) => OFloat <$> newtype_variant de p
          | Some ("Str", p) => OStr <$> newtype_variant de p
          | Some ("Field", p) => Field <$> newtype_variant de p
          | Some ("Prim", p) => Prim <$> newtype_variant de p
          | _ => None
          end |}.

Definition de_comparison (v : Value) : option Predicate :=
  match struct_slots false ["op"; "lhs"; "rhs"] v with
  | Some [op; lhs; rhs] =>
      op ← field_req de op; lhs ← field_req de lhs; rhs ← field_req de rhs; Some (Comparison op lhs rhs)
  | _ => None
  end.
Fixpoint de_predicate (v : Value) : option Predicate :=
  match v with
  | Object [(k, x)] =>
      if (k =? "Comparison")%string then de_comparison x
      else if (k =? "And")%string then
        match x with Array l => And <$> mapM de_predicate l | _ => None end
      else if (k =? "Or")%string then
        match x with Array l => Or <$> mapM de_predicate l | _ => None end
      else if (k =? "Not")%string then Not <$> de_predicate x
      else None
  | _ => None
  end.
Fixpoint ser_predicate (p : Predicate) : Value :=
  match p with
  | Comparison op lhs rhs =>
      variant "Comparison" (ser_struct [("op", ser op); ("lhs", ser lhs); ("rhs", ser rhs)])
  | And ps => variant "And" (Array (map ser_predicate ps))
  | Or ps => variant "Or" (Array (map ser_predicate ps))
  | Not p => variant "Not" (ser_predicate p)
  end.
#[export] Instance serde_predicate : Serde Predicate := {|
  ser := ser_predicate; de := de_predicate |}.

#[export] Instance serde_action : Serde Action := {|
  ser a := ser_struct [("topic", ser (a_topic a)); ("qos", ser (a_qos a)); ("payload", a_payload a)];
  de v := match struct_slots false ["topic"; "qos"; "payload"] v with
          | Some [t; q; p] =>
              t ← field_req de t; q ← field_req de q; p ← field_req de_value p; Some (mkAction t q p)
          | _ => None
          end |}.

#[export] Instance serde_trigger : Serde Trigger := {|
  ser t := ser_struct [("topic", ser (t_topic t)); ("pred", ser_option ser (t_pred t)); ("mode", ser (t_mode t))];
  de v := match struct_slots false ["topic"; "pred"; "mode"] v with
          | Some [t; p; m] =>
              t ← field_req de t; p ← field_default None (de_option de) p;
              m ← field_default EvalMode_default de m; Some (mkTrigger t p m)
          | _ => None
          end |}.

#[export] Instance serde_when : Serde When := {|
  ser w := ser_struct [("all", ser (w_all w)); ("any", ser (w_any w))];
  de v := match struct_slots false ["all"; "any"] v with
          | Some [al; an] =>
              al ← field_default [] de al; an ← field_default [] de an; Some (mkWhen al an)
          | _ => None
          end |}.

#[export] Instance serde_rule : Serde Rule := {|
  ser r := ser_struct [("name", ser (r_name r)); ("when", ser (r_when r)); ("actions", ser (r_actions r))];
  de v := match struct_slots false ["name"; "when"; "actions"] v with
          | Some [n; w; a] =>
              n ← field_req de n; w ← field_default When_default de w; a ← field_req de a;
              Some (mkRule n w a)
          | _ => None
          end |}.

#[export] Instance serde_rules : Serde Rules := {|
  ser rs := ser_struct [("rules", ser (rules rs))];
  de v := match struct_slots false ["rules"] v with
          | Some [l] => l ← field_default [] de l; Some (mkRules l)
          | _ => None
          end |}.

(** The version is a [u64]. *)
Definition ser_version (n : N) : Value := ser (uint_wrap 64 n).
Definition de_version (v : Value) : option N := uint_val <$> de (A := u64) v.
#[export] Instance serde_ruleset : Serde Ruleset := {|
  ser rs := ser_struct [("ruleset_name", ser (ruleset_name rs)); ("version", ser_version (version rs));
                        ("robot_owner", ser (robot_owner rs)); ("rules", ser (rs_rules rs))];
  de v := match struct_slots false ["ruleset_name"; "version"; "robot_owner"; "rules"] v with
          | Some [n; ver; o; l] =>
              n ← field_req de n; ver ← field_req de_version ver; o ← field_req de o; l ← field_req de l;
              Some (mkRuleset n ver o l)
          | _ => None
          end |}.

(** ** Values that fit the formats: integers of 64 bits, finite floats,
    payloads that are maps ordered by key *)
Definition fits_operand (o : Operand) : Prop :=
  match o with
  | OInt z => (- 2 ^ 63 <= z < 2 ^ 63)%Z
  | OFloat f => is_finite f = true
  | _ => True
  end.
Fixpoint fits_predicate (p : Predicate) : Prop :=
  match p with
  | Comparison _ l r => fits_operand l /\ fits_operand r
  | And ps | Or ps => foldr (fun p acc => fits_predicate p /\ acc) True ps
  | Not p => fits_predicate p
  end.
Definition fits_action (a : Action) : Prop := normalize (a_payload a) = a_payload a.
Definition fits_trigger (t : Trigger) : Prop :=
  match t_pred t with Some p => fits_predicate p | None => True end.
Definition fits_when (w : When) : Prop := Forall fits_trigger (w_all w) /\ Forall fits_trigger (w_any w).
Definition fits_rule (r : Rule) : Prop := fits_when (r_when r) /\ Forall fits_action (r_actions r).
Definition fits_ruleset (rs : Ruleset) : Prop := (version rs < 2 ^ 64)%N /\ Forall fits_rule (rs_rules rs).

Section laws.
Context {JL : JsonNumberLaws JN}.

#[export] Instance qos_law : SerdeLaw Qos (fun _ => True).
Proof. by intros [] _. Qed.
#[export] Instance op_law : SerdeLaw Op (fun _ => True).
Proof. by intros [] _. Qed.
#[export] Instance mode_law : SerdeLaw EvalMode (fun _ => True).
Proof. by intros [] _. Qed.
#[export] Instance prim_law : SerdeLaw PrimitiveRef (fun _ => True).
Proof. by intros [] _. Qed.
#[export] Instance operand_law : SerdeLaw Operand fits_operand.
Proof.
  intros [b|z|f|s|n|p] Hf; cbn [ser de serde_operand de_enum variant newtype_variant]; try done.
  - by rewrite (de_ser z).
  - by rewrite (de_ser f).
  - by rewrite (de_ser p).
Qed.

Lemma ser_predicate_not_null (p : Predicate) : ser p <> Null.
Proof. by destruct p. Qed.

Lemma de_option_ser {A} `{Serde A} (fits : A -> Prop) `{!SerdeLaw A fits} (o : option A) :
  (forall a, ser a <> Null) -> match o with Some a => fits a | None => True end ->
  de_option de (ser_option ser o) = Some o.
Proof.
  intros Hn Ho. destruct o as [a|]; [|done]. simpl. pose proof (de_ser a Ho) as Hd.
  specialize (Hn a). unfold de_option. destruct (ser a); by rewrite ?Hd.
Qed.

Lemma fits_all ps : foldr (fun p acc => fits_predicate p /\ acc) True ps <-> Forall fits_predicate ps.
Proof. induction ps as [|p ps IH]; simpl; rewrite ?Forall_cons, ?IH; [|done]. by split. Qed.

#[export] Instance predicate_law : SerdeLaw Predicate fits_predicate.
Proof.
  intros p. induction p as [op l r|ps IH|ps IH|p IH] using Predicate_nested_ind; intros Hf;
    cbn [ser de serde_predicate ser_predicate de_predicate variant String.eqb Ascii.eqb Bool.eqb] in *.
  - destruct Hf as [Hl Hr]. unfold de_comparison. fields.
    by rewrite (de_ser op I), (de_ser l Hl), (de_ser r Hr).
  - cbn [fits_predicate] in Hf. rewrite fits_all in Hf. rewrite mapM_inverse; [done|]. intros p Hp.
    rewrite Forall_forall in IH, Hf. by apply IH; [|apply Hf].
  - cbn [fits_predicate] in Hf. rewrite fits_all in Hf. rewrite mapM_inverse; [done|]. intros p Hp.
    rewrite Forall_forall in IH, Hf. by apply IH; [|apply Hf].
  - by rewrite IH.
Qed.

#[export] Instance action_law : SerdeLaw Action fits_action.
Proof.
  intros [t q p] Hf. unfold fits_action in Hf. simpl in Hf. cbn [ser de serde_action]. fields.
  by rewrite (de_ser t I), (de_ser q I); simpl; rewrite Hf.
Qed.
#[export] Instance trigger_law : SerdeLaw Trigger fits_trigger.
Proof.
  intros [t p m] Hf. cbn [ser de serde_trigger t_pred]. fields.
  by rewrite (de_ser t I), (de_option_ser fits_predicate p ser_predicate_not_null Hf), (de_ser m I).
Qed.
#[export] Instance when_law : SerdeLaw When fits_when.
Proof.
  intros [al an] [Ha Hn]. cbn [ser de serde_when]. fields. by rewrite (de_ser al Ha), (de_ser an Hn).
Qed.
#[export] Instance rule_law : SerdeLaw Rule fits_rule.
Proof.
  intros [n w a] [Hw Ha]. cbn [ser de serde_rule]. fields.
  by rewrite (de_ser n I), (de_ser w Hw), (de_ser a Ha).
Qed.
#[export] Instance rules_law : SerdeLaw Rules (fun rs => Forall fits_rule (rules rs)).
Proof. intros [l] Hl. cbn [ser de serde_rules]. fields. by rewrite (de_ser l Hl). Qed.

Lemma version_law n : (n < 2 ^ 64)%N -> de_version (ser_version n) = Some n.
Proof.
  intros Hn. unfold de_version, ser_version. rewrite (de_ser (uint_wrap 64 n) I).
  cbn [fmap option_fmap option_map]. f_equal. by apply N.mod_small.
Qed.
End laws.
End formats.

(** ** [src/semantic.rs]: reading a manifest *)
Section manifest.
Context `{JN : JsonNumber}.

Definition de_site (v : Value) : option SiteInfo :=
  match struct_slots true ["id"; "frame"] v with
  | Some [i; f] => i ← field_default "" de i; f ← field_default "" de f; Some (mkSite i f)
  | _ => None
  end.

Definition de_zone (v : Value) : option ZoneShape :=
  match struct_slots true ["shape"; "x"; "y"; "w"; "h"] v with
  | Some [s; x; y; w; h] =>
      s ← field_req de s; x ← field_req de x; y ← field_req de y;
      w ← field_default f64_zero de w; h ← field_default f64_zero de h; Some (mkZone s x y w h)
  | _ => None
  end.

Definition de_near (v : Value) : option NearSpec :=
  match struct_slots true ["entity"; "dist"] v with
  | Some [e; d] => e ← field_req de e; d ← field_req de d; Some (mkNear e d)
  | _ => None
  end.

Definition when_fields : list string :=
  ["in_zone"; "not_in_zone"; "near_human"; "not_near_human"; "near"; "role"; "all"; "any"].

(** Every member is paired with its reading as a list of guards, which only
    the [all] and [any] fields look at. *)
Fixpoint de_when (v : Value) : option SemanticWhen :=
  match match v with
        | Object m =>
            map_slots true when_fields
              (map (fun kv : string * Value =>
                 let '(k, x) := kv in
                 (k, (x, match x with Array l => mapM de_when l | _ => None end))) m)
        | Array l =>
            seq_slots when_fields
              (map (fun x => (x, match x with Array l => mapM de_when l | _ => None end)) l)
        | _ => None
        end with
  | Some [iz; niz; nh; nnh; n; r; al; an] =>
      iz ← field_default None (de_option de ∘ fst) iz;
      niz ← field_default None (de_option de ∘ fst) niz;
      nh ← field_default None (de_option de ∘ fst) nh;
      nnh ← field_default None (de_option de ∘ fst) nnh;
      n ← field_default None (de_option de_near ∘ fst) n;
      r ← field_default None (de_option de ∘ fst) r;
      al ← field_default [] snd al;
      an ← field_default [] snd an;
      Some (mkSemanticWhen iz niz nh nnh n r al an)
  | _ => None
  end.

Definition de_semantic_action (v : Value) : option SemanticAction :=
  match struct_slots true ["estop"; "slow_to"; "resume"; "topic"; "payload"; "qos"] v with
  | Some [e; s; r; t; p; q] =>
      e ← field_default false de e; s ← field_default None (de_option de) s;
      r ← field_default false de r; t ← field_default None (de_option de) t;
      p ← field_default None (de_option de_value) p; q ← field_default default_qos de q;
      Some (mkSemanticAction e s r t p q)
  | _ => None
  end.

Definition de_semantic_rule (v : Value) : option SemanticRule :=
  match struct_slots true ["name"; "when"; "actions"] v with
  | Some [n; w; a] =>
      n ← field_req de n; w ← field_default SemanticWhen_default de_when w;
      a ← field_req (fun v => match v with Array l => mapM de_semantic_action l | _ => None end) a;
      Some (mkSemanticRule n w a)
  | _ => None
  end.

(** [HashMap<String, Zone>]: of equal keys the last stands. *)
Definition de_zones (v : Value) : option (gmap string ZoneShape) :=
  match v with
  | Object m =>
      foldl (fun acc kv => zs ← acc; z ← de_zone kv.2; Some (<[kv.1 := z]> zs)) (Some ∅) m
  | _ => None
  end.

Definition de_semantic_rules (v : Value) : option (list SemanticRule) :=
  match v with Array l => mapM de_semantic_rule l | _ => None end.

(** The manifest itself, alone of these types, does not deny unknown members. *)
Definition de_manifest (v : Value) : option RulesManifest :=
  match struct_slots false ["site"; "zones"; "rules"] v with
  | Some [s; z; r] =>
      s ← field_default SiteInfo_default de_site s; z ← field_default ∅ de_zones z;
      r ← field_default [] de_semantic_rules r; Some (mkManifest s z r)
  | _ => None
  end.

Definition de_ruleset_rule (v : Value) : option SemanticRulesetRule :=
  match struct_slots true ["rule_name"; "when"; "actions"] v with
  | Some [n; w; a] =>
      n ← field_req de n; w ← field_default SemanticWhen_default de_when w;
      a ← field_default [] (fun v => match v with Array l => mapM de_semantic_action l | _ => None end) a;
      Some (mkSemanticRulesetRule n w a)
  | _ => None
  end.

Definition de_semantic_ruleset (v : Value) : option SemanticRuleset :=
  match struct_slots true ["ruleset_name"; "version"; "robot_owner"; "site"; "zones"; "rule"] v with
  | Some [n; ver; o; s; z; r] =>
      n ← field_req de n; ver ← field_default 0%N de_version ver; o ← field_req de o;
      s ← field_default SiteInfo_default de_site s; z ← field_default ∅ de_zones z;
      r ← field_default [] (fun v => match v with Array l => mapM de_ruleset_rule l | _ => None end) r;
      Some (mkSemanticRuleset n ver o s z r)
  | _ => None
  end.

(** [serde_json::from_str::<RulesManifest>] and [::<SemanticRuleset>]. *)
Context {JT : JsonText}.
Definition json_manifest : string -> string + RulesManifest := from_text de_manifest.
Definition json_ruleset : string -> string + SemanticRuleset := from_text de_semantic_ruleset.
End manifest.

(** ** Properties *)
Section properties.
Context `{JN : JsonNumber}.

(** C27. Rule data survives its JSON form: for a ruleset whose integers have 64
    bits, whose floats are finite and whose payloads are maps ordered by key,
    [from_value] reads from what [to_value] wrote the same ruleset, every
    nested predicate, trigger and payload included. *)
Theorem ruleset_format_roundtrip {JL : JsonNumberLaws JN} (rs : Ruleset) :
  fits_ruleset rs -> de (ser rs) = Some rs.
Proof.
  destruct rs as [n v o l]. intros [Hv Hl]. cbn [version rs_rules] in *.
  cbn [ser de serde_ruleset ruleset_name version robot_owner rs_rules]. fields.
  by rewrite (de_ser n I), (version_law v Hv), (de_ser o I), (de_ser l Hl).
Qed.

(** A guard with an unknown member does not read. *)
Lemma de_when_unknown m k x : (k, x) ∈ m -> known when_fields k = false -> de_when (Object m) = None.
Proof.
  intros Hin Hk. cbn [de_when].
  rewrite (map_slots_denied _ _ k (x, match x with Array l => mapM de_when l | _ => None end)); [done| |done].
  apply list_elem_of_fmap. by exists (k, x).
Qed.
Lemma de_rule_bad_when m w : slot_of m "when" = Some (SlotIs w) -> de_when w = None ->
  de_semantic_rule (Object m) = None.
Proof.
  intros Hs Hw. unfold de_semantic_rule, struct_slots, map_slots.
  destruct (true && _); [done|]. cbn [mapM]. rewrite Hs.
  destruct (slot_of m "name") as [n|], (slot_of m "actions") as [a|]; try done.
  cbn [mbind option_bind mret option_ret field_default]. rewrite Hw. by destruct (field_req de n).
Qed.

Context {JT : JsonText}.
Context (toml_manifest : string -> string + RulesManifest)
        (rules_from_toml : string -> string + Rules)
        (fmt_f64 : f64 -> string) (fmt_value : Value -> string).

(** Unknown members of a JSON manifest.  Inside a guard they are fatal: if
    any rule's [when] has a member that is no condition, the file does not
    parse.  At the top level they are ignored: a file whose rules sit under
    another name than [rules] passes [rule check] as a valid ruleset and
    compiles to the empty one. *)
Theorem manifest_unknown_members (text : string) (m : list (string * Value)) :
  guess_format text = Json -> parse_json text = inr (Object m) ->
  (forall l mr mw k x,
     slot_of m "rules" = Some (SlotIs (Array l)) -> Object mr ∈ l ->
     slot_of mr "when" = Some (SlotIs (Object mw)) -> (k, x) ∈ mw -> known when_fields k = false ->
     exists e, parse_semantic_auto toml_manifest json_manifest text = Err e /\ code e = Parse) /\
  (forall s si,
     slot_of m "rules" = Some SlotAbsent -> slot_of m "zones" = Some SlotAbsent ->
     slot_of m "site" = Some (SlotIs s) -> de_site s = Some si -> site_id si <> "" ->
     rule_check toml_manifest json_manifest rules_from_toml fmt_f64 fmt_value text = ValidSemantic /\
     forall id, rule_compile toml_manifest json_manifest fmt_f64 fmt_value text id = Ok (mkRules [])).
Proof.
  intros Hg Hp.
  assert (parse_semantic_auto toml_manifest json_manifest text =
    match de_manifest (Object m) with
    | Some d => Ok d
    | None => Err (semantic_error_new Parse (data_error (Object m)))
    end) as Hauto.
  { unfold parse_semantic_auto, parse_semantic_json, parse_with, json_manifest, from_text.
    rewrite Hg, Hp. by destruct (de_manifest (Object m)). }
  split.
  - intros l mr mw k x Hr Hin Hw Hkx Hk. rewrite Hauto.
    assert (de_manifest (Object m) = None) as ->; [|eexists; split; done].
    pose proof (de_rule_bad_when mr (Object mw) Hw (de_when_unknown mw k x Hkx Hk)) as Hbad.
    unfold de_manifest, struct_slots, map_slots. cbn [andb mapM]. rewrite Hr.
    destruct (slot_of m "site") as [s|], (slot_of m "zones") as [z|]; try done.
    simpl. rewrite (mapM_None_elem de_semantic_rule l (Object mr) Hin Hbad).
    destruct (field_default _ _ s); simpl; [|done]. by destruct (field_default _ _ z).
  - intros s si Hr Hz Hs Hsi Hid.
    assert (de_manifest (Object m) = Some (mkManifest si ∅ [])) as Hd.
    { unfold de_manifest, struct_slots, map_slots. cbn [andb mapM]. rewrite Hr, Hz, Hs. simpl.
      by rewrite Hsi. }
    rewrite Hd in Hauto. unfold rule_check, rule_compile. rewrite Hauto.
    split; [done|]. intros id. simpl. unfold compile, validate. simpl.
    by apply String.eqb_neq in Hid as ->.
Qed.
End properties.

(** *** Examples *)
Module FormatEx.
Definition ruleset : Ruleset (JN := model_number) :=
  mkRuleset "cell" 3 "7"
    [mkRule "stop"
       (mkWhen [mkTrigger "robot/7/local/human"
                  (Some (Not (Or [Comparison OpLe (Field "distance_m") (OFloat (f64_of_Z 2));
                                  Comparison OpEq (OInt (-5)) (Prim (Proximity "8"))]))) Level] [])
       [mkAction "stop/fleet/cmd" Reliable (Object [("stop", Bool true)])]].

(** A reader that gives the manifest whose rules are under ["rule"]. *)
Definition misspelled : list (string * Value (JN := model_number)) :=
  [("site", Object [("id", Str "plant-1")]); ("rule", Array [Str "whatever"])].
Definition text_of_tree : JsonText (JN := model_number) :=
  {| print_json _ := ""; parse_json _ := inr (Object misspelled); data_error _ := "data" |}.
Definition no_reader {A} (_ : string) : string + A := inl "no reader".
End FormatEx.

Lemma ruleset_format_roundtrip_witness : de (ser FormatEx.ruleset) = Some FormatEx.ruleset.
Proof.
  apply ruleset_format_roundtrip. split; [reflexivity|]. repeat constructor; discriminate.
Defined.

Lemma manifest_unknown_members_witness :
  rule_check FormatEx.no_reader (json_manifest (JT := FormatEx.text_of_tree)) FormatEx.no_reader
    (fun _ => "") (fun _ => "") "{" = ValidSemantic.
Proof.
  refine (proj1 (proj2 (manifest_unknown_members (JT := FormatEx.text_of_tree) FormatEx.no_reader
    FormatEx.no_reader (fun _ => "") (fun _ => "") "{" FormatEx.misspelled eq_refl eq_refl)
    (Object [("id", Str "plant-1")]) (mkSite "plant-1" "") eq_refl eq_refl eq_refl eq_refl _)).
  discriminate.
Defined.
