(* ===== verification/Reload.v ===== *)
(** * Reload: from a text on the rules topic to what the engine fires

    [Rules::from_toml] and [Ruleset::from_toml] of [src/rules.rs] as the
    toml crate's parser, which yields a tree, followed by the derived reader
    of RuleFormat.v; and the hot-reload task of Node.v over them. *)
From S2P Require Import Prelude Json Rules Topic Engine EngineSpec EngineProps Registry ClientConfig Lease Registration Auth Transport Channels Config Loop Node Serde Runtime Bootstrap Robot Cli RuleFormat.

Section reload.
Context `{JN : JsonNumber} {W : Watch (Arc Rules)} {WL : WatchLaws W} {Q : Mpsc (string * Value)}.
(** The parser: a tree, or a syntax error; [de_error] is the message of a
    tree the derived reader refuses. *)
Context (toml_tree : string -> string + Value) (de_error : string)
        (ruleset_to_toml : Ruleset -> string + string) (sha256 : string -> string).

Definition from_toml {A} {SA : Serde A} (text : string) : string + A :=
  match toml_tree text with
  | inl e => inl e
  | inr v => match de v with Some a => inr a | None => inl de_error end
  end.
Definition Rules_from_toml : string -> string + Rules := from_toml.
Definition Ruleset_from_toml : string -> string + Ruleset := from_toml.

(** A document none of whose members is [rules] is the empty ruleset, and no
    ruleset envelope. *)
Definition unrelated (ms : list (string * Value)) : bool :=
  forallb (fun kv => negb (kv.1 =? "rules")%string) ms.

Lemma unrelated_empty ms : unrelated ms = true -> de (A := Rules) (Object ms) = Some Rules_default.
Proof.
  intros Hu. cbn [de serde_rules struct_slots]. rewrite map_slots_unknown; [done|].
  unfold unrelated in Hu. rewrite forallb_forall in Hu |- *. intros kv Hkv. specialize (Hu kv Hkv).
  unfold known. cbn [existsb]. by rewrite orb_false_r, String.eqb_sym.
Qed.

Lemma unrelated_no_ruleset ms : unrelated ms = true -> de (A := Ruleset) (Object ms) = None.
Proof.
  intros Hu. cbn [de serde_ruleset struct_slots map_slots andb].
  assert (slot_of ms "rules" = Some SlotAbsent) as Hs.
  { unfold slot_of. replace (List.filter _ ms) with (@nil (string * Value)); [done|].
    unfold unrelated in Hu. induction ms as [|[k v] ms IH]; [done|]. cbn [forallb List.filter fst] in *.
    apply andb_true_iff in Hu as [Hk Hu]. apply negb_true_iff in Hk. rewrite Hk. by apply IH. }
  cbn [mapM]. rewrite Hs.
  destruct (slot_of ms "ruleset_name") as [n|], (slot_of ms "version") as [v|],
    (slot_of ms "robot_owner") as [o|]; try done. cbn.
  destruct (field_req _ n), (field_req _ v), (field_req _ o); done.
Qed.

Lemma empty_tick now (l : LoopState) :
  arc_val (rx_borrow (watch_tx (lp_store l)) (store_rx l)) = Rules_default ->
  fired (on_tick now l) = fired l.
Proof.
  intros H. rewrite on_tick_fired. unfold tick_with_arc. rewrite H. cbn. by rewrite app_nil_r.
Qed.

(** C13. A text without rules disarms a robot.  In every state a robot's node
    reaches, a message on its rules topic whose document has no member
    [rules] - an empty message, or one whose table is misspelt [[[rule]]] -
    is not rejected: it parses as the empty ruleset, which replaces the one
    evaluated, and from then on no tick fires anything.  The same text leaves
    a server's rules alone, because a ruleset envelope requires its
    members. *)
Theorem unrelated_text_disarms (e : EvalState) (init : Arc Rules) (sub : string -> string + unit)
    (early : list (Arc Rules)) (reg : option Registry) (n0 n : Node)
    (db : nat -> bool) (ts robot_id : string) (arc : nat) (text : string) (ms : list (string * Value)) :
  node_start e init sub early reg = Some n0 ->
  rtc (node_step Rules_from_toml Ruleset_from_toml ruleset_to_toml sha256) n0 n ->
  toml_tree text = inr (Object ms) -> unrelated ms = true ->
  exists n', node_reload Rules_from_toml Ruleset_from_toml ruleset_to_toml sha256 db ts robot_id arc text n
      = Ok n' /\
    (reg = None -> evaluated_rules n' = Rules_default /\
       forall now, fired (on_tick now (nd_loop n')) = fired (nd_loop n)) /\
    (is_some reg = true -> lp_store (nd_loop n') = lp_store (nd_loop n)).
Proof.
  intros Hs Hr Ht Hu. destruct (node_inv_run _ _ _ _ _ _ _ _ _ _ _ Hs Hr) as [Hreg Hrcv _ _ _].
  unfold node_reload, reload_step. cbn [rl_registry rl_store]. destruct (nd_registry n) as [g|] eqn:Hg.
  - unfold Ruleset_from_toml at 1, from_toml. rewrite Ht, (unrelated_no_ruleset _ Hu).
    eexists. split; [done|]. split; [by intros ->|done].
  - unfold Rules_from_toml at 1, from_toml. rewrite Ht, (unrelated_empty _ Hu).
    eexists. split; [done|]. split; [|by rewrite <- Hreg]. intros _.
    assert (forall n', lp_store (nd_loop n') = store_swap (lp_store (nd_loop n)) (mkArc arc Rules_default) ->
      evaluated_rules n' = Rules_default) as He.
    { intros n' Hn'. unfold evaluated_rules. rewrite borrow_value, Hn'. cbn. by rewrite value_send_open. }
    split; [by apply He|]. intros now. etrans; [by apply empty_tick, He|done].
Qed.
End reload.

(** An empty message, to a robot that watches [sensor/a]. *)
Module ReloadEx.
Definition toml_tree (t : string) : string + Value (JN := model_number) :=
  if (t =? "")%string then inr (Object []) else inl "syntax".
End ReloadEx.

Lemma unrelated_text_disarms_witness :
  exists n, node_reload (Rules_from_toml ReloadEx.toml_tree "data") (Ruleset_from_toml ReloadEx.toml_tree "data")
      RegEx.writer RegEx.sha all_ok "" "7" 1 "" (NodeEx.started []) = Ok n /\
    evaluated_rules n = Rules_default.
Proof.
  destruct (unrelated_text_disarms ReloadEx.toml_tree "data" RegEx.writer RegEx.sha empty_state LoopEx.old
    LoopEx.sub_all [] None (NodeEx.started []) (NodeEx.started []) all_ok "" "7" 1 "" [] eq_refl (rtc_refl _ _)
    eq_refl eq_refl) as (n & Hn & Hd & _).
  exists n. split; [exact Hn|exact (proj1 (Hd eq_refl))].
Defined.
