(* ===== verification/Command.v ===== *)
(** * Command: what the [rule] commands print and how the process ends
      ([src/cli.rs], [src/bin])

    [run_rule_command] with its output on both streams, on top of the verdicts
    of Cli.v and the JSON forms of RuleFormat.v: the lines for people and for
    machines, the exit status, and whether the rules [rule compile] prints can
    be read again. *)
From S2P Require Import Prelude Json Serde Rules Topic Semantic SemanticSpec Cli RuleFormat.

(** ** The printed document

    [to_string_pretty] writes each struct with its members in the order of
    their declaration. *)
(** A document struct is plain when its members are. *)
Ltac plain_doc :=
  constructor; [repeat (first [apply Forall_nil_2 | apply Forall_cons_2; [cbn [snd]|]])
               |apply distinct_NoDup; reflexivity].

Section doc.
Context `{JN : JsonNumber}.
Fixpoint predicate_doc (p : Predicate) : Value :=
  match p with
  | Comparison op lhs rhs =>
      variant "Comparison" (Object [("op", ser op); ("lhs", ser lhs); ("rhs", ser rhs)])
  | And ps => variant "And" (Array (map predicate_doc ps))
  | Or ps => variant "Or" (Array (map predicate_doc ps))
  | Not p => variant "Not" (predicate_doc p)
  end.
Definition action_doc (a : Action) : Value :=
  Object [("topic", ser (a_topic a)); ("qos", ser (a_qos a)); ("payload", a_payload a)].
Definition trigger_doc (t : Trigger) : Value :=
  Object [("topic", ser (t_topic t)); ("pred", ser_option predicate_doc (t_pred t)); ("mode", ser (t_mode t))].
Definition when_doc (w : When) : Value :=
  Object [("all", Array (map trigger_doc (w_all w))); ("any", Array (map trigger_doc (w_any w)))].
Definition rule_doc (r : Rule) : Value :=
  Object [("name", ser (r_name r)); ("when", when_doc (r_when r)); ("actions", Array (map action_doc (r_actions r)))].
Definition rules_doc (rs : Rules) : Value := Object [("rules", Array (map rule_doc (rules rs)))].

(** A reader finds in it what it finds in the value's own tree. *)
Ltac same_fields :=
  rewrite slots_ser_struct by done;
  erewrite slots_object by (reflexivity || done);
  cbn [map present assoc_get String.eqb Ascii.eqb Bool.eqb field_req field_default].

Lemma mapM_map_ext {A B} (f : Value -> option B) (g h : A -> Value) l :
  (forall x, x ∈ l -> f (g x) = f (h x)) -> mapM f (map g l) = mapM f (map h l).
Proof.
  intros H. induction l as [|x l IH]; [done|]. simpl. rewrite H by left.
  by rewrite IH by (intros; apply H; by right).
Qed.

Lemma predicate_doc_read p : de (A := Predicate) (predicate_doc p) = de (ser p).
Proof.
  induction p as [op l r|ps IH|ps IH|p IH] using Predicate_nested_ind;
    cbn [ser de serde_predicate ser_predicate predicate_doc variant de_predicate String.eqb Ascii.eqb Bool.eqb] in *.
  - unfold de_comparison. by same_fields.
  - rewrite Forall_forall in IH. by rewrite (mapM_map_ext _ predicate_doc ser_predicate).
  - rewrite Forall_forall in IH. by rewrite (mapM_map_ext _ predicate_doc ser_predicate).
  - by rewrite IH.
Qed.
Lemma action_doc_read a : de (A := Action) (action_doc a) = de (ser a).
Proof. destruct a. unfold action_doc. cbn [ser de serde_action]. by same_fields. Qed.
Lemma trigger_doc_read t : de (A := Trigger) (trigger_doc t) = de (ser t).
Proof.
  destruct t as [tp p m]. unfold trigger_doc. cbn [ser de serde_trigger t_pred]. same_fields.
  assert (de_option (de (A := Predicate)) (ser_option predicate_doc p) = de_option de (ser_option ser p)) as ->; [|done].
  destruct p as [p|]; [|done]. cbn [ser_option]. pose proof (predicate_doc_read p) as H.
  assert (forall v, v <> Null -> de_option (de (A := Predicate)) v = Some <$> de v) as Hn by by intros [].
  by rewrite !Hn, H by by destruct p.
Qed.
Lemma when_doc_read w : de (A := When) (when_doc w) = de (ser w).
Proof.
  destruct w as [al an]. unfold when_doc. cbn [ser de serde_when]. same_fields. cbn [de ser serde_list w_all w_any].
  by rewrite !(mapM_map_ext de trigger_doc ser) by (intros; apply trigger_doc_read).
Qed.
Lemma rule_doc_read r : de (A := Rule) (rule_doc r) = de (ser r).
Proof.
  destruct r as [n w a]. unfold rule_doc. cbn [ser de serde_rule]. same_fields. cbn [r_name r_when r_actions].
  rewrite when_doc_read. cbn [de ser serde_list].
  by rewrite (mapM_map_ext de action_doc ser) by (intros; apply action_doc_read).
Qed.
Lemma rules_doc_read rs : de (A := Rules) (rules_doc rs) = de (ser rs).
Proof.
  destruct rs as [l]. unfold rules_doc. cbn [ser de serde_rules]. same_fields. cbn [de ser serde_list rules].
  by rewrite (mapM_map_ext de rule_doc ser) by (intros; apply rule_doc_read).
Qed.

(** Its parts that hold no float survive the text. *)
Lemma plain_map {A} (f : A -> Value) d l :
  (forall x, x ∈ l -> plain_value d (f x)) -> plain_value (S d) (Array (map f l)).
Proof. intros H. constructor. apply Forall_forall. intros v (x & -> & Hx)%list_elem_of_fmap. by apply H. Qed.

Lemma plain_action_doc a d : plain_value d (a_payload a) -> plain_value (S d) (action_doc a).
Proof. intros Hp. destruct a as [t [] p]; unfold action_doc; plain_doc; first [exact Hp|constructor]. Qed.
Lemma plain_rules_doc (rs : Rules) :
  (forall r t, r ∈ rules rs -> t ∈ w_all (r_when r) ++ w_any (r_when r) -> plain_value 110 (trigger_doc t)) ->
  (forall r a, r ∈ rules rs -> a ∈ r_actions r -> plain_value 110 (a_payload a)) ->
  plain_value 127 (rules_doc rs).
Proof.
  intros Ht Ha. apply (plain_mono 116); [|lia]. unfold rules_doc. plain_doc.
  apply plain_map. intros r Hr. unfold rule_doc. plain_doc; [constructor|..].
  - apply (plain_mono 112); [|lia]. unfold when_doc. plain_doc; apply plain_map; intros t Hin;
      apply (Ht r t Hr), elem_of_app; tauto.
  - apply (plain_mono 112); [|lia]. apply plain_map. intros a Hin. by apply plain_action_doc, (Ha r).
Qed.
End doc.

Section command.
Context `{JN : JsonNumber} {JT : JsonText}.
Context (toml_manifest : string -> string + RulesManifest)
        (rules_from_toml : string -> string + Rules)
        (fmt_f64 : f64 -> string) (fmt_value : Value -> string).
(** The file system, [to_string_pretty], and the [Debug] form of a boxed
    error, which [main] prints. *)
Context (read_to_string : string -> string + string) (to_string_pretty : Value -> string)
        (debug_error : string -> string).

(** ** The commands *)
Inductive RuleSubcommand :=
  | Check (path : string) (json : bool)
  | Compile (path : string) (robot_id : option string) (json : bool).

(** How [run_rule_command] ends: it returns, exits the process, or panics. *)
Inductive Ending := Returns (r : string + unit) | Exits (code : nat) | Panics (why : string).
Record Output := mkOutput { out_lines : list string; err_lines : list string; ending : Ending }.

(** [serde_json::json!({..})], printed on one line. *)
Definition json_line (fields : list (string * string)) : string :=
  print_json (ser_struct (map (fun kv => (kv.1, Str kv.2)) fields)).

Definition cannot_read (path e : string) : Output :=
  mkOutput [] [] (Returns (inl ("cannot read " +:+ path +:+ ": " +:+ e))).

Definition check_output (path : string) (json : bool) (v : CheckVerdict) : Output :=
  let rejected label e :=
    mkOutput []
      [if json then json_line [("status", "error"); ("path", path); ("error", fmt_semantic_error e)]
       else label +:+ ": " +:+ fmt_semantic_error e] (Exits 1) in
  match v with
  | ValidSemantic =>
      mkOutput [if json then json_line [("status", "ok"); ("path", path)]
                else "OK: " +:+ path +:+ " is a valid semantic ruleset"] [] (Returns (inr tt))
  | ValidRaw =>
      mkOutput [if json then json_line [("status", "ok"); ("path", path); ("kind", "raw")]
                else "OK: " +:+ path +:+ " is a valid raw ruleset"] [] (Returns (inr tt))
  | Invalid e => rejected "INVALID" e
  | ParseError e => rejected "PARSE ERROR" e
  | CheckPanic w => mkOutput [] [] (Panics w)
  end.

Definition compile_output (text : string) (robot_id : option string) : Output :=
  let failed label e := mkOutput [] [label +:+ ": " +:+ fmt_semantic_error e] (Exits 1) in
  match parse_semantic_auto toml_manifest json_manifest text with
  | Err e => failed "PARSE ERROR" e
  | Panic w => mkOutput [] [] (Panics w)
  | Ok doc =>
      match compile fmt_f64 fmt_value doc (default "7" robot_id) with
      | Ok rs => mkOutput [to_string_pretty (rules_doc rs)] [] (Returns (inr tt))
      | Err e => failed "COMPILE ERROR" e
      | Panic w => mkOutput [] [] (Panics w)
      end
  end.

Definition run_rule_command (cmd : RuleSubcommand) : Output :=
  match cmd with
  | Check path json =>
      match read_to_string path with
      | inl e => cannot_read path e
      | inr text =>
          check_output path json
            (rule_check toml_manifest json_manifest rules_from_toml fmt_f64 fmt_value text)
      end
  | Compile path robot_id _ =>
      match read_to_string path with
      | inl e => cannot_read path e
      | inr text => compile_output text robot_id
      end
  end.

(** [main] returns the command's result: an error is printed and the process
    ends with status 1; a panic ends it with 101. *)
Definition status (o : Output) : nat :=
  match ending o with Returns (inr _) => 0 | Returns (inl _) => 1 | Exits c => c | Panics _ => 101 end.
Definition stderr (o : Output) : list string :=
  err_lines o ++ match ending o with Returns (inl e) => ["Error: " +:+ debug_error e] | _ => [] end.

(** ** Which compiled rules can be read again *)
Definition cond_finite (c : Cond) : bool :=
  match c with
  | CNearHuman d | CNotNearHuman d => is_finite d
  | CNear n => is_finite (dist n)
  | _ => true
  end.
Definition rule_finite (r : SemanticRule) : bool := forallb cond_finite (all_conditions (sr_when r)).
Definition manifest_finite (doc : RulesManifest) : bool := forallb rule_finite (m_rules doc).
(** No float is printed: the distances and speeds that are not finite are
    [null]. *)
Definition cond_exact (c : Cond) : bool :=
  match c with
  | CNearHuman d | CNotNearHuman d => negb (is_finite d)
  | CNear n => negb (is_finite (dist n))
  | _ => true
  end.
Definition action_exact (a : SemanticAction) : bool :=
  match verb_of a with SlowTo v => negb (is_finite v) | _ => true end.
Definition rule_exact (r : SemanticRule) : bool :=
  forallb cond_exact (all_conditions (sr_when r)) && forallb action_exact (sr_actions r).
Definition manifest_exact (doc : RulesManifest) : bool := forallb rule_exact (m_rules doc).
End command.

Section properties.
Context `{JN : JsonNumber} {JL : JsonNumberLaws JN} {JT : JsonText} {JTL : JsonTextLaw JT}.
Context (toml_manifest : string -> string + RulesManifest)
        (rules_from_toml : string -> string + Rules)
        (fmt_f64 : f64 -> string) (fmt_value : Value -> string).
Context (read_to_string : string -> string + string) (to_string_pretty : Value -> string)
        (debug_error : string -> string).

(** ** Compiled rules read again *)
Lemma cond_trigger_fits id c : cond_finite c = true -> fits_trigger (cond_trigger id c).
Proof. by destruct c. Qed.

Lemma cond_trigger_unreadable id c : cond_finite c = false -> de (A := Trigger) (ser (cond_trigger id c)) = None.
Proof.
  assert (forall d, is_finite d = false -> value_of_f64 d = Null) as Hnull.
  { intros d Hd. unfold value_of_f64. by rewrite (from_f64_nonfinite d Hd). }
  intros Hc. destruct c as [z|z|d|d|n|r]; try done; cbn [cond_finite] in Hc; apply Hnull in Hc;
    cbn [cond_trigger ser de serde_trigger t_topic t_pred t_mode]; fields;
    rewrite (de_ser (A := string) _ I);
    cbn [mbind option_bind ser_option ser serde_predicate ser_predicate variant de_option de de_predicate
         String.eqb Ascii.eqb Bool.eqb]; unfold de_comparison; fields; cbn [serde_operand ser serde_f64]; by rewrite Hc.
Qed.

Lemma primitive_action_fits id a :
  match sa_payload a with Some p => normalize p = p | None => True end -> fits_action (expand_action id a).
Proof.
  unfold fits_action, expand_action, verb_of. intros Hp.
  destruct (estop a); [done|]. destruct (resume a); [done|].
  destruct (slow_to a) as [v|].
  - cbn. unfold value_of_f64. by destruct (from_f64 v).
  - destruct (sa_topic a) as [t|]; [|done]. cbn. by destruct (sa_payload a).
Qed.

Lemma nonfinite_null d : is_finite d = false -> value_of_f64 d = Null.
Proof. intros Hd. unfold value_of_f64. by rewrite (from_f64_nonfinite d Hd). Qed.

Lemma cond_trigger_plain id c : cond_exact c = true -> plain_value 110 (trigger_doc (cond_trigger id c)).
Proof.
  intros Hc. apply (plain_mono 8); [|lia].
  destruct c as [z|z|d|d|n|r]; cbn [cond_exact] in Hc; rewrite ?negb_true_iff in Hc; unfold trigger_doc;
    cbn [cond_trigger t_topic t_pred t_mode ser_option ser serde_string serde_mode serde_op serde_prim serde_operand
         serde_f64 zone_is predicate_doc variant];
    rewrite ?(nonfinite_null _ Hc); repeat first [plain_doc|constructor]; done.
Qed.
Lemma primitive_action_plain id a :
  action_exact a = true -> match sa_payload a with Some p => plain_value 110 p | None => True end ->
  plain_value 110 (a_payload (expand_action id a)).
Proof.
  unfold action_exact, expand_action, verb_of. intros Ha Hp.
  destruct (estop a); [by cbn [a_payload]; repeat first [plain_doc|constructor]|].
  destruct (resume a); [by cbn [a_payload]; repeat first [plain_doc|constructor]|].
  destruct (slow_to a) as [v|].
  - rewrite negb_true_iff in Ha. cbn [a_payload]. rewrite (nonfinite_null v Ha). by repeat first [plain_doc|constructor].
  - destruct (sa_topic a) as [t|]; [|by cbn [a_payload]; repeat first [plain_doc|constructor]].
    cbn. destruct (sa_payload a); [exact Hp|constructor].
Qed.

(** One unreadable trigger spoils the document. *)
Lemma when_unreadable w t : t ∈ w_all w ++ w_any w -> de (A := Trigger) (ser t) = None -> de (A := When) (ser w) = None.
Proof.
  destruct w as [al an]. cbn [w_all w_any]. rewrite elem_of_app. intros Ht Hd.
  cbn [ser de serde_when]. fields. cbn [ser de serde_list w_all w_any].
  assert (forall l : list Trigger, t ∈ l -> mapM (de (A := Trigger)) (map ser l) = None) as Hl.
  { intros l Hin. apply (mapM_None_elem de _ (ser t)); [|done]. apply list_elem_of_fmap. by exists t. }
  destruct Ht as [Ht|Ht]; [by rewrite (Hl al Ht)|].
  destruct (mapM de (map ser al)); cbn [mbind option_bind]; [|done]. by rewrite (Hl an Ht).
Qed.
Lemma rules_unreadable rs r : r ∈ rules rs -> de (A := When) (ser (r_when r)) = None -> de (A := Rules) (ser rs) = None.
Proof.
  destruct rs as [l]. cbn [rules]. intros Hr Hw. cbn [ser de serde_rules]. fields. cbn [ser de serde_list rules].
  rewrite (mapM_None_elem de _ (ser r)); [done|apply list_elem_of_fmap; by exists r|].
  destruct r as [n w a]. cbn [r_when] in Hw. cbn [ser de serde_rule]. fields.
  cbn [r_name r_when]. rewrite (de_ser n I). cbn [mbind option_bind]. by rewrite Hw.
Qed.

Lemma forallb_false_elem {A} (f : A -> bool) l : forallb f l = false -> exists x, x ∈ l /\ f x = false.
Proof.
  induction l as [|x l IH]; [done|]. cbn [forallb]. destruct (f x) eqn:E; [|exists x; by split; [left|]].
  intros (y & Hy & Hf)%IH. exists y. by split; [right|].
Qed.

Lemma compiled_document doc id rs :
  has_char slash id = false ->
  (forall r a p, r ∈ m_rules doc -> a ∈ sr_actions r -> sa_payload a = Some p -> normalize p = p) ->
  compile fmt_f64 fmt_value doc id = Ok rs ->
  de (rules_doc rs) = if manifest_finite doc then Some rs else None.
Proof.
  intros Hi Hord H%(compiled_refines _ _ _ _ _ Hi). rewrite rules_doc_read.
  destruct (manifest_finite doc) eqn:Hfin; unfold manifest_finite in Hfin.
  - apply (de_ser (fits := fun rs => Forall fits_rule (rules rs)) rs).
    rewrite forallb_forall in Hfin. apply Forall_forall. intros r Hr.
    destruct (list_elem_of_lookup_1 _ _ Hr) as [i Hl].
    destruct (Forall2_lookup_r _ _ _ _ _ H Hl) as (sr & Hsr & _ & Ha & _ & Hp & _).
    apply list_elem_of_lookup_2 in Hsr. split.
    + assert (Forall fits_trigger (w_all (r_when r) ++ w_any (r_when r))) as Hf; [|by apply Forall_app in Hf].
      rewrite Hp. apply Forall_forall. intros t (c & -> & Hc)%list_elem_of_fmap. apply cond_trigger_fits.
      specialize (Hfin sr). rewrite <- list_elem_of_In in Hfin. specialize (Hfin Hsr).
      unfold rule_finite in Hfin. rewrite forallb_forall in Hfin. by apply Hfin, list_elem_of_In.
    + rewrite Ha. apply Forall_forall. intros x (a & -> & Hin)%list_elem_of_fmap. apply primitive_action_fits.
      destruct (sa_payload a) as [p|] eqn:E; [|done]. by apply (Hord sr a).
  - apply forallb_false_elem in Hfin as (sr & Hsr & Hbad).
    destruct (list_elem_of_lookup_1 _ _ Hsr) as [i Hl].
    destruct (Forall2_lookup_l _ _ _ _ _ H Hl) as (r & Hr & _ & _ & _ & Hp & _).
    apply list_elem_of_lookup_2 in Hr. apply forallb_false_elem in Hbad as (c & Hc & Hcf).
    apply (rules_unreadable rs r Hr), (when_unreadable _ (cond_trigger id c)); [|by apply cond_trigger_unreadable].
    rewrite Hp. apply list_elem_of_fmap. by exists c.
Qed.

(** Without a float the document survives the text. *)
Lemma compiled_plain doc id rs :
  has_char slash id = false -> manifest_exact doc = true ->
  (forall r a p, r ∈ m_rules doc -> a ∈ sr_actions r -> sa_payload a = Some p -> plain_value 110 p) ->
  compile fmt_f64 fmt_value doc id = Ok rs -> plain_value 127 (rules_doc rs).
Proof.
  intros Hi Hex Hpl H%(compiled_refines _ _ _ _ _ Hi).
  assert (forall r, r ∈ rules rs -> exists sr, sr ∈ m_rules doc /\ rule_refines id sr r /\ rule_exact sr = true) as Hsrc.
  { intros r (i & Hl)%list_elem_of_lookup_1. destruct (Forall2_lookup_r _ _ _ _ _ H Hl) as (sr & Hsr & Hr).
    apply list_elem_of_lookup_2 in Hsr. exists sr. split; [done|]. split; [done|].
    unfold manifest_exact in Hex. rewrite forallb_forall in Hex. by apply Hex, list_elem_of_In. }
  apply plain_rules_doc.
  - intros r t (sr & _ & (_ & _ & _ & Hp & _) & [Hc _]%andb_true_iff)%Hsrc Ht. rewrite Hp in Ht.
    apply list_elem_of_fmap in Ht as (c & -> & Hin). apply cond_trigger_plain.
    rewrite forallb_forall in Hc. by apply Hc, list_elem_of_In.
  - intros r x (sr & Hsr & (_ & Ha & _) & [_ Hc]%andb_true_iff)%Hsrc Hx. rewrite Ha in Hx.
    apply list_elem_of_fmap in Hx as (a & -> & Hin). apply primitive_action_plain.
    + rewrite forallb_forall in Hc. by apply Hc, list_elem_of_In.
    + destruct (sa_payload a) as [p|] eqn:E; [|done]. by apply (Hpl sr a).
Qed.

(** ** What is printed *)
Notation run := (run_rule_command toml_manifest rules_from_toml fmt_f64 fmt_value read_to_string to_string_pretty).
Notation verdict := (rule_check toml_manifest json_manifest rules_from_toml fmt_f64 fmt_value).

Lemma json_line_reads fields :
  distinct (map fst fields) = true ->
  parse_json (json_line fields) = inr (ser_struct (map (fun kv => (kv.1, Str kv.2)) fields)).
Proof.
  intros Hd. unfold json_line. apply parse_print, (plain_mono 1); [|lia]. apply plain_struct.
  - apply Forall_forall. intros kv (x & -> & _)%list_elem_of_fmap. constructor.
  - by rewrite map_map.
Qed.

(** [rule check] prints what it decides.  On a readable file it ends with
    status 0 and one line on standard output when it accepts, with status 1
    and one line on standard error when it rejects, and never panics; with
    [--json] that line is a document whose [status] is [ok] or [error]
    accordingly and whose [path] is the path given.  On a file that cannot be
    read it ends with status 1 and [main]'s message, the same with [--json]
    and without. *)
Theorem check_reports_verdict (path : string) (json : bool) :
  let o := run (Check path json) in
  (forall e, read_to_string path = inl e ->
     status o = 1 /\ out_lines o = [] /\
     stderr debug_error o = ["Error: " +:+ debug_error ("cannot read " +:+ path +:+ ": " +:+ e)]) /\
  (forall text, read_to_string path = inr text ->
     let accepted := check_accepts (verdict text) in
     status o = (if accepted then 0 else 1) /\
     exists line, out_lines o = (if accepted then [line] else []) /\
       stderr debug_error o = (if accepted then [] else [line]) /\
       (json = true -> exists v, parse_json line = inr v /\ value_get v "path" = Some (Str path) /\
          value_get v "status" = Some (Str (if accepted then "ok" else "error")))).
Proof.
  intros o. unfold o, run_rule_command. split; [by intros e ->|]. intros text ->.
  pose proof (rule_check_no_panic toml_manifest json_manifest rules_from_toml fmt_f64 fmt_value text) as Hn.
  destruct (verdict text) as [| |e|e|w] eqn:E; [..|by destruct (Hn w)];
    (split; [done|]); (eexists; split; [done|]); (split; [done|]); intros ->;
    eexists; (split; [by apply json_line_reads|]); done.
Qed.

(** C33. [rule compile] prints rules or nothing.  For a robot identifier without a
    slash it never panics; it ends with status 0 exactly when the manifest
    parses and compiles, and then prints one document, the compiled rules with
    their members in the order of declaration, whatever [--json] says;
    otherwise it ends with status 1, prints nothing on standard output and one
    line, never JSON, on standard error.  A reader of rules that is given the
    tree of that document finds the very rules that were compiled when every
    distance in the manifest is finite, and accepts nothing otherwise: an
    infinite or NaN distance passes validation and is written [null].  Of the
    printed text itself the same holds when no finite distance or speed is in
    it, where [serde_json]'s reader is exact. *)
Theorem compile_output_reads_back (path text : string) (robot_id : option string) (json : bool) :
  (forall v, plain_value 127 v -> parse_json (to_string_pretty v) = inr v) ->
  read_to_string path = inr text ->
  has_char slash (default "7" robot_id) = false ->
  let o := run (Compile path robot_id json) in
  let compiled := rule_compile toml_manifest json_manifest fmt_f64 fmt_value text robot_id in
  run (Compile path robot_id (negb json)) = o /\
  (status o = 0 <-> is_ok compiled = true) /\
  match compiled with
  | Ok rs =>
      exists printed, out_lines o = [printed] /\ printed = to_string_pretty (rules_doc rs) /\
      stderr debug_error o = [] /\
      forall doc, parse_semantic_auto toml_manifest json_manifest text = Ok doc ->
        let payload_of p := exists r a, r ∈ m_rules doc /\ a ∈ sr_actions r /\ sa_payload a = Some p in
        (forall p, payload_of p -> normalize p = p) ->
        de (rules_doc rs) = (if manifest_finite doc then Some rs else None) /\
        (manifest_exact doc = true -> (forall p, payload_of p -> plain_value 110 p) ->
         from_text de printed =
           if manifest_finite doc then inr rs else inl (data_error (rules_doc rs)))
  | Err e =>
      status o = 1 /\ out_lines o = [] /\ exists label, label ∈ ["PARSE ERROR"; "COMPILE ERROR"] /\
        stderr debug_error o = [label +:+ ": " +:+ fmt_semantic_error e]
  | Panic _ => False
  end.
Proof.
  intros Hpretty Hread Hi. cbn zeta. unfold run_rule_command. rewrite Hread. split; [done|].
  unfold compile_output, rule_compile. pose proof (parse_auto_not_panic toml_manifest json_manifest text) as Hp.
  destruct (parse_semantic_auto toml_manifest json_manifest text) as [doc|e|w]; [| |done]; cbn [mbind res_bind].
  - pose proof (compile_no_panic fmt_f64 fmt_value doc _ Hi) as Hc.
    destruct (compile fmt_f64 fmt_value doc (default "7" robot_id)) as [rs|e|w] eqn:E; [| |done].
    + split; [done|]. eexists. split; [done|]. split; [done|]. split; [done|]. intros d [= <-] Hord.
      assert (de (rules_doc rs) = (if manifest_finite doc then Some rs else None)) as Hd
        by (eapply compiled_document; [exact Hi|intros r a p ???; apply Hord; by exists r, a|exact E]).
      split; [done|]. intros Hex Hpl. unfold from_text. rewrite Hpretty, Hd; [by destruct (manifest_finite doc)|].
      eapply compiled_plain; [exact Hi|exact Hex|intros r a p ???; apply Hpl; by exists r, a|exact E].
    + split; [done|]. split; [done|]. split; [done|]. exists "COMPILE ERROR". split; [set_solver|done].
  - split; [done|]. split; [done|]. split; [done|]. exists "PARSE ERROR". split; [set_solver|done].
Qed.

(** ** Compiled rules are not rules to check *)
Lemma trigger_is_no_when (t : Trigger) : de_when (trigger_doc t) = None.
Proof. apply (de_when_unknown _ "topic" (Str (t_topic t))); [by left|done]. Qed.
Lemma triggers_are_no_whens (t : Trigger) l : mapM de_when (map trigger_doc (t :: l)) = None.
Proof. apply (mapM_None_elem _ _ (trigger_doc t)); [by left|apply trigger_is_no_when]. Qed.

Lemma group_slots {X} (x y : X) :
  map_slots true when_fields [("all", x); ("any", y)] =
  Some (replicate 6 SlotAbsent ++ [SlotIs x; SlotIs y]).
Proof. reflexivity. Qed.

Lemma guard_is_no_when (w : When) : guard_empty w = false -> de_when (when_doc w) = None.
Proof.
  destruct w as [al an]. intros H. unfold when_doc. cbn [w_all w_any de_when map]. rewrite group_slots.
  cbn [app replicate field_default mbind option_bind snd].
  destruct al as [|t al]; [destruct an as [|t an]; [done|]|]; rewrite triggers_are_no_whens; [done|].
  done.
Qed.

Lemma compiled_is_no_manifest (rs : Rules) :
  rules rs <> [] -> Forall (fun r => guard_empty (r_when r) = false) (rules rs) -> de_manifest (rules_doc rs) = None.
Proof.
  destruct rs as [[|r l]]; [done|]. intros _ [Hr _]%Forall_cons. unfold rules_doc. cbn [rules].
  unfold de_manifest, struct_slots, map_slots. cbn [andb mapM slot_of List.filter fst String.eqb Ascii.eqb Bool.eqb].
  cbn [mbind option_bind mret option_ret field_default]. cbn [de_semantic_rules map].
  rewrite (mapM_None_elem _ _ (rule_doc r)); [done|by left|].
  unfold rule_doc. by apply (de_rule_bad_when _ (when_doc (r_when r))); [|apply guard_is_no_when].
Qed.

(** [rule check] rejects what [rule compile] prints.  A file that holds the
    compiled rules of a manifest with at least one rule, as [rule compile]
    printed them, is not a semantic manifest, because a compiled trigger is
    not a condition; and the raw format is only tried as TOML, which a JSON
    object is not. *)
Theorem compile_output_fails_check (doc : RulesManifest) (id path : string) (json : bool) (rs : Rules) :
  has_char slash id = false ->
  (forall t, guess_format t = Json -> exists e, rules_from_toml t = inl e) ->
  compile fmt_f64 fmt_value doc id = Ok rs -> rules rs <> [] ->
  guess_format (to_string_pretty (rules_doc rs)) = Json ->
  parse_json (to_string_pretty (rules_doc rs)) = inr (rules_doc rs) ->
  read_to_string path = inr (to_string_pretty (rules_doc rs)) ->
  status (run (Check path json)) = 1.
Proof.
  intros Hi Htoml Hc Hne Hg Hp Hread. set (text := to_string_pretty (rules_doc rs)) in *.
  unfold run_rule_command. rewrite Hread.
  assert (de_manifest (rules_doc rs) = None) as Hd.
  { apply compiled_is_no_manifest; [done|]. apply compile_Ok in Hc as (_ & _ & H).
    apply (mapM_i_Forall2 _ (rule_refines id)) in H; [|intros k sr r; by apply compile_rule_refines].
    apply Forall_forall. intros r Hr. destruct (list_elem_of_lookup_1 _ _ Hr) as [i Hl].
    by destruct (Forall2_lookup_r _ _ _ _ _ H Hl) as (sr & _ & _ & _ & Hw & _). }
  assert (exists e, verdict text = ParseError e) as [e ->]; [|done].
  destruct (Htoml text Hg) as [e He].
  unfold rule_check, parse_semantic_auto, parse_semantic_json, parse_with, json_manifest, from_text, raw_rules.
  rewrite Hg, Hp, Hd, He. by eexists.
Qed.
End properties.

(** ** Witnesses *)
Module CommandEx.
Definition toml (_ : string) : string + RulesManifest (JN := model_number) := inr Ex.good.
Definition no_rules (_ : string) : string + Rules (JN := model_number) := inl "not a ruleset".
Definition files (path : string) : string + string := if (path =? "cell.toml")%string then inr "[site]" else inl "not found".
Definition stop_manifest : RulesManifest (JN := model_number) :=
  mkManifest (mkSite "cell-7" "") Ex.ex_zones [mkSemanticRule "stop" (Ex.cond_in "dock") [Ex.estop_action]].
Definition stop_rules : Rules (JN := model_number) :=
  match compile Ex.fmt Ex.fmtv stop_manifest "7" with Ok rs => rs | _ => mkRules [] end.
Definition stop_toml (_ : string) : string + RulesManifest (JN := model_number) := inr stop_manifest.
(** A text that begins like a JSON object. *)
#[local] Instance braced : JsonText (JN := model_number) := {|
  print_json v := String "{" (print_json (JsonText := TextEx.bits_text) v);
  parse_json s := match s with String _ s => parse_json (JsonText := TextEx.bits_text) s | _ => inl "syntax" end;
  data_error _ := "data"
|}.
End CommandEx.

Lemma compile_output_reads_back_witness :
  exists printed (rs : Rules), out_lines (run_rule_command CommandEx.stop_toml CommandEx.no_rules Ex.fmt Ex.fmtv
      CommandEx.files print_json (Compile "cell.toml" None false)) = [printed] /\
    from_text de printed = inr rs /\ map r_name (rules rs) = ["stop"].
Proof.
  destruct (compile_output_reads_back CommandEx.stop_toml CommandEx.no_rules Ex.fmt Ex.fmtv CommandEx.files print_json id
    "cell.toml" "[site]" None false parse_print eq_refl eq_refl) as (_ & _ & printed & H1 & _ & _ & H2).
  exists printed. eexists. split; [exact H1|]. split; [apply (H2 CommandEx.stop_manifest eq_refl); [|reflexivity|]|reflexivity];
    intros p (r & a & [->|Hr]%elem_of_cons & Ha & Hp); try by apply elem_of_nil in Hr.
  all: apply elem_of_cons in Ha as [->|Ha]; [done|by apply elem_of_nil in Ha].
Defined.

#[local] Existing Instance CommandEx.braced.

Lemma compile_output_fails_check_witness :
  status (run_rule_command CommandEx.toml CommandEx.no_rules Ex.fmt Ex.fmtv
    (fun _ => inr (print_json (rules_doc CommandEx.stop_rules))) print_json (Check "cell.json" false)) = 1.
Proof.
  apply (compile_output_fails_check CommandEx.toml CommandEx.no_rules Ex.fmt Ex.fmtv
    (fun _ => inr (print_json (rules_doc CommandEx.stop_rules))) print_json CommandEx.stop_manifest "7" "cell.json" false
    CommandEx.stop_rules); [reflexivity|by eexists|vm_cast_no_check (eq_refl (Ok (E := SemanticError) CommandEx.stop_rules))|done| | |done].
  - reflexivity.
  - vm_cast_no_check (eq_refl (inr (A := string) (rules_doc CommandEx.stop_rules))).
Defined.
