(* ===== verification/Server.v ===== *)
(** * Server: the fleet server and the two binaries ([src/server.rs],
      [src/bin/flo-client.rs], [src/bin/flo-server.rs])

    [run_server] from the flags to the parts it starts, and the dispatch of the
    two [main] functions: the [rule] command, the health probe, the printing
    of the locators, or the run.  Opening a session, its locators and the
    database are outcomes of their calls. *)
From S2P Require Import Prelude Json Rules Topic Semantic SemanticSpec Engine ClientConfig Lease Registration Registry Auth Transport Channels Config Loop Health Runtime Signaling Mesh Bootstrap Cli.

(** ** [cli.rs]: the subcommands *)
Inductive RuleSubcommand :=
  | RuleCheck (path : string) (json : bool)
  | RuleCompile (path : string) (robot_id : option string) (json : bool).
Inductive Command := RuleCmd (command : RuleSubcommand).

(** The flags both binaries have; [boot_inputs] of the server's holds its
    [--config] and no ruleset. *)
Record MainArgs := mkMainArgs {
  ma_boot : BootArgs; ma_healthcheck : bool; ma_print_zenoh_port : bool; ma_command : option Command
}.

Section server.
Context `{JN : JsonNumber}.
Context (path_exists : string -> bool) (read_file : string -> option string) (io_error : string -> string)
        (json_string : string -> string) (json_value : Value -> string).
Context (toml_server : string -> string + ServerConfig)
        (rules_from_toml : string -> string + Rules)
        (demo_toml : string) (replace_id : string -> string -> string).
(** [Transport::open_with]; [create_dir_all] on the directory of the audit
    database; the tables found in it, their creation, and the text of an
    error. *)
Context (open_session : ZConfig -> string + unit) (make_dir : string + unit)
        (stored : string + Registry) (create_tables : string + unit) (db_error : string).

Record ServerNode := mkServerNode {
  sv_session : ZConfig; sv_rules : Rules; sv_lease : Lease; sv_registry : Registry
}.

(** Errors are shown as themselves, but for the mode's. *)
Definition server_auth (a : BootArgs) : res string AuthConfig :=
  m ← map_err (fun e => "invalid --auth-mode '" +:+ boot_auth_mode a +:+ "': " +:+ fmt_auth_error e)
        (auth_mode_parse (boot_auth_mode a));
  let auth := mkAuth m (boot_allow_insecure a) (boot_cert a) (boot_key a) (boot_trust a) in
  _ ← map_err fmt_auth_error (validate_production path_exists read_file auth);
  mret auth.

Definition server_config (a : BootArgs) : res string ServerConfig :=
  match arg_config (boot_inputs a) with
  | Some path =>
      match read_file path with
      | Some text => server_config_from_toml toml_server text
      | None => Err ("cannot read server config " +:+ path +:+ ": " +:+ io_error path)
      end
  | None => Ok ServerConfig_default
  end.

Definition server_prepare (robot_id : string) (a : BootArgs) : res string (ZConfig * ServerConfig) :=
  auth ← server_auth a;
  config ← map_err fmt_auth_error
    (zenoh_config path_exists read_file json_string json_value auth robot_id);
  sc ← server_config a;
  mret (config, sc).

(** [run_server] up to its tasks: the sessions opened, and the parts. *)
Definition run_server (robot_id : string) (a : BootArgs) : list ZConfig * res string ServerNode :=
  match server_prepare robot_id a with
  | Ok (config, sc) =>
      match open_session config with
      | inl e => ([], Err e)
      | inr _ =>
          ([config],
           store ← bootstrap_demo rules_from_toml demo_toml replace_id robot_id;
           _ ← (match make_dir with inl e => Err e | inr _ => Ok tt end);
           reg ← map_err (fmt_registry_error db_error) (registry_new (Some make_dir) stored create_tables);
           mret (mkServerNode config store (lease_new sc) reg))
      end
  | Err e => ([], Err e)
  | Panic w => ([], Panic w)
  end.

Definition set_connect (a : BootArgs) (l : list string) : BootArgs :=
  mkBoot (boot_robot_id a) (boot_auth_mode a) (boot_allow_insecure a) (boot_cert a) (boot_key a)
    (boot_trust a) l (boot_inputs a).

Lemma server_auth_build a auth :
  server_auth a = Ok auth ->
  build_auth path_exists read_file (boot_auth_mode a) (boot_allow_insecure a) (boot_cert a)
    (boot_key a) (boot_trust a) = Ok auth.
Proof.
  unfold server_auth, build_auth. intros (m & -> & H)%res_bind_Ok. cbn [mbind res_bind].
  apply res_bind_Ok in H as ([] & Hv & H). apply map_err_Ok in Hv. by rewrite Hv.
Qed.

Lemma server_prepare_Ok id a c sc :
  server_prepare id a = Ok (c, sc) ->
  server_config a = Ok sc /\ (boot_allow_insecure a = true \/
    secured path_exists read_file a c /\ config_value c "mode" = None /\
    config_value c "listen/endpoints" = None).
Proof.
  unfold server_prepare. intros (auth & Ha & H)%res_bind_Ok. apply res_bind_Ok in H as (c' & Hc & H).
  apply res_bind_Ok in H as (sc' & Hs & [= -> ->]). split; [done|].
  apply server_auth_build in Ha. apply map_err_Ok in Hc.
  destruct (zenoh_config_cases _ _ _ _ _ _ _ _ _ _ _ _ Ha Hc)
    as [[_ Hi]|(_ & H1 & H2 & H3 & cp & kp & tp & acl & _ & ->)]; [by left|right]. by repeat split.
Qed.

(** The server's start fails closed: it opens at most one session, secured by
    three valid credential files or insecure with the operator's consent, and
    none when its configuration file cannot be read or parsed; [--connect] has
    no effect on it.  A started server runs the built-in rules, a fresh lease
    table of the configured robots, and the registry found on disk.  A
    secured session is given neither a mode nor an endpoint to listen on. *)
Theorem server_start_fails_closed (robot_id : string) (a : BootArgs) :
  let out := run_server robot_id a in
  (out.1 = [] /\ is_ok out.2 = false \/
   exists c, out.1 = [c] /\
     (boot_allow_insecure a = true \/
      secured path_exists read_file a c /\ config_value c "mode" = None /\
      config_value c "listen/endpoints" = None)) /\
  (is_ok (server_config a) = false -> out.1 = [] /\ is_ok out.2 = false) /\
  (forall n, out.2 = Ok n ->
     out.1 = [sv_session n] /\
     bootstrap_demo rules_from_toml demo_toml replace_id robot_id = Ok (sv_rules n) /\
     (exists sc, server_config a = Ok sc /\ sv_lease n = lease_new sc) /\
     stored = inr (sv_registry n)) /\
  (forall l, run_server robot_id (set_connect a l) = out).
Proof.
  cbv zeta. split; [|split; [|split; [|done]]]; unfold run_server;
    destruct (server_prepare robot_id a) as [[c sc]|e|w] eqn:Hp; cbn [fst snd is_ok]; auto; try done.
  - apply server_prepare_Ok in Hp as [_ Hc]. destruct (open_session c); cbn [fst snd is_ok]; [by left|].
    right. by exists c.
  - apply server_prepare_Ok in Hp as [Hs _]. by rewrite Hs.
  - apply server_prepare_Ok in Hp as [Hs _]. destruct (open_session c); cbn [fst snd]; [done|].
    intros n (rs & Hd & H)%res_bind_Ok. apply res_bind_Ok in H as ([] & Hm & H).
    apply res_bind_Ok in H as (reg & Hr & [= <-]). apply map_err_Ok in Hr.
    cbn [sv_session sv_rules sv_lease sv_registry]. split; [done|]. split; [done|].
    split; [by exists sc|]. unfold registry_new in Hr.
    destruct make_dir, stored, create_tables; by simplify_eq.
Qed.

(** ** The [rule] command: the exit status *)
Context (toml_manifest json_manifest : string -> string + RulesManifest)
        (fmt_f64 : f64 -> string) (fmt_value : Value -> string).

Definition run_rule_command (cmd : RuleSubcommand) : res string N :=
  match cmd with
  | RuleCheck path _ =>
      match read_file path with
      | None => Err ("cannot read " +:+ path +:+ ": " +:+ io_error path)
      | Some text =>
          match rule_check toml_manifest json_manifest rules_from_toml fmt_f64 fmt_value text with
          | CheckPanic w => Panic w
          | v => Ok (if check_accepts v then 0 else 1)%N
          end
      end
  | RuleCompile path robot_id _ =>
      match read_file path with
      | None => Err ("cannot read " +:+ path +:+ ": " +:+ io_error path)
      | Some text =>
          match rule_compile toml_manifest json_manifest fmt_f64 fmt_value text robot_id with
          | Ok _ => Ok 0%N
          | Err _ => Ok 1%N
          | Panic w => Panic w
          end
      end
  end.

(** ** The two [main] functions

    [probe] is the health probe, [locators] those of an open session, [boot]
    the client's bootstrap.  A run that has started is [Running]. *)
Context (probe : string -> bool) (locators : ZConfig -> list string)
        (boot : BootArgs -> World -> World * res string Rules).

Inductive MainEnd := Exit (status : res string N) | RunningClient (rs : Rules) | RunningServer (n : ServerNode).

(** What a run leaves: the world, the lines printed, and how it goes on. *)
Record MainOut := mkOut { mo_world : World; mo_printed : list string; mo_end : MainEnd }.

Definition health_addr (env : option string) : string := default "127.0.0.1:8080" env.

Definition healthcheck (env : option string) (w : World) : MainOut :=
  let addr := health_addr env in
  mkOut w [] (Exit (if probe addr then Ok 0%N else Err ("health probe failed at " +:+ addr))).

(** Endpoints are quoted without escaping. *)
Definition quoted_endpoints (l : list string) : string :=
  "[" +:+ String.concat "," (map quote l) +:+ "]".
Definition port_config (client : bool) (a : BootArgs) (config : ZConfig) : ZConfig :=
  match client, boot_connect a with
  | true, _ :: _ as l =>
      config ++ [("mode", quote "client"); ("connect/endpoints", quoted_endpoints (boot_connect a))]
  | _, _ => config
  end.

Definition print_zenoh_port (client : bool) (env_id : option string) (a : BootArgs) (w : World) : MainOut :=
  let show e := if client then "auth config invalid: " +:+ fmt_auth_error e else fmt_auth_error e in
  let id := robot_id_of env_id a in
  match (m ← map_err (fun e => "invalid --auth-mode '" +:+ boot_auth_mode a +:+ "': " +:+ fmt_auth_error e)
              (auth_mode_parse (boot_auth_mode a));
         let auth := mkAuth m (boot_allow_insecure a) (boot_cert a) (boot_key a) (boot_trust a) in
         _ ← map_err show (validate_production path_exists read_file auth);
         map_err show (zenoh_config path_exists read_file json_string json_value auth id)) with
  | Ok config =>
      let config := port_config client a config in
      match open_session config with
      | inl e => mkOut w [] (Exit (Err e))
      | inr _ =>
          let ls := locators config in
          mkOut (mkWorld (sessions w ++ [config]) (tokens w) (server w)) ls
            (Exit (match ls with [] => Err "no zenoh locators" | _ => Ok 0%N end))
      end
  | Err e => mkOut w [] (Exit (Err e))
  | Panic p => mkOut w [] (Exit (Panic p))
  end.

Definition client_main (env_id env_health : option string) (m : MainArgs) (w : World) : MainOut :=
  match ma_command m with
  | Some (RuleCmd command) => mkOut w [] (Exit (run_rule_command command))
  | None =>
      if ma_healthcheck m then healthcheck env_health w
      else if ma_print_zenoh_port m then print_zenoh_port true env_id (ma_boot m) w
      else
        let '(w', r) := boot (ma_boot m) w in
        mkOut w' [] (match r with
                     | Ok rs => RunningClient rs
                     | Err e => Exit (Err e)
                     | Panic p => Exit (Panic p)
                     end)
  end.

Definition server_main (env_id env_health : option string) (m : MainArgs) (w : World) : MainOut :=
  match ma_command m with
  | Some (RuleCmd command) => mkOut w [] (Exit (run_rule_command command))
  | None =>
      if ma_healthcheck m then healthcheck env_health w
      else if ma_print_zenoh_port m then print_zenoh_port false env_id (ma_boot m) w
      else
        let '(ss, r) := run_server (robot_id_of env_id (ma_boot m)) (ma_boot m) in
        mkOut (mkWorld (sessions w ++ ss) (tokens w) (server w)) []
          (match r with
           | Ok n => RunningServer n
           | Err e => Exit (Err e)
           | Panic p => Exit (Panic p)
           end)
  end.

Definition one_shot (m : MainArgs) : bool :=
  is_some (ma_command m) || ma_healthcheck m || ma_print_zenoh_port m.

(** The session that prints the locators is opened on the same terms as a
    run's. *)
Lemma print_port_session client env_id a w :
  let out := print_zenoh_port client env_id a w in
  tokens (mo_world out) = tokens w /\ server (mo_world out) = server w /\
  (exists r, mo_end out = Exit r) /\
  (mo_world out = w \/
   exists c, sessions (mo_world out) = sessions w ++ [c] /\
     (boot_allow_insecure a = true \/ secured path_exists read_file a c)).
Proof.
  cbv zeta. unfold print_zenoh_port.
  match goal with |- context [match ?c with Ok _ => _ | Err _ => _ | Panic _ => _ end] =>
    destruct c as [config| |] eqn:E; cbn [mo_world mo_end]; eauto 10 end.
  destruct (open_session _); cbn [mo_world mo_end tokens server sessions]; [eauto 10|].
  split; [done|]. split; [done|]. split; [eauto|]. right. eexists. split; [done|].
  apply res_bind_Ok in E as (m & Hm & E). apply res_bind_Ok in E as ([] & Hv & E).
  apply map_err_Ok in Hv, E.
  assert (build_auth path_exists read_file (boot_auth_mode a) (boot_allow_insecure a) (boot_cert a)
    (boot_key a) (boot_trust a)
    = Ok (mkAuth m (boot_allow_insecure a) (boot_cert a) (boot_key a) (boot_trust a))) as Hb.
  { unfold build_auth. rewrite Hm. cbn [mbind res_bind]. by rewrite Hv. }
  destruct (zenoh_config_cases _ _ _ _ _ _ _ _ _ _ _ _ Hb E)
    as [[_ Hi]|(_ & H1 & H2 & H3 & cp & kp & tp & acl & _ & ->)]; [by left|right].
  split; [|done]. unfold port_config. destruct client; [|done]. by destruct (boot_connect a).
Qed.

(** One-shot commands are harmless: with a [rule] command, [--healthcheck] or
    [--print-zenoh-port], whichever comes first in this order, neither binary
    declares a token, registers a robot, or goes on running, and only the
    last opens a session - on the same terms as a run: three valid credential
    files, or the operator's consent. *)
Theorem one_shot_commands_harmless (env_id env_health : option string) (m : MainArgs) (w : World) :
  one_shot m = true ->
  Forall (fun out =>
    tokens (mo_world out) = tokens w /\ server (mo_world out) = server w /\
    (exists r, mo_end out = Exit r) /\
    (is_some (ma_command m) || ma_healthcheck m = true -> mo_world out = w) /\
    (mo_world out = w \/
     exists c, sessions (mo_world out) = sessions w ++ [c] /\
       (boot_allow_insecure (ma_boot m) = true \/ secured path_exists read_file (ma_boot m) c)))
  [client_main env_id env_health m w; server_main env_id env_health m w].
Proof.
  destruct m as [a h p cmd]. unfold one_shot, client_main, server_main.
  cbn [ma_boot ma_healthcheck ma_print_zenoh_port ma_command].
  destruct cmd as [[cmd]|]; cbn [is_some orb]; [intros _; repeat constructor; eauto|].
  destruct h; cbn [orb]; [intros _; repeat constructor; eauto|].
  destruct p; [intros _|done].
  pose proof (print_port_session true env_id a w) as (H1 & H2 & H3 & H4).
  pose proof (print_port_session false env_id a w) as (H1' & H2' & H3' & H4').
  apply Forall_cons_2; [|apply Forall_cons_2; [|constructor]]; by split_and!.
Qed.
End server.

(** ** Concrete instances *)
Module ServerEx.
Definition reader (t : string) : string + ServerConfig :=
  if (t =? "bad")%string then inl "parse error" else inr (mkServerConfig [mkExpected "7"]).
Definition args (config : option string) (connect : list string) : BootArgs :=
  mkBoot (Some "7") "mtls" false (Some "c.pem") (Some "k.pem") (Some "t.pem") connect (mkArgs config None).
Definition no_rules (_ : string) : string + Rules (JN := model_number) := inr Rules_default.
Definition main (print : bool) : MainArgs := mkMainArgs (args None ["tcp/10.0.0.1:7447"]) false print None.
End ServerEx.

Lemma one_shot_commands_harmless_witness :
  let out := client_main (fun _ => true) AuthEx.fs (fun e => e) AuthEx.quoted AuthEx.render
    ServerEx.no_rules (fun _ => inr tt) RuntimeEx.sem_reader RuntimeEx.sem_reader Ex.fmt Ex.fmtv
    (fun _ => true) (fun _ => ["tcp/127.0.0.1:7447"]) (fun _ w => (w, Err "")) None None
    (ServerEx.main true) BootEx.world in
  tokens (mo_world out) = [] /\ mo_printed out = ["tcp/127.0.0.1:7447"].
Proof.
  pose proof (one_shot_commands_harmless (fun _ => true) AuthEx.fs (fun e => e) AuthEx.quoted AuthEx.render
    ServerEx.reader ServerEx.no_rules "" (fun t _ => t) (fun _ => inr tt) (inr tt) (inr registry_empty) (inr tt) ""
    RuntimeEx.sem_reader RuntimeEx.sem_reader Ex.fmt Ex.fmtv (fun _ => true) (fun _ => ["tcp/127.0.0.1:7447"])
    (fun _ w => (w, Err "")) None None (ServerEx.main true) BootEx.world eq_refl) as H.
  apply Forall_cons in H as [(H & _) _]. split; [exact H|reflexivity].
Defined.
