(* ===== verification/Fleet.v ===== *)
(** * Fleet: clients that come and go under one server

    The bootstrap of the clients (Bootstrap.v) and the server's heartbeat
    monitor (Registration.v) on one world: sessions, liveliness tokens and the
    server's lease.  A client that ends, for whatever reason, loses its token:
    Zenoh deletes it, which the monitor sees.  No step deregisters, because
    neither binary calls [deregister_with_server]. *)
From S2P Require Import Prelude Json Rules Topic Semantic SemanticSpec Engine ClientConfig Lease Registration Auth Transport Channels Config Loop Health Runtime Signaling Mesh Bootstrap.

Section fleet.
Context `{JN : JsonNumber}.
Context (path_exists : string -> bool) (read_file : string -> option string)
        (json_string : string -> string) (json_value : Value -> string)
        (json_strings : list string -> string + string).
Context (toml_client : string -> string + ClientConfig)
        (toml_manifest : string -> string + RulesManifest)
        (rules_from_toml : string -> string + Rules) (rules_to_toml : Rules -> string + string)
        (demo_toml : string) (replace_id : string -> string -> string)
        (fmt_f64 : f64 -> string) (fmt_value : Value -> string).
Context (open_session : ZConfig -> string + unit) (declare_token : string -> string + unit).
Context `{W : RegistrationWire} {WL : RegistrationWireLaws W}.
Context (debug_error : RegistrationError -> string) (debug_status : RegistrationStatus -> string).

(** The start of one client over one network. *)
Definition start (net : nat -> bool * bool) (env_id : option string) (a : BootArgs) (w : World)
    : World * res string Rules :=
  bootstrap_client path_exists read_file json_string json_value json_strings toml_client toml_manifest
    rules_from_toml rules_to_toml demo_toml replace_id fmt_f64 fmt_value open_session declare_token
    debug_error debug_status net env_id a w.

(** The configuration the client loads, if its file is valid. *)
Definition loads (a : BootArgs) (id : string) (cfg : option ClientConfig) : Prop :=
  exists rs, inputs read_file toml_client toml_manifest rules_from_toml rules_to_toml demo_toml replace_id
    fmt_f64 fmt_value a id = Ok (cfg, rs).

Definition token_of (id : string) : string := "robot/" +:+ id +:+ "/client/liveliness".

Inductive FleetEvent :=
  | Start (net : nat -> bool * bool) (env_id : option string) (a : BootArgs)
  | Gone (id : string).

Definition gone (id : string) (w : World) : World :=
  mkWorld (sessions w) (List.filter (fun t => negb (t =? token_of id)%string) (tokens w))
    (handle_liveliness (server w) (token_of id) Delete).1.

Definition fleet_step (w : World) (e : FleetEvent) : World :=
  match e with
  | Start net env_id a => (start net env_id a w).1
  | Gone id => gone id w
  end.
Definition fleet_run (w : World) (es : list FleetEvent) : World := foldl fleet_step w es.

(** ** Every step is a run of lease operations, none a deregistration *)
Definition fleet_op (o : lease_op) : Prop :=
  match o with OpRegister _ _ | OpDelete _ => True | _ => False end.
Definition ops_to (l l' : Lease) : Prop := exists os, Forall fleet_op os /\ l' = run_ops l os.

Lemma ops_refl l : ops_to l l.
Proof. by exists []. Qed.
Lemma ops_one l o : fleet_op o -> ops_to l (apply_op l o).
Proof. intros Ho. exists [o]. split; [by constructor|done]. Qed.
Lemma ops_trans l1 l2 l3 : ops_to l1 l2 -> ops_to l2 l3 -> ops_to l1 l3.
Proof.
  intros (os & H1 & ->) (os' & H2 & ->). exists (os ++ os'). split; [by apply Forall_app|].
  unfold run_ops. by rewrite foldl_app.
Qed.
#[local] Hint Resolve ops_refl : core.

Lemma handle_registration_ops l bytes : ops_to l (handle_registration debug_error l bytes).1.
Proof.
  unfold handle_registration. destruct (decode_request bytes) as [[id cfg|id]|]; [|done..].
  destruct (id =? "")%string; [done|].
  pose proof (ops_one l (OpRegister id cfg) I) as Ho. cbn [apply_op] in Ho. by destruct (register l id cfg).
Qed.

Lemma attempt_ops net id cfg k l : ops_to l (network_attempt debug_error debug_status net id cfg k l).1.
Proof.
  unfold network_attempt, exchange_register. destruct (net k).1; [|done].
  pose proof (handle_registration_ops l (encode_request (Register id cfg))) as Ho.
  by destruct (handle_registration _ _ _).
Qed.

Lemma retry_loop_ops (at_ : nat -> Lease -> Lease * res RegistrationError unit) n :
  (forall k l, ops_to l (at_ k l).1) -> forall k l, ops_to l (register_loop at_ n k l).1.1.
Proof.
  intros Hat. induction n as [|n IH]; intros k l; [done|]. cbn [register_loop].
  specialize (Hat k l). destruct (at_ k l) as [l' r]. cbn [fst] in Hat.
  destruct r as [[]|[]|]; try done. destruct (k <? REGISTRATION_RETRIES); [|done].
  specialize (IH (S k) l'). destruct (register_loop _ _ _ _) as [[l'' sl] v]. by eapply ops_trans.
Qed.

Lemma start_ops net env_id a w : ops_to (server w) (server (start net env_id a w).1).
Proof.
  unfold start, bootstrap_client. set (id := robot_id_of env_id a).
  destruct (prepare _ _ _ _ _ _ _ _ _ _ _ _ _ a id) as [[[cfg store] c]|e|p]; [|done..].
  destruct (open_session c); [done|]. destruct (liveliness_key id) as [key|e|p]; [|done..].
  destruct (declare_token _); [done|]. unfold register_client. destruct cfg as [cfg|]; [|done].
  pose proof (retry_loop_ops (network_attempt debug_error debug_status net id cfg) REGISTRATION_RETRIES
    (fun k l => attempt_ops net id cfg k l) 1 (server w)) as Ho.
  unfold register_with_retry. by destruct (register_loop _ _ _ _) as [[l sl] v].
Qed.

Lemma liveliness_ops l key k : ops_to l (handle_liveliness l key k).1.
Proof.
  unfold handle_liveliness. destruct (split_on slash key) as [|x [|id rest]]; [done..|].
  destruct k; [done|]. pose proof (ops_one l (OpDelete id) I) as Ho. cbn [apply_op] in Ho.
  by destruct (on_liveliness_delete l id) as [l' []].
Qed.

Lemma fleet_ops w es : ops_to (server w) (server (fleet_run w es)).
Proof.
  induction es as [|e es IH] using rev_ind; [done|]. unfold fleet_run. rewrite foldl_snoc.
  eapply ops_trans; [exact IH|]. destruct e as [net env_id a|id]; [apply start_ops|apply liveliness_ops].
Qed.

(** Without deregistrations a robot that was registered stays registered
    until it is poisoned, for ever. *)
Lemma ops_registered l l' id :
  ops_to l l' -> state l id = Registered \/ state l id = Poisoned ->
  state l' id = Registered \/ state l' id = Poisoned.
Proof.
  intros (os & Hos & ->). revert l. induction Hos as [|o os Ho _ IH]; intros l Hl; [done|].
  apply (IH (apply_op l o)). destruct (decide (id = op_id o)) as [->|Hne]; [|by rewrite apply_op_other].
  pose proof (apply_op_transition l o) as Ht. destruct o; try done; destruct Hl as [Hl|Hl];
    rewrite Hl in Ht; inversion Ht; auto.
Qed.
Lemma ops_poisoned l l' id : ops_to l l' -> state l id = Poisoned -> state l' id = Poisoned.
Proof. intros (os & _ & ->). apply run_ops_poisoned. Qed.

(** A lost token poisons a registered robot. *)
Lemma gone_poisons w id :
  plain_id id = true -> state (server w) id = Registered \/ state (server w) id = Poisoned ->
  state (server (gone id w)) id = Poisoned.
Proof.
  intros (Hs & _)%plain_no_slash Hr. cbn [gone server]. unfold handle_liveliness.
  assert (split_on slash (token_of id) = ["robot"; id; "client"; "liveliness"]) as ->.
  { change (token_of id) with (path ["robot"] (id +:+ "/client/liveliness")).
    rewrite split_path by done. change (id +:+ "/client/liveliness") with (path [id; "client"] "liveliness").
    rewrite split_path by (cbn [forallb]; by rewrite Hs). done. }
  pose proof (apply_op_transition (server w) (OpDelete id)) as Ht. cbn [apply_op op_id] in Ht.
  destruct (on_liveliness_delete (server w) id) as [l' []]; cbn [fst] in *;
    destruct Hr as [Hr|Hr]; rewrite Hr in Ht; by inversion Ht.
Qed.

(** A successful start with a configuration leaves the robot registered. *)
Lemma started_registered net env_id a w cfg rs :
  let id := robot_id_of env_id a in
  plain_id id = true -> loads a id (Some cfg) -> (start net env_id a w).2 = Ok rs ->
  state (server (start net env_id a w).1) id = Registered.
Proof.
  intros id Hid [rs' Hin]. unfold start, bootstrap_client. fold id.
  destruct (prepare _ _ _ _ _ _ _ _ _ _ _ _ _ a id) as [[[cfg' store] c]|e|p] eqn:Hprep; [|done..].
  apply prepare_Ok in Hprep as [Hin' _]. rewrite Hin in Hin'. injection Hin' as <- <-.
  destruct (open_session c); [done|]. destruct (liveliness_key id) as [key|e|p]; [|done..].
  destruct (declare_token _); [done|].
  destruct (register_client _ _ _ id (Some cfg) (server w)) as [l v] eqn:E. cbn [fst snd server].
  destruct v as [[]| |]; [|done..]. intros _.
  apply register_client_Ok in E as [[? _]|[_ H]]; done.
Qed.

(** On a poisoned robot every attempt fails. *)
Lemma poisoned_start_fails net env_id a w cfg :
  let id := robot_id_of env_id a in
  plain_id id = true -> state (server w) id = Poisoned -> loads a id (Some cfg) ->
  is_ok (start net env_id a w).2 = false.
Proof.
  intros id Hid Hp [rs Hin]. unfold start, bootstrap_client. fold id.
  destruct (prepare _ _ _ _ _ _ _ _ _ _ _ _ _ a id) as [[[cfg' store] c]|e|p] eqn:Hprep; [|done..].
  apply prepare_Ok in Hprep as [Hin' _]. rewrite Hin in Hin'. injection Hin' as <- <-.
  destruct (open_session c); [done|]. destruct (liveliness_key id) as [key|e|p]; [|done..].
  destruct (declare_token _); [done|]. cbn [register_client].
  destruct (register_with_retry _ _) as [[l sl] v] eqn:E. cbn [snd].
  assert (is_ok v = false) as Hv; [|by destruct v].
  set (at_ := network_attempt debug_error debug_status net id cfg) in *.
  assert (forall k l0, state l0 id = Poisoned ->
    (at_ k l0).2 = Err ErrPoisoned \/ at_ k l0 = (l0, Err Timeout) \/
    exists l1, at_ k l0 = (l1, Err Timeout) /\ state l1 id = Poisoned) as Hat.
  { intros k l0 H0. unfold at_, network_attempt. rewrite register_exchange, H0 by done.
    destruct (net k).1; cbn [andb]; [|by right; left].
    destruct (net k).2; [by left|right; right]. eexists. split; [done|].
    pose proof (apply_op_transition l0 (OpRegister id cfg)) as Ht. cbn [apply_op op_id] in Ht.
    rewrite H0 in Ht. by inversion Ht. }
  unfold register_with_retry in E. revert E. generalize (server w) Hp. clear -Hat.
  cut (forall n k l0, n + k = 4 -> 1 <= k -> 0 < n -> state l0 id = Poisoned ->
    register_loop at_ n k l0 = (l, sl, v) -> is_ok v = false).
  { intros H l0 H0 E. eapply (H REGISTRATION_RETRIES 1 l0); unfold REGISTRATION_RETRIES; [lia..|done|exact E]. }
  intros n. revert sl. induction n as [|n IH]; intros sl k l0 Hn Hk Hpos H0; [lia|].
  cbn [register_loop].
  assert (forall l1, state l1 id = Poisoned ->
    (if k <? REGISTRATION_RETRIES then
       let '(s'', sleeps, v) := register_loop at_ n (S k) l1 in
       (s'', (RETRY_BACKOFF_MS * N.of_nat k)%N :: sleeps, v)
     else (l1, [], Err "registration timed out after 3 retries")) = (l, sl, v) -> is_ok v = false)
    as Htimeout.
  { intros l1 H1. destruct (Nat.ltb_spec k REGISTRATION_RETRIES) as [Hlt|_]; [|by intros [= _ _ <-]].
    destruct (register_loop at_ n (S k) l1) as [[l2 sl2] v2] eqn:E2. intros [= -> <- ->].
    eapply IH; [..|exact E2]; unfold REGISTRATION_RETRIES in *; try lia; done. }
  destruct (Hat k l0 H0) as [He|[He|(l1 & He & H1)]].
  - destruct (at_ k l0) as [l1 r]. cbn [snd] in He. subst r. by intros [= _ _ <-].
  - rewrite He. by apply Htimeout.
  - rewrite He. by apply Htimeout.
Qed.

(** C18. A restart locks a robot out.  When a client has started with a valid
    configuration and later ends - crash or clean shutdown alike, since
    nothing deregisters it - the server poisons it; from then on, whatever
    the other robots and the network do, every start of that robot with a
    valid configuration fails, for as long as this server runs. *)
Theorem restart_locks_out (net : nat -> bool * bool) (env_id : option string) (a : BootArgs)
    (w : World) (cfg : ClientConfig) (rs : Rules) (between after : list FleetEvent) :
  let id := robot_id_of env_id a in
  plain_id id = true -> loads a id (Some cfg) ->
  (start net env_id a w).2 = Ok rs ->
  let w' := fleet_run (gone id (fleet_run (start net env_id a w).1 between)) after in
  state (server w') id = Poisoned /\
  forall net' env_id' a' cfg', robot_id_of env_id' a' = id -> loads a' id (Some cfg') ->
    is_ok (start net' env_id' a' w').2 = false.
Proof.
  intros id Hid Hl Hok w'.
  assert (state (server w') id = Poisoned) as Hp.
  { eapply ops_poisoned; [apply fleet_ops|]. apply gone_poisons; [done|].
    eapply ops_registered; [apply fleet_ops|]. left. by apply (started_registered net env_id a w cfg rs). }
  split; [done|]. intros net' env_id' a' cfg' Heq Hl'.
  apply (poisoned_start_fails net' env_id' a' w' cfg'); by rewrite Heq.
Qed.
End fleet.

(** ** A concrete fleet *)
Module FleetEx.
Definition go (net : nat -> bool * bool) (w : World) : World * res string (Rules (JN := model_number)) :=
  start (fun _ => true) BootEx.files AuthEx.quoted AuthEx.render (fun _ => inr "[]")
    BootEx.client_reader RuntimeEx.sem_reader RuntimeEx.reader (fun _ => inr "compiled") "" (fun t _ => t)
    Ex.fmt Ex.fmtv (fun _ => inr tt) (fun _ => inr tt) WireEx.dbg_e WireEx.dbg_s net None BootEx.boot w.
Definition good (_ : nat) : bool * bool := (true, true).
End FleetEx.

Lemma restart_locks_out_witness :
  is_ok (FleetEx.go FleetEx.good (gone "7" (FleetEx.go FleetEx.good BootEx.world).1)).2 = false.
Proof.
  refine (proj2 (restart_locks_out (fun _ => true) BootEx.files AuthEx.quoted AuthEx.render (fun _ => inr "[]")
    BootEx.client_reader RuntimeEx.sem_reader RuntimeEx.reader (fun _ => inr "compiled") "" (fun t _ => t)
    Ex.fmt Ex.fmtv (fun _ => inr tt) (fun _ => inr tt) WireEx.dbg_e WireEx.dbg_s FleetEx.good None BootEx.boot
    BootEx.world BootEx.cfg _ [] [] _ _ _) FleetEx.good None BootEx.boot BootEx.cfg _ _).
  - reflexivity.
  - eexists. reflexivity.
  - reflexivity.
  - reflexivity.
  - eexists. reflexivity.
Defined.
