(* ===== verification/Swarm.v ===== *)
(** * Swarm: any number of processes on one network

    The server and the clients as one system: every process is a node of
    Node.v, every message a key with its bytes on one network, put there from
    outside or by an engine that fires an action.  Engines hear the sensor
    topics of their rules and the zone events; the reload tasks hear the
    robot's own rules key ([run_hot_reload]) or, in a process with a registry,
    the fleet's rulesets ([run_hot_reload_with_registry]).  A message may be
    heard late, more than once, in any order, or never. *)
From S2P Require Import Prelude Json Rules Topic Engine EngineSpec EngineProps Registry Registration Transport Signaling Channels Config Loop Node.

Section swarm.
Context `{JN : JsonNumber} {W : Watch (Arc Rules)} {Q : Mpsc (string * Value)} {K : KeyMatch}.
Context (rules_from_toml : string -> string + Rules)
        (ruleset_from_toml : string -> string + Ruleset)
        (ruleset_to_toml : Ruleset -> string + string)
        (sha256 : string -> string).
(** [serde_json::to_vec], [from_slice] and [String::from_utf8_lossy]. *)
Context (to_vec : Value -> string + string) (from_slice : string -> option Value)
        (lossy : string -> string).

Definition Message : Type := string * string.
Record Swarm := mkSwarm {
  procs : list (string * Node);  (** robot identifier and node *)
  net : list Message;
  outside : list Message         (** what did not come from an engine *)
}.

(** What a process's reload task subscribes to. *)
Definition reload_pattern (id : string) (n : Node) : string :=
  if is_some (nd_registry n) then RULESET_PUB_PATTERN else "robot/" +:+ id +:+ "/local/rules".

(** [transport.publish] of a fired action. *)
Definition message_of (ta : Topic * Action) : option Message :=
  match publish_put to_vec ta.1 (EnvAction (a_qos ta.2) (a_payload ta.2)) with
  | Ok p => Some (put_key p, put_bytes p)
  | _ => None
  end.
Definition payload_of (bytes : string) : Value := default Null (from_slice bytes).

(** ** The steps of one process, beside the messages it puts *)
Inductive hears (ms : list Message) (id : string) : Node -> Node -> Prop :=
  | hears_text k b db ts arc n n' :
      (k, b) ∈ ms -> key_matches (reload_pattern id n) k = true ->
      node_reload rules_from_toml ruleset_from_toml ruleset_to_toml sha256 db ts id arc (lossy b) n = Ok n' ->
      hears ms id n n'.

Inductive proc_step (ms : list Message) (id : string) : Node -> Node -> list Message -> Prop :=
  | ps_tick now n :
      proc_step ms id n (with_loop n (on_tick now (nd_loop n)))
        (omap message_of (drop (length (fired (nd_loop n))) (fired (on_tick now (nd_loop n)))))
  | ps_sample now n : proc_step ms id n (with_loop n (on_sample now (nd_loop n))) []
  | ps_changed sub n n' :
      rx_has_changed (watch_tx (lp_store (nd_loop n))) (store_rx (nd_loop n)) = true ->
      rtc (hears ms id) (with_loop n (mark_changed (nd_loop n))) n' ->
      proc_step ms id n (with_loop n' (rebuild sub (nd_loop n'))) []
  | ps_sensor t p k b n :
      (k, b) ∈ ms -> t ∈ tasks (nd_loop n) -> pattern_try_new t = Ok p ->
      key_matches (pattern_str p) k = true ->
      proc_step ms id n (with_loop n (deliver (nd_loop n) t (payload_of b))) []
  | ps_zone k b n :
      (k, b) ∈ ms -> forallb plain_chunk (split_on slash k) = true ->
      key_matches ZONE_ENTERED_PATTERN k = true \/ key_matches ZONE_CLEARED_PATTERN k = true ->
      proc_step ms id n (with_loop n (deliver (nd_loop n) k (payload_of b))) []
  | ps_hears n n' : hears ms id n n' -> proc_step ms id n n' [].

Inductive swarm_step : Swarm -> Swarm -> Prop :=
  | sw_outside m S : swarm_step S (mkSwarm (procs S) (net S ++ [m]) (outside S ++ [m]))
  | sw_proc i id n n' out S :
      procs S !! i = Some (id, n) -> proc_step (net S) id n n' out ->
      swarm_step S (mkSwarm (<[i := (id, n')]> (procs S)) (net S ++ out) (outside S)).

(** A swarm of processes that have just started, on the rulesets [inits]. *)
Definition just_started (init : Arc Rules) (p : string * Node) : Prop :=
  exists sub early reg, node_start empty_state init sub early reg = Some p.2.
Definition swarm_start (inits : list (Arc Rules)) (S : Swarm) : Prop :=
  Forall2 just_started inits (procs S) /\ net S = [] /\ outside S = [].

(** ** Keys *)
Context {KL : KeyMatchLaw K}.

Lemma zone_pattern_match verb k :
  verb = "entered" \/ verb = "cleared" ->
  forallb plain_chunk (split_on slash k) = true -> key_matches ("zone/*/" +:+ verb) k = true ->
  exists z, k = path ["zone"; z] verb /\ has_char slash z = false.
Proof.
  intros Hv Hk. assert (split_on slash ("zone/*/" +:+ verb) = ["zone"; "*"; verb]) as Hs
    by (by destruct Hv as [-> | ->]).
  rewrite key_matches_chunks, Hs; [|by destruct Hv as [-> | ->]|done].
  pose proof (join_split slash k) as Hj. pose proof (split_on_parts slash k) as Hp.
  destruct (split_on slash k) as [|x [|z [|v [|]]]]; cbn [chunks_match]; rewrite ?andb_false_r; try done.
  intros [H1 H2]%andb_true_iff. rewrite andb_true_r in H2.
  apply orb_true_iff in H1 as [H1%String.eqb_eq|H1%String.eqb_eq]; [done|]. subst x.
  cbn in H2. apply orb_true_iff in H2 as [H2%String.eqb_eq|H2%String.eqb_eq];
    [destruct Hv as [-> | ->]; done|]. subst v.
  exists z. split; [by rewrite <- Hj|].
  by apply Forall_cons in Hp as [_ [Hz _]%Forall_cons].
Qed.

Lemma zone_key_event verb k :
  verb = "entered" \/ verb = "cleared" ->
  forallb plain_chunk (split_on slash k) = true -> key_matches ("zone/*/" +:+ verb) k = true ->
  is_zone_event k = true /\ length (split_on slash k) = 3.
Proof.
  intros Hv Hk Hm. destruct (zone_pattern_match _ _ Hv Hk Hm) as (z & -> & Hz).
  rewrite split_path by (cbn [forallb]; by rewrite Hz). split; [|by destruct Hv as [-> | ->]].
  unfold is_zone_event. apply andb_true_iff. split.
  - rewrite starts_with_is_some. change (path ["zone"; z] verb) with ("zone/" +:+ (z +:+ "/" +:+ verb)).
    by rewrite strip_prefix_app.
  - apply orb_true_iff. change (path ["zone"; z] verb) with ("zone/" +:+ (z +:+ "/" +:+ verb)).
    destruct Hv as [-> | ->]; [left|right]; apply ends_with_spec; exists ("zone/" +:+ z);
      by rewrite <- str_app_assoc.
Qed.

(** ** A process's steps are a node's *)
Lemma hears_receives ms id n n' :
  hears ms id n n' ->
  node_receives rules_from_toml ruleset_from_toml ruleset_to_toml sha256 n n'.
Proof. intros [k b db ts arc n0 n1 _ _ H]. by econstructor. Qed.

Lemma proc_step_node ms id n n' out :
  proc_step ms id n n' out -> node_step rules_from_toml ruleset_from_toml ruleset_to_toml sha256 n n'.
Proof.
  intros [now n0|now n0|sub n0 n1 Hc Hh|t p k b n0 _ Ht _ _|k b n0 _ Hk Hm|n0 n1 Hh].
  - apply ns_tick.
  - apply ns_sample.
  - apply ns_changed; [done|]. eapply rtc_subrel; [|done]. intros x y. apply hears_receives.
  - apply ns_deliver. by left.
  - apply ns_deliver. right. destruct Hm as [Hm|Hm];
      [apply (zone_key_event "entered")|apply (zone_key_event "cleared")]; auto.
  - by eapply ns_reload, hears_receives.
Qed.

(** ** What a process has heard *)
Definition sensor_from (ms : list Message) (t : string) (v : Value) : Prop :=
  exists k b p, (k, b) ∈ ms /\ v = payload_of b /\ pattern_try_new t = Ok p /\
    key_matches (pattern_str p) k = true.

Record heard (ms : list Message) (id : string) (n : Node) : Prop := {
  he_texts : forall m, m ∈ nd_received n ->
    exists k b, (k, b) ∈ ms /\ key_matches (reload_pattern id n) k = true /\ m.2 = lossy b;
  he_samples : forall t v, (t, v) ∈ q_items (samples (nd_loop n)) ->
    sensor_from ms t v \/ is_zone_event t = true;
  he_latest : forall t v, latest (ev (nd_loop n)) !! t = Some v -> sensor_from ms t v
}.

Lemma heard_mono ms ms' id n : ms ⊆ ms' -> heard ms id n -> heard ms' id n.
Proof.
  intros Hs [H1 H2 H3].
  assert (forall t v, sensor_from ms t v -> sensor_from ms' t v) as Hf
    by (intros t v (k & b & p & H & ?); exists k, b, p; split; [by apply Hs|done]).
  split.
  - intros m (k & b & H & ?)%H1. exists k, b. split; [by apply Hs|done].
  - intros t v [H|H]%H2; [left; by apply Hf|by right].
  - intros t v H%H3. by apply Hf.
Qed.

(** The two parts of a node a step may leave alone. *)
Lemma heard_quiet ms id n n' :
  nd_received n' = nd_received n -> is_some (nd_registry n') = is_some (nd_registry n) ->
  q_items (samples (nd_loop n')) = q_items (samples (nd_loop n)) ->
  latest (ev (nd_loop n')) = latest (ev (nd_loop n)) ->
  heard ms id n -> heard ms id n'.
Proof.
  intros E1 E2 E3 E4 [H1 H2 H3]. split; rewrite ?E1, ?E3, ?E4; [|done|done].
  unfold reload_pattern in *. by rewrite E2.
Qed.

Lemma reload_keeps db ts rid arc text n n' :
  node_reload rules_from_toml ruleset_from_toml ruleset_to_toml sha256 db ts rid arc text n = Ok n' ->
  nd_received n' = nd_received n ++ [(arc, text)] /\ samples (nd_loop n') = samples (nd_loop n) /\
  ev (nd_loop n') = ev (nd_loop n) /\ fired (nd_loop n') = fired (nd_loop n).
Proof. unfold node_reload. destruct (reload_step _ _ _ _ _ _ _ _ _ _); [|done..]. by intros [= <-]. Qed.

Context {WL : WatchLaws W} {QL : MpscLaws Q}.

Lemma hears_heard ms id n n' :
  hears ms id n n' -> heard ms id n ->
  heard ms id n' /\ is_some (nd_registry n') = is_some (nd_registry n) /\ fired (nd_loop n') = fired (nd_loop n).
Proof.
  intros [k b db ts arc n0 n1 Hin Hk Hr] [H1 H2 H3].
  pose proof (reload_keeps _ _ _ _ _ _ _ Hr) as (E1 & E2 & E3 & E4).
  apply node_reload_cases in Hr as (_ & Hreg & _). split; [|done].
  assert (reload_pattern id n1 = reload_pattern id n0) as Hp by (unfold reload_pattern; by rewrite Hreg).
  split; rewrite ?E1, ?E2, ?E3; [|done|done]. intros m. rewrite Hp.
  intros [H|Heq%list_elem_of_singleton]%elem_of_app; [by apply H1|]. subst m. by exists k, b.
Qed.

Lemma rtc_hears_heard ms id n n' :
  rtc (hears ms id) n n' -> heard ms id n ->
  heard ms id n' /\ is_some (nd_registry n') = is_some (nd_registry n) /\ fired (nd_loop n') = fired (nd_loop n).
Proof.
  induction 1 as [|x y z Hxy _ IH]; [done|]. intros H.
  destruct (hears_heard _ _ _ _ Hxy H) as (H1 & H2 & H3). destruct (IH H1) as (? & -> & ->). done.
Qed.

Lemma rebuild_fields sub l :
  samples (rebuild sub l) = samples l /\ ev (rebuild sub l) = ev l /\ fired (rebuild sub l) = fired l.
Proof. unfold rebuild. destruct (decide _); [done|]. by destruct (subscribe_to_topics _ _ _ _ _) as [[[] ?] ?]. Qed.

Lemma tick_fields now l :
  samples (on_tick now l) = samples l /\ latest (ev (on_tick now l)) = latest (ev l).
Proof.
  unfold on_tick, tick_inner. destruct (tick_rules _ _ _ _ _) as [out pv]. cbn. split; [done|].
  unfold refresh_baseline. by destruct (last_rules (ev l)) as [r|]; [destruct (negb _)|].
Qed.

Lemma heard_deliver ms id n t v :
  heard ms id n -> sensor_from ms t v \/ is_zone_event t = true ->
  heard ms id (with_loop n (deliver (nd_loop n) t v)).
Proof.
  intros [H1 H2 H3] Hs. split; [done| |done]. cbn [with_loop nd_loop deliver samples]. intros t' v'.
  rewrite items_send. destruct (_ <? _); [|by apply H2].
  intros [H|Heq%list_elem_of_singleton]%elem_of_app; [by apply H2|]. by injection Heq as -> ->.
Qed.

Lemma heard_sample ms id n now :
  heard ms id n -> heard ms id (with_loop n (on_sample now (nd_loop n))).
Proof.
  intros Hh. pose proof Hh as [H1 H2 H3]. unfold on_sample.
  destruct (q_items (samples (nd_loop n))) as [|[tp p] q] eqn:E.
  - rewrite (recv_empty _ E). by destruct n.
  - destruct (recv_cons _ _ _ E) as (q' & -> & Hq & _). split; cbn [with_loop nd_received nd_loop samples ev]; [done| |].
    + rewrite Hq. intros t v Ht. apply H2. by right.
    + intros t v. unfold ingest. destruct (is_zone_event tp) eqn:Ez.
      * assert (forall st : EvalState, latest st = latest (ev (nd_loop n)) -> latest st !! t = Some v -> sensor_from ms t v)
          as Hsame by (intros st ->; apply H3).
        destruct (3 <=? _); [|by apply Hsame]. destruct (get_str _ _); [|by apply Hsame].
        destruct (ends_with _ _); by apply Hsame.
      * cbn [ingest_sample latest]. intros [[<- <-]|[_ H]]%lookup_insert_Some; [|by apply H3].
        destruct (H2 tp p) as [H|H]; [by left|done|]. congruence.
Qed.

Lemma proc_step_heard ms id n n' out :
  proc_step ms id n n' out -> heard ms id n ->
  heard ms id n' /\ exists more, fired (nd_loop n') = fired (nd_loop n) ++ more /\ out = omap message_of more.
Proof.
  intros Hstep Hh. assert (forall l : list (Topic * Action), exists more, l = l ++ more /\ [] = omap message_of more)
    as Hno by (intros l; exists []; by rewrite app_nil_r).
  destruct Hstep as [now n|now n|sub n n' Hc Hr|t p k b n Hin Ht Hp Hk|k b n Hin Hk Hm|n n' Hr].
  - destruct (tick_fields now (nd_loop n)) as [E1 E2]. split; [apply heard_quiet with n; cbn; by rewrite ?E1, ?E2|].
    destruct (fired_tick now (nd_loop n)) as (acts & E & _). cbn [with_loop nd_loop]. rewrite E.
    eexists. split; [done|]. by rewrite drop_app_length.
  - split; [by apply heard_sample|]. cbn [with_loop nd_loop]. unfold on_sample.
    destruct (q_recv _) as [[[] ?]|]; apply Hno.
  - destruct (rtc_hears_heard _ _ _ _ Hr) as (H1 & H2 & H3); [by apply heard_quiet with n|].
    destruct (rebuild_fields sub (nd_loop n')) as (E1 & E2 & E3). cbn [with_loop nd_loop].
    rewrite E3, H3. split; [|apply Hno]. apply heard_quiet with n'; cbn; by rewrite ?E1, ?E2.
  - split; [|apply Hno]. apply heard_deliver; [done|left]. by exists k, b, p.
  - split; [|apply Hno]. apply heard_deliver; [done|right].
    destruct Hm as [Hm|Hm]; [apply (zone_key_event "entered" k)|apply (zone_key_event "cleared" k)]; auto.
  - destruct (hears_heard _ _ _ _ Hr Hh) as (H1 & _ & ->). split; [done|apply Hno].
Qed.

(** ** The swarm *)
#[local] Notation activates_ := (activates rules_from_toml ruleset_from_toml ruleset_to_toml).
#[local] Notation node_inv_ := (node_inv rules_from_toml ruleset_from_toml ruleset_to_toml).

(** Node by node: what it heard, and the invariant of Node.v. *)
Definition proc_inv (ms : list Message) (init : Arc Rules) (p : string * Node) : Prop :=
  heard ms p.1 p.2 /\ node_inv_ (is_some (nd_registry p.2)) (arc_val init) p.2.

Definition fired_by (S : Swarm) (m : Message) : Prop :=
  exists i id n ta, procs S !! i = Some (id, n) /\ ta ∈ fired (nd_loop n) /\ message_of ta = Some m.

Record swarm_inv (inits : list (Arc Rules)) (S : Swarm) : Prop := {
  si_procs : Forall2 (proc_inv (net S)) inits (procs S);
  si_net : forall m, m ∈ net S -> m ∈ outside S \/ fired_by S m
}.

Lemma proc_inv_mono ms ms' inits ps :
  ms ⊆ ms' -> Forall2 (proc_inv ms) inits ps -> Forall2 (proc_inv ms') inits ps.
Proof.
  intros Hs H. eapply Forall2_impl; [exact H|]. intros init p [H1 H2]. split; [by eapply heard_mono|done].
Qed.

Lemma swarm_inv_start inits S : swarm_start inits S -> swarm_inv inits S.
Proof.
  intros (Hp & Hn & Ho). split.
  - eapply Forall2_impl; [exact Hp|]. intros init [id n] (sub & early & reg & Hs). cbn [snd] in Hs.
    pose proof (node_inv_start rules_from_toml ruleset_from_toml ruleset_to_toml _ _ _ _ _ _ Hs) as Hi. revert Hs Hi.
    unfold node_start, loop_start. destruct (subscribe_to_topics _ _ _ _ _) as [[[subs tks] tps] r].
    destruct r as [[]| |]; [|done..]. destruct (store_subscribe _) as [s rx]. intros [= <-] Hi.
    split; [|done]. split; cbn; [by intros m ?%elem_of_nil| |done].
    rewrite items_new. by intros t v ?%elem_of_nil.
  - rewrite Hn. by intros m ?%elem_of_nil.
Qed.

Lemma fired_by_step ps ms out_ i id n n' m more o :
  ps !! i = Some (id, n) -> fired (nd_loop n') = fired (nd_loop n) ++ more ->
  fired_by (mkSwarm ps ms out_) m -> fired_by (mkSwarm (<[i := (id, n')]> ps) (ms ++ o) out_) m.
Proof.
  intros Hi Hf (j & id' & n0 & ta & Hj & Hta & Hm). cbn [procs] in Hj.
  destruct (decide (i = j)) as [<-|Hne].
  - rewrite Hi in Hj. injection Hj as <- <-. exists i, id, n', ta. cbn [procs].
    rewrite list_lookup_insert_eq by (by eapply lookup_lt_Some). rewrite Hf. set_solver.
  - exists j, id', n0, ta. cbn [procs]. by rewrite list_lookup_insert_ne.
Qed.

Lemma swarm_inv_step inits S S' : swarm_step S S' -> swarm_inv inits S -> swarm_inv inits S'.
Proof.
  intros Hstep [Hp Hn]. destruct Hstep as [m S|i id n n' out S Hi Hps].
  - split; cbn [procs net outside].
    + eapply proc_inv_mono; [|done]. set_solver.
    + intros m' [H|H]%elem_of_app; [|left; set_solver].
      destruct (Hn m' H) as [?|Hf]; [left; set_solver|by right].
  - destruct (Forall2_lookup_r _ _ _ _ _ Hp Hi) as (init & Hin & Hh & Hni). cbn [fst snd] in Hh, Hni.
    destruct (proc_step_heard _ _ _ _ _ Hps Hh) as (Hh' & more & Hf & ->).
    pose proof (node_inv_step _ _ _ _ _ _ _ _ (proc_step_node _ _ _ _ _ Hps) Hni) as Hni'.
    assert (is_some (nd_registry n') = is_some (nd_registry n)) as Hreg by apply Hni'.
    destruct S as [ps ms out_]. cbn [procs net outside] in *. split; cbn [procs net outside].
    + rewrite <- (list_insert_id inits i init Hin).
      apply Forall2_insert; [eapply proc_inv_mono; [|done]; set_solver|]. cbn.
      split; [eapply heard_mono; [|done]; set_solver|]. cbn [fst snd]. by rewrite Hreg.
    + intros m [H|H]%elem_of_app.
      * destruct (Hn m H) as [?|Hb]; [by left|right]. by eapply fired_by_step.
      * right. apply list_elem_of_omap in H as (ta & Hta & Hm). exists i, id, n', ta. cbn [procs].
        rewrite list_lookup_insert_eq by (by eapply lookup_lt_Some). rewrite Hf. set_solver.
Qed.

Lemma swarm_inv_run inits S S' : swarm_start inits S -> rtc swarm_step S S' -> swarm_inv inits S'.
Proof.
  intros H%swarm_inv_start Hr. induction Hr as [|x y z Hxy _ IH]; [done|]. by eapply IH, swarm_inv_step.
Qed.

(** The robot's own rules key is the only concrete key its reload task hears. *)
Lemma rules_key_exact id k :
  mesh_id id = true -> forallb plain_chunk (split_on slash k) = true ->
  key_matches ("robot/" +:+ id +:+ "/local/rules") k = true -> k = "robot/" +:+ id +:+ "/local/rules".
Proof.
  intros (Hp & Hs & Hne)%mesh_id_inv Hk.
  assert (split_on slash ("robot/" +:+ id +:+ "/local/rules") = ["robot"; id; "local"; "rules"]) as Hsp.
  { change ("robot/" +:+ id +:+ "/local/rules") with (path ["robot"; id; "local"] "rules").
    rewrite split_path by (cbn [forallb]; by rewrite Hs). done. }
  assert ((id =? "*")%string = false) as Hstar.
  { destruct (String.eqb_spec id "*") as [->|]; done. }
  rewrite key_matches_chunks, Hsp; [|rewrite Hsp; cbn [forallb]; rewrite Hp; reflexivity|exact Hk].
  pose proof (join_split slash k) as Hj. destruct (split_on slash k) as [|a [|b [|c [|d [|]]]]];
    cbn [chunks_match]; rewrite ?andb_false_r; try done.
  rewrite !andb_true_iff. rewrite !orb_true_iff, !String.eqb_eq. intros (Ha & Hb & Hc & Hd & _).
  apply String.eqb_neq in Hstar. destruct Ha as [|<-], Hb as [|<-], Hc as [|<-], Hd as [|<-]; try done.
Qed.

(** ** Properties *)

(** A swarm is its nodes: whatever the processes, the messages and their
    interleaving, what each process does in a run of the swarm is a run of
    its own node, so that every theorem of Node.v and Robot.v holds of it
    inside the swarm. *)
Theorem swarm_projects (S S' : Swarm) :
  rtc swarm_step S S' ->
  Forall2 (fun p p' => p'.1 = p.1 /\
     rtc (node_step rules_from_toml ruleset_from_toml ruleset_to_toml sha256) p.2 p'.2) (procs S) (procs S').
Proof.
  intros Hr. induction Hr as [x|x y z Hxy _ IH].
  - apply Forall_Forall2_diag, Forall_forall. intros p _. split; [done|apply rtc_refl].
  - destruct Hxy as [m S|i id n n' out S Hi Hps]; [done|]. cbn [procs] in IH.
    apply Forall2_same_length_lookup in IH as [Hlen IH]. rewrite length_insert in Hlen.
    apply Forall2_same_length_lookup. split; [done|]. intros j p p' Hj Hj'.
    destruct (decide (i = j)) as [<-|Hne].
    + rewrite Hi in Hj. injection Hj as <-.
      destruct (IH i (id, n') p') as [H1 H2]; [|done|].
      { apply list_lookup_insert_eq. by eapply lookup_lt_Some. }
      split; [done|]. eapply rtc_l; [|exact H2]. by eapply proc_step_node.
    + apply (IH j p p'); [by rewrite list_lookup_insert_ne|done].
Qed.

(** C2. The chain of custody.  In every reachable state of a swarm, a message
    on the network came from outside or was put there by an engine for an
    action of a rule, and that rule is of the ruleset the engine's process
    started with or of one denoted by a message on the network on a key that
    the process's reload task listens to; and every sample an engine
    evaluates is the payload of a message on a key its rule's topic
    matches. *)
Theorem swarm_chain_of_custody (inits : list (Arc Rules)) (S S' : Swarm) :
  swarm_start inits S -> rtc swarm_step S S' ->
  (forall m, m ∈ net S' -> m ∈ outside S' \/
     exists i id n init t a r rs,
       procs S' !! i = Some (id, n) /\ inits !! i = Some init /\ message_of (t, a) = Some m /\
       a ∈ r_actions r /\ r ∈ rules rs /\
       (rs = arc_val init \/
        exists k b, (k, b) ∈ net S' /\ key_matches (reload_pattern id n) k = true /\
          activates_ (is_some (nd_registry n)) (lossy b) rs)) /\
  (forall i id n t v, procs S' !! i = Some (id, n) -> latest (ev (nd_loop n)) !! t = Some v ->
     exists k b p, (k, b) ∈ net S' /\ v = payload_of b /\ pattern_try_new t = Ok p /\
       key_matches (pattern_str p) k = true).
Proof.
  intros Hs Hr. destruct (swarm_inv_run _ _ _ Hs Hr) as [Hp Hn]. split.
  - intros m [Ho|(i & id & n & [t a] & Hi & Hta & Hm)]%Hn; [by left|right].
    destruct (Forall2_lookup_r _ _ _ _ _ Hp Hi) as (init & Hin & Hh & Hni). cbn [fst snd] in Hh, Hni.
    pose proof (ni_fired _ _ _ _ _ _ Hni) as Hf. rewrite Forall_forall in Hf.
    destruct (Hf _ Hta) as (rs & Hsrc & r & Hr' & Ha). exists i, id, n, init, t, a, r, rs.
    do 5 (split; [done|]). destruct Hsrc as [->|([arc text] & Htext & Hact)]; [by left|right].
    destruct (he_texts _ _ _ Hh _ Htext) as (k & b & Hkb & Hk & He). cbn [snd] in He, Hact. subst text.
    by exists k, b.
  - intros i id n t v Hi Ht. destruct (Forall2_lookup_r _ _ _ _ _ Hp Hi) as (init & _ & Hh & _).
    by apply (he_latest _ _ _ Hh).
Qed.

(** C10. A robot is reloaded on its own key only.  In a swarm whose messages are
    on concrete keys, every text a robot's reload task has received was put
    on [robot/{id}/local/rules] and nowhere else, the ruleset it evaluates is
    the last of those that parsed or the one it started with, and a robot for
    whose key there is no message still evaluates the latter - whatever is
    published to the other robots, or to the fleet: a ruleset the server
    registers and activates changes the server's engine alone. *)
Theorem robots_reload_on_own_key (inits : list (Arc Rules)) (S S' : Swarm) (i : nat) (id : string)
    (n : Node) (init : Arc Rules) :
  swarm_start inits S -> rtc swarm_step S S' ->
  (forall k b, (k, b) ∈ net S' -> forallb plain_chunk (split_on slash k) = true) ->
  procs S' !! i = Some (id, n) -> inits !! i = Some init -> nd_registry n = None -> mesh_id id = true ->
  let key := "robot/" +:+ id +:+ "/local/rules" in
  (forall m, m ∈ nd_received n -> exists b, (key, b) ∈ net S' /\ m.2 = lossy b) /\
  evaluated_rules n = last_good rules_from_toml (arc_val init) (nd_received n) /\
  ((forall b, (key, b) ∉ net S') -> evaluated_rules n = arc_val init).
Proof.
  intros Hs Hr Hplain Hi Hin Hreg Hid key. destruct (swarm_inv_run _ _ _ Hs Hr) as [Hp _].
  destruct (Forall2_lookup_r _ _ _ _ _ Hp Hi) as (init' & Hin' & Hh & Hni). rewrite Hin in Hin'.
  injection Hin' as <-. cbn [fst snd] in Hh, Hni. rewrite Hreg in Hni.
  assert (forall m, m ∈ nd_received n -> exists b, (key, b) ∈ net S' /\ m.2 = lossy b) as Htexts.
  { intros m (k & b & Hkb & Hk & He)%(he_texts _ _ _ Hh). unfold reload_pattern in Hk. rewrite Hreg in Hk.
    apply (rules_key_exact id k Hid (Hplain k b Hkb)) in Hk. subst k. by exists b. }
  pose proof (ni_last _ _ _ _ _ _ Hni eq_refl) as Hlast. split; [done|]. split; [done|].
  intros Hnone. rewrite Hlast. destruct (nd_received n) as [|m ms]; [done|].
  destruct (Htexts m) as (b & Hb & _); [by left|]. by destruct (Hnone b).
Qed.

(** Deep zone events are heard by nobody.  The topic table accepts the
    five-segment events [zone/{site}/{cell}/{id}/entered] and [cleared], but
    neither of the engine's two zone subscriptions matches such a key. *)
Theorem deep_zone_events_unheard (site cell id verb : string) :
  mesh_id site = true -> mesh_id cell = true -> mesh_id id = true -> verb = "entered" \/ verb = "cleared" ->
  let key := "zone/" +:+ site +:+ "/" +:+ cell +:+ "/" +:+ id +:+ "/" +:+ verb in
  topic_try_new key = Ok (mkTopic key) /\
  key_matches ZONE_ENTERED_PATTERN key = false /\ key_matches ZONE_CLEARED_PATTERN key = false.
Proof.
  intros (Hp1 & Hs1 & _)%mesh_id_inv (Hp2 & Hs2 & _)%mesh_id_inv (Hp3 & Hs3 & _)%mesh_id_inv Hv key.
  assert (split_on slash key = ["zone"; site; cell; id; verb]) as Hsp.
  { change key with (path ["zone"; site; cell; id] verb).
    rewrite split_path by (cbn [forallb]; by rewrite Hs1, Hs2, Hs3). by destruct Hv as [-> | ->]. }
  assert (forallb plain_chunk (split_on slash key) = true) as Hplain.
  { rewrite Hsp. cbn [forallb]. rewrite Hp1, Hp2, Hp3. by destruct Hv as [-> | ->]. }
  assert (forall v, v = "entered" \/ v = "cleared" -> key_matches ("zone/*/" +:+ v) key = false) as Hno.
  { intros v Hv'. rewrite key_matches_chunks, Hsp by (by destruct Hv' as [-> | ->]).
    replace (split_on slash ("zone/*/" +:+ v)) with ["zone"; "*"; v] by (by destruct Hv' as [-> | ->]).
    cbn [chunks_match]. by rewrite !andb_false_r. }
  split; [|split; [apply (Hno "entered")|apply (Hno "cleared")]; auto].
  apply topic_try_new_Ok. split; [done|]. change (canonicalize key) with key. split; [done|].
  rewrite Hsp. unfold matches_one_of. destruct Hv as [-> | ->]; cbn; by rewrite ?orb_true_r.
Qed.

(** The documented identity names two robots.  A client started as the
    documents show, with [--robot-id robot-7], listens for rules on
    [robot/robot-7/local/rules]; the topic [robot-7/local/rules] canonicalises
    to [robot/7/local/rules], which it does not hear. *)
Theorem hyphen_identity_splits (id : string) :
  mesh_id id = true ->
  rules_key (E := string) ("robot-" +:+ id) = Ok (mkTopic ("robot/" +:+ ("robot-" +:+ id) +:+ "/local/rules")) /\
  topic_try_new ("robot-" +:+ id +:+ "/local/rules") = Ok (mkTopic ("robot/" +:+ id +:+ "/local/rules")) /\
  key_matches ("robot/" +:+ ("robot-" +:+ id) +:+ "/local/rules") ("robot/" +:+ id +:+ "/local/rules") = false.
Proof.
  intros Hm. pose proof (mesh_id_inv id Hm) as (Hp & Hs & Hne).
  assert (mesh_id ("robot-" +:+ id) = true) as Hm'.
  { unfold mesh_id, plain_chunk in *. cbn [forallb] in *. rewrite !has_char_app.
    destruct (id =? "")%string; [done|exact Hm]. }
  pose proof (mesh_id_inv _ Hm') as (_ & Hs' & _).
  destruct (robot_builders_Ok (E := string) _ Hs') as (-> & _). split; [done|].
  assert (topic_try_new ("robot/" +:+ id +:+ "/local/rules") = Ok (mkTopic ("robot/" +:+ id +:+ "/local/rules")))
    as Ht.
  { destruct (robot_builders_Ok (E := string) _ Hs) as (Hr & _). revert Hr. unfold rules_key.
    destruct (topic_try_new _) as [t| |]; cbn; congruence. }
  split.
  - apply topic_try_new_Ok in Ht as (_ & _ & Ht). apply topic_try_new_Ok. split; [done|].
    rewrite canonicalize_robot_slash in Ht. by rewrite canonicalize_hyphen.
  - destruct (key_matches _ _) eqn:Hk; [|done]. apply rules_key_exact in Hk; [|done|].
    + apply str_app_inj_l, str_app_inj_r, (f_equal String.length) in Hk.
      rewrite str_length_app in Hk. cbn in Hk. lia.
    + change ("robot/" +:+ id +:+ "/local/rules") with (path ["robot"; id; "local"] "rules").
      rewrite split_path by (cbn [forallb]; by rewrite Hs). cbn [forallb app]. by rewrite Hp.
Qed.
End swarm.

(** ** A server and two robots *)
Module SwarmEx.
(** Key-expression matching with a double star at the end. *)
Fixpoint deep_chunks (ps ks : list string) : bool :=
  match ps, ks with
  | [], [] => true
  | p :: ps', k :: ks' =>
      (if (p =? "**")%string then match ps' with [] => true | _ => false end else false)
      || ((p =? "*") || (p =? k))%string && deep_chunks ps' ks'
  | _, _ => false
  end.
#[global] Instance deep_match : KeyMatch := fun p k => deep_chunks (split_on slash p) (split_on slash k).
#[global] Instance deep_match_law : KeyMatchLaw deep_match.
Proof.
  intros p k Hp _. unfold key_matches, deep_match. generalize (split_on slash k). revert Hp.
  generalize (split_on slash p). clear p k. intros ps. induction ps as [|p ps IH]; intros Hp [|k ks]; try done.
  cbn [forallb] in Hp. apply andb_true_iff in Hp as [Hp Hps]. cbn [deep_chunks chunks_match].
  rewrite IH by done. destruct (String.eqb_spec p "**") as [->|_]; [done|]. done.
Qed.

Definition server : Node := mkNode (LoopEx.started []) (Some registry_empty) [].
Definition to_vec (_ : Value (JN := model_number)) : string + string := inr "1".
Definition from_slice (_ : string) : option (Value (JN := model_number)) := Some (Bool true).
Definition inits : list (Arc (Rules (JN := model_number))) := [LoopEx.old; LoopEx.old; LoopEx.old].
Definition start : Swarm := mkSwarm [("0", server); ("7", NodeEx.started []); ("8", NodeEx.started [])] [] [].

(** Robot 7 gets rules, then a sample; the fleet gets a ruleset. *)
Definition told : list Message :=
  [("robot/7/local/rules", "good"); ("sensor/b", "1"); ("fleet/cell/ruleset/dock", "dock")].
Definition registered : Node :=
  match node_reload NodeEx.reader ConfigEx.rs_reader RegEx.writer RegEx.sha all_ok "" "0" 1 "dock" server with
  | Ok n => n
  | _ => server
  end.
Definition r1 : Node := NodeEx.reload 1 "good" (NodeEx.started []).
Definition r2 : Node := with_loop r1 (on_changed LoopEx.sub_all (nd_loop r1)).
Definition r3 : Node := with_loop r2 (deliver (nd_loop r2) "sensor/b" (payload_of from_slice "1")).
Definition r4 : Node := with_loop r3 (on_sample 8 (nd_loop r3)).
Definition r5 : Node := with_loop r4 (on_tick 9 (nd_loop r4)).
Definition puts : list Message :=
  omap (message_of to_vec) (drop (length (fired (nd_loop r4))) (fired (on_tick 9 (nd_loop r4)))).
Definition final : Swarm :=
  mkSwarm [("0", registered); ("7", r5); ("8", NodeEx.started [])] (told ++ puts) told.

Lemma started : swarm_start inits start.
Proof.
  split; [|done]. repeat constructor; cbn [snd]; exists LoopEx.sub_all, [].
  - exists (Some registry_empty). reflexivity.
  - exists None. reflexivity.
  - exists None. reflexivity.
Qed.

#[local] Notation step := (swarm_step NodeEx.reader ConfigEx.rs_reader RegEx.writer RegEx.sha to_vec from_slice (fun s => s)).
#[local] Notation pstep := (proc_step NodeEx.reader ConfigEx.rs_reader RegEx.writer RegEx.sha to_vec from_slice (fun s => s)).
#[local] Notation hear := (hears NodeEx.reader ConfigEx.rs_reader RegEx.writer RegEx.sha (fun s => s)).

Lemma registers : hear told "0" server registered.
Proof.
  apply (hears_text _ _ _ _ _ _ _ "fleet/cell/ruleset/dock" "dock" all_ok "" 1); [set_solver|reflexivity|].
  reflexivity.
Qed.
Lemma reloads : hear told "7" (NodeEx.started []) r1.
Proof.
  apply (hears_text _ _ _ _ _ _ _ "robot/7/local/rules" "good" all_ok "" 1); [set_solver|reflexivity|].
  reflexivity.
Qed.

Lemma changes : pstep told "7" r1 r2 [].
Proof.
  exact (ps_changed _ _ _ _ _ _ _ told "7" LoopEx.sub_all r1 (with_loop r1 (mark_changed (nd_loop r1)))
    eq_refl (rtc_refl _ _)).
Qed.
Lemma senses : pstep told "7" r2 r3 [].
Proof.
  apply (ps_sensor _ _ _ _ _ _ _ _ _ "sensor/b" (mkPattern "sensor/b") "sensor/b" "1");
    [set_solver|vm_compute; right; left|reflexivity|reflexivity].
Qed.

(** One process at a time, on the network of [told]. *)
Definition with_robot (n : Node) : list (string * Node) := [("0", registered); ("7", n); ("8", NodeEx.started [])].
Lemma robot_step n n' : pstep told "7" n n' [] ->
  step (mkSwarm (with_robot n) told told) (mkSwarm (with_robot n') told told).
Proof. intros H. apply (sw_proc _ _ _ _ _ _ _ 1 "7" n n' [] (mkSwarm (with_robot n) told told)); done. Qed.
Lemma told_steps : rtc step start (mkSwarm (procs start) told told).
Proof.
  eapply rtc_l; [apply (sw_outside _ _ _ _ _ _ _ ("robot/7/local/rules", "good"))|].
  eapply rtc_l; [apply (sw_outside _ _ _ _ _ _ _ ("sensor/b", "1"))|].
  eapply rtc_l; [apply (sw_outside _ _ _ _ _ _ _ ("fleet/cell/ruleset/dock", "dock"))|apply rtc_refl].
Qed.

Lemma swarm_runs : rtc step start final.
Proof.
  etrans; [exact told_steps|].
  eapply rtc_l; [apply (sw_proc _ _ _ _ _ _ _ 0 "0" server registered [] (mkSwarm (procs start) told told));
    [reflexivity|apply ps_hears, registers]|].
  change (rtc step (mkSwarm (with_robot (NodeEx.started [])) told told) final).
  eapply rtc_l; [apply robot_step, ps_hears, reloads|]. eapply rtc_l; [apply robot_step, changes|].
  eapply rtc_l; [apply robot_step, senses|].
  eapply rtc_l; [apply robot_step, (ps_sample _ _ _ _ _ _ _ told "7" 8 r3)|].
  apply rtc_once.
  exact (sw_proc _ _ _ _ _ _ _ 1 "7" r4 r5 puts (mkSwarm (with_robot r4) told told) eq_refl
    (ps_tick _ _ _ _ _ _ _ told "7" 9 r4)).
Qed.
End SwarmEx.

Lemma swarm_projects_witness :
  rtc (node_step NodeEx.reader ConfigEx.rs_reader RegEx.writer RegEx.sha) (NodeEx.started []) SwarmEx.r5.
Proof.
  pose proof (swarm_projects _ _ _ _ _ _ _ _ _ SwarmEx.swarm_runs) as H.
  exact (proj2 (Forall2_lookup_lr _ _ _ 1 ("7", NodeEx.started []) ("7", SwarmEx.r5) H eq_refl eq_refl)).
Defined.

Lemma swarm_chain_of_custody_witness :
  exists i id n t v, procs SwarmEx.final !! i = Some (id, n) /\ latest (ev (nd_loop n)) !! t = Some v /\
    exists k b, (k, b) ∈ net SwarmEx.final /\ v = payload_of SwarmEx.from_slice b.
Proof.
  exists 1, "7", SwarmEx.r5, "sensor/b", (Bool true).
  assert (latest (ev (nd_loop SwarmEx.r5)) !! "sensor/b" = Some (Bool true)) as Hl
    by (vm_cast_no_check (@eq_refl (option (Value (JN := model_number))) (Some (Bool true)))).
  split; [reflexivity|]. split; [exact Hl|].
  destruct (swarm_chain_of_custody _ _ _ _ _ _ _ _ _ _ SwarmEx.started SwarmEx.swarm_runs) as [_ H].
  destruct (H 1 "7" SwarmEx.r5 "sensor/b" (Bool true) eq_refl Hl) as (k & b & p & Hkb & Hv & _).
  exists k, b. split; [exact Hkb|exact Hv].
Defined.

(** Robot 8 keeps its rules though robot 7 and the fleet got others. *)
Lemma robots_reload_on_own_key_witness :
  evaluated_rules (NodeEx.started []) = arc_val LoopEx.old.
Proof.
  refine (proj2 (proj2 (robots_reload_on_own_key _ _ _ _ _ _ _ SwarmEx.inits SwarmEx.start SwarmEx.final 2 "8"
    (NodeEx.started []) LoopEx.old SwarmEx.started SwarmEx.swarm_runs _ eq_refl eq_refl eq_refl eq_refl)) _).
  - intros k b Hkb. change (net SwarmEx.final) with (SwarmEx.told ++ SwarmEx.puts) in Hkb.
    assert (SwarmEx.puts = [("actuator/horn", "1")]) as Hp by (vm_compute; reflexivity).
    rewrite Hp in Hkb. unfold SwarmEx.told in Hkb. cbn [app] in Hkb.
    repeat (apply elem_of_cons in Hkb as [[= -> ->]|Hkb]; [reflexivity|]). by apply elem_of_nil in Hkb.
  - intros b Hkb. change (net SwarmEx.final) with (SwarmEx.told ++ SwarmEx.puts) in Hkb.
    assert (SwarmEx.puts = [("actuator/horn", "1")]) as Hp by (vm_compute; reflexivity).
    rewrite Hp in Hkb. unfold SwarmEx.told in Hkb. cbn [app] in Hkb.
    repeat (apply elem_of_cons in Hkb as [[=]|Hkb]). by apply elem_of_nil in Hkb.
Defined.

Lemma deep_zone_events_unheard_witness :
  key_matches ZONE_ENTERED_PATTERN "zone/site/cell/7/entered" = false.
Proof. apply (deep_zone_events_unheard "site" "cell" "7" "entered"); auto. Defined.

Lemma hyphen_identity_splits_witness :
  key_matches "robot/robot-7/local/rules" "robot/7/local/rules" = false.
Proof. apply (hyphen_identity_splits "7"). reflexivity. Defined.
