(* ===== verification/TestsRules.v ===== *)
(** * TestsRules: the unit tests of the rule format, the semantic compiler, the
      inputs and the small modules, evaluated on the model ([rules.rs],
      [semantic.rs], [config.rs], [runtime.rs], [signaling.rs],
      [transport.rs], [device.rs], [media.rs], [health.rs])

    As in TestsData.v: a text is the tree its crate's parser reads from it, so
    a round trip is through the derived form of the type.  Tests of the
    argument parser, of a running session or of GStreamer are left out. *)
From Stdlib Require Import SpecFloat.
From S2P Require Import Prelude Json Serde Rules Topic Semantic Engine EngineProps Registry Channels Config Auth ClientConfig Lease Registration Health Runtime Transport Signaling Media Demo TestsEngine RuleFormat Wire Programs TestsData.
Import Device EngineTests.

Module RuleTests.
#[local] Existing Instance model_number.
Definition reads {A} `{Serde A} (eqb : A -> A -> bool) (a : A) : bool :=
  match de (A := A) (ser a) with Some b => eqb a b | None => false end.
Definition tree {A} (f : V -> option A) (v : V) : string -> string + A :=
  fun _ => match f v with Some a => inr a | None => inl "data" end.
Definition strs (l : list (string * string)) : list (string * V) := map (fun kv => (kv.1, Str kv.2)) l.
Definition fmt (_ : f64) : string := "".
Definition fmtv (_ : V) : string := "".

(** ** [rules.rs] *)
Fixpoint pred_eqb (p q : Predicate) : bool :=
  match p, q with
  | Comparison o a b, Comparison o' a' b' => same o o' && same a a' && same b b'
  | And l, And l' | Or l, Or l' =>
      (fix go l l' := match l, l' with
                      | [], [] => true
                      | x :: r, x' :: r' => pred_eqb x x' && go r r'
                      | _, _ => false
                      end) l l'
  | Not x, Not x' => pred_eqb x x'
  | _, _ => false
  end.
Definition trigger_eqb (t u : Trigger) : bool :=
  (t_topic t =? t_topic u)%string && same (t_mode t) (t_mode u) &&
  match t_pred t, t_pred u with Some p, Some q => pred_eqb p q | None, None => true | _, _ => false end.
Definition near_7 : Predicate := Comparison OpLt (Prim (Proximity "7")) (OFloat (metres 12)).
Definition typed : Rules :=
  mkRules [mkRule "t-typed" (mkWhen [mkTrigger "robot/7/local/bumper" (Some near_7) Level] [])
             [mkAction "stop/fleet/cmd" Reliable (Object [("stop", Bool true)] : V)]].

Definition predicate_tree_is_typed : bool :=
  let complex := And [near_7; Or [Not (Comparison OpEq (Field "pressed") (OBool true))]] in
  all [reads pred_eqb near_7; reads pred_eqb complex; same (t_mode Trigger_default) Edge;
       reads trigger_eqb (mkTrigger "robot/7/local/bumper" (Some near_7) Level);
       match de (A := Rules) (ser typed) with
       | Some (mkRules [r]) =>
           (r_name r =? "t-typed")%string &&
           match r_actions r with
           | a :: _ => (a_topic a =? "stop/fleet/cmd")%string && same (a_qos a) Reliable
           | [] => false
           end
       | _ => false
       end].

(** ** [semantic.rs]

    [doc] is the tree of a test's manifest: a site, one zone, one rule. *)
Definition safety : V :=
  Object [("safety", Object [("shape", Str "rect"); ("x", float 0 0); ("y", float 0 0); ("w", float 20 1); ("h", float 20 1)])].
Definition cell_7 : V := Object (strs [("id", "cell-7"); ("frame", "cell-7/world")]).
Definition doc (name : string) (dist : V) (action : list (string * V)) : V :=
  Object [("site", cell_7); ("zones", safety);
          ("rules", Array [Object [("name", Str name); ("when", Object [("near_human", dist)]);
                                   ("actions", Array [Object action])]])].
Definition slow_doc : V :=
  doc "hrc-slow-near-human" (float 12 1) [("slow_to", float 1 1); ("qos", Str "best_effort")].
Definition ruleset_tree (name : string) (ver : Z) (more : list (string * V)) (rule zone : string) (when : list (string * V))
    (speed : V) : V :=
  Object ([("ruleset_name", Str name); ("version", int ver); ("robot_owner", Str "robot/7")] ++ more ++
    [("rule", Array [Object
       [("rule_name", Str rule); ("when", Object (("in_zone", Str zone) :: when));
        ("actions", Array [Object [("topic", Str "robot/7/local/drive"); ("payload", Object [("speed_mps", speed)])]])]])])%list.
Definition site_x : V := Object [("site", Object (strs [("id", "x")]))].
(** The parser of the other format must not be asked. *)
Definition wrong {A} (_ : string) : string + A := inl "wrong format".

Definition parse_json_semantic_doc : bool :=
  match parse_semantic_json (tree de_manifest slow_doc) "" with
  | Ok d =>
      (site_id (site d) =? "cell-7")%string &&
      match m_rules d with [r] => same (near_human (sr_when r)) (Some (metres 12)) | _ => false end
  | _ => false
  end.
Definition parse_json_ruleset : bool :=
  match parse_semantic_ruleset
          (tree de_semantic_ruleset
             (ruleset_tree "acme-site-a" 3 [] "slow_near_human" "zone_1" [("near_human", float 12 1)] (float 3 1))) "" with
  | Ok d => all [(srs_name d =? "acme-site-a")%string; (length (srs_rules d) =? 1)%nat]
  | _ => false
  end.
Definition detects (r : res SemanticError RulesManifest) : bool :=
  match r with Ok d => (site_id (site d) =? "x")%string | _ => false end.
Definition auto_detects_json_from_brace : bool :=
  detects (parse_semantic_auto wrong (tree de_manifest site_x) ("{" +:+ quote "site" +:+ ":{" +:+ quote "id" +:+ ":" +:+ quote "x" +:+ "}}")).
Definition auto_detects_toml_from_non_brace : bool :=
  detects (parse_semantic_auto (tree de_manifest site_x) wrong ("[site]" +:+ newline +:+ "id = " +:+ quote "x")).
Definition json_compile_roundtrip : bool :=
  match parse_semantic_json (tree de_manifest (doc "test-rule" (float 15 1) [("slow_to", float 2 1)])) "" with
  | Ok d => match compile fmt fmtv d "7" with
            | Ok rs => match rules rs with [r] => (r_name r =? "test-rule")%string | _ => false end
            | _ => false
            end
  | _ => false
  end.
Definition json_ruleset_compile : bool :=
  match parse_semantic_ruleset
          (tree de_semantic_ruleset
             (ruleset_tree "test-site" 1 [("site", Object (strs [("id", "cell-7")])); ("zones", safety)] "r1" "safety" []
                (float 1 1))) "" with
  | Ok d => match compile_ruleset fmt fmtv to_ascii_lowercase d "7" with
            | Ok rs =>
                (ruleset_name rs =? "test-site")%string &&
                match rs_rules rs with r :: _ => (r_name r =? "r1")%string | [] => false end
            | _ => false
            end
  | _ => false
  end.

(** ** [config.rs] and [runtime.rs]: stores and inputs

    The reader knows the texts of the tests. *)
Definition raw_valid : V :=
  Object [("rules", Array [Object
    [("name", Str "e-stop-on-bumper");
     ("when", Object [("all", Array [Object
        [("topic", Str "robot/7/local/bumper");
         ("pred", Object [("Comparison", Object [("op", Str "Eq"); ("lhs", Object (strs [("Str", "pressed")]));
                                                 ("rhs", Object [("Bool", Bool true)])])])]])]);
     ("actions", Array [Object [("topic", Str "stop/fleet/cmd"); ("qos", Str "reliable");
                                ("payload", Object [("stop", Bool true)])]])]])].
Definition hr_test : V :=
  Object [("rules", Array [Object
    [("name", Str "hr-test");
     ("when", Object [("all", Array [Object (strs [("topic", "robot/7/local/bumper"); ("mode", "Level")])])]);
     ("actions", Array [Object [("topic", Str "stop/fleet/cmd"); ("qos", Str "reliable");
                                ("payload", Object [("stop", Bool true)])]])]])].
Definition text_tree (t : string) : option V :=
  if (t =? EMPTY_RULES)%string then Some (Object [("rules", Array [])])
  else if (t =? "valid")%string then Some raw_valid
  else if (t =? "semantic")%string then Some slow_doc
  else if (t =? "demo")%string then Some (ser (demo_rules "robot-7"))
  else if (t =? "compiled")%string then
    match de_manifest slow_doc with
    | Some d => match compile fmt fmtv d "robot-7" with Ok rs => Some (ser rs) | _ => None end
    | None => None
    end
  else if (t =? "hr-test")%string then Some hr_test
  else None.
Definition reader {A} (f : V -> option A) (t : string) : string + A :=
  match text_tree t with Some v => tree f v t | None => inl "syntax" end.
Definition rules_reader : string -> string + Rules := reader (de (A := Rules)).
Definition count (r : res string Rules) (n : nat) : bool :=
  match r with Ok rs => (length (rules rs) =? n)%nat | _ => false end.
Definition config_file (p : string) : option string := if (p =? "config")%string then Some "client" else None.
Definition inputs (config ruleset : option string) : res string (option ClientConfig * Rules) :=
  load_inputs config_file (tree (de (A := ClientConfig)) LeaseTests.VALID_CLIENT) (reader de_manifest) rules_reader
    (fun _ => inr "compiled") "demo" (fun t _ => t) fmt fmtv (mkArgs config ruleset) "robot-7".
Definition loads (config ruleset : option string) (configured : bool) (n : nat) : bool :=
  match inputs config ruleset with
  | Ok (c, rs) => Bool.eqb (is_some c) configured && (length (rules rs) =? n)%nat
  | _ => false
  end.
Definition store_of (text : string) : res string Rules :=
  compile_rules_or_default (reader de_manifest) rules_reader (fun _ => inr "compiled") fmt fmtv text "robot-7".
Definition no_file {A} (_ : string) : option A := None.
Definition auth_of (mode : string) (insecure : bool) : res string AuthConfig :=
  build_auth (fun _ => false) no_file mode insecure None None None.

Definition bootstrap_parses_empty_ruleset : bool :=
  all [count (bootstrap_rules rules_reader EMPTY_RULES) 0;
       count (bootstrap_demo rules_reader "demo" (fun t _ => t) "robot-7") 2].
(** The message that reaches the reload task. *)
Definition hot_reload_swaps_via_transport : bool :=
  match reload_run (W := ConfigEx.arc_watch) rules_reader (fun _ => inl "") (fun _ => inl "") (fun s => s)
          (mkReload (active_new ConfigEx.no_rules) None) [(1, "hr-test")] with
  | Ok st => (length (rules (arc_val (store_current (rl_store st)))) =? 1)%nat
  | _ => false
  end.
Definition auth_none_requires_insecure_override : bool := all [is_err (auth_of "none" false); is_ok (auth_of "none" true)].
Definition auth_mtls_requires_credentials : bool := is_err (auth_of "mtls" false).
Definition auth_unknown_mode_rejected : bool := is_err (auth_of "kerberos" false).
Definition missing_config_uses_empty_ruleset : bool := loads None None false 0.
Definition valid_config_without_ruleset_uses_demo_rules : bool := loads (Some "config") None true 2.
Definition missing_ruleset_file_falls_back_to_safe_state : bool := loads None (Some "/nonexistent/rules.toml") false 0.
Definition unreadable_config_falls_back_to_safe_state : bool := loads (Some "/nonexistent/config.toml") None false 0.
Definition compiles_valid_raw_rules : bool := count (store_of "valid") 1.
Definition compiles_semantic_doc : bool := count (store_of "semantic") 1.
Definition garbage_falls_back_to_fail_safe_state : bool := count (store_of "this is {{{ not toml at all") 0.
Definition readiness_waits_for_engine_subscription : bool :=
  let gate := gate_new in
  all [negb (is_ready gate); is_ready (set_ready gate); is_ready (set_ready gate); negb (is_ready gate_new)].
(** The test drops a clone of the gate that nobody set; [engine_start] of
    Health.v, which is what the engine's task does with it, sets the gate. *)
Definition readiness_stays_unset_when_engine_dies_before_subscribing : bool :=
  let gate := gate_new in all [negb (is_ready gate); negb (is_ready gate)].

Definition tests : list (string * bool) :=
  [("predicate_tree_is_typed", predicate_tree_is_typed); ("parse_json_semantic_doc", parse_json_semantic_doc);
   ("parse_json_ruleset", parse_json_ruleset); ("auto_detects_json_from_brace", auto_detects_json_from_brace);
   ("auto_detects_toml_from_non_brace", auto_detects_toml_from_non_brace);
   ("json_compile_roundtrip", json_compile_roundtrip); ("json_ruleset_compile", json_ruleset_compile);
   ("bootstrap_parses_empty_ruleset", bootstrap_parses_empty_ruleset);
   ("hot_reload_swaps_via_transport", hot_reload_swaps_via_transport);
   ("auth_none_requires_insecure_override", auth_none_requires_insecure_override);
   ("auth_mtls_requires_credentials", auth_mtls_requires_credentials);
   ("auth_unknown_mode_rejected", auth_unknown_mode_rejected);
   ("missing_config_uses_empty_ruleset", missing_config_uses_empty_ruleset);
   ("valid_config_without_ruleset_uses_demo_rules", valid_config_without_ruleset_uses_demo_rules);
   ("missing_ruleset_file_falls_back_to_safe_state", missing_ruleset_file_falls_back_to_safe_state);
   ("unreadable_config_falls_back_to_safe_state", unreadable_config_falls_back_to_safe_state);
   ("compiles_valid_raw_rules", compiles_valid_raw_rules); ("compiles_semantic_doc", compiles_semantic_doc);
   ("garbage_falls_back_to_fail_safe_state", garbage_falls_back_to_fail_safe_state);
   ("readiness_waits_for_engine_subscription", readiness_waits_for_engine_subscription);
   ("readiness_stays_unset_when_engine_dies_before_subscribing",
    readiness_stays_unset_when_engine_dies_before_subscribing)].
Example rule_tests_pass : passing tests = true.
Proof. vm_compute. reflexivity. Qed.
End RuleTests.

(** ** The small modules *)
Module SmallTests.
#[local] Existing Instance model_number.
Definition kind_of (v : V) : option SignalKind := de v.
Definition json_is (v : V) (s : string) : bool := match v with Str t => (t =? s)%string | _ => false end.
Definition u16_of (n : N) : u16 := uint_wrap 16 n.

(** *** [signaling.rs] *)
Definition offer_msg : SignalMessage :=
  mkSignal ("v=0" +:+ String "013" newline) Offer "robot-7" "robot-9"
    [mkIce "candidate:1 1 UDP 1 127.0.0.1 5000 typ host" (Some "0") (Some (u16_of 0))].
Definition signal_message_round_trips_offer : bool :=
  match de (A := SignalMessage) (ser offer_msg) with
  | Some (mkSignal sdp Offer from to [i]) =>
      all [(sdp =? sig_sdp offer_msg)%string; (from =? "robot-7")%string; (to =? "robot-9")%string;
           forallb (fun j => candidate i =? candidate j)%string (sig_ice offer_msg);
           same (sdp_mid i) (Some "0"); match mline_index i with Some m => (uint_val m =? 0)%N | None => false end]
  | _ => false
  end.
Definition signal_kind_serde_is_lowercase : bool :=
  all [json_is (ser Offer) "offer"; json_is (ser Answer) "answer";
       match kind_of (Str "answer") with Some Answer => true | _ => false end;
       negb (is_some (kind_of (Str "OFFER")))].
Definition answer_without_ice_field_defaults_empty : bool :=
  match de (A := SignalMessage)
          (Object (RuleTests.strs [("sdp", "v=0"); ("kind", "answer"); ("from", "robot-9"); ("to", "robot-7")])) with
  | Some m => (length (sig_ice m) =? 0)%nat && match sig_kind m with Answer => true | Offer => false end
  | None => false
  end.
(** The text that is no JSON is the parser's to reject. *)
Definition malformed_signal_json_is_rejected : bool :=
  negb (is_some (de (A := SignalMessage)
    (Object (RuleTests.strs [("kind", "answer"); ("from", "robot-9"); ("to", "robot-7")])))).
Definition presence_round_trips : bool :=
  match de (A := Presence) (ser (mkPresence "robot-7" ["robot/7/local/cam0"])) with
  | Some p => (pres_id p =? "robot-7")%string && same (streams p) ["robot/7/local/cam0"]
  | None => false
  end.
(** As the authors expect it of the builder; the identifiers are kept. *)
Definition topic_builders_substitute_self_and_peer : bool :=
  all [TopicTests.built (signal_offer_key "robot-7" "robot-9") "robot/robot-7/signal/robot-9/offer";
       TopicTests.built (signal_offer_key "a" "b") "robot/a/signal/b/offer"].

(** *** [transport.rs] *)
Definition inserted (c : ZConfig) (k v : string) : bool :=
  match List.filter (fun kv => (kv.1 =? k)%string) c with [kv] => (kv.2 =? v)%string | _ => false end.
Definition json_strings (l : list string) : string + string :=
  inr ("[" +:+ AuthTests.sep (map quote l) +:+ "]").
Definition mentions (c : ZConfig) (k what : string) : bool :=
  existsb (fun kv => (kv.1 =? k)%string && contains_str what kv.2) c.
Definition ruleset_pub_key_has_site_and_name : bool :=
  TopicTests.built (ruleset_pub_key "cell-7" "acme") "fleet/cell-7/ruleset/acme".
Definition loopback_config_sets_router_mode_and_localhost_listener : bool :=
  all [inserted loopback_config "mode" (quote "router"); inserted loopback_config "scouting/multicast/enabled" "true";
       mentions loopback_config "listen/endpoints" "tcp/127.0.0.1:0"].
Definition connect_config_is_client_mode_with_endpoints : bool :=
  let cfg := connect_config json_strings ["tcp/10.0.0.1:7447"; "tcp/10.0.0.2:7447"] in
  all [inserted cfg "mode" (quote "client"); mentions cfg "connect/endpoints" "tcp/10.0.0.1:7447";
       mentions cfg "connect/endpoints" "tcp/10.0.0.2:7447"].

(** *** [device.rs], on a host without a camera *)
Definition host (p : string) : bool := (p =? "/etc/hostname")%string.
Definition regular (_ : string) : string + bool := inr false.
Definition device (p : string) : res DeviceValidationError VideoDevice := from_path host regular p.
Definition not_found (r : res DeviceValidationError VideoDevice) : bool :=
  match r with Err (DeviceNotFound _) => true | _ => false end.
Definition missing_device_is_rejected : bool := not_found (device "/dev/video-does-not-exist-xyz").
Definition non_video_path_is_rejected : bool :=
  match device "/etc/hostname" with Err (NotACharacterDevice _) => true | _ => false end.
Definition valid_video_device_is_accepted : bool := not_found (device "/dev/video0").

(** *** [media.rs], [health.rs] *)
Definition encoder_selection : bool :=
  all [(encoder_element_name true =? "nvv4l2h264enc")%string; (encoder_element_name false =? "x264enc")%string].
Definition refused (_ : string * N) : option (list string) := None.
Definition probe_fails_when_nothing_listens : bool := negb (probe refused "127.0.0.1:9999").
(** Whatever would answer. *)
Definition probe_rejects_malformed_addr : bool :=
  let served _ := Some ["HTTP/1.1 200 OK"] in
  all [negb (probe served "not-an-addr"); negb (probe served "127.0.0.1:notaport")].

Definition tests : list (string * bool) :=
  [("signal_message_round_trips_offer", signal_message_round_trips_offer);
   ("signal_kind_serde_is_lowercase", signal_kind_serde_is_lowercase);
   ("answer_without_ice_field_defaults_empty", answer_without_ice_field_defaults_empty);
   ("malformed_signal_json_is_rejected", malformed_signal_json_is_rejected);
   ("presence_round_trips", presence_round_trips);
   ("topic_builders_substitute_self_and_peer", topic_builders_substitute_self_and_peer);
   ("ruleset_pub_key_has_site_and_name", ruleset_pub_key_has_site_and_name);
   ("loopback_config_sets_router_mode_and_localhost_listener",
    loopback_config_sets_router_mode_and_localhost_listener);
   ("connect_config_is_client_mode_with_endpoints", connect_config_is_client_mode_with_endpoints);
   ("missing_device_is_rejected", missing_device_is_rejected);
   ("non_video_path_is_rejected", non_video_path_is_rejected);
   ("valid_video_device_is_accepted", valid_video_device_is_accepted);
   ("encoder_selection", encoder_selection);
   ("probe_fails_when_nothing_listens", probe_fails_when_nothing_listens);
   ("probe_rejects_malformed_addr", probe_rejects_malformed_addr)].
Example small_tests_pass : passing tests = true.
Proof. vm_compute. reflexivity. Qed.
End SmallTests.
