(* ===== verification/TestsProgram.v ===== *)
(** * TestsProgram: the tests under [src/tests/] and the remaining tests over a
      mesh, evaluated on the composed model

    The compiler on the authors' manifests ([semantic_compile.rs]), the two
    [rule] commands ([rule_check.rs]), the registry ([registry_test.rs]), the
    engine behind a compiled manifest ([rule_integration.rs], [core_loop.rs]),
    and the tests of [mesh.rs], [video.rs], [transport.rs] and [health.rs] that
    open a session or a socket: what the session carries is delivered, in
    order.  Texts are trees as in TestsData.v. *)
From Stdlib Require Import SpecFloat.
From S2P Require Import Prelude Json Serde Rules Topic Semantic Engine EngineProps Registry Channels Config Loop Health Transport Signaling Mesh Media Video Cli Demo TestsEngine RuleFormat Wire Command Calls Connect TestsData TestsRules.
Import EngineTests RuleTests.

(** ** [tests/semantic_compile.rs] *)
Module CompileTests.
#[local] Existing Instance model_number.
Definition rect (x y w h : Z) : V :=
  Object [("shape", Str "rect"); ("x", float x 1); ("y", float y 1); ("w", float w 1); ("h", float h 1)].
Definition metre (n : Z) : V := float n 1.
Definition rule (name : string) (when actions : list (string * V)) : V :=
  Object [("name", Str name); ("when", Object when); ("actions", Array [Object actions])].
Definition manifest (more : list (string * V)) (rs : list V) : V := Object (more ++ [("rules", Array rs)])%list.
Definition bare (when : list (string * V)) : V := manifest [] [rule "x" when [("slow_to", metre 1)]].
Definition in_safety (when : list (string * V)) : V :=
  manifest [("site", Object (strs [("id", "cell-7")])); ("zones", Object [("safety", rect 0 0 20 20)])]
    [rule "x" when [("slow_to", metre 1)]].
Definition guards (k : string) (l : list (list (string * V))) : string * V := (k, Array (map Object l)).
Definition zone (z : string) : string * V := ("in_zone", Str z).
Definition near_h (n : Z) : string * V := ("near_human", metre n).

(** The outcomes of [parse_semantic], then [validate] or [compile] for robot 7. *)
Definition parsed (v : V) : res SemanticError RulesManifest := parse_semantic (tree de_manifest v) "".
Definition validated (v : V) : res SemanticError unit := d ← parsed v; validate fmt fmtv d.
Definition compiled (v : V) : res SemanticError Rules := d ← parsed v; compile fmt fmtv d "7".
Definition envelope (more : list (string * V)) (name : string) (when : list (string * V)) (action : list (string * V)) : V :=
  Object (strs [("ruleset_name", "x"); ("robot_owner", "robot/7")] ++ more ++
    [("rule", Array [Object [("rule_name", Str name); ("when", Object when); ("actions", Array [Object action])]])])%list.
Definition parsed_ruleset (v : V) : res SemanticError SemanticRuleset :=
  parse_semantic_ruleset (tree de_semantic_ruleset v) "".
Definition compiled_ruleset (v : V) : res SemanticError Ruleset :=
  d ← parsed_ruleset v; compile_ruleset fmt fmtv to_ascii_lowercase d "7".
Definition drive (payload : V) : list (string * V) := [("topic", Str "robot/7/local/drive"); ("payload", payload)].
Definition slowly : V := Object [("speed_mps", float 3 1)].

(** What the tests look at. *)
Definition ok {A} (r : res SemanticError A) (f : A -> bool) : bool := match r with Ok a => f a | _ => false end.
Definition says {A} (r : res SemanticError A) (what : string) : bool :=
  match r with Err e => contains_str what (fmt_semantic_error e) | _ => false end.
(** The parser's own message is not the model's. *)
Definition unreadable {A} (r : res SemanticError A) : bool :=
  match r with Err e => bool_decide (code_as_str (code e) = code_as_str Parse) | _ => false end.
Definition first_guard (r : res SemanticError Rules) (f : When -> bool) : bool :=
  ok r (fun rs => match rules rs with r0 :: _ => f (r_when r0) | [] => false end).
Definition counts (al an : nat) (w : When) : bool := (length (w_all w) =? al)%nat && (length (w_any w) =? an)%nat.
Definition trigger_is (t : Trigger) (topic : string) (p : Predicate) : bool :=
  (t_topic t =? topic)%string && match t_pred t with Some q => pred_eqb q p | None => false end.
Definition action_is (a : Action) (topic : string) (q : Qos) : bool := (a_topic a =? topic)%string && same (a_qos a) q.
Definition named (n : string) (rs : Rules) : option Rule := List.find (fun r => (r_name r =? n)%string) (rules rs).
Definition refused (r : res SemanticError Ruleset) (c : ErrorCode) (place : string) : bool :=
  match r with
  | Err e => all [(code_as_str (code e) =? code_as_str c)%string; contains_str "rule 'r'" (fmt_semantic_error e);
                  contains_str place (default "" (field_path e))]
  | _ => false
  end.

(** The documents: the constant [DOC], [examples/rules/hrc-cell.toml] and the
    constant [RULESET_DOC]. *)
Definition DOC : V := slow_doc.
Definition hrc_cell : V :=
  manifest [("site", cell_7); ("zones", Object [("safety", rect 0 0 20 20); ("approach", rect (-10) (-10) 40 40)])]
    [rule "hrc-slow-near-human" [near_h 12] [("slow_to", metre 1); ("qos", Str "best_effort")];
     rule "hrc-protective-stop-on-breach" [guards "any" [[zone "safety"]; [near_h 3]]]
       [("estop", Bool true); ("qos", Str "reliable")];
     rule "hrc-resume-after-clear" [guards "all" [[("not_near_human", metre 15)]; [("not_in_zone", Str "safety")]]]
       [("resume", Bool true); ("qos", Str "reliable")]].
Definition RULESET_DOC : V :=
  ruleset_tree "acme-site-a" 3 [("site", cell_7); ("zones", Object [("zone_1", rect 0 0 20 20)])] "slow_near_human" "zone_1"
    [near_h 12] (float 3 1).

Definition parses_minimal_semantic_doc : bool :=
  ok (parsed DOC) (fun d =>
    all [(site_id (site d) =? "cell-7")%string;
         match Semantic.zones d !! "safety" with Some z => same (z_w z) (metres 20) | None => false end;
         match m_rules d with [r] => same (near_human (sr_when r)) (Some (metres 12)) | _ => false end]).
Definition validates_good_doc_ok : bool := is_ok (validated DOC).
Definition rejects_negative_distance : bool := says (validated (bare [near_h (-10)])) "distance".
Definition rejects_unknown_action_verb : bool :=
  unreadable (parsed (manifest [] [rule "x" [zone "safety"] [("explode", Bool true)]])).
Definition compiles_near_human_to_trigger : bool :=
  ok (compiled DOC) (fun rs =>
    match rules rs with
    | r :: _ =>
        (r_name r =? "hrc-slow-near-human")%string &&
        match w_all (r_when r) with
        | [t] => trigger_is t "robot/7/local/human_present" (Comparison OpLt (Prim HumanPresence) (OFloat (metres 12)))
        | _ => false
        end &&
        match r_actions r with [a] => action_is a "robot/7/local/drive" BestEffort | _ => false end
    | [] => false
    end).
Definition compile_rejects_unknown_zone : bool := is_err (compiled (bare [zone "nope"])).
Definition nested_when_any_produces_triggers : bool :=
  ok (compiled hrc_cell) (fun rs =>
    match named "hrc-protective-stop-on-breach" rs with
    | Some r =>
        match w_any (r_when r) with
        | [t; u] =>
            trigger_is t "robot/7/local/zone" (Comparison OpEq (Prim PZone) (OStr "safety")) &&
            trigger_is u "robot/7/local/human_present" (Comparison OpLt (Prim HumanPresence) (OFloat (metres 3)))
        | _ => false
        end
    | None => false
    end).
Definition nested_when_all_produces_triggers : bool :=
  ok (compiled hrc_cell) (fun rs =>
    match named "hrc-resume-after-clear" rs with Some r => (length (w_all (r_when r)) =? 2)%nat | None => false end).
Definition parses_ruleset_envelope : bool :=
  ok (parsed_ruleset RULESET_DOC) (fun d =>
    all [(srs_name d =? "acme-site-a")%string; (srs_version d =? 3)%N; (srs_owner d =? "robot/7")%string;
         (length (srs_rules d) =? 1)%nat]).
Definition compiles_ruleset_to_envelope : bool :=
  ok (compiled_ruleset RULESET_DOC) (fun rs =>
    (ruleset_name rs =? "acme-site-a")%string &&
    match rs_rules rs with [r] => (r_name r =? "slow_near_human")%string | _ => false end).
Definition first_rule {A} (r : res SemanticError Ruleset) (d : A) (f : Rule -> A) : A :=
  match r with Ok rs => match rs_rules rs with r0 :: _ => f r0 | [] => d end | _ => d end.
Definition compiles_in_zone_to_typed_predicate : bool :=
  first_rule (compiled_ruleset (envelope [("site", Object (strs [("id", "cell-7")])); ("zones", Object [("zone_1", rect 0 0 20 20)])]
      "r" [zone "zone_1"] (drive slowly))) false
    (fun r => match w_all (r_when r) with
              | t :: _ => trigger_is t (t_topic t) (Comparison OpEq (Prim PZone) (OStr "zone_1")) && same (t_mode t) Edge
              | [] => false
              end).
Definition action_targets_prd5_local_drive : bool :=
  first_rule (compiled_ruleset RULESET_DOC) false
    (fun r => match r_actions r with a :: _ => (a_topic a =? "robot/7/local/drive")%string | [] => false end).
Definition rejects_nonprimitive_payload : bool :=
  is_err (compiled_ruleset (envelope [("site", Object (strs [("id", "cell-7")]))] "bad" [near_h 10]
    (drive (Object [("nested", Object [("a", int 1)])])))).
Definition rejects_empty_when : bool := says (validated (bare [])) "empty" && is_err (compiled (bare [])).
Definition rejects_nested_empty_when : bool :=
  let v := bare [guards "all" [[]]] in is_err (validated v) && is_err (compiled v).
Definition rejects_unknown_when_field : bool := unreadable (parsed (bare [zone "safety"; ("inn_zone", Str "safety")])).
Definition or_group : list (list (string * V)) := [[zone "safety"]; [near_h 3]].
Definition nested_all_with_any_compiles : bool :=
  first_guard (compiled (in_safety [guards "all" [[guards "any" or_group]]])) (counts 0 2).
Definition nested_any_with_any_compiles : bool :=
  first_guard (compiled (in_safety [guards "any" [[guards "any" or_group]]])) (counts 0 2).
Definition rejects_two_or_groups_anded : bool :=
  says (compiled (in_safety [guards "all" [[guards "any" [[zone "safety"]]]; [guards "any" [[near_h 3]]]]])) "OR group".
Definition rejects_conjunction_inside_or_element : bool :=
  says (compiled (in_safety [guards "any" [[zone "safety"; near_h 3]]])) "OR".
Definition flat_when_still_compiles : bool := first_guard (compiled (in_safety [zone "safety"; near_h 3])) (counts 2 0).
Definition envelope_rejects_unknown_zone : bool :=
  refused (compiled_ruleset (envelope [("site", Object (strs [("id", "cell-7")]))] "r" [zone "nonexistent"] (drive slowly)))
    UnknownZone "when".
Definition envelope_rejects_nonpositive_distance : bool :=
  refused (compiled_ruleset (envelope [] "r" [near_h 0] (drive slowly))) InvalidDistance "when".
Definition envelope_rejects_unknown_action_verb : bool :=
  unreadable (parsed_ruleset (envelope [] "r" [near_h 10] [("explode", Bool true)])).
Definition envelope_rejects_action_without_verb : bool :=
  refused (compiled_ruleset (envelope [] "r" [near_h 10] [("payload", slowly)])) NoActionVerb "actions".

Definition tests : list (string * bool) :=
  [("parses_minimal_semantic_doc", parses_minimal_semantic_doc); ("validates_good_doc_ok", validates_good_doc_ok);
   ("rejects_negative_distance", rejects_negative_distance); ("rejects_unknown_action_verb", rejects_unknown_action_verb);
   ("compiles_near_human_to_trigger", compiles_near_human_to_trigger);
   ("compile_rejects_unknown_zone", compile_rejects_unknown_zone);
   ("nested_when_any_produces_triggers", nested_when_any_produces_triggers);
   ("nested_when_all_produces_triggers", nested_when_all_produces_triggers);
   ("parses_ruleset_envelope", parses_ruleset_envelope); ("compiles_ruleset_to_envelope", compiles_ruleset_to_envelope);
   ("compiles_in_zone_to_typed_predicate", compiles_in_zone_to_typed_predicate);
   ("action_targets_prd5_local_drive", action_targets_prd5_local_drive);
   ("rejects_nonprimitive_payload", rejects_nonprimitive_payload); ("rejects_empty_when", rejects_empty_when);
   ("rejects_nested_empty_when", rejects_nested_empty_when); ("rejects_unknown_when_field", rejects_unknown_when_field);
   ("nested_all_with_any_compiles", nested_all_with_any_compiles);
   ("nested_any_with_any_compiles", nested_any_with_any_compiles);
   ("rejects_two_or_groups_anded", rejects_two_or_groups_anded);
   ("rejects_conjunction_inside_or_element", rejects_conjunction_inside_or_element);
   ("flat_when_still_compiles", flat_when_still_compiles); ("envelope_rejects_unknown_zone", envelope_rejects_unknown_zone);
   ("envelope_rejects_nonpositive_distance", envelope_rejects_nonpositive_distance);
   ("envelope_rejects_unknown_action_verb", envelope_rejects_unknown_action_verb);
   ("envelope_rejects_action_without_verb", envelope_rejects_action_without_verb)].
Example compile_tests_pass : passing tests = true.
Proof. vm_compute. reflexivity. Qed.
End CompileTests.

(** ** [tests/rule_check.rs] *)
Module RuleCheckTests.
#[local] Existing Instance model_number.
Import CompileTests.
(** The files of the tests, by name: the text of each stands for its tree. *)
Definition r1 : V :=
  manifest [("site", Object (strs [("id", "cell-7")]))] [rule "r1" [near_h 10] [("slow_to", metre 1)]].
Definition r1_42 : V :=
  manifest [("site", Object (strs [("id", "cell-42")]))] [rule "r1" [near_h 10] [("slow_to", metre 1)]].
Definition toml_tree (text : string) : option V :=
  if (text =? "hrc-cell.toml")%string then Some hrc_cell
  else if (text =? "flo-bad-rule.toml")%string then Some (bare [near_h (-10)])
  else if (text =? "flo-compile-robot-id.toml")%string then Some r1_42
  else if (text =? "")%string then Some (Object [])
  else if (text =? "flo-envelope.toml")%string then
    Some (Object [("ruleset_name", Str "test"); ("version", int 1); ("robot_owner", Str "robot/7")])
  else if (text =? "flo-typo-when.toml")%string then Some (bare [("in_zne", Str "safety")])
  else if (text =? "flo-empty-when.toml")%string then Some (bare [])
  else None.
Definition json_text : string := "{r1}".
#[local] Instance texts : JsonText := {|
  print_json := print_json (JsonText := TextEx.bits_text);
  parse_json s := if (s =? json_text)%string then inr r1 else parse_json (JsonText := TextEx.bits_text) s;
  data_error _ := "data"
|}.
Definition read_toml {A} (f : V -> option A) (t : string) : string + A :=
  match toml_tree t with
  | Some v => match f v with Some a => inr a | None => inl "data" end
  | None => inl "syntax"
  end.
Definition files (path : string) : string + string :=
  if (path =? "/tmp/flo-nonexistent-file.toml")%string then inl "No such file or directory"
  else if (path =? "flo-empty.toml")%string then inr ""
  else if (path =? "flo-check-json.json")%string then inr json_text
  else inr path.
Definition flo (cmd : RuleSubcommand) : Output :=
  run_rule_command (read_toml de_manifest) (read_toml (de (A := Rules))) fmt fmtv files print_json cmd.
Definition success (o : Output) : bool := (status o =? 0)%nat.
Definition one_json (l : list string) (f : V -> bool) : bool :=
  match l with [t] => match parse_json t with inr v => f v | inl _ => false end | _ => false end.
Definition status_is (s : string) (v : V) : bool :=
  match value_get v "status" with Some (Str t) => (t =? s)%string | _ => false end.

Definition rule_check_passes_valid_doc : bool := success (flo (Check "hrc-cell.toml" false)).
Definition rule_check_fails_invalid_doc : bool := negb (success (flo (Check "flo-bad-rule.toml" false))).
Definition rule_check_json_output : bool :=
  let o := flo (Check "hrc-cell.toml" true) in success o && one_json (out_lines o) (status_is "ok").
Definition rule_compile_fails_invalid_doc : bool := negb (success (flo (Compile "flo-bad-rule.toml" None false))).
Definition rule_check_accepts_json_input : bool := success (flo (Check "flo-check-json.json" false)).
Definition rule_check_rejects_missing_file : bool := negb (success (flo (Check "/tmp/flo-nonexistent-file.toml" false))).
Definition rule_compile_rejects_missing_file : bool :=
  negb (success (flo (Compile "/tmp/flo-nonexistent-file.toml" None false))).
Definition rule_check_accepts_empty_file : bool := success (flo (Check "flo-empty.toml" false)).
Definition rule_check_rejects_bad_toml : bool :=
  let o := flo (Check "flo-bad-toml.toml" false) in
  negb (success o) && existsb (contains_str "E001") (stderr (fun e => e) o).
Definition rule_check_rejects_ruleset_envelope : bool := success (flo (Check "flo-envelope.toml" false)).
Definition rule_check_json_output_on_failure : bool :=
  let o := flo (Check "flo-bad-rule.toml" true) in
  negb (success o) && one_json (stderr (fun e => e) o) (status_is "error").
Definition rule_check_rejects_typoed_when_key : bool := negb (success (flo (Check "flo-typo-when.toml" false))).
Definition rule_check_rejects_empty_when : bool := negb (success (flo (Check "flo-empty-when.toml" false))).

(** The printed document, before its layout. *)
Definition document (path : string) (id : option string) (f : V -> bool) : bool :=
  match rule_compile (read_toml de_manifest) json_manifest fmt fmtv match files path with inr t => t | inl _ => "" end id with
  | Ok rs => success (flo (Compile path id false)) && f (ser rs)
  | _ => false
  end.
Definition compiled_rules (v : V) : list V := match value_get v "rules" with Some (Array l) => l | _ => [] end.
Definition rule_compile_outputs_json : bool :=
  document "hrc-cell.toml" None (fun v => negb (length (compiled_rules v) =? 0)%nat).
Definition rule_compile_accepts_json_input : bool :=
  document "flo-check-json.json" None (fun v =>
    match compiled_rules v with r :: _ => (AuthTests.at_key r "name" =? quote "r1")%string | [] => false end).
Definition rule_compile_with_custom_robot_id : bool :=
  document "flo-compile-robot-id.toml" (Some "42") (fun v =>
    match compiled_rules v with
    | r :: _ => match value_get r "actions" with
                | Some (Array (a :: _)) => (AuthTests.at_key a "topic" =? quote "robot/42/local/drive")%string
                | _ => false
                end
    | [] => false
    end).
Definition demo_rules_parse_with_field_operands : bool :=
  match named "e-stop-on-bumper" (demo_rules "7") with
  | Some r =>
      (length (w_all (r_when r)) =? 2)%nat &&
      forallb (fun t => match t_pred t with Some (Comparison _ (Field _) _) => true | _ => false end) (w_all (r_when r))
  | None => false
  end.

Definition tests : list (string * bool) :=
  [("rule_check_passes_valid_doc", rule_check_passes_valid_doc);
   ("rule_check_fails_invalid_doc", rule_check_fails_invalid_doc); ("rule_check_json_output", rule_check_json_output);
   ("rule_compile_fails_invalid_doc", rule_compile_fails_invalid_doc);
   ("rule_check_accepts_json_input", rule_check_accepts_json_input);
   ("rule_check_rejects_missing_file", rule_check_rejects_missing_file);
   ("rule_compile_rejects_missing_file", rule_compile_rejects_missing_file);
   ("rule_check_accepts_empty_file", rule_check_accepts_empty_file);
   ("rule_check_rejects_bad_toml", rule_check_rejects_bad_toml);
   ("rule_check_rejects_ruleset_envelope", rule_check_rejects_ruleset_envelope);
   ("rule_check_json_output_on_failure", rule_check_json_output_on_failure);
   ("rule_check_rejects_typoed_when_key", rule_check_rejects_typoed_when_key);
   ("rule_check_rejects_empty_when", rule_check_rejects_empty_when);
   ("rule_compile_outputs_json", rule_compile_outputs_json);
   ("rule_compile_accepts_json_input", rule_compile_accepts_json_input);
   ("rule_compile_with_custom_robot_id", rule_compile_with_custom_robot_id);
   ("demo_rules_parse_with_field_operands", demo_rules_parse_with_field_operands)].
Example rule_check_tests_pass : passing tests = true.
Proof. vm_compute. reflexivity. Qed.
End RuleCheckTests.

(** ** [tests/registry_test.rs] *)
Module RegistryTests.
#[local] Existing Instance model_number.
Definition sample_rs (name owner : string) (ver : N) : Ruleset :=
  mkRuleset name ver owner
    [mkRule "r" When_default [mkAction "robot/7/local/drive" Reliable (Object [("speed_mps", float 3 1)])]].
(** A writer that shows what the samples differ in; the digest is the text. *)
Definition writer (rs : Ruleset) : string + string :=
  inr (ruleset_name rs +:+ "/" +:+ pretty (version rs) +:+ "/" +:+ robot_owner rs).
(** The outcome of the last of a list of publications on a new registry. *)
Definition last_outcome (l : list Ruleset) (f : RegisterOutcome -> bool) : bool :=
  match (foldl (fun st rs => publish writer RegEx.sha all_ok "0" st.1 rs (robot_owner rs))
           (registry_empty, Ok RejectedConflict) l).2 with
  | Ok o => f o
  | _ => false
  end.
Definition updated_to (v : Z) (o : RegisterOutcome) : bool :=
  match o with Updated v' _ => (v' =? v)%Z | _ => false end.
Definition new_name_inserts : bool :=
  last_outcome [sample_rs "acme" "robot/7" 1] (fun o => match o with Inserted => true | _ => false end).
Definition same_owner_updates : bool :=
  last_outcome [sample_rs "acme" "robot/7" 1; sample_rs "acme" "robot/7" 2] (updated_to 2).
Definition different_owner_rejects_with_conflict : bool :=
  last_outcome [sample_rs "acme" "robot/7" 1; sample_rs "acme" "robot/9" 1]
    (fun o => match o with RejectedConflict => true | _ => false end).
Definition sha_changes_bump_version_only_on_diff : bool :=
  last_outcome [sample_rs "acme" "robot/7" 1; sample_rs "acme" "robot/7" 1] (updated_to 1).

Definition tests : list (string * bool) :=
  [("new_name_inserts", new_name_inserts); ("same_owner_updates", same_owner_updates);
   ("different_owner_rejects_with_conflict", different_owner_rejects_with_conflict);
   ("sha_changes_bump_version_only_on_diff", sha_changes_bump_version_only_on_diff)].
Example registry_tests_pass : passing tests = true.
Proof. vm_compute. reflexivity. Qed.
End RegistryTests.

(** ** [tests/rule_integration.rs] and [tests/core_loop.rs]: the engine's loop

    A store with the rules, the loop subscribed, one sample published, then
    ticks: what is published on the topic the test listens to. *)
Module LoopTests.
#[local] Existing Instance model_number.
Import CompileTests.
(** [Some] is a sample on the mesh, which reaches the loop if it subscribed to
    its topic or to its zone event; [None] is a tick, 50 ms later. *)
Definition zone_event (topic : string) : bool :=
  existsb (fun p => key_matches p topic) [ZONE_ENTERED_PATTERN; ZONE_CLEARED_PATTERN].
Definition engine (rs : Rules) (events : list (option (string * V))) : list (Topic * Action) :=
  match loop_start empty_state (active_new (W := ConfigEx.arc_watch) (mkArc 0 rs)) (fun _ => inr tt) [] with
  | Some l =>
      fired (foldl (fun (nl : N * LoopState) e =>
        let '(now, l) := nl in
        match e with
        | Some (topic, v) =>
            (now, if bool_decide (topic ∈ subscribers l) || zone_event topic then on_sample now (deliver l topic v) else l)
        | None => ((now + 50)%N, on_tick (now + 50) l)
        end) (0%N, l) events).2
  | None => []
  end.
Definition heard (topic : string) (out : list (Topic * Action)) : list V :=
  omap (fun ta : Topic * Action => if (topic_str ta.1 =? topic)%string then Some (a_payload ta.2) else None) out.
Definition speed_is (n : Z) (v : V) : bool :=
  match value_get v "speed_mps" with
  | Some (Number x) => match as_f64 x with Some f => same f (metres n) | None => false end
  | _ => false
  end.
Definition SEMANTIC_HRC : V :=
  manifest [("site", Object (strs [("id", "cell-7")])); ("zones", Object [("safety", rect 0 0 20 20)])]
    [rule "slow-on-proximity" [near_h 15] [("slow_to", metre 2); ("qos", Str "best_effort")]].
(** The robot with identifier [id] slows down for a human at half a metre. *)
Definition slows_down (id : string) : bool :=
  match d ← parsed SEMANTIC_HRC; _ ← validate fmt fmtv d; compile fmt fmtv d id with
  | Ok rs =>
      match heard ("robot/" +:+ id +:+ "/local/drive")
              (engine rs [None; Some ("robot/" +:+ id +:+ "/local/human_present", Object [("separation_distance", metre 5)]);
                          None; None; None]) with
      | p :: _ => speed_is 2 p
      | [] => false
      end
  | _ => false
  end.
Definition semantic_compile_to_engine_e2e : bool := slows_down "7".
Definition compile_with_custom_robot_id_routes_topics : bool := slows_down "42".

Definition on_data (sensor actuator : string) : Rules :=
  mkRules [mkRule "trigger-on-data" (mkWhen [mkTrigger sensor None Level] [])
             [mkAction actuator Reliable (Object [("triggered", Bool true)])]].
Definition sensor_sample_triggers_action : bool :=
  match heard "actuator/bar" (engine (on_data "sensor/foo" "actuator/bar") [None; Some ("sensor/foo", Object [("value", int 42)]); None; None]) with
  | p :: _ => match value_get p "triggered" with Some (Bool b) => b | _ => false end
  | [] => false
  end.
Definition no_data_no_action : bool :=
  match heard "actuator/silent" (engine (on_data "sensor/never" "actuator/silent") (repeat None 5)) with [] => true | _ => false end.

Definition collision : Rules :=
  mkRules [mkRule "zone-collision"
    (mkWhen [mkTrigger "sensor/probe" (Some (Comparison SameZoneAs (OStr "robot-a") (OStr "robot-b"))) EvalMode_default] [])
    [mkAction "actuator/warn" Reliable (Object [("colliding", Bool true)])]].
Definition zone_path_uses_managed_subscription_lifecycle : bool :=
  let entered r := Some ("zone/cell-3/entered", Object [("robot_id", Str r)]) in
  let probe := Some ("sensor/probe", Object [("value", int 1)]) in
  let one := [None; entered "robot-a"; probe; None; None] in
  all [(length (heard "actuator/warn" (engine collision one)) =? 0)%nat;
       match heard "actuator/warn" (engine collision (one ++ [entered "robot-b"; probe; None])%list) with
       | p :: _ => match value_get p "colliding" with Some (Bool b) => b | _ => false end
       | [] => false
       end].

Definition tests : list (string * bool) :=
  [("zone_path_uses_managed_subscription_lifecycle", zone_path_uses_managed_subscription_lifecycle);
   ("semantic_compile_to_engine_e2e", semantic_compile_to_engine_e2e);
   ("compile_with_custom_robot_id_routes_topics", compile_with_custom_robot_id_routes_topics);
   ("sensor_sample_triggers_action", sensor_sample_triggers_action); ("no_data_no_action", no_data_no_action)].
Example loop_tests_pass : passing tests = true.
Proof. vm_compute. reflexivity. Qed.
End LoopTests.

(** ** Tests of [mesh.rs], [video.rs], [transport.rs] and [health.rs] *)
Module CallTests.
#[local] Existing Instance model_number.
(** *** A call between the robots of [mesh.rs]'s test

    The tasks run in turn: the first act of the list that can be taken, until
    nothing is left. *)
Definition offerer : string := "robot7".
Definition answerer : string := "peer8".
Definition acts : list CallAct :=
  [Route 0; DispatchB 0; TaskOfB (LRun 0 true); TaskOfB (LPeer 0 0); DispatchCaller 0; TaskOfCaller 0; DispatchA 0].
Definition turn (s : CallSys) : option CallSys :=
  foldl (fun r act => match r with
                      | Some _ => r
                      | None => call_step "video/H264" VideoEx.put_ok false offerer answerer s act
                      end) None acts.
Fixpoint turns (n : nat) (s : CallSys) : CallSys :=
  match n with 0 => s | S n => match turn s with Some s' => turns n s' | None => s end end.
Definition ended : CallSys :=
  turns 15 (call_subscribed offerer answerer (VideoEx.caller offerer answerer) NEXT_SSRC NEXT_SSRC).
(** What the answerer's connection for the offerer published. *)
Definition answers : list Put :=
  match peers (ls_mesh (cs_b ended)) !! offerer with
  | Some p => match ls_conns (cs_b ended) !! s_peer p with Some v => vp_sent v | None => [] end
  | None => []
  end.
Definition mesh_handler_answers_inbound_offer : bool :=
  match answers with
  | [p] =>
      TopicTests.built (signal_answer_key answerer offerer) (put_key p) &&
      match parse_signal (put_bytes p) with
      | Some m => match sig_kind m with Answer => true | Offer => false end && (sig_from m =? answerer)%string &&
                  (sig_to m =? offerer)%string
      | None => false
      end
  | _ => false
  end.

(** *** [video.rs] *)
Definition h264_track_has_correct_codec : bool :=
  let '(t, _) := h264_track "video/H264" NEXT_SSRC "cam0" "stream0" in
  (CodecSel.mime_type (track_codec t) =? "video/H264")%string &&
  (uint_val (CodecSel.clock_rate (track_codec t)) =? 90000)%N.
(** On a host where GStreamer works. *)
Definition gst : Gst := mkGst (inr tt) false (fun _ => inr true) (Some true) (inr tt).
Definition answerer_can_start_capture : bool :=
  match (answer "video/H264" NEXT_SSRC "robot7").1 with
  | Ok peer =>
      (track_id (vp_track peer) =? "robot7-cam0")%string &&
      is_ok (start_capture "video/H264" true gst (inr []) peer Videotest (uint_wrap 32 1280) (uint_wrap 32 720) (uint_wrap 32 30))
  | _ => false
  end.

(** *** [transport.rs]: what is published is what the subscriber reads *)
Definition assert_round_trip (t : res unit Topic) (q : Qos) (payload : V) : bool :=
  match t with
  | Ok topic =>
      match publish_put (fun v => inr (print_json (JsonText := TextEx.bits_text) v)) topic (EnvAction q payload) with
      | Ok p =>
          key_matches (topic_str topic) (put_key p) &&
          match parse_json (JsonText := TextEx.bits_text) (put_bytes p) with
          | inr v => value_eqb v payload
          | inl _ => false
          end
      | _ => false
      end
  | _ => false
  end.
Definition loopback_transport_round_trips_best_effort : bool :=
  assert_round_trip (robot_local "7" "probe") BestEffort (Object [("probe", int 42)]).
Definition loopback_transport_round_trips_reliable : bool :=
  assert_round_trip (robot_local "7" "stop") Reliable (Object [("stop", Bool true)]).

(** *** [health.rs]: the probe against the router *)
Definition served (_ : string * N) : option (list string) :=
  let '(code, body) := router "0.000" gate_new "/healthz" in
  Some ["HTTP/1.1 " +:+ pretty code +:+ " OK" +:+ newline; body].
Definition probe_hits_healthz_and_returns_ok : bool := probe served "0.0.0.0:8080".

Definition tests : list (string * bool) :=
  [("mesh_handler_answers_inbound_offer", mesh_handler_answers_inbound_offer);
   ("h264_track_has_correct_codec", h264_track_has_correct_codec);
   ("answerer_can_start_capture", answerer_can_start_capture);
   ("loopback_transport_round_trips_best_effort", loopback_transport_round_trips_best_effort);
   ("loopback_transport_round_trips_reliable", loopback_transport_round_trips_reliable);
   ("probe_hits_healthz_and_returns_ok", probe_hits_healthz_and_returns_ok)].
Example call_tests_pass : passing tests = true.
Proof. vm_compute. reflexivity. Qed.
End CallTests.
